(** * ChromaticBlur: a shallow embedding of [dist/chromatic-blur.js]

    The plugin is a single class whose methods mutate the DOM, the
    instance object and the static [ChromaticBlur.instances] set.  The
    embedding keeps all three in one explicit store ([World]) and writes
    every method as a computation over it, in the order of the source.

    - DOM nodes live in a heap indexed by node identities, so that the
      references an instance keeps ([this.filter], [this.defs], ...) alias
      the nodes in the document exactly as they do in JavaScript.
    - What the browser decides (selector matching, the computed position,
      the user agent string, the backdrop-filter probe, number printing)
      is collected in a [Host] record.
    - A JavaScript exception is an abrupt completion that carries the
      store reached when it was thrown. *)

From Stdlib Require Import QArith Ascii String.
From stdpp Require Import gmap strings list fin_maps pretty.

Local Open Scope string_scope.

(** ** JavaScript values held in an options object

    The documented options are numbers, a string and two booleans.  A
    caller can also give a property the value [undefined] or [null],
    which object spread copies like any other value. *)

Inductive value :=
| VNum (q : Q)
| VStr (s : string)
| VBool (b : bool)
| VUndefined
| VNull.

(** An options object: own enumerable properties by name. *)
Abbreviation Options := (gmap string value).

(** [ChromaticBlur.defaults] *)
Definition defaults : Options :=
  <["redOffset" := VNum 5]>
  (<["blueOffset" := VNum (-5)]>
  (<["blurAmount" := VNum 3]>
  (<["turbulenceFrequency" := VNum 0.001]>
  (<["displacementScale" := VNum 50]>
  (<["borderColor" := VStr "rgba(156, 156, 156, 0.2)"]>
  (<["addOverlay" := VBool true]>
  (<["addNoise" := VBool true]> ∅))))))).

(** The eight documented option names. *)
Definition optionNames : list string :=
  ["redOffset"; "blueOffset"; "blurAmount"; "turbulenceFrequency";
   "displacementScale"; "borderColor"; "addOverlay"; "addNoise"].

(** Object spread [{ ...a, ...b }]: properties of [b] win. *)
Definition spread (a b : Options) : Options := b ∪ a.

(** The merge as the specification words it: each field is the supplied
    one when present and the default one otherwise. *)
Definition mergeFieldwise (base partial : Options) (k : string) : option value :=
  match partial !! k with
  | Some v => Some v
  | None => base !! k
  end.

(** Truthiness of a property read (a missing property reads as
    [undefined]). *)
Definition truthy (v : option value) : bool :=
  match v with
  | None => false
  | Some (VBool b) => b
  | Some (VNum q) => negb (Qeq_bool q 0)
  | Some (VStr s) => negb (String.eqb s "")
  | Some VUndefined => false
  | Some VNull => false
  end.

(** ** DOM nodes *)

(** Identities of DOM nodes and of [ChromaticBlur] objects. *)
Abbreviation nid := positive.
Abbreviation iid := positive.

(** A child element produced by parsing an [innerHTML] assignment. *)
Record Prim := mkPrim {
  primTag : string;
  primAttrs : list (string * string)
}.

Record Node := mkNode {
  tagName : string;
  elemId : string;
  className : string;
  style : gmap string string;
  attributes : gmap string string;
  childNodes : list nid;
  innerHTML : list Prim
}.

(** A freshly created element. *)
Definition blank (tag : string) : Node :=
  mkNode tag "" "" ∅ ∅ [] [].

(** ** Instances and the store *)

(** [this.originalStyles] *)
Record OriginalStyles := mkOriginalStyles {
  backdropFilter : string;
  WebkitBackdropFilter : string;
  position : string;
  overflow : string
}.

(** The fields of a [ChromaticBlur] object; a field not yet assigned is
    [None]. *)
Record Instance := mkInstance {
  this_element : nid;
  this_options : Options;
  this_id : string;
  this_originalStyles : OriginalStyles;
  this_svgContainer : option nid;
  this_defs : option nid;
  this_filter : option nid;
  this_overlayContainer : option nid;
  this_firefoxBg : option nid
}.

(** What [console.log] received. *)
Inductive LogEntry :=
| UsingFallbackMode (isFirefox backdropFilterSupported : bool).

Record World := mkWorld {
  heap : gmap nid Node;          (* every DOM node ever created *)
  nextNode : nid;                (* identity of the next node *)
  objs : gmap iid Instance;      (* every ChromaticBlur object *)
  nextInst : iid;                (* identity of the next object *)
  instances : list iid;          (* ChromaticBlur.instances, in insertion order *)
  console : list LogEntry
}.

(** [document.body] *)
Definition body : nid := 1%positive.

(** The browser side of the program. *)
Record Host := mkHost {
  querySelector : World -> string -> option nid;   (* document.querySelector *)
  getComputedPosition : World -> nid -> string;    (* getComputedStyle(el).position *)
  userAgent : string;                              (* navigator.userAgent *)
  backdropFilterProbe : bool;   (* does a div keep backdropFilter = 'blur(1px)' *)
  numberToString : Q -> string                     (* Number.prototype.toString *)
}.

(** Template interpolation [${v}] of a property read. *)
Definition toStr (h : Host) (v : option value) : string :=
  match v with
  | None => "undefined"
  | Some (VNum q) => numberToString h q
  | Some (VStr s) => s
  | Some (VBool true) => "true"
  | Some (VBool false) => "false"
  | Some VUndefined => "undefined"
  | Some VNull => "null"
  end.

(** ** Store updates *)

Definition withHeap (f : gmap nid Node -> gmap nid Node) (w : World) : World :=
  mkWorld (f (heap w)) (nextNode w) (objs w) (nextInst w) (instances w) (console w).

Definition withObjs (f : gmap iid Instance -> gmap iid Instance) (w : World) : World :=
  mkWorld (heap w) (nextNode w) (f (objs w)) (nextInst w) (instances w) (console w).

Definition withInstances (f : list iid -> list iid) (w : World) : World :=
  mkWorld (heap w) (nextNode w) (objs w) (nextInst w) (f (instances w)) (console w).

Definition consoleLog (e : LogEntry) (w : World) : World :=
  mkWorld (heap w) (nextNode w) (objs w) (nextInst w) (instances w) (console w ++ [e])%list.

(** The node an identity denotes. *)
Definition node (w : World) (n : nid) : Node :=
  default (blank "") (heap w !! n).

Definition modNode (n : nid) (f : Node -> Node) (w : World) : World :=
  withHeap (fun hp => <[n := f (default (blank "") (hp !! n))]> hp) w.

Definition withStyle (f : gmap string string -> gmap string string) (nd : Node) : Node :=
  mkNode (tagName nd) (elemId nd) (className nd) (f (style nd)) (attributes nd)
         (childNodes nd) (innerHTML nd).

Definition withChildren (f : list nid -> list nid) (nd : Node) : Node :=
  mkNode (tagName nd) (elemId nd) (className nd) (style nd) (attributes nd)
         (f (childNodes nd)) (innerHTML nd).

Definition withElemId (i : string) (nd : Node) : Node :=
  mkNode (tagName nd) i (className nd) (style nd) (attributes nd)
         (childNodes nd) (innerHTML nd).

Definition withClassName (c : string) (nd : Node) : Node :=
  mkNode (tagName nd) (elemId nd) c (style nd) (attributes nd)
         (childNodes nd) (innerHTML nd).

Definition withAttribute (k v : string) (nd : Node) : Node :=
  mkNode (tagName nd) (elemId nd) (className nd) (style nd) (<[k := v]> (attributes nd))
         (childNodes nd) (innerHTML nd).

Definition withInnerHTML (ps : list Prim) (nd : Node) : Node :=
  mkNode (tagName nd) (elemId nd) (className nd) (style nd) (attributes nd)
         (childNodes nd) ps.

(** ** The DOM operations the plugin calls *)

(** [document.createElement] / [createElementNS]: the new node is
    detached and gets the next identity. *)
Definition createElement (tag : string) (w : World) : nid * World :=
  (nextNode w,
   mkWorld (<[nextNode w := blank tag]> (heap w)) (Pos.succ (nextNode w))
           (objs w) (nextInst w) (instances w) (console w)).

(** Reading [el.style.p]: an undeclared property reads as the empty string. *)
Definition getStyle (w : World) (n : nid) (p : string) : string :=
  default "" (style (node w n) !! p).

(** Writing [el.style.p = v]: the empty string removes the declaration. *)
Definition assignStyle (p v : string) (s : gmap string string) : gmap string string :=
  if decide (v = "") then delete p s else <[p := v]> s.

Definition setStyle (n : nid) (p v : string) (w : World) : World :=
  modNode n (withStyle (assignStyle p v)) w.

(** [el.style.cssText = ...] replaces every inline declaration.  The
    declarations are keyed by the camel-case names under which
    [el.style] exposes them. *)
Definition setCssText (n : nid) (decls : list (string * string)) (w : World) : World :=
  modNode n (withStyle (fun _ => list_to_map decls)) w.

Definition setElemId (n : nid) (i : string) (w : World) : World :=
  modNode n (withElemId i) w.

Definition setClassName (n : nid) (c : string) (w : World) : World :=
  modNode n (withClassName c) w.

Definition setAttribute (n : nid) (k v : string) (w : World) : World :=
  modNode n (withAttribute k v) w.

Definition setInnerHTML (n : nid) (ps : list Prim) (w : World) : World :=
  modNode n (withInnerHTML ps) w.

Definition without (x : nid) (l : list nid) : list nid :=
  List.filter (fun y => negb (Pos.eqb y x)) l.

(** [x.remove()]: [x] leaves the child list that holds it; a node without
    a parent is left as it is. *)
Definition removeNode (x : nid) (w : World) : World :=
  withHeap (fmap (withChildren (without x))) w.

(** [p.appendChild(c)] *)
Definition appendChild (p c : nid) (w : World) : World :=
  modNode p (withChildren (fun l => (l ++ [c])%list)) (removeNode c w).

(** [p.insertBefore(c, p.firstChild)] *)
Definition insertFirst (p c : nid) (w : World) : World :=
  modNode p (withChildren (fun l => c :: l)) (removeNode c w).

(** The elements of the tree under [n] in document order, [n] first,
    down to [depth] levels. *)
Fixpoint subtree (depth : nat) (w : World) (n : nid) : list nid :=
  match depth with
  | O => []
  | S k => n :: flat_map (subtree k w) (childNodes (node w n))
  end.

(** A tree of created nodes has fewer levels than nodes were created. *)
Definition levels (w : World) : nat := Pos.to_nat (nextNode w).

(** [document.getElementById]: the first element of the document, in
    document order, that has the id.  The document is the tree under
    [body], [body] included. *)
Definition getElementById (w : World) (i : string) : option nid :=
  List.find (fun n => String.eqb (elemId (node w n)) i) (subtree (levels w) w body).

(** [c.querySelector(tag)] for a tag name: the first descendant of [c],
    in document order, that has the tag. *)
Definition querySelectorTag (w : World) (c : nid) (tag : string) : option nid :=
  List.find (fun n => String.eqb (tagName (node w n)) tag)
            (flat_map (subtree (levels w) w) (childNodes (node w c))).

(** ** [String.prototype.toLowerCase] and [indexOf] on ASCII text *)

Definition lowerAscii (c : ascii) : ascii :=
  let n := nat_of_ascii c in
  if andb (Nat.leb 65 n) (Nat.leb n 90) then ascii_of_nat (n + 32) else c.

Fixpoint toLowerCase (s : string) : string :=
  match s with
  | EmptyString => EmptyString
  | String c r => String (lowerAscii c) (toLowerCase r)
  end.

Definition indexOf (hay needle : string) : Z :=
  match String.index 0 needle hay with
  | Some k => Z.of_nat k
  | None => (-1)%Z
  end.

(** ** Computations: a store and an abrupt completion *)

Inductive JsError :=
| InvalidElement   (* Error('ChromaticBlur: Invalid element provided') *)
| TypeError.       (* a property access on null or undefined *)

Inductive Completion (A : Type) :=
| Return (a : A)
| Throw (e : JsError).
Arguments Return {A} a.
Arguments Throw {A} e.

Definition Js (A : Type) : Type := World -> Completion A * World.

Definition ret {A} (a : A) : Js A := fun w => (Return a, w).

Definition throw {A} (e : JsError) : Js A := fun w => (Throw e, w).

Definition bind {A B} (m : Js A) (k : A -> Js B) : Js B :=
  fun w =>
    match m w with
    | (Return a, w') => k a w'
    | (Throw e, w') => (Throw e, w')
    end.

(** A store update that cannot fail. *)
Definition act (f : World -> World) : Js unit := fun w => (Return tt, f w).

(** A read of the store. *)
Definition gets {A} (f : World -> A) : Js A := fun w => (Return (f w), w).

(** Allocation of a DOM node. *)
Definition create (tag : string) : Js nid :=
  fun w => (Return (fst (createElement tag w)), snd (createElement tag w)).

Declare Scope js_scope.
Delimit Scope js_scope with js.
Bind Scope js_scope with Js.

Notation "x ← y ; z" := (bind y (fun x => z))
  (at level 20, y at level 100, z at level 200, only parsing) : js_scope.
Notation "x ;; z" := (bind x (fun _ => z))
  (at level 100, z at level 200, only parsing, right associativity) : js_scope.

Definition when (b : bool) (m : Js unit) : Js unit :=
  if b then m else ret tt.

(** [xs.forEach(f)] *)
Fixpoint forEach {A} (f : A -> Js unit) (xs : list A) : Js unit :=
  match xs with
  | [] => ret tt
  | x :: r => (f x ;; forEach f r)%js
  end.

(** The receiver of a method call. *)
Definition getThis (this : iid) : Js Instance :=
  fun w =>
    match objs w !! this with
    | Some o => (Return o, w)
    | None => (Throw TypeError, w)
    end.

Definition setThis (this : iid) (f : Instance -> Instance) : Js unit :=
  act (withObjs (alter f this)).

Definition with_options (v : Options) (o : Instance) : Instance :=
  mkInstance (this_element o) v (this_id o) (this_originalStyles o)
             (this_svgContainer o) (this_defs o) (this_filter o)
             (this_overlayContainer o) (this_firefoxBg o).

Definition with_container (c d : option nid) (o : Instance) : Instance :=
  mkInstance (this_element o) (this_options o) (this_id o) (this_originalStyles o)
             c d (this_filter o) (this_overlayContainer o) (this_firefoxBg o).

Definition with_filter (f : option nid) (o : Instance) : Instance :=
  mkInstance (this_element o) (this_options o) (this_id o) (this_originalStyles o)
             (this_svgContainer o) (this_defs o) f
             (this_overlayContainer o) (this_firefoxBg o).

Definition with_overlayContainer (x : option nid) (o : Instance) : Instance :=
  mkInstance (this_element o) (this_options o) (this_id o) (this_originalStyles o)
             (this_svgContainer o) (this_defs o) (this_filter o)
             x (this_firefoxBg o).

Definition with_firefoxBg (x : option nid) (o : Instance) : Instance :=
  mkInstance (this_element o) (this_options o) (this_id o) (this_originalStyles o)
             (this_svgContainer o) (this_defs o) (this_filter o)
             (this_overlayContainer o) x.

(** [Set.prototype.add] and [delete] on the insertion-ordered set. *)
Definition setAdd (i : iid) (l : list iid) : list iid :=
  if existsb (Pos.eqb i) l then l else (l ++ [i])%list.

Definition setDelete (i : iid) (l : list iid) : list iid :=
  List.filter (fun j => negb (Pos.eqb j i)) l.

(** ** The class *)

(** The id of the shared [<svg>] that holds every filter. *)
Definition registryId : string := "chromatic-blur-filters".

(** What the first argument of the constructor can be. *)
Inductive Target :=
| Selector (s : string)
| ElementRef (e : nid)
| Null
| Undefined.

(** [typeof element === 'string' ? document.querySelector(element) : element] *)
Definition resolve (h : Host) (element : Target) (w : World) : option nid :=
  match element with
  | Selector s => querySelector h w s
  | ElementRef e => Some e
  | Null => None
  | Undefined => None
  end.

(** The declarations of the [cssText] assignments, keyed by the
    camel-case names under which [el.style] exposes them. *)
Definition containerCss : list (string * string) :=
  [("position", "absolute"); ("width", "0"); ("height", "0"); ("pointerEvents", "none")].

Definition firefoxBgCss : list (string * string) :=
  [("position", "absolute"); ("top", "-10px"); ("left", "-10px");
   ("right", "-10px"); ("bottom", "-10px");
   ("background", "rgba(255, 255, 255, 0.3)"); ("filter", "blur(10px)");
   ("pointerEvents", "none"); ("zIndex", "0"); ("borderRadius", "inherit")].

Definition overlayCss : list (string * string) :=
  [("position", "absolute"); ("top", "0"); ("left", "0");
   ("width", "100%"); ("height", "100%");
   ("pointerEvents", "none"); ("borderRadius", "inherit")].

Definition noiseCss : list (string * string) :=
  [("position", "absolute"); ("top", "0"); ("left", "0");
   ("width", "100%"); ("height", "100%");
   ("mixBlendMode", "overlay");
   ("backgroundColor", "rgba(255, 255, 255, 0)");
   ("opacity", "0.05"); ("borderRadius", "inherit")].

Definition gradientCss : list (string * string) :=
  [("position", "absolute"); ("top", "0"); ("left", "0");
   ("width", "100%"); ("height", "100%");
   ("backgroundImage",
    "linear-gradient(225deg, rgba(255, 255, 255, 0.1) 0%, transparent 50%)");
   ("mixBlendMode", "screen"); ("pointerEvents", "none");
   ("borderRadius", "inherit")].

(** [_ensureSVGContainer] *)
Definition _ensureSVGContainer (this : iid) : Js unit :=
  (found ← gets (fun w => getElementById w registryId);
   container ← match found with
               | Some c => ret c
               | None =>
                   c ← create "svg";
                   act (setElemId c registryId) ;;
                   act (setCssText c containerCss) ;;
                   act (setAttribute c "aria-hidden" "true") ;;
                   d ← create "defs";
                   act (appendChild c d) ;;
                   act (insertFirst body c) ;;
                   ret c
               end;
   d ← gets (fun w => querySelectorTag w container "defs");
   setThis this (with_container (Some container) d))%js.

Definition nl : string := String (ascii_of_nat 10) "".

(** The line break and indentation between two rows of a colour matrix. *)
Definition rowBreak : string := nl +:+ "                ".

Definition matrix (r1 r2 r3 r4 : string) : string :=
  r1 +:+ rowBreak +:+ r2 +:+ rowBreak +:+ r3 +:+ rowBreak +:+ r4.

(** The elements that the template assigned to [filter.innerHTML] parses
    to, with their attributes in source order.  The interpolated option
    values are taken to be free of markup, as the printed form of a
    number is. *)
Definition filterMarkup (h : Host) (o : Options) : list Prim :=
  [ mkPrim "feTurbulence"
      [("baseFrequency", toStr h (o !! "turbulenceFrequency"));
       ("numOctaves", "1"); ("type", "turbulence"); ("result", "turbulence")];
    mkPrim "feOffset"
      [("in", "SourceGraphic"); ("dx", toStr h (o !! "redOffset"));
       ("dy", "0"); ("result", "redOffset")];
    mkPrim "feColorMatrix"
      [("in", "redOffset"); ("type", "matrix");
       ("values", matrix "1 0 0 0 0" "0 0 0 0 0" "0 0 0 0 0" "0 0 0 1 0");
       ("result", "red")];
    mkPrim "feColorMatrix"
      [("in", "SourceGraphic"); ("type", "matrix");
       ("values", matrix "0 0 0 0 0" "0 1 0 0 0" "0 0 0 0 0" "0 0 0 1 0");
       ("result", "green")];
    mkPrim "feOffset"
      [("in", "SourceGraphic"); ("dx", toStr h (o !! "blueOffset"));
       ("dy", "0"); ("result", "blueOffset")];
    mkPrim "feColorMatrix"
      [("in", "blueOffset"); ("type", "matrix");
       ("values", matrix "0 0 0 0 0" "0 0 0 0 0" "0 0 1 0 0" "0 0 0 1 0");
       ("result", "blue")];
    mkPrim "feComposite"
      [("in", "red"); ("in2", "green"); ("operator", "arithmetic");
       ("k2", "1"); ("k3", "1"); ("result", "redGreen")];
    mkPrim "feComposite"
      [("in", "redGreen"); ("in2", "blue"); ("operator", "arithmetic");
       ("k2", "1"); ("k3", "1"); ("result", "colorSplit")];
    mkPrim "feDisplacementMap"
      [("in", "colorSplit"); ("in2", "turbulence");
       ("scale", toStr h (o !! "displacementScale")); ("result", "displacement")];
    mkPrim "feGaussianBlur"
      [("in", "displacement"); ("stdDeviation", toStr h (o !! "blurAmount"));
       ("result", "blurred")] ].

(** [_createFilter] *)
Definition _createFilter (h : Host) (this : iid) : Js unit :=
  (o ← getThis this;
   filter ← create "filter";
   act (setElemId filter (this_id o)) ;;
   act (setAttribute filter "x" "-50%") ;;
   act (setAttribute filter "y" "-50%") ;;
   act (setAttribute filter "width" "200%") ;;
   act (setAttribute filter "height" "200%") ;;
   act (setInnerHTML filter (filterMarkup h (this_options o))) ;;
   match this_defs o with
   | Some d => act (appendChild d filter)
   | None => throw TypeError
   end ;;
   setThis this (with_filter (Some filter)))%js.

(** The box-shadow values the two styling paths assign. *)
Definition insetShadow (h : Host) (o : Options) : string :=
  "0 0 0 1px " +:+ toStr h (o !! "borderColor") +:+ " inset".

Definition fallbackShadow (h : Host) (o : Options) : string :=
  nl +:+ "        0 0 0 1px " +:+ toStr h (o !! "borderColor") +:+ " inset,"
     +:+ nl +:+ "        0 4px 12px rgba(0, 0, 0, 0.15)"
     +:+ nl +:+ "      ".

(** [navigator.userAgent.toLowerCase().indexOf('firefox') > -1] *)
Definition isFirefox (h : Host) : bool :=
  Z.ltb (-1) (indexOf (toLowerCase (userAgent h)) "firefox").

(** What the loop over the former children does to one child. *)
Definition liftChild (h : Host) (child : nid) : Js unit :=
  (pos ← gets (fun w => getComputedPosition h w child);
   when (String.eqb pos "static") (act (setStyle child "position" "relative")) ;;
   z ← gets (fun w => getStyle w child "zIndex");
   when (orb (String.eqb z "") (String.eqb z "auto")) (act (setStyle child "zIndex" "1")))%js.

(** [_addFirefoxFallback] *)
Definition _addFirefoxFallback (h : Host) (this : iid) : Js unit :=
  (o ← getThis this;
   testElement ← create "div";
   when (backdropFilterProbe h) (act (setStyle testElement "backdropFilter" "blur(1px)")) ;;
   probed ← gets (fun w => getStyle w testElement "backdropFilter");
   let backdropFilterSupported := negb (String.eqb probed "") in
   when (orb (isFirefox h) (negb backdropFilterSupported))
     (act (consoleLog (UsingFallbackMode (isFirefox h) backdropFilterSupported)) ;;
      act (setStyle (this_element o) "backgroundColor" "rgba(255, 255, 255, 0.85)") ;;
      act (setStyle (this_element o) "boxShadow" (fallbackShadow h (this_options o))) ;;
      firefoxBg ← create "div";
      act (setClassName firefoxBg "chromatic-blur-firefox-bg") ;;
      act (setCssText firefoxBg firefoxBgCss) ;;
      children ← gets (fun w => childNodes (node w (this_element o)));
      act (insertFirst (this_element o) firefoxBg) ;;
      forEach (liftChild h) children ;;
      setThis this (with_firefoxBg (Some firefoxBg))))%js.

(** [_applyStyles] *)
Definition _applyStyles (h : Host) (this : iid) : Js unit :=
  (o ← getThis this;
   let filterUrl := "url(#" +:+ this_id o +:+ ")" in
   currentPosition ← gets (fun w => getComputedPosition h w (this_element o));
   let needsPosition := String.eqb currentPosition "static" in
   act (setStyle (this_element o) "backdropFilter" filterUrl) ;;
   act (setStyle (this_element o) "WebkitBackdropFilter" filterUrl) ;;
   act (setStyle (this_element o) "overflow" "hidden") ;;
   act (setStyle (this_element o) "boxShadow" (insetShadow h (this_options o))) ;;
   when needsPosition (act (setStyle (this_element o) "position" "relative")) ;;
   _addFirefoxFallback h this)%js.

(** [_addOverlays] *)
Definition _addOverlays (this : iid) : Js unit :=
  (o ← getThis this;
   overlayContainer ← create "div";
   act (setClassName overlayContainer "chromatic-blur-overlays") ;;
   act (setCssText overlayContainer overlayCss) ;;
   when (truthy (this_options o !! "addNoise"))
     (noise ← create "div";
      act (setClassName noise "chromatic-blur-noise") ;;
      act (setCssText noise noiseCss) ;;
      act (appendChild overlayContainer noise)) ;;
   when (truthy (this_options o !! "addOverlay"))
     (gradient ← create "div";
      act (setClassName gradient "chromatic-blur-gradient") ;;
      act (setCssText gradient gradientCss) ;;
      act (appendChild overlayContainer gradient)) ;;
   act (insertFirst (this_element o) overlayContainer) ;;
   setThis this (with_overlayContainer (Some overlayContainer)))%js.

(** [_init] *)
Definition _init (h : Host) (this : iid) : Js unit :=
  (_ensureSVGContainer this ;;
   _createFilter h this ;;
   _applyStyles h this ;;
   o ← getThis this;
   when (orb (truthy (this_options o !! "addOverlay"))
             (truthy (this_options o !! "addNoise")))
     (_addOverlays this))%js.

(** The four inline properties the constructor snapshots. *)
Definition snapshot (w : World) (e : nid) : OriginalStyles :=
  mkOriginalStyles (getStyle w e "backdropFilter")
                   (getStyle w e "WebkitBackdropFilter")
                   (getStyle w e "position")
                   (getStyle w e "overflow").

(** [`chromatic-blur-${Date.now()}-${Math.random().toString(36).substr(2, 9)}`],
    for the clock value [now] and the base-36 rendering [rand36] of the
    random number drawn. *)
Definition generateId (h : Host) (now : Z) (rand36 : string) : string :=
  "chromatic-blur-" +:+ numberToString h (inject_Z now) +:+ "-" +:+ substring 2 9 rand36.

(** Allocation of the object under construction with the fields the
    constructor assigns before [_init]. *)
Definition newObject (e : nid) (opts : Options) (i : string) : Js iid :=
  fun w =>
    (Return (nextInst w),
     mkWorld (heap w) (nextNode w)
             (<[nextInst w := mkInstance e opts i (snapshot w e) None None None None None]>
                (objs w))
             (Pos.succ (nextInst w)) (instances w) (console w)).

(** [new ChromaticBlur(element, options)]; an omitted [options] is [None]. *)
Definition construct (h : Host) (element : Target) (options : option Options)
    (now : Z) (rand36 : string) : Js iid :=
  (resolved ← gets (resolve h element);
   match resolved with
   | None => throw InvalidElement
   | Some e =>
       this ← newObject e (spread defaults (default ∅ options)) (generateId h now rand36);
       _init h this ;;
       act (withInstances (setAdd this)) ;;
       ret this
   end)%js.

(** [update(newOptions)] *)
Definition update (h : Host) (this : iid) (newOptions : Options) : Js iid :=
  (o ← getThis this;
   setThis this (with_options (spread (this_options o) newOptions)) ;;
   match this_filter o with
   | Some f => act (removeNode f)
   | None => ret tt
   end ;;
   _createFilter h this ;;
   _applyStyles h this ;;
   ret this)%js.

(** [Object.assign(this.element.style, this.originalStyles)] *)
Definition restoreStyles (e : nid) (s : OriginalStyles) (w : World) : World :=
  setStyle e "overflow" (overflow s)
    (setStyle e "position" (position s)
       (setStyle e "WebkitBackdropFilter" (WebkitBackdropFilter s)
          (setStyle e "backdropFilter" (backdropFilter s) w))).

Definition removeIfSet (x : option nid) : Js unit :=
  match x with
  | Some n => act (removeNode n)
  | None => ret tt
  end.

(** [destroy()] *)
Definition destroy (this : iid) : Js unit :=
  (o ← getThis this;
   removeIfSet (this_filter o) ;;
   removeIfSet (this_overlayContainer o) ;;
   removeIfSet (this_firefoxBg o) ;;
   act (restoreStyles (this_element o) (this_originalStyles o)) ;;
   act (withInstances (setDelete this)) ;;
   size ← gets (fun w => length (instances w));
   when (Nat.eqb size 0)
     (container ← gets (fun w => getElementById w registryId);
      removeIfSet container))%js.

(** [enable()] *)
Definition enable (this : iid) : Js iid :=
  (o ← getThis this;
   act (setStyle (this_element o) "backdropFilter" ("url(#" +:+ this_id o +:+ ")")) ;;
   act (setStyle (this_element o) "WebkitBackdropFilter" ("url(#" +:+ this_id o +:+ ")")) ;;
   ret this)%js.

(** [disable()] *)
Definition disable (this : iid) : Js iid :=
  (o ← getThis this;
   act (setStyle (this_element o) "backdropFilter" "none") ;;
   act (setStyle (this_element o) "WebkitBackdropFilter" "none") ;;
   ret this)%js.

(** [ChromaticBlur.destroyAll()]: every member of the set at the time of
    the call is visited once. *)
Definition destroyAll : Js unit :=
  (members ← gets instances;
   forEach destroy members)%js.

(** ** Reachable stores *)

(** A call of the public interface. *)
Inductive Call :=
| CNew (element : Target) (options : option Options) (now : Z) (rand36 : string)
| CUpdate (this : iid) (newOptions : Options)
| CEnable (this : iid)
| CDisable (this : iid)
| CDestroy (this : iid)
| CDestroyAll.

Definition perform (h : Host) (c : Call) (w : World) : World :=
  match c with
  | CNew e o n r => snd (construct h e o n r w)
  | CUpdate i o => snd (update h i o w)
  | CEnable i => snd (enable i w)
  | CDisable i => snd (disable i w)
  | CDestroy i => snd (destroy i w)
  | CDestroyAll => snd (destroyAll w)
  end.

(** The page before the plugin ran: no instance, [body] at the root,
    child lists that mention created nodes only, and no element that
    carries the registry id. *)
Definition pristine (w : World) : Prop :=
  instances w = [] /\ objs w = ∅ /\ (body < nextNode w)%positive /\
  tagName (node w body) = "body" /\
  (forall n c, In c (childNodes (node w n)) ->
     (c < nextNode w)%positive /\ c <> body /\ elemId (node w c) <> registryId) /\
  elemId (node w body) <> registryId.

Inductive reachable (h : Host) : World -> Prop :=
| reachable_init w : pristine w -> reachable h w
| reachable_step w c : reachable h w -> reachable h (perform h c w).

(** ** Invariants *)

(** The children of [body] that carry the registry id. *)
Definition registryNodes (w : World) : list nid :=
  List.filter (fun n => String.eqb (elemId (node w n)) registryId)
              (childNodes (node w body)).

(** Every element of the document that has the id [i], in document
    order. *)
Definition elementsById (w : World) (i : string) : list nid :=
  List.filter (fun n => String.eqb (elemId (node w n)) i) (subtree (levels w) w body).

(** The first child of [c] with a tag. *)
Definition childByTag (w : World) (c : nid) (tag : string) : option nid :=
  List.find (fun n => String.eqb (tagName (node w n)) tag) (childNodes (node w c)).

(** [y] is below [n]: a child of [n], or below a child of [n]. *)
Inductive below (w : World) : nid -> nid -> Prop :=
| below_child n y : In y (childNodes (node w n)) -> below w n y
| below_step n x y : In x (childNodes (node w n)) -> below w x y -> below w n y.

(** No node below [x] is a definitions node. *)
Definition plain (w : World) (x : nid) : Prop :=
  forall y, below w x y -> tagName (node w y) <> "defs".

(** [x] is the current filter of some instance. *)
Definition ownedFilter (w : World) (x : nid) : Prop :=
  exists k ok, objs w !! k = Some ok /\ this_filter ok = Some x.

(** A definitions node of the plugin: every child that has an id is
    the current filter of an instance. *)
Definition goodDefs (w : World) (d : nid) : Prop :=
  (d < nextNode w)%positive /\ tagName (node w d) = "defs" /\
  forall x, In x (childNodes (node w d)) -> elemId (node w x) = "" \/ ownedFilter w x.

Definition isDiv (w : World) (x : nid) : Prop :=
  (x < nextNode w)%positive /\ tagName (node w x) = "div" /\ elemId (node w x) = "".

Record objOK (w : World) (o : Instance) : Prop := mkObjOK {
  ok_id : this_id o <> "" /\ this_id o <> registryId;
  ok_filter : forall f, this_filter o = Some f ->
      (f < nextNode w)%positive /\ tagName (node w f) = "filter" /\
      elemId (node w f) = this_id o;
  ok_overlay : forall x, this_overlayContainer o = Some x -> isDiv w x;
  ok_bg : forall x, this_firefoxBg o = Some x -> isDiv w x;
  ok_defs : forall d, this_defs o = Some d -> goodDefs w d
}.

(** The structure of every reachable store.  Child lists mention
    created nodes only and never [body]; the objects are well formed;
    an element with the registry id that has a parent is a child of
    [body], there is at most one such child, it is an [svg], its first
    definitions child is a definitions node of the plugin, and there is
    no definitions node deeper in it. *)
Record InvS (w : World) : Prop := mkInvS {
  inv_body : (body < nextNode w)%positive;
  inv_body_tag : tagName (node w body) = "body";
  inv_kids : forall n c, In c (childNodes (node w n)) -> (c < nextNode w)%positive;
  inv_fresh : forall i, is_Some (objs w !! i) -> (i < nextInst w)%positive;
  inv_objs : forall i o, objs w !! i = Some o -> objOK w o;
  inv_registry : forall c, In c (registryNodes w) ->
      tagName (node w c) = "svg" /\
      exists d, childByTag w c "defs" = Some d /\ goodDefs w d;
  inv_single : length (registryNodes w) <= 1;
  inv_root : forall n, ~ In body (childNodes (node w n));
  inv_body_id : elemId (node w body) <> registryId;
  inv_top : forall n x, In x (childNodes (node w n)) ->
      elemId (node w x) = registryId -> n = body;
  inv_plain : forall c k, In c (registryNodes w) ->
      In k (childNodes (node w c)) -> plain w k
}.

(** What holds of an instance that uses the registry in the document. *)
Definition attached (w : World) (i : iid) : Prop :=
  exists o c d, objs w !! i = Some o /\ this_svgContainer o = Some c /\
    this_defs o = Some d /\ registryNodes w = [c] /\
    childByTag w c "defs" = Some d.

Record InvL (w : World) : Prop := mkInvL {
  inv_empty : instances w = [] -> registryNodes w = [];
  inv_live : forall i, In i (instances w) -> attached w i;
  inv_built : forall i o, objs w !! i = Some o -> is_Some (this_defs o)
}.

(** ** Kinds of steps

    Every operation of the plugin changes the shape of the DOM (tags,
    ids, child lists) in one of four ways, or not at all. *)

Definition sameShape (w W : World) : Prop :=
  nextNode W = nextNode w /\ nextInst W = nextInst w /\ objs W = objs w /\
  forall n, tagName (node W n) = tagName (node w n) /\
            elemId (node W n) = elemId (node w n) /\
            childNodes (node W n) = childNodes (node w n).

(** One node was created; it has no children and nothing else changed. *)
Definition fresh1 (w W : World) : Prop :=
  nextNode W = Pos.succ (nextNode w) /\ (nextInst W = nextInst w /\ instances W = instances w) /\ objs W = objs w /\
  childNodes (node W (nextNode w)) = [] /\
  forall n, n <> nextNode w ->
            tagName (node W n) = tagName (node w n) /\
            elemId (node W n) = elemId (node w n) /\
            childNodes (node W n) = childNodes (node w n).

(** [x] left every child list. *)
Definition removed (x : nid) (w W : World) : Prop :=
  nextNode W = nextNode w /\ (nextInst W = nextInst w /\ instances W = instances w) /\ objs W = objs w /\
  forall n, tagName (node W n) = tagName (node w n) /\
            elemId (node W n) = elemId (node w n) /\
            childNodes (node W n) = without x (childNodes (node w n)).

(** [x] became the first or the last child of [p]. *)
Definition pushed (p x : nid) (w W : World) : Prop :=
  nextNode W = nextNode w /\ (nextInst W = nextInst w /\ instances W = instances w) /\ objs W = objs w /\
  (forall n, tagName (node W n) = tagName (node w n) /\
             elemId (node W n) = elemId (node w n)) /\
  (forall n, n <> p -> childNodes (node W n) = childNodes (node w n)) /\
  (childNodes (node W p) = x :: childNodes (node w p) \/
   childNodes (node W p) = (childNodes (node w p) ++ [x])%list).

(** Only the fields of object [i] changed, by [g]. *)
Definition altered (i : iid) (g : Instance -> Instance) (w W : World) : Prop :=
  nextNode W = nextNode w /\ (nextInst W = nextInst w /\ instances W = instances w) /\ objs W = alter g i (objs w) /\
  forall n, node W n = node w n.

(** A node that may be attached anywhere without disturbing the
    registry. *)
Definition attachable (w : World) (x : nid) : Prop :=
  (x < nextNode w)%positive /\ tagName (node w x) <> "defs" /\
  elemId (node w x) <> registryId /\
  (elemId (node w x) = "" \/ ownedFilter w x) /\
  tagName (node w x) <> "body" /\ plain w x.

(** The fields of an instance that only the constructor and [update]
    assign. *)
Definition sameCore (o o' : Instance) : Prop :=
  this_element o' = this_element o /\ this_options o' = this_options o /\
  this_id o' = this_id o /\ this_originalStyles o' = this_originalStyles o /\
  this_svgContainer o' = this_svgContainer o /\ this_defs o' = this_defs o.

(** A step that leaves the registry, its definitions node and the
    core fields of the instances in [S] as they are. *)
Definition keeps (S : iid -> Prop) (w W : World) : Prop :=
  (registryNodes W = registryNodes w /\ instances W = instances w) /\
  (forall c, In c (registryNodes w) ->
     childByTag W c "defs" = childByTag w c "defs") /\
  (forall j o, S j -> objs w !! j = Some o ->
     exists o', objs W !! j = Some o' /\ sameCore o o') /\
  forall j, objs w !! j = None -> objs W !! j = None.

(** What every kind of step guarantees: created nodes keep their tag
    and id, and no node identity is reused. *)
Definition grows (w W : World) : Prop :=
  (nextNode w <= nextNode W)%positive /\
  forall n, (n < nextNode w)%positive ->
            tagName (node W n) = tagName (node w n) /\
            elemId (node W n) = elemId (node w n).


(** A step along which the structural invariant holds again and the
    registry is left alone. *)
Definition safe (S : iid -> Prop) (w W : World) : Prop :=
  InvS W /\ keeps S w W /\ grows w W.

(** The children of [d] that carry the id [s]. *)
Definition idChildren (w : World) (s : string) (d : nid) : list nid :=
  List.filter (fun x => String.eqb (elemId (node w x)) s) (childNodes (node w d)).

(** A step that neither adds nor removes a child that has an id. *)
Definition quiet (w W : World) : Prop :=
  grows w W /\
  forall d s, (d < nextNode w)%positive -> s <> "" ->
              idChildren W s d = idChildren w s d.

(** The nodes below [b] keep their class and their parsed content, and,
    when [st] is set, their inline style as well. *)
Definition steady (st : bool) (b : nid) (w W : World) : Prop :=
  forall n, (n < b)%positive ->
    className (node W n) = className (node w n) /\
    innerHTML (node W n) = innerHTML (node w n) /\
    (st = true -> style (node W n) = style (node w n)).

(** A step after which a child of any node either was a child of that
    node before, with the class it had, or is not an overlay container. *)
Definition calm (w W : World) : Prop :=
  forall n x, In x (childNodes (node W n)) ->
    (In x (childNodes (node w n)) /\ className (node W x) = className (node w x)) \/
    className (node W x) <> "chromatic-blur-overlays".

(** ** The stores the methods leave

    Each private method is a straight line of DOM operations.  The
    functions below name the store such a line ends in; the lemmas
    [..._run] prove that the method, run from a store, returns normally
    with exactly that store. *)

(** The registry once [_ensureSVGContainer] has created it. *)
Definition registryCreatedW (w : World) : World :=
  let c := nextNode w in
  let d := Pos.succ (nextNode w) in
  insertFirst body c
    (appendChild c d
       (snd (createElement "defs"
          (setAttribute c "aria-hidden" "true"
             (setCssText c containerCss
                (setElemId c registryId (snd (createElement "svg" w)))))))).

Definition ensuredW (this : iid) (w : World) : World :=
  match getElementById w registryId with
  | Some c =>
      withObjs (alter (with_container (Some c) (querySelectorTag w c "defs")) this) w
  | None =>
      withObjs (alter (with_container (Some (nextNode w))
                         (querySelectorTag (registryCreatedW w) (nextNode w) "defs")) this)
               (registryCreatedW w)
  end.

(** The filter element, built and not yet appended. *)
Definition filterBuiltW (h : Host) (o : Instance) (w : World) : World :=
  let f := nextNode w in
  setInnerHTML f (filterMarkup h (this_options o))
    (setAttribute f "height" "200%"
       (setAttribute f "width" "200%"
          (setAttribute f "y" "-50%"
             (setAttribute f "x" "-50%"
                (setElemId f (this_id o) (snd (createElement "filter" w))))))).

Definition filterCreatedW (h : Host) (this : iid) (o : Instance) (d : nid) (w : World) : World :=
  withObjs (alter (with_filter (Some (nextNode w))) this)
           (appendChild d (nextNode w) (filterBuiltW h o w)).

Definition styledW (h : Host) (o : Instance) (needsPosition : bool) (w : World) : World :=
  let e := this_element o in
  let url := "url(#" +:+ this_id o +:+ ")" in
  let w4 := setStyle e "boxShadow" (insetShadow h (this_options o))
              (setStyle e "overflow" "hidden"
                 (setStyle e "WebkitBackdropFilter" url
                    (setStyle e "backdropFilter" url w))) in
  if needsPosition then setStyle e "position" "relative" w4 else w4.

(** The probe element of [_addFirefoxFallback]. *)
Definition probedW (h : Host) (w : World) : World :=
  if backdropFilterProbe h
  then setStyle (nextNode w) "backdropFilter" "blur(1px)" (snd (createElement "div" w))
  else snd (createElement "div" w).

(** The condition under which the fallback is installed. *)
Definition fallbackMode (h : Host) : bool :=
  orb (isFirefox h) (negb (backdropFilterProbe h)).

(** The fallback layer created and styled, before it is inserted. *)
Definition fallbackBuiltW (h : Host) (o : Instance) (w : World) : World :=
  let e := this_element o in
  let w1 := setStyle e "boxShadow" (fallbackShadow h (this_options o))
              (setStyle e "backgroundColor" "rgba(255, 255, 255, 0.85)"
                 (consoleLog (UsingFallbackMode (isFirefox h) (backdropFilterProbe h)) w)) in
  setCssText (nextNode w) firefoxBgCss
    (setClassName (nextNode w) "chromatic-blur-firefox-bg"
       (snd (createElement "div" w1))).

Definition fallbackW (h : Host) (this : iid) (o : Instance) (w : World) : World :=
  let e := this_element o in
  let w2 := fallbackBuiltW h o w in
  withObjs (alter (with_firefoxBg (Some (nextNode w))) this)
    (snd (forEach (liftChild h) (childNodes (node w2 e)) (insertFirst e (nextNode w) w2))).

Definition appliedW (h : Host) (this : iid) (o : Instance) (w : World) : World :=
  let w1 := probedW h
              (styledW h o (String.eqb (getComputedPosition h w (this_element o)) "static") w) in
  if fallbackMode h then fallbackW h this o w1 else w1.

(** One layer of the overlay, created, styled and appended. *)
Definition layerW (oc : nid) (cls : string) (css : list (string * string)) (w : World) : World :=
  appendChild oc (nextNode w)
    (setCssText (nextNode w) css (setClassName (nextNode w) cls (snd (createElement "div" w)))).

Definition overlaysW (this : iid) (o : Instance) (w : World) : World :=
  let oc := nextNode w in
  let w1 := setCssText oc overlayCss
              (setClassName oc "chromatic-blur-overlays" (snd (createElement "div" w))) in
  let w2 := if truthy (this_options o !! "addNoise")
            then layerW oc "chromatic-blur-noise" noiseCss w1 else w1 in
  let w3 := if truthy (this_options o !! "addOverlay")
            then layerW oc "chromatic-blur-gradient" gradientCss w2 else w2 in
  withObjs (alter (with_overlayContainer (Some oc)) this) (insertFirst (this_element o) oc w3).

Definition removedW (x : option nid) (w : World) : World :=
  match x with
  | Some n => removeNode n w
  | None => w
  end.

(** The store after [destroy] has unregistered the instance. *)
Definition unregisteredW (this : iid) (o : Instance) (w : World) : World :=
  withInstances (setDelete this)
    (restoreStyles (this_element o) (this_originalStyles o)
       (removedW (this_firefoxBg o)
          (removedW (this_overlayContainer o)
             (removedW (this_filter o) w)))).

Definition destroyedW (this : iid) (o : Instance) (w : World) : World :=
  let w1 := unregisteredW this o w in
  if Nat.eqb (length (instances w1)) 0
  then removedW (getElementById w1 registryId) w1
  else w1.

(** The store [_init] leaves, for the object [o0] the constructor
    allocated and the registry nodes [c] and [d] it found or created. *)
Definition initW (h : Host) (this : iid) (o0 : Instance) (c d : nid) (w0 : World) : World :=
  let w1 := ensuredW this w0 in
  let o1 := with_container (Some c) (Some d) o0 in
  let w2 := filterCreatedW h this o1 d w1 in
  let o2 := with_filter (Some (nextNode w1)) o1 in
  let w3 := appliedW h this o2 w2 in
  let o3 := if fallbackMode h
            then with_firefoxBg (Some (Pos.succ (nextNode w2))) o2 else o2 in
  if orb (truthy (this_options o0 !! "addOverlay")) (truthy (this_options o0 !! "addNoise"))
  then overlaysW this o3 w3
  else w3.

(** The object the constructor allocates. *)
Definition initialObject (h : Host) (e : nid) (options : option Options)
    (now : Z) (rand36 : string) (w : World) : Instance :=
  mkInstance e (spread defaults (default ∅ options)) (generateId h now rand36)
             (snapshot w e) None None None None None.

(** The store [update] leaves, for the object [o] it found and the
    definitions node [d] of that object. *)
Definition updatedW (h : Host) (this : iid) (o : Instance) (d : nid)
    (newOptions : Options) (w : World) : World :=
  let o1 := with_options (spread (this_options o) newOptions) o in
  let w1 := withObjs (alter (with_options (spread (this_options o) newOptions)) this) w in
  let w2 := removedW (this_filter o) w1 in
  appliedW h this (with_filter (Some (nextNode w2)) o1) (filterCreatedW h this o1 d w2).

(** ** Reading the document *)

(** The value of attribute [k] of a parsed element. *)
Definition attrOf (k : string) (p : Prim) : option string :=
  match find (fun kv => String.eqb (fst kv) k) (primAttrs p) with
  | Some kv => Some (snd kv)
  | None => None
  end.

(** The stages of a filter definition with a given element name. *)
Definition stagesOf (tag : string) (ps : list Prim) : list Prim :=
  List.filter (fun p => String.eqb (primTag p) tag) ps.

(** Attribute [k] of the stage named [tag] whose [result] is [res]. *)
Definition stageAttr (ps : list Prim) (tag res k : string) : option string :=
  match find (fun p => andb (String.eqb (primTag p) tag)
                            (match attrOf "result" p with
                             | Some r => String.eqb r res
                             | None => false
                             end)) ps with
  | Some p => attrOf k p
  | None => None
  end.

(** The filter definitions of the registry that is in the document. *)
Definition filterDefinitions (w : World) : list nid :=
  match getElementById w registryId with
  | Some c =>
      match querySelectorTag w c "defs" with
      | Some d => childNodes (node w d)
      | None => []
      end
  | None => []
  end.

Definition definitionsWithId (w : World) (s : string) : list nid :=
  List.filter (fun x => String.eqb (elemId (node w x)) s) (filterDefinitions w).

(** The children of [e] with class [cls]. *)
Definition classChildren (w : World) (cls : string) (e : nid) : list nid :=
  List.filter (fun x => String.eqb (className (node w x)) cls) (childNodes (node w e)).

(** What the constructor accepts as a target and rejects. *)
Definition invalidTarget (h : Host) (w : World) (t : Target) : Prop :=
  match t with
  | Selector s => querySelector h w s = None
  | ElementRef _ => False
  | Null => True
  | Undefined => True
  end.

(** ** Two browsers and a page *)

(** Decimal printing of the numbers the examples use. *)
Definition printNumber (q : Q) : string :=
  if Z.eqb (Zpos (Qden q)) 1 then pretty (Qnum q)
  else if Qeq_bool q 0.001 then "0.001"
  else pretty (Qnum q) +:+ "/" +:+ pretty (Zpos (Qden q)).

(** No style sheet: the computed position is the inline one, or [static]. *)
Definition inlineOrStatic (w : World) (n : nid) : string :=
  if String.eqb (getStyle w n "position") "" then "static" else getStyle w n "position".

Definition cardSelector (w : World) (s : string) : option nid :=
  if String.eqb s ".card" then Some 2%positive else None.

Definition chromeHost : Host :=
  mkHost cardSelector inlineOrStatic
    "Mozilla/5.0 (X11; Linux x86_64) AppleWebKit/537.36 (KHTML, like Gecko) Chrome/120.0.0.0 Safari/537.36"
    true printNumber.

Definition firefoxHost : Host :=
  mkHost cardSelector inlineOrStatic
    "Mozilla/5.0 (X11; Linux x86_64; rv:128.0) Gecko/20100101 Firefox/128.0"
    true printNumber.

(** [<body><div class="card" style="overflow: auto"></div></body>] *)
Definition page : World :=
  mkWorld (<[body := withChildren (fun _ => [2%positive]) (blank "body")]>
           (<[2%positive := withStyle (fun _ => {["overflow" := "auto"]})
                              (withClassName "card" (blank "div"))]> ∅))
          3%positive ∅ 1%positive [] [].

(** The page after [new ChromaticBlur('.card')], in either browser. *)
Definition cardCall : Call := CNew (Selector ".card") None 1700000000000 "0.k3j4h5g6f7d".

Definition chromeCard : World := perform chromeHost cardCall page.

Definition firefoxCard : World := perform firefoxHost cardCall page.

(** The options of the scenario of the specification. *)
Definition scenarioOptions : Options :=
  <["redOffset" := VNum 8]>
  (<["blueOffset" := VNum (-8)]>
  (<["blurAmount" := VNum 5]>
  (<["addNoise" := VBool false]>
  (<["addOverlay" := VBool false]> ∅)))).

(** An object for the card, as the constructor allocates it. *)
Definition cardObject : Instance :=
  mkInstance 2%positive defaults "chromatic-blur-1700000000000-k3j4h5g6f"
             (snapshot page 2%positive) None None None None None.

(** The fallback layers and the overlay containers among the children
    of an element. *)
Definition fallbackChildren (w : World) (e : nid) : list nid :=
  classChildren w "chromatic-blur-firefox-bg" e.

Definition overlayChildren (w : World) (e : nid) : list nid :=
  classChildren w "chromatic-blur-overlays" e.

(** [{blurAmount: 10}] *)
Definition blurTen : Options := {["blurAmount" := VNum 10]}.

(** ** Options that are set *)

(** Property [k] of [o] reads as a value other than [undefined]. *)
Definition populated (o : Options) (k : string) : Prop :=
  exists v, o !! k = Some v /\ v <> VUndefined.

(** No property of [o] has the value [undefined]. *)
Definition definedValues (o : Options) : Prop :=
  forall k, o !! k <> Some VUndefined.

(** [{blurAmount: undefined}] *)
Definition blurUndefined : Options := {["blurAmount" := VUndefined]}.

(** [<body><div class="card" style="overflow: auto"><p
    id="chromatic-blur-filters"></p></div></body>]: a page that has an
    element of its own under the id of the registry. *)
Definition clashPage : World :=
  mkWorld (<[body := withChildren (fun _ => [2%positive]) (blank "body")]>
           (<[2%positive := withChildren (fun _ => [3%positive])
                              (withStyle (fun _ => {["overflow" := "auto"]})
                                 (withClassName "card" (blank "div")))]>
           (<[3%positive := withElemId registryId (blank "p")]> ∅)))
          4%positive ∅ 1%positive [] [].

(** ** The store in which the styles are applied *)

(** The constructor up to the call of [_applyStyles] in [_init]. *)
Definition constructBeforeStyles (h : Host) (element : Target) (options : option Options)
    (now : Z) (rand36 : string) : Js iid :=
  (resolved ← gets (resolve h element);
   match resolved with
   | None => throw InvalidElement
   | Some e =>
       this ← newObject e (spread defaults (default ∅ options)) (generateId h now rand36);
       _ensureSVGContainer this ;;
       _createFilter h this ;;
       ret this
   end)%js.

(** [update] up to its call of [_applyStyles]. *)
Definition updateBeforeStyles (h : Host) (this : iid) (newOptions : Options) : Js iid :=
  (o ← getThis this;
   setThis this (with_options (spread (this_options o) newOptions)) ;;
   match this_filter o with
   | Some f => act (removeNode f)
   | None => ret tt
   end ;;
   _createFilter h this ;;
   ret this)%js.

(** What the constructor does from [_applyStyles] on. *)
Definition constructFromStyles (h : Host) (this : iid) : Js iid :=
  (_applyStyles h this ;;
   o ← getThis this;
   when (orb (truthy (this_options o !! "addOverlay"))
             (truthy (this_options o !! "addNoise")))
     (_addOverlays this) ;;
   act (withInstances (setAdd this)) ;;
   ret this)%js.

(** What [update] does from [_applyStyles] on. *)
Definition updateFromStyles (h : Host) (this : iid) : Js iid :=
  (_applyStyles h this ;; ret this)%js.

(** The object of the instance on the card. *)
Definition chromeCardObject : Instance :=
  default cardObject (objs chromeCard !! 1%positive).

Definition firefoxCardObject : Instance :=
  default cardObject (objs firefoxCard !! 1%positive).

(** The page after [new ChromaticBlur('.card', {blurAmount: undefined})]. *)
Definition undefinedCard : World :=
  perform chromeHost
    (CNew (Selector ".card") (Some blurUndefined) 1700000000000 "0.k3j4h5g6f7d") page.

Definition undefinedCardObject : Instance :=
  default cardObject (objs undefinedCard !! 1%positive).

(** ** Histories of calls *)

(** The store after a sequence of calls, first call first. *)
Definition runCalls (h : Host) (cs : list Call) (w : World) : World :=
  fold_left (fun w' c => perform h c w') cs w.

(** [cs] are constructor calls, each with a target that resolves to an
    element in the store in which the call runs. *)
Fixpoint constructorCalls (h : Host) (cs : list Call) (w : World) : Prop :=
  match cs with
  | [] => True
  | CNew t o n r :: rest =>
      is_Some (resolve h t w) /\ constructorCalls h rest (perform h (CNew t o n r) w)
  | _ :: _ => False
  end.

(** The fields of an object that only the constructor assigns. *)
Definition sameIdentity (o o' : Instance) : Prop :=
  this_element o' = this_element o /\ this_id o' = this_id o /\
  this_originalStyles o' = this_originalStyles o.

(** [!z || z === 'auto' ? '1' : z]: the z-index a former child of the
    element has after the fallback loop. *)
Definition liftedZ (z : string) : string :=
  if orb (String.eqb z "") (String.eqb z "auto") then "1" else z.

(** The [url(#id)] reference the element carries while the effect is on. *)
Definition filterUrl (o : Instance) : string := "url(#" +:+ this_id o +:+ ")".

(** The classes of the children of a node, in document order. *)
Definition childClasses (w : World) (n : nid) : list string :=
  map (fun x => className (node w x)) (childNodes (node w n)).

(** ** A second instance on the card *)

Definition twoCards : World := perform chromeHost cardCall chromeCard.

Definition twoCardsFirst : Instance := default cardObject (objs twoCards !! 1%positive).

Definition twoCardsSecond : Instance := default cardObject (objs twoCards !! 2%positive).

(** ** Children that stay

    A step retains the children of the nodes below [b], except for the
    nodes in [X], which it may detach or move. *)
Definition retains (X : nid -> Prop) (b : nid) (w W : World) : Prop :=
  forall n x, (n < b)%positive -> In x (childNodes (node w n)) -> ~ X x ->
              In x (childNodes (node W n)).

(** The nodes a step creates, seen from the store it starts in. *)
Definition createdFrom (b : nid) (x : nid) : Prop := (b <= x)%positive.

(** ** The filters of the tracked instances

    Every tracked instance has its filter among the children of its
    definitions node, and no two objects refer to the same filter. *)
Record InvF (w : World) : Prop := mkInvF {
  inv_filter_live : forall i, In i (instances w) ->
      exists o d f, objs w !! i = Some o /\ this_defs o = Some d /\
                    this_filter o = Some f /\ In f (childNodes (node w d));
  inv_filter_own : forall i j oi oj f,
      objs w !! i = Some oi -> objs w !! j = Some oj ->
      this_filter oi = Some f -> this_filter oj = Some f -> i = j
}.

(** The nodes [update] and [destroy] take out of the document for an
    object, and the nodes created since the store with [b] nodes. *)
Definition ownedOrCreated (o : Instance) (b : nid) (x : nid) : Prop :=
  this_filter o = Some x \/ this_overlayContainer o = Some x \/
  this_firefoxBg o = Some x \/ createdFrom b x.

(** A child list once the node [x], if there is one, has left it. *)
Definition withoutOpt (x : option nid) (l : list nid) : list nid :=
  match x with
  | Some y => without y l
  | None => l
  end.

(** ** The card after its instance was destroyed *)

Definition destroyedCard : World := perform chromeHost (CDestroy 1%positive) chromeCard.

Definition destroyedCardObject : Instance :=
  default cardObject (objs destroyedCard !! 1%positive).

(** ** Text that holds a word in any letter case *)

Definition containsNoCase (s word : string) : Prop :=
  exists pre mid post, s = pre +:+ mid +:+ post /\ toLowerCase mid = word.

(** * Stepping a computation *)

Lemma bind_ret {A B} (a : A) (k : A -> Js B) w : bind (ret a) k w = k a w.
Proof. reflexivity. Qed.

Lemma bind_act {B} f (k : unit -> Js B) w : bind (act f) k w = k tt (f w).
Proof. reflexivity. Qed.

Lemma bind_gets {A B} (f : World -> A) (k : A -> Js B) w :
  bind (gets f) k w = k (f w) w.
Proof. reflexivity. Qed.

Lemma bind_create {B} tag (k : nid -> Js B) w :
  bind (create tag) k w = k (nextNode w) (snd (createElement tag w)).
Proof. reflexivity. Qed.

Lemma bind_throw {A B} e (k : A -> Js B) w : bind (throw e) k w = (Throw e, w).
Proof. reflexivity. Qed.

Lemma bind_setThis {B} i f (k : unit -> Js B) w :
  bind (setThis i f) k w = k tt (withObjs (alter f i) w).
Proof. reflexivity. Qed.

Lemma bind_bind {A B C} (m : Js A) (f : A -> Js B) (k : B -> Js C) w :
  bind (bind m f) k w = bind m (fun x => bind (f x) k) w.
Proof. unfold bind. destruct (m w) as [[a|e] w']; reflexivity. Qed.

Lemma bind_getThis {B} i o (k : Instance -> Js B) w :
  objs w !! i = Some o -> bind (getThis i) k w = k o w.
Proof. intros H. unfold bind, getThis. rewrite H. reflexivity. Qed.

Lemma bind_when {B} b (m : Js unit) (k : unit -> Js B) w :
  bind (when b m) k w = if b then bind m k w else k tt w.
Proof. destruct b; reflexivity. Qed.

Lemma bind_run {A B} (m : Js A) (k : A -> Js B) w a w' :
  m w = (Return a, w') -> bind m k w = k a w'.
Proof. intros H. unfold bind. rewrite H. reflexivity. Qed.

Lemma when_true (m : Js unit) : when true m = m.
Proof. reflexivity. Qed.

Lemma when_false (m : Js unit) : when false m = ret tt.
Proof. reflexivity. Qed.

Lemma act_run f w : act f w = (Return tt, f w).
Proof. reflexivity. Qed.

Lemma setThis_run i f w : setThis i f w = (Return tt, withObjs (alter f i) w).
Proof. reflexivity. Qed.

Lemma ret_run {A} (a : A) w : ret a w = (Return a, w).
Proof. reflexivity. Qed.

(** * How the store operations show through the observations *)

Lemma node_modNode m f w n :
  node (modNode m f w) n = if decide (n = m) then f (node w m) else node w n.
Proof.
  unfold node, modNode; simpl. rewrite lookup_insert.
  destruct (decide (m = n)), (decide (n = m)); subst; try congruence; done.
Qed.

Lemma node_createElement tag w n :
  node (snd (createElement tag w)) n
  = if decide (n = nextNode w) then blank tag else node w n.
Proof.
  unfold node, createElement; simpl. rewrite lookup_insert.
  destruct (decide (nextNode w = n)), (decide (n = nextNode w)); subst; try congruence; done.
Qed.

Lemma node_removeNode x w n :
  node (removeNode x w) n = withChildren (without x) (node w n).
Proof.
  unfold node, removeNode; simpl. rewrite lookup_fmap.
  destruct (heap w !! n); reflexivity.
Qed.

Lemma node_withObjs f w n : node (withObjs f w) n = node w n.
Proof. reflexivity. Qed.

Lemma node_withInstances f w n : node (withInstances f w) n = node w n.
Proof. reflexivity. Qed.

Lemma node_consoleLog e w n : node (consoleLog e w) n = node w n.
Proof. reflexivity. Qed.

Create Rewrite HintDb nodes.
Hint Rewrite node_modNode node_createElement node_removeNode node_withObjs
  node_withInstances node_consoleLog : nodes.

Lemma objs_modNode m f w : objs (modNode m f w) = objs w.
Proof. reflexivity. Qed.
Lemma objs_removeNode x w : objs (removeNode x w) = objs w.
Proof. reflexivity. Qed.
Lemma objs_createElement tag w : objs (snd (createElement tag w)) = objs w.
Proof. reflexivity. Qed.
Lemma objs_withObjs f w : objs (withObjs f w) = f (objs w).
Proof. reflexivity. Qed.
Lemma objs_withInstances f w : objs (withInstances f w) = objs w.
Proof. reflexivity. Qed.
Lemma objs_consoleLog e w : objs (consoleLog e w) = objs w.
Proof. reflexivity. Qed.

Lemma instances_modNode m f w : instances (modNode m f w) = instances w.
Proof. reflexivity. Qed.
Lemma instances_removeNode x w : instances (removeNode x w) = instances w.
Proof. reflexivity. Qed.
Lemma instances_createElement tag w :
  instances (snd (createElement tag w)) = instances w.
Proof. reflexivity. Qed.
Lemma instances_withObjs f w : instances (withObjs f w) = instances w.
Proof. reflexivity. Qed.
Lemma instances_withInstances f w : instances (withInstances f w) = f (instances w).
Proof. reflexivity. Qed.
Lemma instances_consoleLog e w : instances (consoleLog e w) = instances w.
Proof. reflexivity. Qed.

Lemma nextNode_modNode m f w : nextNode (modNode m f w) = nextNode w.
Proof. reflexivity. Qed.
Lemma nextNode_removeNode x w : nextNode (removeNode x w) = nextNode w.
Proof. reflexivity. Qed.
Lemma nextNode_createElement tag w :
  nextNode (snd (createElement tag w)) = Pos.succ (nextNode w).
Proof. reflexivity. Qed.
Lemma nextNode_withObjs f w : nextNode (withObjs f w) = nextNode w.
Proof. reflexivity. Qed.
Lemma nextNode_withInstances f w : nextNode (withInstances f w) = nextNode w.
Proof. reflexivity. Qed.
Lemma nextNode_consoleLog e w : nextNode (consoleLog e w) = nextNode w.
Proof. reflexivity. Qed.

Lemma nextInst_modNode m f w : nextInst (modNode m f w) = nextInst w.
Proof. reflexivity. Qed.
Lemma nextInst_removeNode x w : nextInst (removeNode x w) = nextInst w.
Proof. reflexivity. Qed.
Lemma nextInst_createElement tag w :
  nextInst (snd (createElement tag w)) = nextInst w.
Proof. reflexivity. Qed.
Lemma nextInst_withObjs f w : nextInst (withObjs f w) = nextInst w.
Proof. reflexivity. Qed.
Lemma nextInst_withInstances f w : nextInst (withInstances f w) = nextInst w.
Proof. reflexivity. Qed.
Lemma nextInst_consoleLog e w : nextInst (consoleLog e w) = nextInst w.
Proof. reflexivity. Qed.

Create Rewrite HintDb frame.
Hint Rewrite objs_modNode objs_removeNode objs_createElement objs_withObjs
  objs_withInstances objs_consoleLog
  instances_modNode instances_removeNode instances_createElement instances_withObjs
  instances_withInstances instances_consoleLog
  nextNode_modNode nextNode_removeNode nextNode_createElement nextNode_withObjs
  nextNode_withInstances nextNode_consoleLog
  nextInst_modNode nextInst_removeNode nextInst_createElement nextInst_withObjs
  nextInst_withInstances nextInst_consoleLog : frame.

(** Unfolding the DOM operations to the store updates they are made of. *)
Ltac prims :=
  unfold setStyle, setCssText, setElemId, setClassName, setAttribute, setInnerHTML,
    appendChild, insertFirst, restoreStyles, removedW in *.

Ltac js_step :=
  first [ rewrite bind_bind | rewrite bind_ret | rewrite bind_act | rewrite bind_gets
        | rewrite bind_create | rewrite bind_setThis | rewrite bind_throw
        | rewrite when_true | rewrite when_false | rewrite bind_when
        | erewrite bind_getThis by (prims; autorewrite with frame; eassumption) ].

Ltac js_run := repeat js_step.

Lemma lookup_assignStyle p v s q :
  default "" (assignStyle p v s !! q)
  = if decide (q = p) then v else default "" (s !! q).
Proof.
  unfold assignStyle. destruct (decide (v = "")) as [->|Hv].
  - rewrite lookup_delete.
    destruct (decide (p = q)), (decide (q = p)); subst; try congruence; done.
  - rewrite lookup_insert.
    destruct (decide (p = q)), (decide (q = p)); subst; try congruence; done.
Qed.

Lemma getStyle_setStyle n p v w m q :
  getStyle (setStyle n p v w) m q
  = if decide (m = n)
    then (if decide (q = p) then v else getStyle w n q)
    else getStyle w m q.
Proof.
  unfold getStyle, setStyle. rewrite node_modNode.
  destruct (decide (m = n)); subst; [|done].
  simpl. apply lookup_assignStyle.
Qed.

Lemma getStyle_fresh tag w p : getStyle (snd (createElement tag w)) (nextNode w) p = "".
Proof.
  unfold getStyle. rewrite node_createElement, decide_True by done. reflexivity.
Qed.

(** * The methods reach the stores named above *)

Lemma ensureSVGContainer_run this w :
  _ensureSVGContainer this w = (Return tt, ensuredW this w).
Proof.
  unfold _ensureSVGContainer, ensuredW. js_run.
  destruct (getElementById w registryId) as [c|]; js_run; reflexivity.
Qed.

Lemma createFilter_run h this o d w :
  objs w !! this = Some o -> this_defs o = Some d ->
  _createFilter h this w = (Return tt, filterCreatedW h this o d w).
Proof.
  intros Ho Hd. unfold _createFilter, filterCreatedW, filterBuiltW. js_run.
  rewrite Hd. js_run. reflexivity.
Qed.

Lemma createFilter_throws h this o w :
  objs w !! this = Some o -> this_defs o = None ->
  fst (_createFilter h this w) = Throw TypeError.
Proof.
  intros Ho Hd. unfold _createFilter. js_run. rewrite Hd. js_run. reflexivity.
Qed.

Lemma probe_reading h w :
  getStyle (probedW h w) (nextNode w) "backdropFilter"
  = if backdropFilterProbe h then "blur(1px)" else "".
Proof.
  unfold probedW. destruct (backdropFilterProbe h).
  - rewrite getStyle_setStyle, !decide_True by done. reflexivity.
  - apply getStyle_fresh.
Qed.

Lemma forEach_liftChild_returns h l w :
  fst (forEach (liftChild h) l w) = Return tt.
Proof.
  revert w. induction l as [|c l IH]; intros w; [reflexivity|].
  cbn [forEach]. unfold liftChild at 1. js_run.
  destruct (_ =? "static"); js_run;
    destruct (orb _ _); js_run; apply IH.
Qed.

Lemma forEach_liftChild_run h l w :
  forEach (liftChild h) l w = (Return tt, snd (forEach (liftChild h) l w)).
Proof.
  rewrite <- (forEach_liftChild_returns h l w). apply surjective_pairing.
Qed.

Lemma addFirefoxFallback_run h this o w :
  objs w !! this = Some o ->
  _addFirefoxFallback h this w
  = (Return tt, if fallbackMode h then fallbackW h this o (probedW h w) else probedW h w).
Proof.
  intros Ho. unfold _addFirefoxFallback, fallbackMode, fallbackW, fallbackBuiltW, probedW.
  destruct (backdropFilterProbe h) eqn:Hp, (isFirefox h) eqn:Hf; js_run;
    rewrite ?getStyle_setStyle, ?getStyle_fresh, ?decide_True by done;
    cbn [String.eqb Ascii.eqb Bool.eqb negb orb]; js_run;
    try reflexivity;
    rewrite (bind_run _ _ _ _ _ (forEach_liftChild_run h _ _));
    rewrite setThis_run; autorewrite with frame; reflexivity.
Qed.

Lemma objs_styledW h o b w : objs (styledW h o b w) = objs w.
Proof. unfold styledW. destruct b; reflexivity. Qed.

Lemma applyStyles_run h this o w :
  objs w !! this = Some o ->
  _applyStyles h this w = (Return tt, appliedW h this o w).
Proof.
  intros Ho. unfold _applyStyles, appliedW. js_run.
  assert (Hs : forall b, objs (styledW h o b w) !! this = Some o)
    by (intros b; rewrite objs_styledW; exact Ho).
  unfold styledW in *.
  destruct (getComputedPosition h w (this_element o) =? "static"); js_run;
    [specialize (Hs true)|specialize (Hs false)];
    apply (addFirefoxFallback_run h this o _ Hs).
Qed.

Lemma addOverlays_run this o w :
  objs w !! this = Some o ->
  _addOverlays this w = (Return tt, overlaysW this o w).
Proof.
  intros Ho. unfold _addOverlays, overlaysW, layerW. js_run.
  destruct (truthy (this_options o !! "addNoise")),
           (truthy (this_options o !! "addOverlay")); js_run; reflexivity.
Qed.

Lemma removeIfSet_run x w : removeIfSet x w = (Return tt, removedW x w).
Proof. destruct x; reflexivity. Qed.

Lemma destroy_run this o w :
  objs w !! this = Some o ->
  destroy this w = (Return tt, destroyedW this o w).
Proof.
  intros Ho. unfold destroy, destroyedW, unregisteredW. js_run.
  rewrite !(bind_run _ _ _ _ _ (removeIfSet_run _ _)). js_run.
  destruct (Nat.eqb _ 0); js_run; [apply removeIfSet_run | reflexivity].
Qed.

Lemma destroy_missing this w :
  objs w !! this = None -> destroy this w = (Throw TypeError, w).
Proof. intros Ho. unfold destroy, bind, getThis. rewrite Ho. reflexivity. Qed.

Lemma enable_run this o w :
  objs w !! this = Some o ->
  enable this w
  = (Return this,
     setStyle (this_element o) "WebkitBackdropFilter" ("url(#" +:+ this_id o +:+ ")")
       (setStyle (this_element o) "backdropFilter" ("url(#" +:+ this_id o +:+ ")") w)).
Proof. intros Ho. unfold enable. js_run. reflexivity. Qed.

Lemma disable_run this o w :
  objs w !! this = Some o ->
  disable this w
  = (Return this,
     setStyle (this_element o) "WebkitBackdropFilter" "none"
       (setStyle (this_element o) "backdropFilter" "none" w)).
Proof. intros Ho. unfold disable. js_run. reflexivity. Qed.

(** * Lists *)

Lemma In_without x y l : In y (without x l) <-> In y l /\ y <> x.
Proof.
  unfold without. rewrite filter_In, negb_true_iff, Pos.eqb_neq. tauto.
Qed.

Lemma without_notin x l : ~ In x l -> without x l = l.
Proof.
  induction l as [|a l IH]; simpl; intros Hx; [reflexivity|].
  destruct (Pos.eqb_spec a x) as [->|Hne]; simpl.
  - tauto.
  - f_equal. tauto.
Qed.

Lemma without_idem x l : without x (without x l) = without x l.
Proof. apply without_notin. rewrite In_without. tauto. Qed.

Lemma find_without (p : nid -> bool) x l :
  p x = false -> find p (without x l) = find p l.
Proof.
  intros Hp. induction l as [|a l IH]; simpl; [reflexivity|].
  destruct (Pos.eqb_spec a x) as [->|Hne]; simpl.
  - rewrite Hp. exact IH.
  - destruct (p a); [reflexivity | exact IH].
Qed.

Lemma find_snoc_false (p : nid -> bool) x l :
  p x = false -> find p (l ++ [x]) = find p l.
Proof.
  intros Hp. induction l as [|a l IH]; simpl.
  - rewrite Hp. reflexivity.
  - destruct (p a); [reflexivity | exact IH].
Qed.

Lemma find_ext_in (p q : nid -> bool) l :
  (forall x, In x l -> p x = q x) -> find p l = find q l.
Proof.
  induction l as [|a l IH]; simpl; intros H; [reflexivity|].
  rewrite (H a) by tauto. destruct (q a); [reflexivity|]. apply IH. intros; apply H; tauto.
Qed.

Lemma filter_without (p : nid -> bool) x l :
  List.filter p (without x l) = without x (List.filter p l).
Proof.
  induction l as [|a l IH]; simpl; [reflexivity|].
  destruct (Pos.eqb_spec a x) as [->|Hne]; simpl.
  - destruct (p x); simpl; [rewrite Pos.eqb_refl; simpl|]; exact IH.
  - destruct (p a); simpl.
    + destruct (Pos.eqb_spec a x); [contradiction|]. simpl. f_equal. exact IH.
    + exact IH.
Qed.

Lemma length_without x l : length (without x l) <= length l.
Proof.
  induction l as [|a l IH]; simpl; [lia|].
  destruct (negb (Pos.eqb a x)); simpl; lia.
Qed.

Lemma find_head_filter (p : nid -> bool) l : find p l = head (List.filter p l).
Proof.
  induction l as [|a l IH]; simpl; [reflexivity|].
  destruct (p a); [reflexivity | exact IH].
Qed.

Lemma registryId_nonempty : registryId <> "".
Proof. discriminate. Qed.

(** * Observations that depend on the shape only *)


Lemma registryNodes_ext w W :
  childNodes (node W body) = childNodes (node w body) ->
  (forall n, In n (childNodes (node w body)) -> elemId (node W n) = elemId (node w n)) ->
  registryNodes W = registryNodes w.
Proof.
  intros Hk He. unfold registryNodes. rewrite Hk.
  apply filter_ext_in. intros n Hn. rewrite He by assumption. reflexivity.
Qed.

Lemma childByTag_ext w W c t :
  childNodes (node W c) = childNodes (node w c) ->
  (forall n, In n (childNodes (node w c)) -> tagName (node W n) = tagName (node w n)) ->
  childByTag W c t = childByTag w c t.
Proof.
  intros Hk Ht. unfold childByTag. rewrite Hk.
  apply find_ext_in. intros n Hn. rewrite Ht by assumption. reflexivity.
Qed.

Lemma childByTag_some w c t d :
  childByTag w c t = Some d ->
  In d (childNodes (node w c)) /\ tagName (node w d) = t.
Proof.
  unfold childByTag. intros H. apply find_some in H as [Hin Ht].
  split; [assumption|]. apply String.eqb_eq. exact Ht.
Qed.

Lemma In_registryNodes w c :
  In c (registryNodes w) <->
  In c (childNodes (node w body)) /\ elemId (node w c) = registryId.
Proof. unfold registryNodes. rewrite filter_In, String.eqb_eq. tauto. Qed.

Lemma grows_sameShape w W : sameShape w W -> grows w W.
Proof.
  intros (Hn & _ & _ & Hs). split; [rewrite Hn; lia|].
  intros n _. destruct (Hs n) as (? & ? & ?). tauto.
Qed.

Lemma grows_fresh1 w W : fresh1 w W -> grows w W.
Proof.
  intros (Hn & _ & _ & _ & Hs). split; [rewrite Hn; lia|].
  intros n Hlt. destruct (Hs n) as (? & ? & ?); [lia | tauto].
Qed.

Lemma grows_removed x w W : removed x w W -> grows w W.
Proof.
  intros (Hn & _ & _ & Hs). split; [rewrite Hn; lia|].
  intros n _. destruct (Hs n) as (? & ? & ?). tauto.
Qed.

Lemma grows_pushed p x w W : pushed p x w W -> grows w W.
Proof.
  intros (Hn & _ & _ & Hs & _). split; [rewrite Hn; lia|].
  intros n _. apply Hs.
Qed.

Lemma grows_altered i g w W : altered i g w W -> grows w W.
Proof.
  intros (Hn & _ & _ & Hs). split; [rewrite Hn; lia|].
  intros n _. rewrite Hs. tauto.
Qed.

Lemma isDiv_grows w W x : grows w W -> isDiv w x -> isDiv W x.
Proof.
  intros (Hn & Hs) (Hlt & Ht & He). destruct (Hs x Hlt) as (Ht' & He').
  split; [lia|]. rewrite Ht', He'. tauto.
Qed.

(** Transfer of [goodDefs]: the children are old ones, with the id they
    had, or satisfy the condition afresh. *)
Lemma goodDefs_transfer w W d :
  grows w W ->
  (forall x, In x (childNodes (node W d)) ->
     (In x (childNodes (node w d)) /\ (elemId (node w x) = "" \/ ownedFilter w x ->
                                       elemId (node W x) = "" \/ ownedFilter W x))
     \/ elemId (node W x) = "" \/ ownedFilter W x) ->
  goodDefs w d -> goodDefs W d.
Proof.
  intros (Hn & Hs) Hk (Hlt & Ht & Hc). destruct (Hs d Hlt) as (Ht' & _).
  split; [lia|]. split; [congruence|].
  intros x Hx. destruct (Hk x Hx) as [[Hin Hold]|Hnew]; [|exact Hnew].
  apply Hold, Hc, Hin.
Qed.

Lemma objOK_transfer w W o :
  grows w W ->
  (forall d, goodDefs w d -> goodDefs W d) ->
  objOK w o -> objOK W o.
Proof.
  intros Hg Hd [H2 H3 H4 H5 H6]. pose proof Hg as (Hn & Hs).
  split.
  - exact H2.
  - intros f Hf. destruct (H3 f Hf) as (Hlt & Ht & He).
    destruct (Hs f Hlt) as (Ht' & He'). split; [lia|]. split; congruence.
  - intros x Hx. eapply isDiv_grows; eauto.
  - intros x Hx. eapply isDiv_grows; eauto.
  - intros d Hdd. apply Hd, H6, Hdd.
Qed.

(** * Nodes below a node *)

Lemma below_mono w W :
  (forall n y, In y (childNodes (node W n)) -> In y (childNodes (node w n))) ->
  forall a y, below W a y -> below w a y.
Proof.
  intros H a y Hb. induction Hb as [n y Hy | n x y Hx _ IH].
  - apply below_child, H, Hy.
  - eapply below_step; [apply H, Hx | exact IH].
Qed.

Lemma below_nodes w W :
  (forall n, node W n = node w n) -> forall a y, below W a y -> below w a y.
Proof. intros Hs. apply below_mono. intros n y. rewrite Hs. tauto. Qed.

(** After [x] became a child somewhere, a node is below [a] if it was
    before, or is [x], or was below [x]. *)
Lemma below_pushed x w W :
  (forall n y, In y (childNodes (node W n)) -> In y (childNodes (node w n)) \/ y = x) ->
  forall a y, below W a y -> below w a y \/ y = x \/ below w x y.
Proof.
  intros H a y Hb. induction Hb as [n y Hy | n x' y Hx _ IH].
  - destruct (H n y Hy) as [?| ->]; [left; apply below_child; assumption | tauto].
  - destruct IH as [IH|[->|IH]]; [|tauto|tauto].
    destruct (H n x' Hx) as [?| ->]; [left; eapply below_step; eauto | tauto].
Qed.

Lemma below_is_child w a y : below w a y -> exists n, In y (childNodes (node w n)).
Proof. induction 1 as [n y Hy | n x y _ _ IH]; [exists n; exact Hy | exact IH]. Qed.

Lemma plain_leaf w x : childNodes (node w x) = [] -> plain w x.
Proof. intros E y Hb. inversion Hb; subst; rewrite E in *; contradiction. Qed.

Lemma plain_transfer w W x :
  (forall a y, below W a y -> below w a y) ->
  (forall n y, In y (childNodes (node w n)) -> tagName (node W y) = tagName (node w y)) ->
  plain w x -> plain W x.
Proof.
  intros Hb Ht P y Hy. apply Hb in Hy. destruct (below_is_child _ _ _ Hy) as (n & Hn).
  rewrite (Ht n y Hn). apply P, Hy.
Qed.

Lemma subtree_below f w k y :
  In y (flat_map (subtree f w) (childNodes (node w k))) -> below w k y.
Proof.
  revert k y. induction f as [|f IH]; intros k y Hin; apply in_flat_map in Hin as (x & Hx & Hy).
  - destruct Hy.
  - destruct Hy as [<-|Hy]; [apply below_child, Hx|].
    eapply below_step; [exact Hx | apply IH, Hy].
Qed.

(** Among the nodes of some trees, those that satisfy [p] are the roots
    that do, when no node below a root does. *)
Lemma subtree_nodes f w W n :
  (forall m, childNodes (node W m) = childNodes (node w m)) ->
  subtree f W n = subtree f w n.
Proof.
  intros H. revert n. induction f as [|f IH]; intros n; [reflexivity|].
  cbn [subtree]. rewrite H. f_equal. apply flat_map_ext. exact IH.
Qed.

Lemma getElementById_withObjs g w s : getElementById (withObjs g w) s = getElementById w s.
Proof.
  unfold getElementById, levels. cbn [nextNode withObjs].
  rewrite (subtree_nodes _ w (withObjs g w)) by reflexivity. reflexivity.
Qed.

Lemma filter_none (p : nid -> bool) l :
  (forall y, In y l -> p y = false) -> List.filter p l = [].
Proof.
  induction l as [|a l IH]; intros H; [reflexivity|]. simpl.
  rewrite (H a) by (left; reflexivity). apply IH. intros; apply H; right; assumption.
Qed.

Lemma filter_subtrees (p : nid -> bool) f w l :
  (forall k y, In k l -> below w k y -> p y = false) ->
  List.filter p (flat_map (subtree (S f) w) l) = List.filter p l.
Proof.
  induction l as [|k l IH]; intros H; [reflexivity|].
  cbn [flat_map]. rewrite List.filter_app.
  rewrite IH by (intros; eapply H; [right|]; eauto).
  change (subtree (S f) w k) with (k :: flat_map (subtree f w) (childNodes (node w k))).
  cbn [List.filter].
  rewrite (filter_none p (flat_map (subtree f w) (childNodes (node w k))))
    by (intros y Hy; apply (H k y); [left; reflexivity | apply (subtree_below f), Hy]).
  destruct (p k); reflexivity.
Qed.

(** * The structural invariant along each kind of step *)

Lemma ownedFilter_objs w W x : objs W = objs w -> ownedFilter w x -> ownedFilter W x.
Proof. intros Ho (k & ok & H1 & H2). exists k, ok. rewrite Ho. tauto. Qed.

Lemma InvS_sameShape w W : sameShape w W -> InvS w -> InvS W.
Proof.
  intros Hss [B BT K F O R S RT BI TP PL]. pose proof (grows_sameShape _ _ Hss) as Hg.
  destruct Hss as (Hn & Hi & Ho & Hs).
  assert (HR : registryNodes W = registryNodes w).
  { apply registryNodes_ext; [apply Hs | intros; apply Hs]. }
  assert (HD : forall d, goodDefs w d -> goodDefs W d).
  { intros d. apply goodDefs_transfer; [exact Hg|].
    intros x Hx. left. destruct (Hs d) as (_ & _ & Hk). rewrite Hk in Hx.
    split; [exact Hx|]. destruct (Hs x) as (_ & He & _). rewrite He.
    intros [?|?]; [left | right; eapply ownedFilter_objs]; eauto. }
  split.
  - lia.
  - destruct Hg as (_ & Hgs). destruct (Hgs body B) as (-> & _). exact BT.
  - intros n c Hc. destruct (Hs n) as (_ & _ & Hk). rewrite Hk in Hc.
    rewrite Hn. eauto.
  - intros i Hsome. rewrite Ho in Hsome. rewrite Hi. eauto.
  - intros i o Hio. rewrite Ho in Hio. eapply objOK_transfer; eauto.
  - intros c Hc. rewrite HR in Hc. destruct (R c Hc) as (Ht & d & Hq & Hgd).
    destruct (Hs c) as (Ht' & _ & Hk). split; [congruence|].
    exists d. split; [|auto].
    rewrite <- Hq. apply childByTag_ext; [exact Hk | intros; apply Hs].
  - rewrite HR. exact S.
  - intros n Hin. destruct (Hs n) as (_ & _ & Hk). rewrite Hk in Hin. exact (RT n Hin).
  - destruct (Hs body) as (_ & -> & _). exact BI.
  - intros n x Hin He. destruct (Hs n) as (_ & _ & Hk). rewrite Hk in Hin.
    destruct (Hs x) as (_ & Hx & _). rewrite Hx in He. eauto.
  - intros c k Hc Hk. rewrite HR in Hc. destruct (Hs c) as (_ & _ & Hkc). rewrite Hkc in Hk.
    apply (plain_transfer w); [| |eauto].
    + apply below_mono. intros n y. destruct (Hs n) as (_ & _ & ->). tauto.
    + intros n y _. apply Hs.
Qed.

Lemma InvS_fresh1 w W : fresh1 w W -> InvS w -> InvS W.
Proof.
  intros Hf [B BT K F O R S RT BI TP PL]. pose proof (grows_fresh1 _ _ Hf) as Hg.
  destruct Hf as (Hn & Hi & Ho & Hnew & Hs).
  assert (Hold : forall n c, In c (childNodes (node w n)) -> c <> nextNode w).
  { intros n c Hc. specialize (K n c Hc). lia. }
  assert (HR : registryNodes W = registryNodes w).
  { apply registryNodes_ext.
    - apply Hs. lia.
    - intros n Hin. apply Hs. eauto. }
  assert (HD : forall d, goodDefs w d -> goodDefs W d).
  { intros d Hd. pose proof Hd as (Hlt & _). revert Hd.
    apply goodDefs_transfer; [exact Hg|].
    intros x Hx. left. destruct (Hs d) as (_ & _ & Hk); [lia|]. rewrite Hk in Hx.
    split; [exact Hx|]. destruct (Hs x) as (_ & He & _); [eauto|]. rewrite He.
    intros [?|?]; [left | right; eapply ownedFilter_objs]; eauto. }
  split.
  - lia.
  - destruct Hg as (_ & Hgs). destruct (Hgs body B) as (-> & _). exact BT.
  - intros n c Hc. destruct (decide (n = nextNode w)) as [->|Hne].
    + rewrite Hnew in Hc. destruct Hc.
    + destruct (Hs n Hne) as (_ & _ & Hk). rewrite Hk in Hc.
      specialize (K n c Hc). lia.
  - intros i Hsome. rewrite Ho in Hsome. rewrite (proj1 Hi). eauto.
  - intros i o Hio. rewrite Ho in Hio. eapply objOK_transfer; eauto.
  - intros c Hc. rewrite HR in Hc. destruct (R c Hc) as (Ht & d & Hq & Hgd).
    apply In_registryNodes in Hc as (Hcb & _).
    destruct (Hs c) as (Ht' & _ & Hk); [eauto|]. split; [congruence|].
    exists d. split; [|auto].
    rewrite <- Hq. apply childByTag_ext; [exact Hk|].
    intros n Hin. apply Hs. eauto.
  - rewrite HR. exact S.
  - intros n Hin. destruct (decide (n = nextNode w)) as [->|Hne].
    + rewrite Hnew in Hin. destruct Hin.
    + destruct (Hs n Hne) as (_ & _ & Hk). rewrite Hk in Hin. exact (RT n Hin).
  - destruct (Hs body) as (_ & -> & _); [lia | exact BI].
  - intros n x Hin He. destruct (decide (n = nextNode w)) as [->|Hne].
    + rewrite Hnew in Hin. destruct Hin.
    + destruct (Hs n Hne) as (_ & _ & Hk). rewrite Hk in Hin.
      destruct (Hs x) as (_ & Hx & _); [eauto|]. rewrite Hx in He. eauto.
  - intros c k Hc Hk. rewrite HR in Hc. pose proof Hc as Hc'.
    apply In_registryNodes in Hc' as (Hcb & _).
    destruct (Hs c) as (_ & _ & Hkc); [eauto|]. rewrite Hkc in Hk.
    apply (plain_transfer w); [| |eauto].
    + apply below_mono. intros n y Hy. destruct (decide (n = nextNode w)) as [->|Hne].
      * rewrite Hnew in Hy. destruct Hy.
      * destruct (Hs n Hne) as (_ & _ & E). rewrite <- E. exact Hy.
    + intros n y Hy. apply Hs. eauto.
Qed.

Lemma InvS_removed x w W :
  removed x w W -> tagName (node w x) <> "defs" -> InvS w -> InvS W.
Proof.
  intros Hr Htx [B BT K F O R S RT BI TP PL]. pose proof (grows_removed _ _ _ Hr) as Hg.
  destruct Hr as (Hn & Hi & Ho & Hs).
  assert (HR : registryNodes W = without x (registryNodes w)).
  { unfold registryNodes. destruct (Hs body) as (_ & _ & Hk). rewrite Hk.
    rewrite <- filter_without. apply filter_ext. intros n.
    destruct (Hs n) as (_ & He & _). rewrite He. reflexivity. }
  assert (HD : forall d, goodDefs w d -> goodDefs W d).
  { intros d. apply goodDefs_transfer; [exact Hg|].
    intros y Hy. left. destruct (Hs d) as (_ & _ & Hk). rewrite Hk in Hy.
    apply In_without in Hy as (Hy & _).
    split; [exact Hy|]. destruct (Hs y) as (_ & He & _). rewrite He.
    intros [?|?]; [left | right; eapply ownedFilter_objs]; eauto. }
  split.
  - lia.
  - destruct Hg as (_ & Hgs). destruct (Hgs body B) as (-> & _). exact BT.
  - intros n c Hc. destruct (Hs n) as (_ & _ & Hk). rewrite Hk in Hc.
    apply In_without in Hc as (Hc & _). rewrite Hn. eauto.
  - intros i Hsome. rewrite Ho in Hsome. rewrite (proj1 Hi). eauto.
  - intros i o Hio. rewrite Ho in Hio. eapply objOK_transfer; eauto.
  - intros c Hc. rewrite HR in Hc. apply In_without in Hc as (Hc & _).
    destruct (R c Hc) as (Ht & d & Hq & Hgd).
    destruct (Hs c) as (Ht' & _ & Hk). split; [congruence|].
    exists d. split; [|auto].
    rewrite <- Hq. unfold childByTag. rewrite Hk.
    rewrite find_without.
    + apply find_ext_in. intros n _. destruct (Hs n) as (Htn & _). rewrite Htn. reflexivity.
    + destruct (Hs x) as (Htn & _). rewrite Htn. apply String.eqb_neq. exact Htx.
  - rewrite HR. pose proof (length_without x (registryNodes w)). lia.
  - intros n Hin. destruct (Hs n) as (_ & _ & Hk). rewrite Hk in Hin.
    apply In_without in Hin as (Hin & _). exact (RT n Hin).
  - destruct (Hs body) as (_ & -> & _). exact BI.
  - intros n y Hin He. destruct (Hs n) as (_ & _ & Hk). rewrite Hk in Hin.
    apply In_without in Hin as (Hin & _).
    destruct (Hs y) as (_ & Hy & _). rewrite Hy in He. eauto.
  - intros c k Hc Hk. rewrite HR in Hc. apply In_without in Hc as (Hc & _).
    destruct (Hs c) as (_ & _ & Hkc). rewrite Hkc in Hk. apply In_without in Hk as (Hk & _).
    apply (plain_transfer w); [| |eauto].
    + apply below_mono. intros n y. destruct (Hs n) as (_ & _ & ->).
      rewrite In_without. tauto.
    + intros n y _. apply Hs.
Qed.

Lemma registryNodes_pushed p x w W :
  pushed p x w W -> elemId (node w x) <> registryId ->
  registryNodes W = registryNodes w.
Proof.
  intros (_ & _ & _ & Hs & Hk & Hp) Hx.
  assert (Hd : String.eqb (elemId (node w x)) registryId = false)
    by (apply String.eqb_neq; exact Hx).
  destruct (decide (body = p)) as [<-|Hne].
  - unfold registryNodes.
    rewrite (filter_ext _ (fun n => String.eqb (elemId (node w n)) registryId))
      by (intros n; destruct (Hs n) as (_ & ->); reflexivity).
    destruct Hp as [-> | ->].
    + simpl. rewrite Hd. reflexivity.
    + rewrite List.filter_app. simpl. rewrite Hd. apply app_nil_r.
  - apply registryNodes_ext; [apply Hk; congruence | intros; apply Hs].
Qed.

Lemma childByTag_pushed p x w W c :
  pushed p x w W -> tagName (node w x) <> "defs" ->
  childByTag W c "defs" = childByTag w c "defs".
Proof.
  intros (_ & _ & _ & Hs & Hk & Hp) Hx.
  assert (Hd : String.eqb (tagName (node w x)) "defs" = false)
    by (apply String.eqb_neq; exact Hx).
  destruct (decide (c = p)) as [->|Hne].
  - unfold childByTag.
    rewrite (find_ext_in _ (fun n => String.eqb (tagName (node w n)) "defs"))
      by (intros n _; destruct (Hs n) as (-> & _); reflexivity).
    destruct Hp as [-> | ->].
    + simpl. rewrite Hd. reflexivity.
    + apply find_snoc_false. exact Hd.
  - apply childByTag_ext; [apply Hk; exact Hne | intros; apply Hs].
Qed.

Lemma InvS_pushed p x w W :
  pushed p x w W -> attachable w x -> InvS w -> InvS W.
Proof.
  intros Hp (Hx1 & Hx2 & Hx3 & Hx4 & Hx5 & Hx6) [B BT K F O R S RT BI TP PL].
  pose proof (grows_pushed _ _ _ _ Hp) as Hg.
  pose proof (registryNodes_pushed _ _ _ _ Hp Hx3) as HR.
  pose proof (fun c => childByTag_pushed _ _ _ _ c Hp Hx2) as HQ.
  destruct Hp as (Hn & Hi & Ho & Hs & Hk & Hpp).
  assert (Hin : forall n c, In c (childNodes (node W n)) ->
                            In c (childNodes (node w n)) \/ c = x).
  { intros n c Hc. destruct (decide (n = p)) as [->|Hne].
    - destruct Hpp as [E|E]; rewrite E in Hc.
      + destruct Hc; [right; congruence | left; assumption].
      + apply in_app_or in Hc as [?|[?|[]]]; [left; assumption | right; congruence].
    - rewrite Hk in Hc by assumption. left; assumption. }
  assert (Hown : forall y, elemId (node w y) = "" \/ ownedFilter w y ->
                           elemId (node W y) = "" \/ ownedFilter W y).
  { intros y. destruct (Hs y) as (_ & ->).
    intros [?|?]; [left | right; eapply ownedFilter_objs]; eauto. }
  assert (HD : forall d, goodDefs w d -> goodDefs W d).
  { intros d. apply goodDefs_transfer; [exact Hg|].
    intros y Hy. destruct (Hin d y Hy) as [Hold | ->].
    - left. split; [exact Hold | apply Hown].
    - right. apply Hown, Hx4. }
  split.
  - lia.
  - destruct Hg as (_ & Hgs). destruct (Hgs body B) as (-> & _). exact BT.
  - intros n c Hc. rewrite Hn. destruct (Hin n c Hc) as [Hold | ->]; eauto.
  - intros i Hsome. rewrite Ho in Hsome. rewrite (proj1 Hi). eauto.
  - intros i o Hio. rewrite Ho in Hio. eapply objOK_transfer; eauto.
  - intros c Hc. rewrite HR in Hc. destruct (R c Hc) as (Ht & d & Hq & Hgd).
    destruct (Hs c) as (Ht' & _). split; [congruence|].
    exists d. rewrite HQ. auto.
  - rewrite HR. exact S.
  - intros n Hb. destruct (Hin n body Hb) as [Hold | E]; [exact (RT n Hold)|].
    apply Hx5. rewrite <- E. exact BT.
  - destruct (Hs body) as (_ & ->). exact BI.
  - intros n y Hy He. destruct (Hs y) as (_ & Hey). rewrite Hey in He.
    destruct (Hin n y Hy) as [Hold | ->]; [eauto | contradiction].
  - intros c k Hc Hck. rewrite HR in Hc. intros y Hb. destruct (Hs y) as (-> & _).
    destruct (below_pushed x w W Hin k y Hb) as [Hb'|[->|Hb']].
    + destruct (Hin c k Hck) as [Hold | ->]; [exact (PL c k Hc Hold y Hb') | exact (Hx6 y Hb')].
    + exact Hx2.
    + exact (Hx6 y Hb').
Qed.

Lemma registryNodes_nodes w W :
  (forall n, node W n = node w n) -> registryNodes W = registryNodes w.
Proof.
  intros Hs. apply registryNodes_ext; [rewrite Hs; reflexivity|].
  intros n _. rewrite Hs. reflexivity.
Qed.

Lemma childByTag_nodes w W c t :
  (forall n, node W n = node w n) -> childByTag W c t = childByTag w c t.
Proof.
  intros Hs. apply childByTag_ext; [rewrite Hs; reflexivity|].
  intros n _. rewrite Hs. reflexivity.
Qed.

Lemma lookup_altered i g w W j :
  altered i g w W ->
  objs W !! j = if decide (j = i) then g <$> objs w !! i else objs w !! j.
Proof.
  intros (_ & _ & Ho & _). rewrite Ho, lookup_alter.
  destruct (decide (i = j)), (decide (j = i)); subst; try congruence; reflexivity.
Qed.

(** An update of a field other than [filter]. *)
Lemma InvS_altered i g w W :
  altered i g w W ->
  (forall o, this_filter (g o) = this_filter o) ->
  (forall o, objs w !! i = Some o -> objOK w o -> objOK w (g o)) ->
  InvS w -> InvS W.
Proof.
  intros Ha Hf Hok [B BT K F O R S RT BI TP PL].
  pose proof (grows_altered _ _ _ _ Ha) as Hg.
  pose proof (fun j => lookup_altered _ _ _ _ j Ha) as HL.
  destruct Ha as (Hn & Hi & Ho & Hs).
  pose proof (registryNodes_nodes _ _ Hs) as HR.
  assert (Hown : forall y, ownedFilter w y -> ownedFilter W y).
  { intros y (k & ok & H1 & H2). destruct (decide (k = i)) as [->|Hne].
    - exists i, (g ok). rewrite HL, decide_True, H1 by reflexivity.
      split; [reflexivity|]. rewrite Hf. exact H2.
    - exists k, ok. rewrite HL, decide_False by assumption. tauto. }
  assert (HD : forall d, goodDefs w d -> goodDefs W d).
  { intros d. apply goodDefs_transfer; [exact Hg|].
    intros y Hy. left. rewrite Hs in Hy. split; [exact Hy|]. rewrite Hs.
    intros [?|?]; [left | right]; auto. }
  split.
  - lia.
  - destruct Hg as (_ & Hgs). destruct (Hgs body B) as (-> & _). exact BT.
  - intros n c Hc. rewrite Hs in Hc. rewrite Hn. eauto.
  - intros j Hsome. rewrite (proj1 Hi). apply F. rewrite HL in Hsome.
    case_decide; [subst j|exact Hsome].
    destruct (objs w !! i); [eauto | simpl in Hsome; destruct Hsome; discriminate].
  - intros j o Hjo. rewrite HL in Hjo.
    case_decide; [subst j|eapply objOK_transfer; eauto].
    destruct (objs w !! i) as [o0|] eqn:E; [|discriminate].
    simpl in Hjo. injection Hjo as <-. eapply objOK_transfer; eauto.
  - intros c Hc. rewrite HR in Hc. destruct (R c Hc) as (Ht & d & Hq & Hgd).
    rewrite Hs. split; [exact Ht|]. exists d.
    rewrite (childByTag_nodes _ _ _ _ Hs). auto.
  - rewrite HR. exact S.
  - intros n. rewrite Hs. apply RT.
  - rewrite Hs. exact BI.
  - intros n x. rewrite !Hs. apply TP.
  - intros c k Hc Hk. rewrite HR in Hc. rewrite Hs in Hk.
    apply (plain_transfer w); [| |eauto].
    + apply below_nodes, Hs.
    + intros n y _. rewrite Hs. reflexivity.
Qed.

(** The update [this.filter = f], once the previous filter has left the
    document. *)
Lemma InvS_altered_filter i f w W :
  altered i (with_filter (Some f)) w W ->
  (f < nextNode w)%positive -> tagName (node w f) = "filter" ->
  (forall o, objs w !! i = Some o ->
     elemId (node w f) = this_id o /\
     forall f0 n, this_filter o = Some f0 -> ~ In f0 (childNodes (node w n))) ->
  InvS w -> InvS W.
Proof.
  intros Ha Hlt Htag Hi0 [B BT K F O R S RT BI TP PL].
  pose proof (grows_altered _ _ _ _ Ha) as Hg.
  pose proof (fun j => lookup_altered _ _ _ _ j Ha) as HL.
  destruct Ha as (Hn & Hi & Ho & Hs).
  pose proof (registryNodes_nodes _ _ Hs) as HR.
  assert (Hown : forall y n, In y (childNodes (node w n)) ->
                             ownedFilter w y -> ownedFilter W y).
  { intros y n Hy (k & ok & H1 & H2). destruct (decide (k = i)) as [->|Hne].
    - destruct (Hi0 ok H1) as (_ & Hun). exfalso. eapply Hun; eauto.
    - exists k, ok. rewrite HL, decide_False by assumption. tauto. }
  assert (HD : forall d, goodDefs w d -> goodDefs W d).
  { intros d. apply goodDefs_transfer; [exact Hg|].
    intros y Hy. left. rewrite Hs in Hy. split; [exact Hy|]. rewrite Hs.
    intros [?|?]; [left | right]; eauto. }
  split.
  - lia.
  - destruct Hg as (_ & Hgs). destruct (Hgs body B) as (-> & _). exact BT.
  - intros n c Hc. rewrite Hs in Hc. rewrite Hn. eauto.
  - intros j Hsome. rewrite (proj1 Hi). apply F. rewrite HL in Hsome.
    case_decide; [subst j|exact Hsome].
    destruct (objs w !! i); [eauto | simpl in Hsome; destruct Hsome; discriminate].
  - intros j o Hjo. rewrite HL in Hjo.
    case_decide; [subst j|eapply objOK_transfer; eauto].
    destruct (objs w !! i) as [o0|] eqn:E; [|discriminate].
    simpl in Hjo. injection Hjo as <-.
    destruct (Hi0 o0 eq_refl) as (Hid & _).
    pose proof (objOK_transfer _ _ _ Hg HD (O i o0 E)) as [H2 H3 H4 H5 H6].
    split; try assumption.
    simpl. intros f' [= <-]. rewrite Hs, Hn. auto.
  - intros c Hc. rewrite HR in Hc. destruct (R c Hc) as (Ht & d & Hq & Hgd).
    rewrite Hs. split; [exact Ht|]. exists d.
    rewrite (childByTag_nodes _ _ _ _ Hs). auto.
  - rewrite HR. exact S.
  - intros n. rewrite Hs. apply RT.
  - rewrite Hs. exact BI.
  - intros n x. rewrite !Hs. apply TP.
  - intros c k Hc Hk. rewrite HR in Hc. rewrite Hs in Hk.
    apply (plain_transfer w); [| |eauto].
    + apply below_nodes, Hs.
    + intros n y _. rewrite Hs. reflexivity.
Qed.

(** * Steps that leave the registry alone *)

Lemma sameCore_refl o : sameCore o o.
Proof. repeat split. Qed.

Lemma sameCore_trans o1 o2 o3 : sameCore o1 o2 -> sameCore o2 o3 -> sameCore o1 o3.
Proof.
  intros (A1 & A2 & A3 & A4 & A5 & A6) (B1 & B2 & B3 & B4 & B5 & B6).
  repeat split; congruence.
Qed.

Lemma keeps_refl S w : keeps S w w.
Proof.
  split; [tauto|]. split; [reflexivity|]. split; [|tauto].
  intros j o _ Hj. exists o. split; [exact Hj | apply sameCore_refl].
Qed.

Lemma keeps_trans S w1 w2 w3 : keeps S w1 w2 -> keeps S w2 w3 -> keeps S w1 w3.
Proof.
  intros ((R1 & N1) & Q1 & O1 & D1) ((R2 & N2) & Q2 & O2 & D2).
  split; [split; congruence|]. split; [|split].
  - intros c Hc. rewrite Q2 by (rewrite R1; exact Hc). apply Q1, Hc.
  - intros j o Hj Ho. destruct (O1 j o Hj Ho) as (o1 & Ho1 & E1).
    destruct (O2 j o1 Hj Ho1) as (o2 & Ho2 & E2).
    exists o2. split; [exact Ho2 | eapply sameCore_trans; eauto].
  - auto.
Qed.

Lemma keeps_weaken (S S' : iid -> Prop) w W :
  (forall j, S' j -> S j) -> keeps S w W -> keeps S' w W.
Proof.
  intros HS (R & Q & O & D). split; [exact R|]. split; [exact Q|].
  split; [|exact D]. intros j o Hj. apply O, HS, Hj.
Qed.

Lemma keeps_objs S w W :
  objs W = objs w -> instances W = instances w ->
  registryNodes W = registryNodes w ->
  (forall c, In c (registryNodes w) ->
     childByTag W c "defs" = childByTag w c "defs") ->
  keeps S w W.
Proof.
  intros Ho Hi HR HQ. split; [tauto|]. split; [exact HQ|]. rewrite Ho.
  split; [|tauto].
  intros j o _ Hj. exists o. split; [exact Hj | apply sameCore_refl].
Qed.

Lemma keeps_sameShape S w W :
  sameShape w W -> instances W = instances w -> keeps S w W.
Proof.
  intros (_ & _ & Ho & Hs) Hi. apply keeps_objs; [exact Ho | exact Hi | |].
  - apply registryNodes_ext; [apply Hs | intros; apply Hs].
  - intros c _. apply childByTag_ext; [apply Hs | intros; apply Hs].
Qed.

Lemma keeps_fresh1 S w W : fresh1 w W -> InvS w -> keeps S w W.
Proof.
  intros (_ & (_ & Hi) & Ho & _ & Hs) [B _ K _ _ _ _].
  assert (Hold : forall n c, In c (childNodes (node w n)) -> c <> nextNode w).
  { intros n c Hc. specialize (K n c Hc). lia. }
  apply keeps_objs; [exact Ho | exact Hi | |].
  - apply registryNodes_ext; [apply Hs; lia | intros n Hin; apply Hs; eauto].
  - intros c Hc. apply In_registryNodes in Hc as (Hcb & _).
    apply childByTag_ext; [apply Hs; eauto | intros n Hin; apply Hs; eauto].
Qed.

Lemma keeps_removed S x w W :
  removed x w W -> tagName (node w x) <> "defs" -> elemId (node w x) <> registryId ->
  keeps S w W.
Proof.
  intros (_ & (_ & Hi) & Ho & Hs) Ht He. apply keeps_objs; [exact Ho | exact Hi | |].
  - transitivity (without x (registryNodes w)).
    + unfold registryNodes. destruct (Hs body) as (_ & _ & Hk). rewrite Hk.
      rewrite <- filter_without. apply filter_ext. intros n.
      destruct (Hs n) as (_ & -> & _). reflexivity.
    + apply without_notin. rewrite In_registryNodes. tauto.
  - intros c _. unfold childByTag. destruct (Hs c) as (_ & _ & ->).
    rewrite find_without.
    + apply find_ext_in. intros n _. destruct (Hs n) as (-> & _). reflexivity.
    + destruct (Hs x) as (-> & _). apply String.eqb_neq. exact Ht.
Qed.

Lemma keeps_pushed S p x w W : pushed p x w W -> attachable w x -> keeps S w W.
Proof.
  intros Hp (_ & Ht & He & _). pose proof Hp as (_ & (_ & Hi) & Ho & _).
  apply keeps_objs; [exact Ho | exact Hi | |].
  - eapply registryNodes_pushed; eauto.
  - intros c _. eapply childByTag_pushed; eauto.
Qed.

Lemma keeps_altered S i g w W :
  altered i g w W -> (forall o, sameCore o (g o)) -> keeps S w W.
Proof.
  intros Ha Hg. pose proof (fun j => lookup_altered _ _ _ _ j Ha) as HL.
  destruct Ha as (_ & (_ & Hi) & _ & Hs).
  split; [split; [apply registryNodes_nodes, Hs | exact Hi]|].
  split; [intros; apply childByTag_nodes, Hs|].
  split; [|intros j Hj; rewrite HL; case_decide; [subst j; rewrite Hj; reflexivity | exact Hj]].
  intros j o _ Hj. rewrite HL.
  case_decide; [subst j|exists o; split; [exact Hj | apply sameCore_refl]].
  rewrite Hj. exists (g o). split; [reflexivity|]. apply Hg.
Qed.

Lemma keeps_altered_other (S : iid -> Prop) i g w W :
  altered i g w W -> ~ S i -> keeps S w W.
Proof.
  intros Ha Hi'. pose proof (fun j => lookup_altered _ _ _ _ j Ha) as HL.
  destruct Ha as (_ & (_ & Hi) & _ & Hs).
  split; [split; [apply registryNodes_nodes, Hs | exact Hi]|].
  split; [intros; apply childByTag_nodes, Hs|].
  split; [|intros j Hj; rewrite HL; case_decide; [subst j; rewrite Hj; reflexivity | exact Hj]].
  intros j o Hin Hj. rewrite HL. case_decide; [subst j; contradiction|].
  exists o. split; [exact Hj | apply sameCore_refl].
Qed.

(** * The store operations as steps *)

Ltac frame := prims; autorewrite with frame.

(** Case analysis on every comparison of identities, where arithmetic
    closes the impossible cases. *)
Ltac decide_all :=
  repeat (case_decide; [try (exfalso; lia) | try (exfalso; lia)]).

Ltac shape_tac :=
  repeat split; prims; autorewrite with frame; try reflexivity;
  intros; autorewrite with nodes; repeat case_decide; subst; simpl;
  try reflexivity; try congruence; try tauto.

Lemma sameShape_refl w : sameShape w w.
Proof. repeat split. Qed.

Lemma sameShape_trans w1 w2 w3 : sameShape w1 w2 -> sameShape w2 w3 -> sameShape w1 w3.
Proof.
  intros (A1 & B1 & C1 & D1) (A2 & B2 & C2 & D2).
  split; [congruence|]. split; [congruence|]. split; [congruence|].
  intros n. destruct (D1 n) as (? & ? & ?), (D2 n) as (? & ? & ?).
  repeat split; congruence.
Qed.

Lemma sameShape_setStyle n p v w : sameShape w (setStyle n p v w).
Proof. shape_tac. Qed.

Lemma sameShape_setCssText n l w : sameShape w (setCssText n l w).
Proof. shape_tac. Qed.

Lemma sameShape_setClassName n c w : sameShape w (setClassName n c w).
Proof. shape_tac. Qed.

Lemma sameShape_setAttribute n k v w : sameShape w (setAttribute n k v w).
Proof. shape_tac. Qed.

Lemma sameShape_setInnerHTML n l w : sameShape w (setInnerHTML n l w).
Proof. shape_tac. Qed.

Lemma sameShape_consoleLog e w : sameShape w (consoleLog e w).
Proof. shape_tac. Qed.

Lemma sameShape_withInstances f w : sameShape w (withInstances f w).
Proof. shape_tac. Qed.

Lemma sameShape_restoreStyles e s w : sameShape w (restoreStyles e s w).
Proof.
  unfold restoreStyles.
  repeat (eapply sameShape_trans; [|apply sameShape_setStyle]). apply sameShape_refl.
Qed.

Lemma sameShape_styledW h o b w : sameShape w (styledW h o b w).
Proof.
  unfold styledW. destruct b;
  repeat (eapply sameShape_trans; [|apply sameShape_setStyle]); apply sameShape_refl.
Qed.

Lemma removed_removeNode x w : removed x w (removeNode x w).
Proof. shape_tac. Qed.

(** Removing a node that has no parent changes nothing. *)
Lemma sameShape_removeNode x w :
  (forall n, ~ In x (childNodes (node w n))) -> sameShape w (removeNode x w).
Proof.
  intros Hx. repeat split; autorewrite with nodes; try reflexivity.
  simpl. apply without_notin, Hx.
Qed.

Lemma fresh1_createElement tag w : fresh1 w (snd (createElement tag w)).
Proof. shape_tac. Qed.

Lemma pushed_cons p x w : pushed p x w (modNode p (withChildren (fun l => x :: l)) w).
Proof. shape_tac. Qed.

Lemma pushed_snoc p x w :
  pushed p x w (modNode p (withChildren (fun l => (l ++ [x])%list)) w).
Proof. shape_tac. Qed.

Lemma altered_withObjs i g w : altered i g w (withObjs (alter g i) w).
Proof. repeat split. Qed.

Lemma forEach_liftChild_instances h l w :
  instances (snd (forEach (liftChild h) l w)) = instances w.
Proof.
  revert w. induction l as [|c l IH]; intros w; [reflexivity|].
  cbn [forEach]. unfold liftChild at 1. js_run.
  destruct (_ =? "static"); js_run; destruct (orb _ _); js_run;
    rewrite IH; reflexivity.
Qed.

Lemma forEach_liftChild_sameShape h l w :
  sameShape w (snd (forEach (liftChild h) l w)).
Proof.
  revert w. induction l as [|c l IH]; intros w; [apply sameShape_refl|].
  cbn [forEach]. unfold liftChild at 1. js_run.
  destruct (_ =? "static"); js_run; destruct (orb _ _); js_run;
    (eapply sameShape_trans; [|apply IH]);
    repeat (eapply sameShape_trans; [|apply sameShape_setStyle]); apply sameShape_refl.
Qed.

(** * Safe steps *)

Lemma grows_refl w : grows w w.
Proof. split; [lia | tauto]. Qed.

Lemma grows_trans w1 w2 w3 : grows w1 w2 -> grows w2 w3 -> grows w1 w3.
Proof.
  intros (A1 & B1) (A2 & B2). split; [lia|].
  intros n Hn. destruct (B1 n Hn) as (? & ?), (B2 n) as (? & ?); [lia|].
  split; congruence.
Qed.

Lemma safe_refl S w : InvS w -> safe S w w.
Proof. intros H. split; [exact H|]. split; [apply keeps_refl | apply grows_refl]. Qed.

Lemma safe_trans S w1 w2 w3 : safe S w1 w2 -> safe S w2 w3 -> safe S w1 w3.
Proof.
  intros (_ & K1 & G1) (I2 & K2 & G2). split; [exact I2|].
  split; [eapply keeps_trans | eapply grows_trans]; eauto.
Qed.

Lemma safe_InvS S w W : safe S w W -> InvS W.
Proof. intros H; apply H. Qed.

Lemma safe_sameShape S w W :
  sameShape w W -> instances W = instances w -> InvS w -> safe S w W.
Proof.
  intros H Hi I. split; [eapply InvS_sameShape; eauto|].
  split; [apply keeps_sameShape | apply grows_sameShape]; assumption.
Qed.

Lemma safe_fresh1 S w W : fresh1 w W -> InvS w -> safe S w W.
Proof.
  intros H I. split; [eapply InvS_fresh1; eauto|].
  split; [apply keeps_fresh1 | apply grows_fresh1]; assumption.
Qed.

Lemma safe_removeNode S x w :
  InvS w -> tagName (node w x) <> "defs" -> elemId (node w x) <> registryId ->
  safe S w (removeNode x w).
Proof.
  intros I Ht He. pose proof (removed_removeNode x w) as H.
  split; [eapply InvS_removed; eauto|].
  split; [eapply keeps_removed | eapply grows_removed]; eauto.
Qed.

Lemma attachable_isDiv w x : isDiv w x -> plain w x -> attachable w x.
Proof.
  intros (Hlt & Ht & He) P. split; [exact Hlt|]. rewrite Ht, He.
  split; [discriminate|]. split; [discriminate|]. split; [left; reflexivity|].
  split; [discriminate | exact P].
Qed.

Lemma plain_removeNode x y w : plain w x -> plain (removeNode y w) x.
Proof.
  apply plain_transfer.
  - apply below_mono. intros n z. rewrite node_removeNode. simpl.
    rewrite In_without. tauto.
  - intros n z _. rewrite node_removeNode. reflexivity.
Qed.

Lemma attachable_removeNode x y w : attachable w x -> attachable (removeNode y w) x.
Proof.
  intros (Hlt & Ht & He & Ho & Hb & P). unfold attachable.
  rewrite node_removeNode. simpl. repeat split; try assumption.
  apply plain_removeNode, P.
Qed.

Lemma plain_fresh1 w W x : fresh1 w W -> InvS w -> plain w x -> plain W x.
Proof.
  intros (_ & _ & _ & Hnew & Hs) I. apply plain_transfer.
  - apply below_mono. intros n y Hy. destruct (decide (n = nextNode w)) as [->|Hne].
    + rewrite Hnew in Hy. destruct Hy.
    + destruct (Hs n Hne) as (_ & _ & E). rewrite <- E. exact Hy.
  - intros n y Hy. apply Hs. pose proof (inv_kids _ I n y Hy). lia.
Qed.

Lemma plain_fresh1_new w W : fresh1 w W -> plain W (nextNode w).
Proof. intros (_ & _ & _ & Hnew & _). apply plain_leaf, Hnew. Qed.

Lemma plain_snoc p x a w :
  tagName (node w x) <> "defs" -> plain w x -> plain w a ->
  plain (modNode p (withChildren (fun l => (l ++ [x])%list)) w) a.
Proof.
  intros Ht Px Pa y Hb.
  assert (Htag : forall n, tagName (node (modNode p (withChildren (fun l => (l ++ [x])%list)) w) n)
                           = tagName (node w n)).
  { intros n. rewrite node_modNode. case_decide; subst; reflexivity. }
  rewrite Htag.
  apply (below_pushed x w) in Hb.
  - destruct Hb as [Hb|[->|Hb]]; [exact (Pa y Hb) | exact Ht | exact (Px y Hb)].
  - intros n z. rewrite node_modNode. case_decide; [subst n|tauto].
    simpl. rewrite in_app_iff. simpl. intuition.
Qed.

Lemma safe_pushed S p x w W : pushed p x w W -> attachable w x -> InvS w -> safe S w W.
Proof.
  intros H A I. split; [eapply InvS_pushed; eauto|].
  split; [eapply keeps_pushed | eapply grows_pushed]; eauto.
Qed.

Lemma safe_insertFirst S p x w :
  InvS w -> attachable w x -> safe S w (insertFirst p x w).
Proof.
  intros I A. pose proof A as (_ & Ht & He & _).
  eapply safe_trans; [apply safe_removeNode; eassumption|].
  unfold insertFirst. eapply safe_pushed.
  - apply pushed_cons.
  - apply attachable_removeNode, A.
  - eapply InvS_removed; [apply removed_removeNode | |]; eassumption.
Qed.

Lemma safe_appendChild S p x w :
  InvS w -> attachable w x -> safe S w (appendChild p x w).
Proof.
  intros I A. pose proof A as (_ & Ht & He & _).
  eapply safe_trans; [apply safe_removeNode; eassumption|].
  unfold appendChild. eapply safe_pushed.
  - apply pushed_snoc.
  - apply attachable_removeNode, A.
  - eapply InvS_removed; [apply removed_removeNode | |]; eassumption.
Qed.

Lemma safe_altered S i g w W :
  altered i g w W ->
  (forall o, this_filter (g o) = this_filter o /\ sameCore o (g o)) ->
  (forall o, objs w !! i = Some o -> objOK w o -> objOK w (g o)) ->
  InvS w -> safe S w W.
Proof.
  intros Ha Hg Hok I. split; [eapply InvS_altered; eauto; intros; apply Hg|].
  split; [eapply keeps_altered | eapply grows_altered]; eauto. intros; apply Hg.
Qed.

Lemma objOK_with_overlayContainer w o x :
  objOK w o -> isDiv w x -> objOK w (with_overlayContainer (Some x) o).
Proof.
  intros [H2 H3 H4 H5 H6] Hx. split; try assumption.
  simpl. intros y [= <-]. exact Hx.
Qed.

Lemma objOK_with_firefoxBg w o x :
  objOK w o -> isDiv w x -> objOK w (with_firefoxBg (Some x) o).
Proof.
  intros [H2 H3 H4 H5 H6] Hx. split; try assumption.
  simpl. intros y [= <-]. exact Hx.
Qed.

Lemma objOK_with_options w o v : objOK w o -> objOK w (with_options v o).
Proof. intros [H2 H3 H4 H5 H6]. split; assumption. Qed.

(** A [div] created and styled: it has no id and no parent. *)
Lemma fresh1_div cls css w :
  fresh1 w (setCssText (nextNode w) css
              (setClassName (nextNode w) cls (snd (createElement "div" w)))).
Proof. shape_tac. Qed.

Lemma isDiv_div cls css w :
  isDiv (setCssText (nextNode w) css
           (setClassName (nextNode w) cls (snd (createElement "div" w))))
        (nextNode w).
Proof.
  unfold isDiv. prims. autorewrite with frame nodes.
  rewrite !decide_True by reflexivity. simpl. repeat split. lia.
Qed.

Lemma layer_safe S oc cls css w : InvS w -> safe S w (layerW oc cls css w).
Proof.
  intros I. unfold layerW.
  eapply safe_trans; [apply safe_fresh1; [apply fresh1_div | exact I]|].
  apply safe_appendChild.
  - eapply InvS_fresh1; [apply fresh1_div | exact I].
  - apply attachable_isDiv; [apply isDiv_div|].
    apply plain_fresh1_new, fresh1_div.
Qed.

Lemma plain_layerW oc cls css w :
  InvS w -> plain w oc -> plain (layerW oc cls css w) oc.
Proof.
  intros I P. unfold layerW, appendChild.
  pose proof (fresh1_div cls css w) as F.
  destruct (isDiv_div cls css w) as (_ & Ht & _).
  apply plain_snoc.
  - rewrite node_removeNode. cbn [tagName withChildren]. rewrite Ht. discriminate.
  - apply plain_removeNode, (plain_fresh1_new _ _ F).
  - apply plain_removeNode, (plain_fresh1 _ _ _ F I P).
Qed.

Lemma objs_layerW oc cls css w : objs (layerW oc cls css w) = objs w.
Proof. reflexivity. Qed.

Lemma overlays_finish S i e oc w W :
  safe S w W -> isDiv W oc -> plain W oc ->
  safe S w (withObjs (alter (with_overlayContainer (Some oc)) i) (insertFirst e oc W)).
Proof.
  intros SW D P.
  assert (S4 : safe S W (insertFirst e oc W)).
  { apply safe_insertFirst; [apply SW | apply attachable_isDiv; [exact D | exact P]]. }
  eapply safe_trans; [exact SW|]. eapply safe_trans; [exact S4|].
  eapply safe_altered; [apply altered_withObjs | intros; repeat split | | apply S4].
  intros o' Ho' Hok. apply objOK_with_overlayContainer; [exact Hok|].
  eapply isDiv_grows; [apply S4 | exact D].
Qed.

Lemma overlays_safe S i o w : InvS w -> safe S w (overlaysW i o w).
Proof.
  intros I. unfold overlaysW. cbv zeta.
  pose proof (safe_fresh1 S _ _ (fresh1_div "chromatic-blur-overlays" overlayCss w) I) as S1.
  pose proof (isDiv_div "chromatic-blur-overlays" overlayCss w) as D1.
  pose proof (plain_fresh1_new _ _ (fresh1_div "chromatic-blur-overlays" overlayCss w)) as P1.
  destruct (truthy (this_options o !! "addNoise")),
           (truthy (this_options o !! "addOverlay")).
  - pose proof (layer_safe S (nextNode w) "chromatic-blur-noise" noiseCss _
                  (safe_InvS _ _ _ S1)) as S2.
    pose proof (layer_safe S (nextNode w) "chromatic-blur-gradient" gradientCss _
                  (safe_InvS _ _ _ S2)) as S3.
    apply overlays_finish.
    + eapply safe_trans; [exact S1|]. eapply safe_trans; [exact S2 | exact S3].
    + eapply isDiv_grows; [|exact D1]. eapply grows_trans; [apply S2 | apply S3].
    + apply plain_layerW; [apply S2|]. apply plain_layerW; [apply S1 | exact P1].
  - pose proof (layer_safe S (nextNode w) "chromatic-blur-noise" noiseCss _
                  (safe_InvS _ _ _ S1)) as S2.
    apply overlays_finish.
    + eapply safe_trans; [exact S1 | exact S2].
    + eapply isDiv_grows; [apply S2 | exact D1].
    + apply plain_layerW; [apply S1 | exact P1].
  - pose proof (layer_safe S (nextNode w) "chromatic-blur-gradient" gradientCss _
                  (safe_InvS _ _ _ S1)) as S2.
    apply overlays_finish.
    + eapply safe_trans; [exact S1 | exact S2].
    + eapply isDiv_grows; [apply S2 | exact D1].
    + apply plain_layerW; [apply S1 | exact P1].
  - apply overlays_finish; assumption.
Qed.

Lemma instances_styledW h o b w : instances (styledW h o b w) = instances w.
Proof. unfold styledW. destruct b; reflexivity. Qed.

Lemma fresh1_probedW h w : fresh1 w (probedW h w).
Proof. unfold probedW. destruct (backdropFilterProbe h); shape_tac. Qed.

Lemma fresh1_fallbackBuiltW h o w : fresh1 w (fallbackBuiltW h o w).
Proof. unfold fallbackBuiltW. shape_tac. Qed.

Lemma isDiv_fallbackBuiltW h o w : isDiv (fallbackBuiltW h o w) (nextNode w).
Proof.
  unfold isDiv, fallbackBuiltW. prims. autorewrite with frame nodes.
  rewrite !decide_True by reflexivity. simpl. repeat split. lia.
Qed.

Lemma fallback_safe S h i o w : InvS w -> safe S w (fallbackW h i o w).
Proof.
  intros I. unfold fallbackW. cbv zeta.
  pose proof (safe_fresh1 S _ _ (fresh1_fallbackBuiltW h o w) I) as S1.
  pose proof (isDiv_fallbackBuiltW h o w) as D1.
  pose proof (safe_insertFirst S (this_element o) (nextNode w) _
                (safe_InvS _ _ _ S1)
                (attachable_isDiv _ _ D1 (plain_fresh1_new _ _ (fresh1_fallbackBuiltW h o w))))
    as S2.
  pose proof (safe_sameShape S _ _
                (forEach_liftChild_sameShape h
                   (childNodes (node (fallbackBuiltW h o w) (this_element o)))
                   (insertFirst (this_element o) (nextNode w) (fallbackBuiltW h o w)))
                (forEach_liftChild_instances h _ _)
                (safe_InvS _ _ _ S2)) as S3.
  eapply safe_trans; [exact S1|]. eapply safe_trans; [exact S2|].
  eapply safe_trans; [exact S3|].
  eapply safe_altered; [apply altered_withObjs | intros; repeat split | | apply S3].
  intros o' Ho' Hok. apply objOK_with_firefoxBg; [exact Hok|].
  eapply isDiv_grows; [|exact D1]. eapply grows_trans; [apply S2 | apply S3].
Qed.

Lemma applied_safe S h i o w : InvS w -> safe S w (appliedW h i o w).
Proof.
  intros I. unfold appliedW. cbv zeta.
  pose proof (safe_sameShape S _ _
                (sameShape_styledW h o
                   (getComputedPosition h w (this_element o) =? "static") w)
                (instances_styledW h o _ w) I) as S0.
  pose proof (safe_fresh1 S _ _ (fresh1_probedW h _) (safe_InvS _ _ _ S0)) as S1.
  destruct (fallbackMode h).
  - eapply safe_trans; [exact S0|]. eapply safe_trans; [exact S1|].
    apply fallback_safe, S1.
  - eapply safe_trans; [exact S0 | exact S1].
Qed.

(** * Quiet steps *)

Lemma quiet_refl w : quiet w w.
Proof. split; [apply grows_refl | reflexivity]. Qed.

Lemma quiet_trans w1 w2 w3 : quiet w1 w2 -> quiet w2 w3 -> quiet w1 w3.
Proof.
  intros (G1 & Q1) (G2 & Q2). split; [eapply grows_trans; eauto|].
  intros d s Hd Hs. rewrite Q2, Q1; auto. destruct G1. lia.
Qed.

Lemma idChildren_ext w W s d :
  childNodes (node W d) = childNodes (node w d) ->
  (forall n, In n (childNodes (node w d)) -> elemId (node W n) = elemId (node w n)) ->
  idChildren W s d = idChildren w s d.
Proof.
  intros Hk He. unfold idChildren. rewrite Hk.
  apply filter_ext_in. intros n Hn. rewrite He by assumption. reflexivity.
Qed.

Lemma quiet_sameShape w W : sameShape w W -> quiet w W.
Proof.
  intros H. split; [apply grows_sameShape, H|]. destruct H as (_ & _ & _ & Hs).
  intros d s _ _. apply idChildren_ext; [apply Hs | intros; apply Hs].
Qed.

Lemma quiet_fresh1 w W : fresh1 w W -> InvS w -> quiet w W.
Proof.
  intros H I. split; [apply grows_fresh1, H|]. destruct H as (_ & _ & _ & _ & Hs).
  intros d s Hd _. apply idChildren_ext.
  - apply Hs. lia.
  - intros n Hn. apply Hs. pose proof (inv_kids _ I d n Hn). lia.
Qed.

Lemma quiet_removed x w W : removed x w W -> elemId (node w x) = "" -> quiet w W.
Proof.
  intros H Hx. split; [eapply grows_removed, H|]. destruct H as (_ & _ & _ & Hs).
  intros d s _ Hs'. unfold idChildren. destruct (Hs d) as (_ & _ & ->).
  rewrite (filter_ext _ (fun n => String.eqb (elemId (node w n)) s))
    by (intros n; destruct (Hs n) as (_ & -> & _); reflexivity).
  rewrite filter_without. apply without_notin.
  rewrite filter_In, String.eqb_eq. intros (_ & E). congruence.
Qed.

Lemma quiet_pushed p x w W : pushed p x w W -> elemId (node w x) = "" -> quiet w W.
Proof.
  intros H Hx. split; [eapply grows_pushed, H|].
  destruct H as (_ & _ & _ & Hs & Hk & Hp).
  intros d s _ Hs'.
  assert (Hd : String.eqb (elemId (node w x)) s = false)
    by (apply String.eqb_neq; congruence).
  destruct (decide (d = p)) as [->|Hne].
  - unfold idChildren.
    rewrite (filter_ext _ (fun n => String.eqb (elemId (node w n)) s))
      by (intros n; destruct (Hs n) as (_ & ->); reflexivity).
    destruct Hp as [-> | ->].
    + simpl. rewrite Hd. reflexivity.
    + rewrite List.filter_app. simpl. rewrite Hd. apply app_nil_r.
  - apply idChildren_ext; [apply Hk; exact Hne | intros; apply Hs].
Qed.

Lemma quiet_altered i g w W : altered i g w W -> quiet w W.
Proof.
  intros H. split; [eapply grows_altered, H|]. destruct H as (_ & _ & _ & Hs).
  intros d s _ _. apply idChildren_ext; [rewrite Hs; reflexivity|].
  intros n _. rewrite Hs. reflexivity.
Qed.

Lemma quiet_insertFirst p x w : isDiv w x -> quiet w (insertFirst p x w).
Proof.
  intros (_ & _ & He). unfold insertFirst.
  eapply quiet_trans; [eapply quiet_removed; [apply removed_removeNode | exact He]|].
  eapply quiet_pushed; [apply pushed_cons|].
  rewrite node_removeNode. exact He.
Qed.

Lemma fallback_quiet h i o w : InvS w -> quiet w (fallbackW h i o w).
Proof.
  intros I. unfold fallbackW. cbv zeta.
  eapply quiet_trans; [apply quiet_fresh1; [apply fresh1_fallbackBuiltW | exact I]|].
  eapply quiet_trans; [apply quiet_insertFirst, isDiv_fallbackBuiltW|].
  eapply quiet_trans; [apply quiet_sameShape, forEach_liftChild_sameShape|].
  eapply quiet_altered, altered_withObjs.
Qed.

Lemma applied_quiet h i o w : InvS w -> quiet w (appliedW h i o w).
Proof.
  intros I. unfold appliedW. cbv zeta.
  pose proof (sameShape_styledW h o
                (getComputedPosition h w (this_element o) =? "static") w) as H0.
  pose proof (InvS_sameShape _ _ H0 I) as I0.
  pose proof (InvS_fresh1 _ _ (fresh1_probedW h _) I0) as I1.
  eapply quiet_trans; [apply quiet_sameShape, H0|].
  destruct (fallbackMode h).
  - eapply quiet_trans; [apply quiet_fresh1; [apply fresh1_probedW | exact I0]|].
    apply fallback_quiet, I1.
  - apply quiet_fresh1; [apply fresh1_probedW | exact I0].
Qed.

(** * Building the filter *)

Lemma fresh1_unattached w W :
  fresh1 w W -> InvS w -> forall n, ~ In (nextNode w) (childNodes (node W n)).
Proof.
  intros (_ & _ & _ & Hnew & Hs) I n Hin.
  destruct (decide (n = nextNode w)) as [->|Hne].
  - rewrite Hnew in Hin. destruct Hin.
  - destruct (Hs n Hne) as (_ & _ & Hk). rewrite Hk in Hin.
    pose proof (inv_kids _ I n _ Hin). lia.
Qed.

Lemma fresh1_filterBuiltW h o w : fresh1 w (filterBuiltW h o w).
Proof. unfold filterBuiltW. shape_tac. Qed.

Lemma filterBuiltW_node h o w :
  tagName (node (filterBuiltW h o w) (nextNode w)) = "filter" /\
  elemId (node (filterBuiltW h o w) (nextNode w)) = this_id o /\
  innerHTML (node (filterBuiltW h o w) (nextNode w)) = filterMarkup h (this_options o).
Proof.
  unfold filterBuiltW. prims. autorewrite with frame nodes.
  rewrite !decide_True by reflexivity. simpl. repeat split.
Qed.

Lemma filterCreated_safe S h i o d w :
  InvS w -> objs w !! i = Some o -> this_defs o = Some d ->
  (forall f0 n, this_filter o = Some f0 -> ~ In f0 (childNodes (node w n))) ->
  safe S w (filterCreatedW h i o d w).
Proof.
  intros I Ho Hd Hold.
  pose (W1 := filterBuiltW h o w).
  pose (W2 := withObjs (alter (with_filter (Some (nextNode w))) i) W1).
  pose (W3 := removeNode (nextNode w) W2).
  pose proof (fresh1_filterBuiltW h o w : fresh1 w W1) as F1.
  pose proof (filterBuiltW_node h o w) as (Ht & He & _).
  pose proof (safe_fresh1 S _ _ F1 I) as S1.
  pose proof (fresh1_unattached _ _ F1 I) as U1.
  assert (A2 : altered i (with_filter (Some (nextNode w))) W1 W2) by apply altered_withObjs.
  assert (I2 : InvS W2).
  { eapply InvS_altered_filter; [exact A2 | | exact Ht | | apply S1].
    - destruct F1 as (-> & _). lia.
    - intros o' Ho'. change (objs W1) with (objs w) in Ho'. rewrite Ho in Ho'.
      injection Ho' as <-. split; [exact He|].
      intros f0 n Hf0 Hin. destruct F1 as (_ & _ & _ & Hnew & Hs).
      destruct (decide (n = nextNode w)) as [->|Hne].
      + rewrite Hnew in Hin. destruct Hin.
      + destruct (Hs n Hne) as (_ & _ & Hk). rewrite Hk in Hin. eapply Hold; eauto. }
  assert (S2 : safe S W1 W2).
  { split; [exact I2|]. split; [|eapply grows_altered; exact A2].
    eapply keeps_altered; [exact A2|]. intros; repeat split. }
  assert (S3 : safe S W2 W3).
  { apply safe_sameShape; [|reflexivity|exact I2]. apply sameShape_removeNode. exact U1. }
  assert (A3 : attachable W3 (nextNode w)).
  { unfold attachable, W3. rewrite node_removeNode. simpl.
    change (node W2 (nextNode w)) with (node (filterBuiltW h o w) (nextNode w)).
    rewrite Ht, He.
    split; [change (nextNode w < Pos.succ (nextNode w))%positive; lia|].
    split; [discriminate|].
    split; [apply (ok_id _ _ (inv_objs _ I _ _ Ho))|].
    split; [|split; [discriminate|]].
    - right. exists i, (with_filter (Some (nextNode w)) o). split; [|reflexivity].
      change (objs (removeNode (nextNode w) W2))
        with (alter (with_filter (Some (nextNode w))) i (objs w)).
      rewrite lookup_alter, decide_True, Ho by reflexivity. reflexivity.
    - apply plain_removeNode, plain_leaf.
      change (node W2 (nextNode w)) with (node (filterBuiltW h o w) (nextNode w)).
      destruct F1 as (_ & _ & _ & Hnew & _). exact Hnew. }
  eapply safe_trans; [exact S1|]. eapply safe_trans; [exact S2|].
  eapply safe_trans; [exact S3|].
  eapply safe_pushed; [|exact A3 | apply S3].
  exact (pushed_snoc d (nextNode w) W3).
Qed.

(** * Creating the registry *)

Lemma registryCreated_shape w :
  InvS w ->
  let W := registryCreatedW w in
  let c := nextNode w in
  let d := Pos.succ (nextNode w) in
  nextNode W = Pos.succ d /\ nextInst W = nextInst w /\ objs W = objs w /\
  (tagName (node W c) = "svg" /\ elemId (node W c) = registryId /\
   childNodes (node W c) = [d]) /\
  (tagName (node W d) = "defs" /\ elemId (node W d) = "" /\
   childNodes (node W d) = []) /\
  (tagName (node W body) = tagName (node w body) /\
   elemId (node W body) = elemId (node w body) /\
   childNodes (node W body) = c :: childNodes (node w body)) /\
  forall n, n <> c -> n <> d -> n <> body ->
    tagName (node W n) = tagName (node w n) /\
    elemId (node W n) = elemId (node w n) /\
    childNodes (node W n) = childNodes (node w n).
Proof.
  intros I. cbv zeta.
  pose proof (inv_body _ I) as B.
  assert (Hfresh : forall n x, (nextNode w <= x)%positive ->
                     without x (childNodes (node w n)) = childNodes (node w n)).
  { intros n x Hx. apply without_notin. intros Hin.
    pose proof (inv_kids _ I n x Hin). lia. }
  assert (Hcd : Pos.eqb (Pos.succ (nextNode w)) (nextNode w) = false)
    by (apply Pos.eqb_neq; lia).
  unfold registryCreatedW. prims.
  split; [reflexivity|]. split; [reflexivity|]. split; [reflexivity|].
  split; [|split; [|split]]; [| | |intros n Hc Hd Hb];
    autorewrite with frame nodes; decide_all; simpl;
    rewrite ?Hcd; simpl; rewrite ?Hfresh by lia; repeat split.
Qed.

Lemma registryCreated_ok w :
  InvS w -> registryNodes w = [] ->
  InvS (registryCreatedW w) /\ grows w (registryCreatedW w) /\
  registryNodes (registryCreatedW w) = [nextNode w] /\
  childByTag (registryCreatedW w) (nextNode w) "defs" = Some (Pos.succ (nextNode w)) /\
  goodDefs (registryCreatedW w) (Pos.succ (nextNode w)).
Proof.
  intros I HR0.
  destruct (registryCreated_shape w I)
    as (Hn & Hi & Ho & (Hc1 & Hc2 & Hc3) & (Hd1 & Hd2 & Hd3) & (Hb1 & Hb2 & Hb3) & Hs).
  set (W := registryCreatedW w) in *.
  pose proof I as [B BT K F O R S RT BI TP PL].
  assert (Hold : forall n, (n < nextNode w)%positive ->
            tagName (node W n) = tagName (node w n) /\
            elemId (node W n) = elemId (node w n)).
  { intros n Hlt. destruct (decide (n = body)) as [->|Hne]; [tauto|].
    destruct (Hs n) as (? & ? & ?); [lia | lia | assumption | tauto]. }
  assert (Hg : grows w W) by (split; [rewrite Hn; lia | exact Hold]).
  assert (HR : registryNodes W = [nextNode w]).
  { unfold registryNodes. rewrite Hb3. simpl. rewrite Hc2, String.eqb_refl.
    f_equal. rewrite <- HR0. unfold registryNodes.
    apply filter_ext_in. intros n Hin. destruct (Hold n) as (_ & ->); eauto. }
  assert (HQ : childByTag W (nextNode w) "defs" = Some (Pos.succ (nextNode w))).
  { unfold childByTag. rewrite Hc3. simpl. rewrite Hd1. reflexivity. }
  assert (HG : goodDefs W (Pos.succ (nextNode w))).
  { split; [rewrite Hn; lia|]. split; [exact Hd1|]. rewrite Hd3. intros x []. }
  assert (HD : forall d, goodDefs w d -> goodDefs W d).
  { intros d Hgd. pose proof Hgd as (Hlt & Ht & _). revert Hgd.
    apply goodDefs_transfer; [exact Hg|].
    intros x Hx. left.
    destruct (Hs d) as (_ & _ & Hk); [lia | lia | intros ->; congruence |].
    rewrite Hk in Hx. split; [exact Hx|].
    destruct (Hold x) as (_ & ->); [eauto|].
    intros [?|?]; [left | right; eapply ownedFilter_objs]; eauto. }
  split; [|tauto]. split.
  - rewrite Hn. lia.
  - congruence.
  - intros n x Hin. rewrite Hn.
    destruct (decide (n = nextNode w)) as [->|Hnc].
    { rewrite Hc3 in Hin. destruct Hin as [<-|[]]. lia. }
    destruct (decide (n = Pos.succ (nextNode w))) as [->|Hnd].
    { rewrite Hd3 in Hin. destruct Hin. }
    destruct (decide (n = body)) as [->|Hnb].
    { rewrite Hb3 in Hin. destruct Hin as [<-|Hin]; [lia|]. specialize (K _ _ Hin). lia. }
    destruct (Hs n) as (_ & _ & Hk); try assumption.
    rewrite Hk in Hin. specialize (K _ _ Hin). lia.
  - intros i Hsome. rewrite Ho in Hsome. rewrite Hi. eauto.
  - intros i o Hio. rewrite Ho in Hio. eapply objOK_transfer; eauto.
  - intros c Hc. rewrite HR in Hc. destruct Hc as [<-|[]].
    split; [exact Hc1|]. eauto.
  - rewrite HR. simpl. lia.
  - intros n Hin.
    destruct (decide (n = nextNode w)) as [->|Hnc].
    { rewrite Hc3 in Hin. destruct Hin as [E|[]]. unfold body in *. lia. }
    destruct (decide (n = Pos.succ (nextNode w))) as [->|Hnd].
    { rewrite Hd3 in Hin. destruct Hin. }
    destruct (decide (n = body)) as [->|Hnb].
    { rewrite Hb3 in Hin. destruct Hin as [E|Hin]; [unfold body in *; lia | exact (RT _ Hin)]. }
    destruct (Hs n) as (_ & _ & Hk); try assumption.
    rewrite Hk in Hin. exact (RT _ Hin).
  - rewrite Hb2. exact BI.
  - intros n x Hin He.
    destruct (decide (n = body)) as [->|Hnb]; [reflexivity|]. exfalso.
    destruct (decide (n = nextNode w)) as [->|Hnc].
    { rewrite Hc3 in Hin. destruct Hin as [<-|[]]. rewrite Hd2 in He. discriminate. }
    destruct (decide (n = Pos.succ (nextNode w))) as [->|Hnd].
    { rewrite Hd3 in Hin. destruct Hin. }
    destruct (Hs n) as (_ & _ & Hk); try assumption.
    rewrite Hk in Hin. destruct (Hold x) as (_ & Hx); [eauto|].
    rewrite Hx in He. apply Hnb. eauto.
  - intros c k Hc Hk. rewrite HR in Hc. destruct Hc as [<-|[]].
    rewrite Hc3 in Hk. destruct Hk as [<-|[]]. apply plain_leaf, Hd3.
Qed.

(** * Looking the registry up

    Along the invariant the elements with the registry id are children
    of [body], and no definitions node lies deeper in the registry than
    its children. *)

Lemma below_parent w a y :
  below w a y -> exists n, In y (childNodes (node w n)) /\ (n = a \/ below w a n).
Proof.
  induction 1 as [n y Hy | n x y Hx _ (m & Hm & IH)].
  - exists n. tauto.
  - exists m. split; [exact Hm|]. right.
    destruct IH as [->|IH]; [apply below_child, Hx | eapply below_step; eauto].
Qed.

Lemma levels_body w : InvS w -> exists f, levels w = S (S f).
Proof.
  intros I. pose proof (inv_body _ I) as B. unfold levels, body in *.
  apply Pos2Nat.inj_lt in B. change (Pos.to_nat 1) with 1 in B.
  destruct (Pos.to_nat (nextNode w)) as [|[|f]]; [lia | lia | eauto].
Qed.

Lemma elementsById_registry w : InvS w -> elementsById w registryId = registryNodes w.
Proof.
  intros I. destruct (levels_body w I) as (f & E).
  unfold elementsById, registryNodes. rewrite E.
  change (subtree (S (S f)) w body)
    with (body :: flat_map (subtree (S f) w) (childNodes (node w body))).
  cbn [List.filter].
  rewrite (proj2 (String.eqb_neq _ _) (inv_body_id _ I)).
  apply filter_subtrees. intros k y Hk Hb. apply String.eqb_neq. intros He.
  destruct (below_parent _ _ _ Hb) as (n & Hn & Hnk).
  pose proof (inv_top _ I n y Hn He) as ->.
  destruct Hnk as [<-|Hnk]; [exact (inv_root _ I _ Hk)|].
  destruct (below_is_child _ _ _ Hnk) as (m & Hm). exact (inv_root _ I _ Hm).
Qed.

Lemma getElementById_registry w :
  InvS w -> getElementById w registryId = head (registryNodes w).
Proof.
  intros I. rewrite <- (elementsById_registry w I). apply find_head_filter.
Qed.

Lemma querySelectorTag_registry w c :
  InvS w -> In c (registryNodes w) ->
  querySelectorTag w c "defs" = childByTag w c "defs".
Proof.
  intros I Hc. destruct (levels_body w I) as (f & E).
  unfold querySelectorTag, childByTag. rewrite E, !find_head_filter. f_equal.
  apply filter_subtrees. intros k y Hk Hb. apply String.eqb_neq.
  exact (inv_plain _ I c k Hc Hk y Hb).
Qed.

Lemma objOK_with_container w o c d :
  objOK w o -> goodDefs w d -> objOK w (with_container (Some c) (Some d) o).
Proof.
  intros [H2 H3 H4 H5 H6] Hd. split; try assumption.
  simpl. intros y [= <-]. exact Hd.
Qed.

(** What [_ensureSVGContainer] achieves: the registry is in the
    document, with its definitions node, and the instance refers to
    both. *)
Lemma ensured_ok S i w :
  InvS w -> ~ S i ->
  exists c d,
    InvS (ensuredW i w) /\ grows w (ensuredW i w) /\
    objs (ensuredW i w) = alter (with_container (Some c) (Some d)) i (objs w) /\
    instances (ensuredW i w) = instances w /\
    registryNodes (ensuredW i w) = [c] /\
    childByTag (ensuredW i w) c "defs" = Some d /\
    goodDefs (ensuredW i w) d /\
    (registryNodes w = [] \/ keeps S w (ensuredW i w)).
Proof.
  intros I Hi. unfold ensuredW. rewrite (getElementById_registry w I).
  destruct (registryNodes w) as [|c l] eqn:HR; simpl.
  - destruct (registryCreated_ok w I HR) as (I1 & G1 & R1 & Q1 & D1).
    exists (nextNode w), (Pos.succ (nextNode w)).
    rewrite (querySelectorTag_registry _ _ I1) by (rewrite R1; left; reflexivity).
    rewrite Q1.
    set (W1 := registryCreatedW w) in *.
    assert (A : altered i (with_container (Some (nextNode w)) (Some (Pos.succ (nextNode w))))
                  W1 (withObjs (alter (with_container (Some (nextNode w))
                                          (Some (Pos.succ (nextNode w)))) i) W1))
      by apply altered_withObjs.
    pose proof (grows_altered _ _ _ _ A) as G2.
    split; [|split; [eapply grows_trans; eauto|]].
    + eapply InvS_altered; [exact A | reflexivity | | exact I1].
      intros o _ Hok. apply objOK_with_container; assumption.
    + split; [reflexivity|]. split; [reflexivity|].
      destruct A as (_ & _ & _ & Hs).
      split; [rewrite (registryNodes_nodes _ _ Hs); exact R1|].
      split; [rewrite (childByTag_nodes _ _ _ _ Hs); exact Q1|].
      split; [|left; reflexivity].
      eapply goodDefs_transfer; [exact G2 | | exact D1].
      intros x Hx. rewrite Hs in Hx. destruct D1 as (_ & _ & D1). right.
      rewrite Hs. destruct (D1 x Hx) as [?|(k & ok & H1 & H2)]; [left; assumption|].
      right. destruct (decide (k = i)) as [->|Hne].
      * eexists i, _. rewrite objs_withObjs, lookup_alter, decide_True, H1 by reflexivity.
        split; [reflexivity | exact H2].
      * exists k, ok. rewrite objs_withObjs, lookup_alter, decide_False by congruence. auto.
  - assert (Hc : In c (registryNodes w)) by (rewrite HR; left; reflexivity).
    destruct (inv_registry _ I c Hc) as (Ht & d & Hq & Hgd).
    assert (Hl : l = []).
    { pose proof (inv_single _ I) as Hlen. rewrite HR in Hlen. simpl in Hlen.
      destruct l; [reflexivity | simpl in Hlen; lia]. }
    subst l. exists c, d. rewrite (querySelectorTag_registry _ _ I Hc), Hq.
    assert (A : altered i (with_container (Some c) (Some d)) w
                  (withObjs (alter (with_container (Some c) (Some d)) i) w))
      by apply altered_withObjs.
    pose proof (grows_altered _ _ _ _ A) as G2.
    assert (I2 : InvS (withObjs (alter (with_container (Some c) (Some d)) i) w)).
    { eapply InvS_altered; [exact A | reflexivity | | exact I].
      intros o _ Hok. apply objOK_with_container; assumption. }
    split; [exact I2|]. split; [exact G2|].
    split; [reflexivity|]. split; [reflexivity|].
    pose proof A as (_ & _ & _ & Hs).
    split; [rewrite (registryNodes_nodes _ _ Hs); exact HR|].
    split; [rewrite (childByTag_nodes _ _ _ _ Hs); exact Hq|].
    split; [|right; eapply keeps_altered_other; eauto].
    assert (Hc2 : In c (registryNodes (withObjs (alter (with_container (Some c) (Some d)) i) w)))
      by (rewrite (registryNodes_nodes _ _ Hs); exact Hc).
    destruct (inv_registry _ I2 c Hc2) as (_ & d' & Hq' & Hgd').
    rewrite (childByTag_nodes _ _ _ _ Hs), Hq in Hq'. injection Hq' as <-. exact Hgd'.
Qed.

(** * The generated id *)

Lemma dash_in s1 s2 : In "-"%char (list_ascii_of_string (s1 +:+ ("-" +:+ s2))).
Proof. induction s1 as [|a s1 IH]; simpl; [left; reflexivity | right; exact IH]. Qed.

(** The id of an instance is never empty and never the id of the
    registry: the latter has no dash after its prefix. *)
Lemma generateId_ok h now r :
  generateId h now r <> "" /\ generateId h now r <> registryId.
Proof.
  unfold generateId, registryId. split; [discriminate|].
  intros H.
  assert (E : numberToString h (inject_Z now) +:+ ("-" +:+ substring 2 9 r) = "filters")
    by (cbn [String.append] in H; injection H as H; exact H).
  pose proof (dash_in (numberToString h (inject_Z now)) (substring 2 9 r)) as Hin.
  rewrite E in Hin. simpl in Hin.
  repeat (destruct Hin as [Hin|Hin]; [discriminate|]). exact Hin.
Qed.

(** * Allocation of the object *)

Lemma bind_newObject {B} e o i (k : iid -> Js B) w :
  bind (newObject e o i) k w = k (nextInst w) (snd (newObject e o i w)).
Proof. reflexivity. Qed.

Lemma InvS_newObject e opts i w :
  InvS w -> i <> "" -> i <> registryId -> InvS (snd (newObject e opts i w)).
Proof.
  intros [B BT K F O R S RT BI TP PL] Hi1 Hi2.
  set (W := snd (newObject e opts i w)).
  assert (Hnone : objs w !! nextInst w = None).
  { destruct (objs w !! nextInst w) eqn:E; [|reflexivity].
    assert (Hs : is_Some (objs w !! nextInst w)) by (rewrite E; eauto).
    specialize (F _ Hs). lia. }
  assert (Hg : grows w W) by (split; [simpl; lia | intros; split; reflexivity]).
  assert (Hown : forall x, ownedFilter w x -> ownedFilter W x).
  { intros x (k & ok & H1 & H2). exists k, ok. split; [|exact H2].
    simpl. rewrite lookup_insert_ne; [exact H1 | congruence]. }
  assert (HD : forall d, goodDefs w d -> goodDefs W d).
  { intros d. apply goodDefs_transfer; [exact Hg|].
    intros x Hx. left. split; [exact Hx|]. intros [?|?]; [left | right]; auto. }
  split.
  - exact B.
  - exact BT.
  - exact K.
  - intros j Hj. simpl in *. rewrite lookup_insert in Hj.
    case_decide; [subst; lia|]. specialize (F _ Hj). lia.
  - intros j o Hj. simpl in Hj. rewrite lookup_insert in Hj.
    case_decide.
    + injection Hj as <-. split; simpl; try discriminate. tauto.
    + eapply objOK_transfer; eauto.
  - intros c Hc. destruct (R c Hc) as (Ht & d & Hq & Hgd).
    split; [exact Ht|]. exists d. split; [exact Hq | auto].
  - exact S.
  - exact RT.
  - exact BI.
  - exact TP.
  - intros c k Hc Hk. apply (plain_transfer w); [| |exact (PL c k Hc Hk)].
    + apply below_nodes. reflexivity.
    + reflexivity.
Qed.

(** * Old nodes keep their class, content and style *)

Lemma steady_refl st b w : steady st b w w.
Proof. intros n _. repeat split. Qed.

Lemma steady_trans st b w1 w2 w3 :
  steady st b w1 w2 -> steady st b w2 w3 -> steady st b w1 w3.
Proof.
  intros H1 H2 n Hn. destruct (H1 n Hn) as (? & ? & S1), (H2 n Hn) as (? & ? & S2).
  repeat split; try congruence. intros Hst. rewrite (S2 Hst). apply S1, Hst.
Qed.

Lemma steady_modNode_keep st b m f w :
  (forall nd, className (f nd) = className nd /\ innerHTML (f nd) = innerHTML nd /\
              (st = true -> style (f nd) = style nd)) ->
  steady st b w (modNode m f w).
Proof.
  intros Hf n _. rewrite node_modNode. case_decide; [subst; apply Hf | repeat split].
Qed.

Lemma steady_modNode_new st b m f w : (b <= m)%positive -> steady st b w (modNode m f w).
Proof.
  intros Hm n Hn. rewrite node_modNode. case_decide; [lia | repeat split].
Qed.

Lemma steady_createElement st b tag w :
  (b <= nextNode w)%positive -> steady st b w (snd (createElement tag w)).
Proof.
  intros Hm n Hn. rewrite node_createElement. case_decide; [lia | repeat split].
Qed.

Lemma steady_removeNode st b x w : steady st b w (removeNode x w).
Proof. intros n _. rewrite node_removeNode. repeat split. Qed.

Lemma steady_withObjs st b f w : steady st b w (withObjs f w).
Proof. intros n _. repeat split. Qed.

Lemma steady_withInstances st b f w : steady st b w (withInstances f w).
Proof. intros n _. repeat split. Qed.

Lemma steady_consoleLog st b e w : steady st b w (consoleLog e w).
Proof. intros n _. repeat split. Qed.

Lemma steady_weaken st b b' w W : (b' <= b)%positive -> steady st b w W -> steady st b' w W.
Proof. intros Hb H n Hn. apply H. lia. Qed.

Lemma steady_content b w W : steady true b w W -> steady false b w W.
Proof.
  intros H n Hn. destruct (H n Hn) as (? & ? & _). repeat split; try assumption. discriminate.
Qed.

(** Walks a store built from [w] by the operations above. *)
Ltac steady_tac :=
  lazymatch goal with
  | |- steady _ _ ?w ?w => apply steady_refl
  | |- steady _ _ _ (if ?c then _ else _) => destruct c; steady_tac
  | |- steady ?st ?b ?w (modNode ?m ?f ?X) =>
      apply (steady_trans st b w X);
      [steady_tac
      |first [ solve [apply steady_modNode_keep; intros; repeat split; discriminate]
             | apply steady_modNode_new; autorewrite with frame; lia ]]
  | |- steady ?st ?b ?w (snd (createElement _ ?X)) =>
      apply (steady_trans st b w X);
      [steady_tac | apply steady_createElement; autorewrite with frame; lia]
  | |- steady ?st ?b ?w (removeNode _ ?X) =>
      apply (steady_trans st b w X); [steady_tac | apply steady_removeNode]
  | |- steady ?st ?b ?w (withObjs _ ?X) =>
      apply (steady_trans st b w X); [steady_tac | apply steady_withObjs]
  | |- steady ?st ?b ?w (withInstances _ ?X) =>
      apply (steady_trans st b w X); [steady_tac | apply steady_withInstances]
  | |- steady ?st ?b ?w (consoleLog _ ?X) =>
      apply (steady_trans st b w X); [steady_tac | apply steady_consoleLog]
  end.

Lemma steady_ensuredW st b i w : (b <= nextNode w)%positive -> steady st b w (ensuredW i w).
Proof.
  intros Hb. unfold ensuredW, registryCreatedW.
  destruct (getElementById w registryId); prims; cbv zeta; steady_tac.
Qed.

Lemma steady_filterCreatedW st b h i o d w :
  (b <= nextNode w)%positive -> steady st b w (filterCreatedW h i o d w).
Proof. intros Hb. unfold filterCreatedW, filterBuiltW. prims. cbv zeta. steady_tac. Qed.

Lemma steady_overlaysW st b i o w :
  (b <= nextNode w)%positive -> steady st b w (overlaysW i o w).
Proof.
  intros Hb. unfold overlaysW, layerW. prims. cbv zeta.
  destruct (truthy (this_options o !! "addNoise")),
           (truthy (this_options o !! "addOverlay")); steady_tac.
Qed.

Lemma steady_newObject st b e o i w : steady st b w (snd (newObject e o i w)).
Proof. intros n _. repeat split. Qed.

Lemma steady_forEach_liftChild h b l w :
  steady false b w (snd (forEach (liftChild h) l w)).
Proof.
  revert w. induction l as [|c l IH]; intros w; [apply steady_refl|].
  cbn [forEach]. unfold liftChild at 1. js_run.
  destruct (_ =? "static"); js_run; destruct (orb _ _); js_run;
    (eapply steady_trans; [|apply IH]); prims; steady_tac.
Qed.

Lemma steady_removedW st b x w : steady st b w (removedW x w).
Proof. destruct x; [apply steady_removeNode | apply steady_refl]. Qed.

Lemma steady_fallbackW h b i o w :
  (b <= nextNode w)%positive -> steady false b w (fallbackW h i o w).
Proof.
  intros Hb. unfold fallbackW. cbv zeta.
  set (w2 := fallbackBuiltW h o w).
  apply (steady_trans false b w (insertFirst (this_element o) (nextNode w) w2)).
  - unfold w2, fallbackBuiltW. prims. cbv zeta. steady_tac.
  - apply (steady_trans false b _ (snd (forEach (liftChild h)
             (childNodes (node w2 (this_element o)))
             (insertFirst (this_element o) (nextNode w) w2)))).
    + apply steady_forEach_liftChild.
    + apply steady_withObjs.
Qed.

Lemma steady_probedW st h b w :
  (b <= nextNode w)%positive -> steady st b w (probedW h w).
Proof.
  intros Hb. unfold probedW. destruct (backdropFilterProbe h); prims; steady_tac.
Qed.

Lemma steady_styledW h b o c w : steady false b w (styledW h o c w).
Proof. unfold styledW. cbv zeta. destruct c; prims; steady_tac. Qed.

(** [_applyStyles] writes styles only: classes and contents stay. *)
Lemma steady_appliedW h b i o w :
  (b <= nextNode w)%positive -> steady false b w (appliedW h i o w).
Proof.
  intros Hb. unfold appliedW. cbv zeta.
  set (c := String.eqb _ "static").
  assert (S1 : steady false b w (probedW h (styledW h o c w))).
  { apply (steady_trans false b w (styledW h o c w)); [apply steady_styledW|].
    apply steady_probedW. unfold styledW. destruct c; exact Hb. }
  destruct (fallbackMode h); [|exact S1].
  apply (steady_trans false b w _ _ S1). apply steady_fallbackW.
  unfold probedW, styledW. destruct (backdropFilterProbe h), c; simpl; lia.
Qed.

(** * What the steps do to the objects *)

Lemma objs_probedW h w : objs (probedW h w) = objs w.
Proof. unfold probedW. destruct (backdropFilterProbe h); reflexivity. Qed.

Lemma nextNode_probedW h w : nextNode (probedW h w) = Pos.succ (nextNode w).
Proof. unfold probedW. destruct (backdropFilterProbe h); reflexivity. Qed.

Lemma nextNode_styledW h o b w : nextNode (styledW h o b w) = nextNode w.
Proof. unfold styledW. destruct b; reflexivity. Qed.

Lemma forEach_liftChild_objs h l w :
  objs (snd (forEach (liftChild h) l w)) = objs w.
Proof. apply (forEach_liftChild_sameShape h l w). Qed.

Lemma objs_fallbackW h i o w :
  objs (fallbackW h i o w) = alter (with_firefoxBg (Some (nextNode w))) i (objs w).
Proof.
  unfold fallbackW. cbv zeta. rewrite objs_withObjs, forEach_liftChild_objs. reflexivity.
Qed.

Lemma objs_appliedW h i o w :
  objs (appliedW h i o w)
  = if fallbackMode h
    then alter (with_firefoxBg (Some (Pos.succ (nextNode w)))) i (objs w)
    else objs w.
Proof.
  unfold appliedW. cbv zeta. destruct (fallbackMode h).
  - rewrite objs_fallbackW, objs_probedW, objs_styledW, nextNode_probedW, nextNode_styledW.
    reflexivity.
  - rewrite objs_probedW, objs_styledW. reflexivity.
Qed.

Lemma objs_overlaysW i o w :
  objs (overlaysW i o w) = alter (with_overlayContainer (Some (nextNode w))) i (objs w).
Proof.
  unfold overlaysW. cbv zeta.
  destruct (truthy (this_options o !! "addNoise")),
           (truthy (this_options o !! "addOverlay")); reflexivity.
Qed.

(** * The life cycle along safe steps *)

Lemma attached_keeps (S : iid -> Prop) w W j :
  keeps S w W -> S j -> attached w j -> attached W j.
Proof.
  intros ((HR & _) & HQ & HO & _) Hj (o & c & d & Ho & Hc & Hd & Hreg & Hq).
  destruct (HO j o Hj Ho) as (o' & Ho' & (_ & _ & _ & _ & Ec & Ed)).
  exists o', c, d. split; [exact Ho'|]. split; [congruence|]. split; [congruence|].
  split; [congruence|]. rewrite HQ; [exact Hq|]. rewrite Hreg. left; reflexivity.
Qed.

Lemma built_keeps w W :
  keeps (fun _ => True) w W ->
  (forall i o, objs w !! i = Some o -> is_Some (this_defs o)) ->
  forall i o, objs W !! i = Some o -> is_Some (this_defs o).
Proof.
  intros (_ & _ & HO & HD) Hb i o Ho.
  destruct (objs w !! i) as [o0|] eqn:E.
  - destruct (HO i o0 I E) as (o' & Ho' & (_ & _ & _ & _ & _ & Ed)).
    rewrite Ho in Ho'. injection Ho' as <-. rewrite Ed. eapply Hb; eauto.
  - rewrite (HD i E) in Ho. discriminate.
Qed.

Lemma InvL_keeps w W : keeps (fun _ => True) w W -> InvL w -> InvL W.
Proof.
  intros HK [E L B]. pose proof HK as ((HR & HI) & _). split.
  - rewrite HI, HR. exact E.
  - intros i Hi. rewrite HI in Hi. eapply attached_keeps; eauto. exact I.
  - eapply built_keeps; eauto.
Qed.

(** * [_init] *)

Lemma lookup_alter_eq (g : Instance -> Instance) i (m : gmap iid Instance) o :
  m !! i = Some o -> alter g i m !! i = Some (g o).
Proof. intros H. rewrite lookup_alter, decide_True, H by reflexivity. reflexivity. Qed.

Lemma lookup_alter_other (g : Instance -> Instance) i j (m : gmap iid Instance) :
  j <> i -> alter g i m !! j = m !! j.
Proof. intros H. rewrite lookup_alter, decide_False by congruence. reflexivity. Qed.

Lemma init_ok h i o0 w0 :
  InvS w0 -> objs w0 !! i = Some o0 -> this_filter o0 = None ->
  exists c d,
    _init h i w0 = (Return tt, initW h i o0 c d w0) /\
    InvS (initW h i o0 c d w0) /\
    grows w0 (initW h i o0 c d w0) /\
    instances (initW h i o0 c d w0) = instances w0 /\
    registryNodes (initW h i o0 c d w0) = [c] /\
    childByTag (initW h i o0 c d w0) c "defs" = Some d /\
    (exists o4, objs (initW h i o0 c d w0) !! i = Some o4 /\
       sameCore (with_container (Some c) (Some d) o0) o4 /\
       this_filter o4 = Some (nextNode (ensuredW i w0)) /\
       (orb (truthy (this_options o0 !! "addOverlay"))
            (truthy (this_options o0 !! "addNoise")) = false ->
        this_overlayContainer o4 = this_overlayContainer o0)) /\
    (registryNodes w0 = [] \/ keeps (fun j => j <> i) w0 (initW h i o0 c d w0)) /\
    (forall j o, j <> i -> objs w0 !! j = Some o ->
       exists o', objs (initW h i o0 c d w0) !! j = Some o' /\ sameCore o o') /\
    (forall j, objs w0 !! j = None -> objs (initW h i o0 c d w0) !! j = None).
Proof.
  intros I0 Ho0 Hf0.
  destruct (ensured_ok (fun j => j <> i) i w0 I0) as
    (c & d & I1 & G1 & O1 & N1 & R1 & Q1 & D1 & K1); [tauto|].
  exists c, d. unfold initW. cbv zeta.
  set (w1 := ensuredW i w0) in *.
  set (o1 := with_container (Some c) (Some d) o0).
  assert (Ho1 : objs w1 !! i = Some o1) by (rewrite O1; apply lookup_alter_eq, Ho0).
  set (w2 := filterCreatedW h i o1 d w1).
  set (o2 := with_filter (Some (nextNode w1)) o1).
  assert (S2 : safe (fun _ => True) w1 w2).
  { apply filterCreated_safe; [exact I1 | exact Ho1 | reflexivity|].
    intros f0 n Hf. simpl in Hf. congruence. }
  assert (Ho2 : objs w2 !! i = Some o2).
  { change (objs w2) with (alter (with_filter (Some (nextNode w1))) i (objs w1)).
    apply lookup_alter_eq, Ho1. }
  set (w3 := appliedW h i o2 w2).
  set (o3 := if fallbackMode h
             then with_firefoxBg (Some (Pos.succ (nextNode w2))) o2 else o2).
  assert (S3 : safe (fun _ => True) w2 w3) by (apply applied_safe, S2).
  assert (Ho3 : objs w3 !! i = Some o3).
  { unfold w3, o3. rewrite objs_appliedW. destruct (fallbackMode h); [|exact Ho2].
    apply lookup_alter_eq, Ho2. }
  assert (C3 : sameCore o1 o3 /\ this_filter o3 = Some (nextNode w1) /\
               this_overlayContainer o3 = this_overlayContainer o0).
  { unfold o3. destruct (fallbackMode h); repeat split. }
  set (flag := orb (truthy (this_options o0 !! "addOverlay"))
                   (truthy (this_options o0 !! "addNoise"))).
  set (w4 := if flag then overlaysW i o3 w3 else w3).
  assert (S4 : safe (fun _ => True) w3 w4).
  { unfold w4. destruct flag; [apply overlays_safe | apply safe_refl]; apply S3. }
  assert (S14 : safe (fun _ => True) w1 w4).
  { eapply safe_trans; [exact S2|]. eapply safe_trans; [exact S3 | exact S4]. }
  assert (Ho4 : exists o4, objs w4 !! i = Some o4 /\ sameCore o1 o4 /\
                  this_filter o4 = Some (nextNode w1) /\
                  (flag = false -> this_overlayContainer o4 = this_overlayContainer o0)).
  { unfold w4. destruct flag.
    - exists (with_overlayContainer (Some (nextNode w3)) o3).
      rewrite objs_overlaysW. split; [apply lookup_alter_eq, Ho3|].
      split; [apply C3|]. split; [apply C3 | discriminate].
    - exists o3. split; [exact Ho3|]. split; [apply C3|]. split; [apply C3|].
      intros _. apply C3. }
  destruct S14 as (I4 & K14 & G14).
  pose proof K14 as ((HR & HI) & HQ & HO & HD).
  split.
  { unfold _init.
    rewrite (bind_run _ _ _ _ _ (ensureSVGContainer_run i w0)).
    rewrite (bind_run _ _ _ _ _ (createFilter_run h i o1 d w1 Ho1 eq_refl)).
    rewrite (bind_run _ _ _ _ _ (applyStyles_run h i o2 w2 Ho2)).
    fold w1 w2 w3. rewrite (bind_getThis i o3 _ w3 Ho3).
    assert (E : this_options o3 = this_options o0) by (destruct C3 as ((_ & E & _) & _); exact E).
    rewrite E. fold flag. unfold w4. destruct flag.
    - rewrite when_true. apply addOverlays_run, Ho3.
    - reflexivity. }
  split; [exact I4|]. split; [eapply grows_trans; eauto|].
  split; [congruence|]. split; [congruence|].
  split; [rewrite HQ; [exact Q1 | rewrite R1; left; reflexivity]|].
  split; [exact Ho4|].
  split.
  { destruct K1 as [K1|K1]; [left; exact K1 | right].
    eapply keeps_trans; [exact K1|]. eapply keeps_weaken; [|exact K14]. tauto. }
  split.
  - intros j o Hj Hjo.
    assert (H1 : objs w1 !! j = Some o) by (rewrite O1, lookup_alter_other; assumption).
    apply (HO j o I H1).
  - intros j Hj. apply HD. rewrite O1.
    destruct (decide (j = i)) as [->|Hne]; [congruence|].
    rewrite lookup_alter_other; assumption.
Qed.

(** * The constructor *)

Lemma In_setAdd i j l : In j (setAdd i l) <-> j = i \/ In j l.
Proof.
  unfold setAdd. destruct (existsb (Pos.eqb i) l) eqn:E.
  - split; [tauto|]. intros [->|H]; [|exact H].
    apply existsb_exists in E as (x & Hx & Hix). apply Pos.eqb_eq in Hix. congruence.
  - rewrite in_app_iff. simpl. intuition congruence.
Qed.

Lemma setAdd_nonempty i l : setAdd i l <> [].
Proof.
  intros H. assert (Hin : In i (setAdd i l)) by (apply In_setAdd; tauto).
  rewrite H in Hin. destruct Hin.
Qed.

Lemma construct_ok h t opts now r w e :
  InvS w -> InvL w -> resolve h t w = Some e ->
  exists c d W,
    W = withInstances (setAdd (nextInst w))
          (initW h (nextInst w) (initialObject h e opts now r w) c d
             (snd (newObject e (spread defaults (default ∅ opts))
                     (generateId h now r) w))) /\
    construct h t opts now r w = (Return (nextInst w), W) /\
    InvS W /\ InvL W /\
    exists o', objs W !! nextInst w = Some o' /\
      sameCore (with_container (Some c) (Some d) (initialObject h e opts now r w)) o' /\
      this_filter o'
      = Some (nextNode (ensuredW (nextInst w)
                          (snd (newObject e (spread defaults (default ∅ opts))
                                  (generateId h now r) w)))) /\
      (orb (truthy (spread defaults (default ∅ opts) !! "addOverlay"))
           (truthy (spread defaults (default ∅ opts) !! "addNoise")) = false ->
       this_overlayContainer o' = None).
Proof.
  intros IS IL Hres.
  set (i := nextInst w). set (o0 := initialObject h e opts now r w).
  set (w0 := snd (newObject e (spread defaults (default ∅ opts)) (generateId h now r) w)).
  destruct (generateId_ok h now r) as (Hid1 & Hid2).
  assert (I0 : InvS w0) by (apply InvS_newObject; assumption).
  assert (Ho0 : objs w0 !! i = Some o0) by apply lookup_insert_eq.
  assert (Hnone : objs w !! i = None).
  { destruct (objs w !! i) eqn:E; [|reflexivity].
    assert (Hs : is_Some (objs w !! i)) by (rewrite E; eauto).
    pose proof (inv_fresh _ IS _ Hs). unfold i in *. lia. }
  assert (Hother : forall j, j <> i -> objs w0 !! j = objs w !! j).
  { intros j Hj. unfold w0. simpl. apply lookup_insert_ne. fold i. congruence. }
  destruct (init_ok h i o0 w0 I0 Ho0 eq_refl) as
    (c & d & Hrun & I4 & G4 & N4 & R4 & Q4 & (o4 & Ho4 & C4 & F4 & V4) & K4 & O4 & D4).
  exists c, d, (withInstances (setAdd i) (initW h i o0 c d w0)).
  split; [reflexivity|]. split.
  { unfold construct. js_run. rewrite Hres. rewrite bind_newObject.
    fold i w0. rewrite (bind_run _ _ _ _ _ Hrun). js_run. reflexivity. }
  split; [eapply InvS_sameShape; [apply sameShape_withInstances | exact I4]|].
  split.
  - split.
    + intros H. exfalso. eapply setAdd_nonempty. exact H.
    + intros j Hj. simpl in Hj. rewrite N4 in Hj. apply In_setAdd in Hj as [->|Hj].
      * exists o4, c, d. destruct C4 as (_ & _ & _ & _ & Ec & Ed).
        repeat split; assumption.
      * pose proof (inv_live _ IL j Hj) as Hatt.
        assert (Hji : j <> i).
        { destruct Hatt as (o & _ & _ & Ho & _). intros ->. congruence. }
        assert (Hatt0 : attached w0 j).
        { destruct Hatt as (o & c' & d' & Ho & Hrest). exists o, c', d'.
          rewrite Hother by assumption. split; [exact Ho | exact Hrest]. }
        destruct K4 as [K4|K4].
        { destruct Hatt as (_ & c' & _ & _ & _ & _ & Hreg & _).
          change (registryNodes w0) with (registryNodes w) in K4. congruence. }
        apply (attached_keeps _ _ _ j K4 Hji Hatt0).
    + intros j o Hj. simpl in Hj.
      destruct (decide (j = i)) as [->|Hne].
      * rewrite Ho4 in Hj. injection Hj as <-.
        destruct C4 as (_ & _ & _ & _ & _ & Ed). rewrite Ed. simpl. eauto.
      * destruct (objs w0 !! j) as [oj|] eqn:E.
        -- destruct (O4 j oj Hne E) as (o' & Ho' & (_ & _ & _ & _ & _ & Ed)).
           rewrite Hj in Ho'. injection Ho' as <-. rewrite Ed.
           rewrite Hother in E by assumption. eapply inv_built; eauto.
        -- rewrite (D4 j E) in Hj. discriminate.
  - exists o4. split; [exact Ho4|]. split; [exact C4|]. split; [exact F4|].
    intros Hflag. rewrite V4; [reflexivity | exact Hflag].
Qed.

(** * [update] *)

Lemma InvL_altered i g w W :
  altered i g w W ->
  (forall o, this_svgContainer (g o) = this_svgContainer o /\ this_defs (g o) = this_defs o) ->
  InvL w -> InvL W.
Proof.
  intros Ha Hg [E L B]. pose proof (fun j => lookup_altered _ _ _ _ j Ha) as HL.
  destruct Ha as (_ & (_ & Hi) & _ & Hs).
  pose proof (registryNodes_nodes _ _ Hs) as HR.
  split.
  - rewrite Hi, HR. exact E.
  - intros j Hj. rewrite Hi in Hj. destruct (L j Hj) as (o & c & d & Ho & Hc & Hd & Hreg & Hq).
    destruct (decide (j = i)) as [->|Hne].
    + exists (g o), c, d. rewrite HL, decide_True, Ho by reflexivity.
      destruct (Hg o) as (-> & ->).
      rewrite HR, (childByTag_nodes _ _ _ _ Hs). repeat split; assumption.
    + exists o, c, d. rewrite HL, decide_False by assumption.
      rewrite HR, (childByTag_nodes _ _ _ _ Hs). repeat split; assumption.
  - intros j o Hj. rewrite HL in Hj. case_decide; [subst j|eauto].
    destruct (objs w !! i) as [o0|] eqn:E0; [|discriminate].
    simpl in Hj. injection Hj as <-. destruct (Hg o0) as (_ & ->). eauto.
Qed.

Lemma safe_removedW S x w :
  InvS w ->
  (forall n, x = Some n -> tagName (node w n) <> "defs" /\ elemId (node w n) <> registryId) ->
  safe S w (removedW x w).
Proof.
  intros I Hx. destruct x as [n|]; simpl; [|apply safe_refl, I].
  destruct (Hx n eq_refl). apply safe_removeNode; assumption.
Qed.

Lemma filter_removable w o f :
  objOK w o -> this_filter o = Some f ->
  tagName (node w f) <> "defs" /\ elemId (node w f) <> registryId.
Proof.
  intros [H2 H3 H4 H5 H6] Hf. destruct (H3 f Hf) as (_ & Ht & He).
  rewrite Ht, He. split; [discriminate | apply H2].
Qed.

Lemma div_removable w x :
  isDiv w x -> tagName (node w x) <> "defs" /\ elemId (node w x) <> registryId.
Proof. intros (_ & -> & ->). split; discriminate. Qed.

Lemma update_ok h i newOptions w o :
  InvS w -> InvL w -> objs w !! i = Some o ->
  exists d,
    this_defs o = Some d /\
    update h i newOptions w = (Return i, updatedW h i o d newOptions w) /\
    InvS (updatedW h i o d newOptions w) /\ InvL (updatedW h i o d newOptions w).
Proof.
  intros IS IL Ho.
  destruct (inv_built _ IL i o Ho) as (d & Hd). exists d. split; [exact Hd|].
  unfold updatedW. cbv zeta.
  set (g := with_options (spread (this_options o) newOptions)).
  set (w1 := withObjs (alter g i) w).
  assert (A1 : altered i g w w1) by apply altered_withObjs.
  assert (I1 : InvS w1).
  { eapply InvS_altered; [exact A1 | reflexivity | | exact IS].
    intros o' _ Hok. apply objOK_with_options, Hok. }
  assert (L1 : InvL w1) by (eapply InvL_altered; [exact A1 | intros; split; reflexivity | exact IL]).
  assert (Ho1 : objs w1 !! i = Some (g o)) by (apply lookup_alter_eq, Ho).
  set (w2 := removedW (this_filter o) w1).
  assert (S2 : safe (fun _ => True) w1 w2).
  { apply safe_removedW; [exact I1|]. intros f Hf.
    eapply filter_removable; [apply (inv_objs _ I1 _ _ Ho1) | exact Hf]. }
  assert (Ho2 : objs w2 !! i = Some (g o)).
  { unfold w2. destruct (this_filter o); exact Ho1. }
  set (w3 := filterCreatedW h i (g o) d w2).
  assert (S3 : safe (fun _ => True) w2 w3).
  { apply filterCreated_safe; [apply S2 | exact Ho2 | exact Hd|].
    intros f0 n Hf0 Hin. simpl in Hf0. unfold w2 in Hin. rewrite Hf0 in Hin.
    simpl in Hin. rewrite node_removeNode in Hin. simpl in Hin.
    apply In_without in Hin. tauto. }
  assert (Ho3 : objs w3 !! i = Some (with_filter (Some (nextNode w2)) (g o))).
  { change (objs w3) with (alter (with_filter (Some (nextNode w2))) i (objs w2)).
    apply lookup_alter_eq, Ho2. }
  assert (S4 : safe (fun _ => True) w3
                 (appliedW h i (with_filter (Some (nextNode w2)) (g o)) w3))
    by (apply applied_safe, S3).
  split.
  { unfold update. js_run. fold g w1.
    assert (E : bind (match this_filter o with
                      | Some f => act (removeNode f)
                      | None => ret tt
                      end)
                  (fun _ => bind (_createFilter h i)
                              (fun _ => bind (_applyStyles h i) (fun _ => ret i))) w1
                = bind (_createFilter h i)
                    (fun _ => bind (_applyStyles h i) (fun _ => ret i)) w2).
    { unfold w2. destruct (this_filter o); reflexivity. }
    rewrite E.
    rewrite (bind_run _ _ _ _ _ (createFilter_run h i (g o) d w2 Ho2 Hd)).
    rewrite (bind_run _ _ _ _ _ (applyStyles_run h i _ w3 Ho3)).
    reflexivity. }
  split; [apply S4|].
  apply (InvL_keeps w1); [|exact L1].
  eapply keeps_trans; [apply S2|]. eapply keeps_trans; [apply S3 | apply S4].
Qed.

Lemma update_missing h i newOptions w :
  objs w !! i = None -> update h i newOptions w = (Throw TypeError, w).
Proof. intros Ho. unfold update, bind, getThis. rewrite Ho. reflexivity. Qed.

(** * [destroy], [enable], [disable], [destroyAll] *)

Lemma node_removedW x w n :
  tagName (node (removedW x w) n) = tagName (node w n) /\
  elemId (node (removedW x w) n) = elemId (node w n).
Proof. destruct x; simpl; [rewrite node_removeNode|]; split; reflexivity. Qed.

Lemma objs_removedW x w : objs (removedW x w) = objs w.
Proof. destruct x; reflexivity. Qed.

Lemma instances_removedW x w : instances (removedW x w) = instances w.
Proof. destruct x; reflexivity. Qed.

Lemma objs_destroyedW i o w : objs (destroyedW i o w) = objs w.
Proof.
  unfold destroyedW, unregisteredW. cbv zeta.
  destruct (Nat.eqb _ 0); rewrite ?objs_removedW; simpl; rewrite !objs_removedW; reflexivity.
Qed.

Lemma In_setDelete i j l : In j (setDelete i l) <-> In j l /\ j <> i.
Proof. apply In_without. Qed.

(** Up to unregistration, [destroy] leaves the registry alone. *)
Lemma unregistered_safe i o w :
  InvS w -> objs w !! i = Some o ->
  exists W1,
    unregisteredW i o w = withInstances (setDelete i) W1 /\
    safe (fun _ => True) w W1.
Proof.
  intros IS Ho. pose proof (inv_objs _ IS _ _ Ho) as Hok.
  unfold unregisteredW.
  set (w1 := removedW (this_filter o) w).
  set (w2 := removedW (this_overlayContainer o) w1).
  set (w3 := removedW (this_firefoxBg o) w2).
  exists (restoreStyles (this_element o) (this_originalStyles o) w3).
  split; [reflexivity|].
  assert (S1 : safe (fun _ => True) w w1).
  { apply safe_removedW; [exact IS|]. intros f Hf. eapply filter_removable; eauto. }
  assert (T1 : forall x, tagName (node w1 x) = tagName (node w x) /\
                         elemId (node w1 x) = elemId (node w x))
    by (intros; apply node_removedW).
  assert (T2 : forall x, tagName (node w2 x) = tagName (node w1 x) /\
                         elemId (node w2 x) = elemId (node w1 x))
    by (intros; apply node_removedW).
  assert (S2 : safe (fun _ => True) w1 w2).
  { apply safe_removedW; [apply S1|]. intros x Hx.
    destruct (T1 x) as (-> & ->).
    apply div_removable, (ok_overlay _ _ Hok), Hx. }
  assert (S3 : safe (fun _ => True) w2 w3).
  { apply safe_removedW; [apply S2|]. intros x Hx.
    destruct (T2 x) as (-> & ->). destruct (T1 x) as (-> & ->).
    apply div_removable, (ok_bg _ _ Hok), Hx. }
  eapply safe_trans; [exact S1|]. eapply safe_trans; [exact S2|].
  eapply safe_trans; [exact S3|].
  apply safe_sameShape; [apply sameShape_restoreStyles | reflexivity | apply S3].
Qed.

Lemma destroy_ok i w o :
  InvS w -> InvL w -> objs w !! i = Some o ->
  InvS (destroyedW i o w) /\ InvL (destroyedW i o w).
Proof.
  intros IS IL Ho.
  destruct (unregistered_safe i o w IS Ho) as (W1 & EW & (I1 & K1 & G1)).
  unfold destroyedW. cbv zeta. rewrite EW.
  set (W2 := withInstances (setDelete i) W1).
  assert (I2 : InvS W2) by (eapply InvS_sameShape; [apply sameShape_withInstances | exact I1]).
  pose proof (InvL_keeps _ _ K1 IL) as [E1 L1 B1].
  pose proof K1 as ((HR & HI) & _).
  destruct (Nat.eqb (length (instances W2)) 0) eqn:Elen.
  - apply Nat.eqb_eq, length_zero_iff_nil in Elen.
    rewrite (getElementById_registry W2 I2).
    change (registryNodes W2) with (registryNodes W1).
    destruct (registryNodes W1) as [|c l] eqn:ER; simpl.
    + split; [exact I2|]. split.
      * intros _. exact ER.
      * intros j Hj. rewrite Elen in Hj. destruct Hj.
      * exact B1.
    + assert (Hc : In c (registryNodes W1)) by (rewrite ER; left; reflexivity).
      destruct (inv_registry _ I1 c Hc) as (Ht & _).
      assert (Hl : l = []).
      { pose proof (inv_single _ I1) as Hlen. rewrite ER in Hlen.
        destruct l; [reflexivity | simpl in Hlen; lia]. }
      subst l.
      assert (Hrem : removed c W2 (removeNode c W2)) by apply removed_removeNode.
      split.
      * eapply InvS_removed; [exact Hrem | | exact I2]. change (node W2 c) with (node W1 c).
        rewrite Ht. discriminate.
      * split.
        -- intros _. unfold registryNodes.
           destruct Hrem as (_ & _ & _ & Hs). destruct (Hs body) as (_ & _ & ->).
           rewrite (filter_ext _ (fun n => String.eqb (elemId (node W2 n)) registryId))
             by (intros n; destruct (Hs n) as (_ & -> & _); reflexivity).
           rewrite filter_without.
           change (List.filter _ _) with (registryNodes W1). rewrite ER.
           simpl. rewrite Pos.eqb_refl. reflexivity.
        -- intros j Hj. change (instances (removeNode c W2)) with (instances W2) in Hj.
           rewrite Elen in Hj. destruct Hj.
        -- exact B1.
  - split; [exact I2|]. split.
    + intros H. change (instances W2) with (setDelete i (instances W1)) in *.
      rewrite H in Elen. discriminate.
    + intros j Hj. change (instances W2) with (setDelete i (instances W1)) in Hj.
      apply In_setDelete in Hj as (Hj & _). exact (L1 j Hj).
    + exact B1.
Qed.

Lemma restyled_ok w W :
  sameShape w W -> instances W = instances w -> InvS w -> InvL w -> InvS W /\ InvL W.
Proof.
  intros H Hi IS IL. destruct (safe_sameShape (fun _ => True) _ _ H Hi IS) as (I1 & K1 & _).
  split; [exact I1 | eapply InvL_keeps; eauto].
Qed.

Lemma enable_missing i w : objs w !! i = None -> enable i w = (Throw TypeError, w).
Proof. intros Ho. unfold enable, bind, getThis. rewrite Ho. reflexivity. Qed.

Lemma disable_missing i w : objs w !! i = None -> disable i w = (Throw TypeError, w).
Proof. intros Ho. unfold disable, bind, getThis. rewrite Ho. reflexivity. Qed.

Lemma forEach_destroy_ok l w :
  InvS w -> InvL w -> InvS (snd (forEach destroy l w)) /\ InvL (snd (forEach destroy l w)).
Proof.
  revert w. induction l as [|j l IH]; intros w IS IL; [split; assumption|].
  cbn [forEach]. destruct (objs w !! j) as [o|] eqn:Ho.
  - rewrite (bind_run _ _ _ _ _ (destroy_run j o w Ho)).
    destruct (destroy_ok j w o IS IL Ho). apply IH; assumption.
  - unfold bind. rewrite (destroy_missing j w Ho). simpl. split; assumption.
Qed.

(** * Every reachable store satisfies the invariants *)

Lemma pristine_inv w : pristine w -> InvS w /\ InvL w.
Proof.
  intros (Hi & Ho & Hb & Ht & Hk & Hg).
  assert (HR : registryNodes w = []).
  { apply filter_none. intros y Hy. apply String.eqb_neq. apply (Hk body y Hy). }
  split; split.
  - exact Hb.
  - exact Ht.
  - intros n c Hc. apply (Hk n c Hc).
  - intros i (o & Hio). rewrite Ho, lookup_empty in Hio. discriminate.
  - intros i o Hio. rewrite Ho, lookup_empty in Hio. discriminate.
  - intros c Hc. rewrite HR in Hc. destruct Hc.
  - rewrite HR. simpl. lia.
  - intros n Hn. destruct (Hk n body Hn) as (_ & Hne & _). congruence.
  - exact Hg.
  - intros n x Hx He. destruct (Hk n x Hx) as (_ & _ & Hne). contradiction.
  - intros c k Hc. rewrite HR in Hc. destruct Hc.
  - intros _. exact HR.
  - intros i Hin. rewrite Hi in Hin. destruct Hin.
  - intros i o Hio. rewrite Ho, lookup_empty in Hio. discriminate.
Qed.

Lemma perform_inv h c w : InvS w -> InvL w -> InvS (perform h c w) /\ InvL (perform h c w).
Proof.
  intros IS IL. destruct c as [t opts now r|i opts|i|i|i|]; simpl.
  - destruct (resolve h t w) as [e|] eqn:Hres.
    + destruct (construct_ok h t opts now r w e IS IL Hres) as (c & d & W & _ & Hrun & I & L & _).
      rewrite Hrun. split; assumption.
    + unfold construct. js_run. rewrite Hres. split; assumption.
  - destruct (objs w !! i) as [o|] eqn:Ho.
    + destruct (update_ok h i opts w o IS IL Ho) as (d & _ & Hrun & I & L).
      rewrite Hrun. split; assumption.
    + rewrite (update_missing h i opts w Ho). split; assumption.
  - destruct (objs w !! i) as [o|] eqn:Ho.
    + rewrite (enable_run i o w Ho). cbn [snd].
      apply (restyled_ok w); [|reflexivity | exact IS | exact IL].
      eapply sameShape_trans; [apply sameShape_setStyle | apply sameShape_setStyle].
    + rewrite (enable_missing i w Ho). split; assumption.
  - destruct (objs w !! i) as [o|] eqn:Ho.
    + rewrite (disable_run i o w Ho). cbn [snd].
      apply (restyled_ok w); [|reflexivity | exact IS | exact IL].
      eapply sameShape_trans; [apply sameShape_setStyle | apply sameShape_setStyle].
    + rewrite (disable_missing i w Ho). split; assumption.
  - destruct (objs w !! i) as [o|] eqn:Ho.
    + rewrite (destroy_run i o w Ho). cbn [snd]. apply destroy_ok; assumption.
    + rewrite (destroy_missing i w Ho). split; assumption.
  - unfold destroyAll. js_run. apply forEach_destroy_ok; assumption.
Qed.

Lemma reachable_inv h w : reachable h w -> InvS w /\ InvL w.
Proof.
  induction 1 as [w Hp | w c _ [IS IL]]; [apply pristine_inv, Hp | apply perform_inv; assumption].
Qed.

(** * Inline styles through the operations *)

Lemma getStyle_modNode_kept m f w n p :
  (forall nd, style (f nd) = style nd) ->
  getStyle (modNode m f w) n p = getStyle w n p.
Proof.
  intros Hf. unfold getStyle. rewrite node_modNode.
  case_decide; [subst; rewrite Hf|]; reflexivity.
Qed.

Lemma getStyle_modNode_other m f w n p :
  n <> m -> getStyle (modNode m f w) n p = getStyle w n p.
Proof.
  intros Hne. unfold getStyle. rewrite node_modNode, decide_False by assumption. reflexivity.
Qed.

Lemma getStyle_setCssText_other m l w n p :
  n <> m -> getStyle (setCssText m l w) n p = getStyle w n p.
Proof. apply getStyle_modNode_other. Qed.

Lemma getStyle_setStyle_other m q v w n p :
  n <> m -> getStyle (setStyle m q v w) n p = getStyle w n p.
Proof. apply getStyle_modNode_other. Qed.

Lemma getStyle_setStyle_same n q v w : getStyle (setStyle n q v w) n q = v.
Proof. rewrite getStyle_setStyle, !decide_True by reflexivity. reflexivity. Qed.

Lemma getStyle_setStyle_prop n q v w p :
  p <> q -> getStyle (setStyle n q v w) n p = getStyle w n p.
Proof.
  intros Hne. rewrite getStyle_setStyle, decide_True, decide_False by congruence.
  reflexivity.
Qed.

Lemma getStyle_setStyle_frame m q v w n p :
  n <> m \/ p <> q -> getStyle (setStyle m q v w) n p = getStyle w n p.
Proof.
  intros H. rewrite getStyle_setStyle.
  destruct (decide (n = m)) as [->|]; [|reflexivity].
  destruct (decide (p = q)) as [->|]; [|reflexivity].
  destruct H; congruence.
Qed.

Lemma getStyle_setClassName m c w n p : getStyle (setClassName m c w) n p = getStyle w n p.
Proof. apply getStyle_modNode_kept. reflexivity. Qed.

Lemma getStyle_setAttribute m k v w n p :
  getStyle (setAttribute m k v w) n p = getStyle w n p.
Proof. apply getStyle_modNode_kept. reflexivity. Qed.

Lemma getStyle_setInnerHTML m l w n p : getStyle (setInnerHTML m l w) n p = getStyle w n p.
Proof. apply getStyle_modNode_kept. reflexivity. Qed.

Lemma getStyle_setElemId m i w n p : getStyle (setElemId m i w) n p = getStyle w n p.
Proof. apply getStyle_modNode_kept. reflexivity. Qed.

Lemma getStyle_removeNode x w n p : getStyle (removeNode x w) n p = getStyle w n p.
Proof. unfold getStyle. rewrite node_removeNode. reflexivity. Qed.

Lemma getStyle_removedW x w n p : getStyle (removedW x w) n p = getStyle w n p.
Proof. destruct x; [apply getStyle_removeNode | reflexivity]. Qed.

Lemma getStyle_appendChild m c w n p : getStyle (appendChild m c w) n p = getStyle w n p.
Proof.
  unfold appendChild. rewrite getStyle_modNode_kept by reflexivity. apply getStyle_removeNode.
Qed.

Lemma getStyle_insertFirst m c w n p : getStyle (insertFirst m c w) n p = getStyle w n p.
Proof.
  unfold insertFirst. rewrite getStyle_modNode_kept by reflexivity. apply getStyle_removeNode.
Qed.

Lemma getStyle_createElement_other tag w n p :
  n <> nextNode w -> getStyle (snd (createElement tag w)) n p = getStyle w n p.
Proof.
  intros Hne. unfold getStyle. rewrite node_createElement, decide_False by assumption.
  reflexivity.
Qed.

Lemma getStyle_withObjs f w n p : getStyle (withObjs f w) n p = getStyle w n p.
Proof. reflexivity. Qed.

Lemma getStyle_withInstances f w n p : getStyle (withInstances f w) n p = getStyle w n p.
Proof. reflexivity. Qed.

Lemma getStyle_consoleLog e w n p : getStyle (consoleLog e w) n p = getStyle w n p.
Proof. reflexivity. Qed.

Lemma getStyle_steady b w W n p :
  steady true b w W -> (n < b)%positive -> getStyle W n p = getStyle w n p.
Proof.
  intros H Hn. unfold getStyle. destruct (H n Hn) as (_ & _ & ->); reflexivity.
Qed.

(** The loop over the children writes [position] and [zIndex] of those
    children and nothing else. *)
Lemma getStyle_forEach_liftChild h l w n p :
  (p <> "position" /\ p <> "zIndex") \/ ~ In n l ->
  getStyle (snd (forEach (liftChild h) l w)) n p = getStyle w n p.
Proof.
  revert w. induction l as [|c l IH]; intros w Hp; [reflexivity|].
  assert (Hp' : (p <> "position" /\ p <> "zIndex") \/ ~ In n l)
    by (destruct Hp as [?|Hn]; [left; assumption | right; simpl in Hn; tauto]).
  assert (Hc : forall q, q = "position" \/ q = "zIndex" -> n <> c \/ p <> q).
  { intros q Hq. destruct Hp as [(H1 & H2)|Hn].
    - right. destruct Hq; congruence.
    - left. simpl in Hn. intros ->. tauto. }
  cbn [forEach]. unfold liftChild at 1. js_run.
  destruct (_ =? "static"); js_run; destruct (orb _ _); js_run;
    rewrite IH by assumption;
    rewrite ?getStyle_setStyle_frame by (apply Hc; tauto); reflexivity.
Qed.

(** * What [_applyStyles] leaves on the element *)

Lemma getStyle_probedW h w n p :
  n <> nextNode w -> getStyle (probedW h w) n p = getStyle w n p.
Proof.
  intros Hne. unfold probedW. destruct (backdropFilterProbe h).
  - rewrite getStyle_setStyle_other by assumption. apply getStyle_createElement_other, Hne.
  - apply getStyle_createElement_other, Hne.
Qed.

Lemma getStyle_styledW_position h o b w :
  getStyle (styledW h o b w) (this_element o) "position"
  = if b then "relative" else getStyle w (this_element o) "position".
Proof.
  unfold styledW. destruct b.
  - apply getStyle_setStyle_same.
  - rewrite !getStyle_setStyle_prop by discriminate. reflexivity.
Qed.

Lemma getStyle_styledW_boxShadow h o b w :
  getStyle (styledW h o b w) (this_element o) "boxShadow" = insetShadow h (this_options o).
Proof.
  unfold styledW. destruct b.
  - rewrite getStyle_setStyle_prop by discriminate. apply getStyle_setStyle_same.
  - apply getStyle_setStyle_same.
Qed.

Lemma getStyle_styledW_frame h o b w p :
  p <> "backdropFilter" -> p <> "WebkitBackdropFilter" -> p <> "overflow" ->
  p <> "boxShadow" -> p <> "position" ->
  getStyle (styledW h o b w) (this_element o) p = getStyle w (this_element o) p.
Proof.
  intros. unfold styledW. destruct b; rewrite !getStyle_setStyle_prop by assumption; reflexivity.
Qed.

(** The element's style after the fallback branch, for a property that
    the loop over the children cannot reach. *)
Lemma getStyle_fallbackW h i o w p :
  (this_element o < nextNode w)%positive ->
  (p <> "position" /\ p <> "zIndex") \/ ~ In (this_element o) (childNodes (node w (this_element o))) ->
  getStyle (fallbackW h i o w) (this_element o) p
  = if decide (p = "boxShadow") then fallbackShadow h (this_options o)
    else if decide (p = "backgroundColor") then "rgba(255, 255, 255, 0.85)"
    else getStyle w (this_element o) p.
Proof.
  intros He Hp. unfold fallbackW, fallbackBuiltW. cbv zeta.
  rewrite getStyle_withObjs, getStyle_forEach_liftChild.
  - rewrite getStyle_insertFirst, getStyle_setCssText_other,
      getStyle_setClassName, getStyle_createElement_other
      by (frame; lia).
    rewrite getStyle_setStyle, decide_True by reflexivity.
    destruct (decide (p = "boxShadow")); [reflexivity|].
    rewrite getStyle_setStyle, decide_True by reflexivity.
    destruct (decide (p = "backgroundColor")); reflexivity.
  - destruct Hp as [Hp|Hp]; [left; exact Hp | right].
    prims. autorewrite with frame nodes. decide_all. simpl. exact Hp.
Qed.

Lemma childNodes_styledW h o b w n :
  childNodes (node (styledW h o b w) n) = childNodes (node w n).
Proof.
  unfold styledW. cbv zeta.
  destruct b; prims; autorewrite with nodes; decide_all; subst; reflexivity.
Qed.

Lemma childNodes_probedW h w n :
  (n < nextNode w)%positive ->
  childNodes (node (probedW h w) n) = childNodes (node w n).
Proof.
  intros Hn. unfold probedW.
  destruct (backdropFilterProbe h); prims; autorewrite with frame nodes; decide_all;
    subst; reflexivity.
Qed.

(** The inline style of the element once [_applyStyles] is through. *)
Lemma getStyle_appliedW h i o w p :
  (this_element o < nextNode w)%positive ->
  (p <> "position" /\ p <> "zIndex")
  \/ ~ In (this_element o) (childNodes (node w (this_element o))) ->
  getStyle (appliedW h i o w) (this_element o) p
  = let styled := getStyle (styledW h o (String.eqb (getComputedPosition h w (this_element o))
                                           "static") w) (this_element o) p in
    if fallbackMode h
    then if decide (p = "boxShadow") then fallbackShadow h (this_options o)
         else if decide (p = "backgroundColor") then "rgba(255, 255, 255, 0.85)"
         else styled
    else styled.
Proof.
  intros He Hp. unfold appliedW. cbv zeta.
  set (b := String.eqb _ "static").
  assert (Hn : this_element o <> nextNode (styledW h o b w))
    by (rewrite nextNode_styledW; lia).
  destruct (fallbackMode h).
  - rewrite getStyle_fallbackW.
    + rewrite getStyle_probedW by exact Hn. reflexivity.
    + rewrite nextNode_probedW, nextNode_styledW. lia.
    + rewrite childNodes_probedW, childNodes_styledW by (rewrite nextNode_styledW; lia).
      exact Hp.
  - apply getStyle_probedW, Hn.
Qed.

(** * The styles after [destroy] and after the constructor *)

(** [destroy] writes the four saved properties back. *)
Lemma getStyle_destroyedW_restored i o w :
  getStyle (destroyedW i o w) (this_element o) "backdropFilter"
  = backdropFilter (this_originalStyles o) /\
  getStyle (destroyedW i o w) (this_element o) "WebkitBackdropFilter"
  = WebkitBackdropFilter (this_originalStyles o) /\
  getStyle (destroyedW i o w) (this_element o) "position"
  = position (this_originalStyles o) /\
  getStyle (destroyedW i o w) (this_element o) "overflow"
  = overflow (this_originalStyles o).
Proof.
  assert (H : forall p, getStyle (destroyedW i o w) (this_element o) p
              = getStyle (restoreStyles (this_element o) (this_originalStyles o)
                            (removedW (this_firefoxBg o)
                               (removedW (this_overlayContainer o)
                                  (removedW (this_filter o) w)))) (this_element o) p).
  { intros p. unfold destroyedW, unregisteredW. cbv zeta.
    destruct (Nat.eqb _ 0); rewrite ?getStyle_removedW, getStyle_withInstances; reflexivity. }
  rewrite !H. unfold restoreStyles.
  repeat split;
    repeat first [ apply getStyle_setStyle_same
                 | rewrite getStyle_setStyle_prop by discriminate ].
Qed.

(** ... and no other property of any element. *)
Lemma getStyle_destroyedW_frame i o w n p :
  n <> this_element o \/
  (p <> "backdropFilter" /\ p <> "WebkitBackdropFilter" /\ p <> "position" /\ p <> "overflow") ->
  getStyle (destroyedW i o w) n p = getStyle w n p.
Proof.
  intros Hp. unfold destroyedW, unregisteredW. cbv zeta.
  assert (H : forall X, getStyle (restoreStyles (this_element o) (this_originalStyles o) X) n p
                        = getStyle X n p).
  { intros X. unfold restoreStyles.
    destruct Hp as [Hn|(H1 & H2 & H3 & H4)].
    - rewrite !getStyle_setStyle_other by congruence. reflexivity.
    - destruct (decide (n = this_element o)) as [->|Hn].
      + rewrite !getStyle_setStyle_prop by assumption. reflexivity.
      + rewrite !getStyle_setStyle_other by congruence. reflexivity. }
  destruct (Nat.eqb _ 0); rewrite ?getStyle_removedW, getStyle_withInstances, H,
    !getStyle_removedW; reflexivity.
Qed.

Lemma nextNode_ensuredW_le i w : (nextNode w <= nextNode (ensuredW i w))%positive.
Proof.
  unfold ensuredW, registryCreatedW. destruct (getElementById w registryId); simpl; lia.
Qed.

Lemma nextNode_appliedW_le h i o w : (nextNode w <= nextNode (appliedW h i o w))%positive.
Proof.
  unfold appliedW. cbv zeta. set (b := String.eqb _ "static").
  assert (H1 : nextNode (probedW h (styledW h o b w)) = Pos.succ (nextNode w))
    by (rewrite nextNode_probedW, nextNode_styledW; reflexivity).
  destruct (fallbackMode h); [|lia].
  unfold fallbackW. cbv zeta.
  change (nextNode (withObjs ?f ?X)) with (nextNode X).
  destruct (forEach_liftChild_sameShape h
              (childNodes (node (fallbackBuiltW h o (probedW h (styledW h o b w)))
                                (this_element o)))
              (insertFirst (this_element o) (nextNode (probedW h (styledW h o b w)))
                 (fallbackBuiltW h o (probedW h (styledW h o b w))))) as (-> & _).
  unfold fallbackBuiltW. prims. autorewrite with frame. lia.
Qed.

(** The shadow and the background of the element when [_init] is through. *)
Lemma getStyle_initW h i o0 c d w0 :
  (this_element o0 < nextNode w0)%positive ->
  getStyle (initW h i o0 c d w0) (this_element o0) "boxShadow"
  = (if fallbackMode h then fallbackShadow h (this_options o0)
     else insetShadow h (this_options o0)) /\
  getStyle (initW h i o0 c d w0) (this_element o0) "backgroundColor"
  = (if fallbackMode h then "rgba(255, 255, 255, 0.85)"
     else getStyle w0 (this_element o0) "backgroundColor").
Proof.
  intros He. unfold initW. cbv zeta.
  set (w1 := ensuredW i w0).
  set (o1 := with_container (Some c) (Some d) o0).
  set (w2 := filterCreatedW h i o1 d w1).
  set (o2 := with_filter (Some (nextNode w1)) o1).
  set (w3 := appliedW h i o2 w2).
  pose proof (nextNode_ensuredW_le i w0) as L1. fold w1 in L1.
  assert (L2 : nextNode w2 = Pos.succ (nextNode w1)) by reflexivity.
  pose proof (nextNode_appliedW_le h i o2 w2) as L3. fold w3 in L3.
  assert (E2 : forall p, getStyle w2 (this_element o0) p = getStyle w0 (this_element o0) p).
  { intros p. unfold w2.
    rewrite (getStyle_steady (nextNode w0) w1) by (try apply steady_filterCreatedW; lia).
    apply (getStyle_steady (nextNode w0)); [apply steady_ensuredW; lia | lia]. }
  assert (E3 : forall p, p <> "position" -> p <> "zIndex" ->
             getStyle w3 (this_element o0) p
             = let styled := getStyle (styledW h o2 (String.eqb (getComputedPosition h w2
                                 (this_element o2)) "static") w2) (this_element o2) p in
               if fallbackMode h
               then if decide (p = "boxShadow") then fallbackShadow h (this_options o2)
                    else if decide (p = "backgroundColor") then "rgba(255, 255, 255, 0.85)"
                    else styled
               else styled).
  { intros p P1 P2. apply (getStyle_appliedW h i o2 w2 p); [simpl; lia | left; split; assumption]. }
  assert (E5 : forall o3 p,
             getStyle (if orb (truthy (this_options o0 !! "addOverlay"))
                              (truthy (this_options o0 !! "addNoise"))
                       then overlaysW i o3 w3 else w3) (this_element o0) p
             = getStyle w3 (this_element o0) p).
  { intros o3 p. destruct (orb _ _); [|reflexivity].
    apply (getStyle_steady (nextNode w0)); [apply steady_overlaysW; lia | lia]. }
  rewrite !E5, !E3 by discriminate. cbv zeta.
  change (this_element o2) with (this_element o0).
  change (this_options o2) with (this_options o0).
  destruct (fallbackMode h).
  - split; reflexivity.
  - split.
    + exact (getStyle_styledW_boxShadow h o2 _ w2).
    + rewrite <- (E2 "backgroundColor").
      apply (getStyle_styledW_frame h o2); discriminate.
Qed.

(** * Steps that add no overlay container *)

Lemma calm_refl w : calm w w.
Proof. intros n x Hx. left. split; [exact Hx | reflexivity]. Qed.

Lemma calm_trans w1 w2 w3 : calm w1 w2 -> calm w2 w3 -> calm w1 w3.
Proof.
  intros H1 H2 n x Hx. destruct (H2 n x Hx) as [(Hin & Hc)|Hne]; [|right; exact Hne].
  destruct (H1 n x Hin) as [(Hin' & Hc')|Hne'].
  - left. split; [exact Hin' | congruence].
  - right. congruence.
Qed.

Lemma calm_modNode_keep m f w :
  (forall nd, childNodes (f nd) = childNodes nd /\ className (f nd) = className nd) ->
  calm w (modNode m f w).
Proof.
  intros Hf n x. rewrite !node_modNode. intros Hx. left. split.
  - destruct (decide (n = m)) as [->|Hn]; [rewrite (proj1 (Hf _)) in Hx|]; exact Hx.
  - destruct (decide (x = m)) as [->|Hn]; [apply Hf | reflexivity].
Qed.

Lemma calm_setStyle m p v w : calm w (setStyle m p v w).
Proof. apply calm_modNode_keep. intros; split; reflexivity. Qed.

Lemma calm_setCssText m l w : calm w (setCssText m l w).
Proof. apply calm_modNode_keep. intros; split; reflexivity. Qed.

Lemma calm_setElemId m i w : calm w (setElemId m i w).
Proof. apply calm_modNode_keep. intros; split; reflexivity. Qed.

Lemma calm_setAttribute m k v w : calm w (setAttribute m k v w).
Proof. apply calm_modNode_keep. intros; split; reflexivity. Qed.

Lemma calm_setInnerHTML m l w : calm w (setInnerHTML m l w).
Proof. apply calm_modNode_keep. intros; split; reflexivity. Qed.

Lemma calm_setClassName m c w :
  c <> "chromatic-blur-overlays" -> calm w (setClassName m c w).
Proof.
  intros Hc n x. unfold setClassName. rewrite !node_modNode. intros Hx.
  destruct (decide (x = m)) as [->|Hne].
  - right. exact Hc.
  - left. split; [|reflexivity].
    destruct (decide (n = m)) as [->|Hn]; exact Hx.
Qed.

Lemma calm_createElement tag w : calm w (snd (createElement tag w)).
Proof.
  intros n x. rewrite !node_createElement. intros Hx.
  destruct (decide (n = nextNode w)) as [->|Hn]; [destruct Hx|].
  destruct (decide (x = nextNode w)) as [->|Hne].
  - right. discriminate.
  - left. split; [exact Hx | reflexivity].
Qed.

Lemma calm_removeNode x w : calm w (removeNode x w).
Proof.
  intros n y. rewrite !node_removeNode. simpl. intros Hy.
  apply In_without in Hy. left. split; [apply Hy | reflexivity].
Qed.

Lemma calm_removedW x w : calm w (removedW x w).
Proof. destruct x; [apply calm_removeNode | apply calm_refl]. Qed.

Lemma calm_attach m c (g : list nid -> list nid) w :
  (forall l y, In y (g l) -> y = c \/ In y l) ->
  className (node w c) <> "chromatic-blur-overlays" ->
  calm w (modNode m (withChildren g) (removeNode c w)).
Proof.
  intros Hg Hc n y. rewrite !node_modNode, !node_removeNode. intros Hy.
  assert (Hcls : className (if decide (y = m)
                            then withChildren g (withChildren (without c) (node w m))
                            else withChildren (without c) (node w y))
                 = className (node w y))
    by (destruct (decide (y = m)) as [->|?]; reflexivity).
  rewrite Hcls.
  assert (Hy' : y = c \/ In y (childNodes (node w n))).
  { destruct (decide (n = m)) as [->|Hn]; simpl in Hy.
    - destruct (Hg _ _ Hy) as [->|Hin]; [left; reflexivity|].
      right. apply In_without in Hin. apply Hin.
    - right. apply In_without in Hy. apply Hy. }
  destruct Hy' as [->|Hin]; [right; exact Hc | left; split; [exact Hin | reflexivity]].
Qed.

Lemma calm_appendChild m c w :
  className (node w c) <> "chromatic-blur-overlays" -> calm w (appendChild m c w).
Proof.
  apply calm_attach. intros l y Hy. apply in_app_or in Hy.
  destruct Hy as [Hy|[<-|[]]]; [right; exact Hy | left; reflexivity].
Qed.

Lemma calm_insertFirst m c w :
  className (node w c) <> "chromatic-blur-overlays" -> calm w (insertFirst m c w).
Proof.
  apply calm_attach. intros l y [<-|Hy]; [left; reflexivity | right; exact Hy].
Qed.

Lemma calm_node w W : (forall n, node W n = node w n) -> calm w W.
Proof. intros H n x Hx. rewrite !H in *. left. split; [exact Hx | reflexivity]. Qed.

Lemma calm_withObjs f w : calm w (withObjs f w).
Proof. apply calm_node. reflexivity. Qed.

Lemma calm_withInstances f w : calm w (withInstances f w).
Proof. apply calm_node. reflexivity. Qed.

Lemma calm_consoleLog e w : calm w (consoleLog e w).
Proof. apply calm_node. reflexivity. Qed.

Lemma calm_newObject e o i w : calm w (snd (newObject e o i w)).
Proof. apply calm_node. reflexivity. Qed.

Lemma calm_forEach_liftChild h l w : calm w (snd (forEach (liftChild h) l w)).
Proof.
  revert w. induction l as [|c l IH]; intros w; [apply calm_refl|].
  cbn [forEach]. unfold liftChild at 1. js_run.
  destruct (_ =? "static"); js_run; destruct (orb _ _); js_run;
    (eapply calm_trans; [|apply IH]);
    repeat (eapply calm_trans; [|apply calm_setStyle]); apply calm_refl.
Qed.

(** Reads the class of a node off the operations that built the store. *)
Ltac class_tac :=
  prims; autorewrite with frame nodes; repeat case_decide; subst; simpl;
  try discriminate; try lia; try congruence.

(** Walks a store built from [w] by the DOM operations. *)
Ltac calm_tac :=
  lazymatch goal with
  | |- calm ?w ?w => apply calm_refl
  | |- calm _ (if ?c then _ else _) => destruct c; calm_tac
  | |- calm ?w (setStyle _ _ _ ?X) =>
      apply (calm_trans w X); [calm_tac | apply calm_setStyle]
  | |- calm ?w (setCssText _ _ ?X) =>
      apply (calm_trans w X); [calm_tac | apply calm_setCssText]
  | |- calm ?w (setElemId _ _ ?X) =>
      apply (calm_trans w X); [calm_tac | apply calm_setElemId]
  | |- calm ?w (setAttribute _ _ _ ?X) =>
      apply (calm_trans w X); [calm_tac | apply calm_setAttribute]
  | |- calm ?w (setInnerHTML _ _ ?X) =>
      apply (calm_trans w X); [calm_tac | apply calm_setInnerHTML]
  | |- calm ?w (setClassName _ _ ?X) =>
      apply (calm_trans w X); [calm_tac | apply calm_setClassName; discriminate]
  | |- calm ?w (snd (createElement _ ?X)) =>
      apply (calm_trans w X); [calm_tac | apply calm_createElement]
  | |- calm ?w (removeNode _ ?X) =>
      apply (calm_trans w X); [calm_tac | apply calm_removeNode]
  | |- calm ?w (appendChild _ _ ?X) =>
      apply (calm_trans w X); [calm_tac | apply calm_appendChild; class_tac]
  | |- calm ?w (insertFirst _ _ ?X) =>
      apply (calm_trans w X); [calm_tac | apply calm_insertFirst; class_tac]
  | |- calm ?w (withObjs _ ?X) =>
      apply (calm_trans w X); [calm_tac | apply calm_withObjs]
  | |- calm ?w (withInstances _ ?X) =>
      apply (calm_trans w X); [calm_tac | apply calm_withInstances]
  | |- calm ?w (consoleLog _ ?X) =>
      apply (calm_trans w X); [calm_tac | apply calm_consoleLog]
  | |- calm ?w (snd (forEach (liftChild _) _ ?X)) =>
      apply (calm_trans w X); [calm_tac | apply calm_forEach_liftChild]
  end.

Lemma calm_ensuredW i w : calm w (ensuredW i w).
Proof.
  unfold ensuredW, registryCreatedW. cbv zeta.
  destruct (getElementById w registryId); calm_tac.
Qed.

Lemma calm_filterCreatedW h i o d w : calm w (filterCreatedW h i o d w).
Proof. unfold filterCreatedW, filterBuiltW. cbv zeta. calm_tac. Qed.

Lemma calm_styledW h o c w : calm w (styledW h o c w).
Proof. unfold styledW. cbv zeta. destruct c; calm_tac. Qed.

Lemma calm_probedW h w : calm w (probedW h w).
Proof. unfold probedW. destruct (backdropFilterProbe h); calm_tac. Qed.

Lemma calm_fallbackBuiltW h o w : calm w (fallbackBuiltW h o w).
Proof. unfold fallbackBuiltW. cbv zeta. calm_tac. Qed.

Lemma className_fallbackBuiltW h o w :
  className (node (fallbackBuiltW h o w) (nextNode w)) = "chromatic-blur-firefox-bg".
Proof.
  unfold fallbackBuiltW. cbv zeta.
  set (w1 := setStyle (this_element o) "boxShadow" _ _).
  change (nextNode w) with (nextNode w1).
  unfold setCssText, setClassName. rewrite node_modNode, decide_True by reflexivity.
  rewrite node_modNode, decide_True by reflexivity. reflexivity.
Qed.

Lemma calm_fallbackW h i o w : calm w (fallbackW h i o w).
Proof.
  unfold fallbackW. cbv zeta.
  set (w2 := fallbackBuiltW h o w).
  apply (calm_trans w w2); [apply calm_fallbackBuiltW|].
  apply (calm_trans w2 (insertFirst (this_element o) (nextNode w) w2)).
  { apply calm_insertFirst. unfold w2. rewrite className_fallbackBuiltW. discriminate. }
  eapply calm_trans; [apply calm_forEach_liftChild | apply calm_withObjs].
Qed.

Lemma calm_appliedW h i o w : calm w (appliedW h i o w).
Proof.
  unfold appliedW. cbv zeta.
  eapply calm_trans; [apply calm_styledW|].
  destruct (fallbackMode h).
  - eapply calm_trans; [apply calm_probedW | apply calm_fallbackW].
  - apply calm_probedW.
Qed.

(** No overlay container appears among the children of an element in
    a calm step. *)
Lemma calm_overlayChildren w W e x :
  calm w W -> In x (overlayChildren W e) -> In x (overlayChildren w e).
Proof.
  unfold overlayChildren, classChildren. intros H Hx.
  apply filter_In in Hx. destruct Hx as (Hin & Hc). apply String.eqb_eq in Hc.
  apply filter_In. destruct (H e x Hin) as [(Hin' & Hc')|Hne]; [|congruence].
  split; [exact Hin'|]. apply String.eqb_eq. congruence.
Qed.

(** * The content of the filter definition *)

Lemma filterCreatedW_content h i o d w :
  innerHTML (node (filterCreatedW h i o d w) (nextNode w)) = filterMarkup h (this_options o).
Proof.
  destruct (filterBuiltW_node h o w) as (_ & _ & <-).
  unfold filterCreatedW. prims. autorewrite with nodes.
  case_decide; subst; reflexivity.
Qed.

(** When [_init] is through, the filter it created still has the
    content [_createFilter] gave it. *)
Lemma initW_content h i o0 c d w0 :
  innerHTML (node (initW h i o0 c d w0) (nextNode (ensuredW i w0)))
  = filterMarkup h (this_options o0).
Proof.
  unfold initW. cbv zeta.
  set (w1 := ensuredW i w0).
  set (o1 := with_container (Some c) (Some d) o0).
  set (w2 := filterCreatedW h i o1 d w1).
  set (o2 := with_filter (Some (nextNode w1)) o1).
  set (w3 := appliedW h i o2 w2).
  assert (L2 : nextNode w2 = Pos.succ (nextNode w1)) by reflexivity.
  pose proof (nextNode_appliedW_le h i o2 w2) as L3. fold w3 in L3.
  assert (E3 : innerHTML (node w3 (nextNode w1)) = filterMarkup h (this_options o0)).
  { destruct (steady_appliedW h (nextNode w2) i o2 w2 ltac:(lia) (nextNode w1) ltac:(lia))
      as (_ & E & _).
    unfold w3. rewrite E. apply (filterCreatedW_content h i o1 d w1). }
  destruct (orb _ _); [|exact E3].
  destruct (steady_overlaysW false (nextNode w3) i
              (if fallbackMode h then with_firefoxBg (Some (Pos.succ (nextNode w2))) o2 else o2)
              w3 ltac:(lia) (nextNode w1) ltac:(lia)) as (_ & E & _).
  rewrite E. exact E3.
Qed.

Lemma calm_initW h i o0 c d w0 :
  orb (truthy (this_options o0 !! "addOverlay")) (truthy (this_options o0 !! "addNoise")) = false ->
  calm w0 (initW h i o0 c d w0).
Proof.
  intros Hf. unfold initW. cbv zeta. rewrite Hf.
  eapply calm_trans; [apply calm_ensuredW|].
  eapply calm_trans; [apply calm_filterCreatedW | apply calm_appliedW].
Qed.

(** The stages of the definition read the options they are named
    after. *)
Lemma stageAttr_filterMarkup h o :
  stageAttr (filterMarkup h o) "feOffset" "redOffset" "dx" = Some (toStr h (o !! "redOffset")) /\
  stageAttr (filterMarkup h o) "feOffset" "blueOffset" "dx" = Some (toStr h (o !! "blueOffset")) /\
  stageAttr (filterMarkup h o) "feGaussianBlur" "blurred" "stdDeviation"
  = Some (toStr h (o !! "blurAmount")) /\
  stageAttr (filterMarkup h o) "feTurbulence" "turbulence" "baseFrequency"
  = Some (toStr h (o !! "turbulenceFrequency")) /\
  stageAttr (filterMarkup h o) "feDisplacementMap" "displacement" "scale"
  = Some (toStr h (o !! "displacementScale")).
Proof. repeat split. Qed.

Lemma blurStages_filterMarkup h o :
  map (attrOf "stdDeviation") (stagesOf "feGaussianBlur" (filterMarkup h o))
  = [Some (toStr h (o !! "blurAmount"))].
Proof. reflexivity. Qed.

(** * The definitions of an instance after [update] *)

Lemma filterDefinitions_registry w c d :
  InvS w -> registryNodes w = [c] -> childByTag w c "defs" = Some d ->
  filterDefinitions w = childNodes (node w d).
Proof.
  intros I Hr Hq. unfold filterDefinitions.
  rewrite (getElementById_registry w I), Hr. cbn [head].
  rewrite (querySelectorTag_registry w c I) by (rewrite Hr; left; reflexivity).
  rewrite Hq. reflexivity.
Qed.

Lemma definitionsWithId_idChildren w s c d :
  InvS w -> registryNodes w = [c] -> childByTag w c "defs" = Some d ->
  definitionsWithId w s = idChildren w s d.
Proof.
  intros I Hr Hq. unfold definitionsWithId.
  rewrite (filterDefinitions_registry w c d I Hr Hq). reflexivity.
Qed.

(** [_createFilter] appends one definition with the id of the instance. *)
Lemma idChildren_filterCreatedW h i o d w :
  InvS w -> (d < nextNode w)%positive ->
  idChildren (filterCreatedW h i o d w) (this_id o) d
  = (idChildren w (this_id o) d ++ [nextNode w])%list.
Proof.
  intros I Hd.
  assert (Hk : childNodes (node (filterCreatedW h i o d w) d)
               = (childNodes (node w d) ++ [nextNode w])%list).
  { unfold filterCreatedW, filterBuiltW. prims. autorewrite with nodes. decide_all. simpl.
    rewrite without_notin; [reflexivity|].
    intros Hin. pose proof (inv_kids _ I _ _ Hin). lia. }
  assert (He : forall x, (x < nextNode w)%positive ->
             elemId (node (filterCreatedW h i o d w) x) = elemId (node w x)).
  { intros x Hx. unfold filterCreatedW, filterBuiltW. prims. autorewrite with nodes.
    decide_all; subst; simpl; decide_all; reflexivity. }
  assert (Hf : elemId (node (filterCreatedW h i o d w) (nextNode w)) = this_id o).
  { unfold filterCreatedW, filterBuiltW. prims. autorewrite with nodes.
    decide_all; subst; simpl; decide_all; reflexivity. }
  unfold idChildren. rewrite Hk, List.filter_app. simpl. rewrite Hf, String.eqb_refl.
  f_equal. apply filter_ext_in. intros x Hx.
  rewrite He; [reflexivity|]. apply (inv_kids _ I _ _ Hx).
Qed.

Lemma update_definitions h i newOptions w o :
  InvS w -> InvL w -> In i (instances w) -> objs w !! i = Some o ->
  (forall j oj, objs w !! j = Some oj -> this_id oj = this_id o -> j = i) ->
  exists W f o',
    update h i newOptions w = (Return i, W) /\
    objs W !! i = Some o' /\ this_filter o' = Some f /\ this_id o' = this_id o /\
    definitionsWithId W (this_id o) = [f] /\
    innerHTML (node W f) = filterMarkup h (spread (this_options o) newOptions).
Proof.
  intros IS IL Hlive Ho Huniq.
  destruct (update_ok h i newOptions w o IS IL Ho) as (d & Hd & Hrun & _ & _).
  destruct (inv_live _ IL i Hlive) as (oa & c & d' & Hoa & Hc & Hd' & Hreg & Hq).
  rewrite Ho in Hoa. injection Hoa as <-. rewrite Hd in Hd'. injection Hd' as <-.
  revert Hrun. unfold updatedW. cbv zeta.
  set (g := with_options (spread (this_options o) newOptions)).
  set (w1 := withObjs (alter g i) w).
  assert (A1 : altered i g w w1) by apply altered_withObjs.
  assert (I1 : InvS w1).
  { eapply InvS_altered; [exact A1 | reflexivity | | exact IS].
    intros o' _ Hok. apply objOK_with_options, Hok. }
  assert (Ho1 : objs w1 !! i = Some (g o)) by (apply lookup_alter_eq, Ho).
  set (w2 := removedW (this_filter o) w1).
  assert (S2 : safe (fun _ => True) w1 w2).
  { apply safe_removedW; [exact I1|]. intros f Hf.
    eapply filter_removable; [apply (inv_objs _ I1 _ _ Ho1) | exact Hf]. }
  assert (Ho2 : objs w2 !! i = Some (g o)).
  { unfold w2. destruct (this_filter o); exact Ho1. }
  set (w3 := filterCreatedW h i (g o) d w2).
  assert (S3 : safe (fun _ => True) w2 w3).
  { apply filterCreated_safe; [apply S2 | exact Ho2 | exact Hd|].
    intros f0 n Hf0 Hin. simpl in Hf0. unfold w2 in Hin. rewrite Hf0 in Hin.
    simpl in Hin. rewrite node_removeNode in Hin. simpl in Hin.
    apply In_without in Hin. tauto. }
  assert (Ho3 : objs w3 !! i = Some (with_filter (Some (nextNode w2)) (g o))).
  { change (objs w3) with (alter (with_filter (Some (nextNode w2))) i (objs w2)).
    apply lookup_alter_eq, Ho2. }
  set (o3 := with_filter (Some (nextNode w2)) (g o)).
  set (W := appliedW h i o3 w3).
  assert (S4 : safe (fun _ => True) w3 W) by (apply applied_safe, S3).
  intros Hrun.
  assert (N2 : nextNode w2 = nextNode w) by (unfold w2; destruct (this_filter o); reflexivity).
  assert (N3 : nextNode w3 = Pos.succ (nextNode w2)) by reflexivity.
  destruct (ok_defs _ _ (inv_objs _ IS _ _ Ho) _ Hd) as (Dlt & _ & Dkids).
  destruct (ok_id _ _ (inv_objs _ IS _ _ Ho)) as (Hid & _).
  (* the registry and its definitions node are where they were *)
  assert (R1 : registryNodes w1 = [c]).
  { rewrite <- Hreg. apply registryNodes_nodes. reflexivity. }
  assert (Q1 : childByTag w1 c "defs" = Some d).
  { rewrite <- Hq. apply childByTag_nodes. reflexivity. }
  destruct S2 as (I2 & ((R2 & _) & Q2 & _) & G2).
  destruct S3 as (I3 & ((R3 & _) & Q3 & _) & G3).
  destruct S4 as (I4 & ((R4 & _) & Q4 & _) & G4).
  assert (RW : registryNodes W = [c]) by congruence.
  assert (QW : childByTag W c "defs" = Some d).
  { rewrite Q4, Q3, Q2; [exact Q1 | | |]; rewrite ?R3, ?R2, R1; left; reflexivity. }
  exists W, (nextNode w2), (if fallbackMode h
                            then with_firefoxBg (Some (Pos.succ (nextNode w3))) o3 else o3).
  split; [exact Hrun|].
  split.
  { unfold W. rewrite objs_appliedW. destruct (fallbackMode h); [|exact Ho3].
    apply lookup_alter_eq, Ho3. }
  split; [destruct (fallbackMode h); reflexivity|].
  split; [destruct (fallbackMode h); reflexivity|].
  split.
  - rewrite (definitionsWithId_idChildren W _ c d I4 RW QW).
    destruct (applied_quiet h i o3 w3 I3) as (_ & HQ). fold W in HQ.
    rewrite HQ by (try exact Hid; lia).
    change (this_id o) with (this_id (g o)).
    unfold w3. rewrite idChildren_filterCreatedW by (try exact I2; lia).
    replace (idChildren w2 (this_id (g o)) d) with (@nil nid); [reflexivity|].
    symmetry. unfold idChildren.
    destruct (List.filter _ _) as [|x l] eqn:E; [reflexivity|]. exfalso.
    assert (Hx : In x (x :: l)) by (left; reflexivity).
    rewrite <- E in Hx. apply filter_In in Hx. destruct Hx as (Hin & Hx).
    apply String.eqb_eq in Hx. change (this_id (g o)) with (this_id o) in Hx.
    assert (Hin' : In x (childNodes (node w d)) /\ this_filter o <> Some x).
    { unfold w2 in Hin. destruct (this_filter o) as [f0|]; simpl in Hin.
      - rewrite node_removeNode in Hin. simpl in Hin. apply In_without in Hin.
        split; [apply Hin | intros [= ->]; tauto].
      - split; [exact Hin | discriminate]. }
    assert (Hx' : elemId (node w x) = this_id o).
    { rewrite <- Hx. unfold w2. destruct (this_filter o); simpl;
        [rewrite node_removeNode|]; reflexivity. }
    destruct Hin' as (Hin' & Hnot).
    destruct (Dkids x Hin') as [He|(k & ok & Hk & Hfk)]; [congruence|].
    destruct (ok_filter _ _ (inv_objs _ IS _ _ Hk) _ Hfk) as (_ & _ & Hidk).
    assert (k = i) by (apply (Huniq k ok Hk); congruence). subst k.
    rewrite Ho in Hk. injection Hk as <-. contradiction.
  - destruct (steady_appliedW h (nextNode w3) i o3 w3 ltac:(lia) (nextNode w2) ltac:(lia))
      as (_ & E & _).
    unfold W. rewrite E. apply (filterCreatedW_content h i (g o) d w2).
Qed.

(** * [destroy] a second time *)

Lemma without_comm x y l : without x (without y l) = without y (without x l).
Proof.
  unfold without. induction l as [|a l IH]; simpl; [reflexivity|].
  destruct (Pos.eqb a y) eqn:E1, (Pos.eqb a x) eqn:E2; simpl; rewrite ?E1, ?E2; simpl;
    congruence.
Qed.

Lemma removeNode_comm x y w : removeNode x (removeNode y w) = removeNode y (removeNode x w).
Proof.
  unfold removeNode, withHeap. simpl. f_equal. apply map_eq. intros n.
  rewrite !lookup_fmap. destruct (heap w !! n) as [nd|]; simpl; [|reflexivity].
  f_equal. unfold withChildren. simpl. f_equal. apply without_comm.
Qed.

Lemma removeNode_idem x w : removeNode x (removeNode x w) = removeNode x w.
Proof.
  unfold removeNode, withHeap. simpl. f_equal. apply map_eq. intros n.
  rewrite !lookup_fmap. destruct (heap w !! n) as [nd|]; simpl; [|reflexivity].
  f_equal. unfold withChildren. simpl. f_equal. apply without_idem.
Qed.

Lemma removeNode_setStyle x e p v w :
  removeNode x (setStyle e p v w) = setStyle e p v (removeNode x w).
Proof.
  unfold removeNode, setStyle, modNode, withHeap. simpl. f_equal.
  rewrite fmap_insert, lookup_fmap. f_equal.
  destruct (heap w !! e) as [nd|]; reflexivity.
Qed.

Lemma removeNode_restoreStyles x e s w :
  removeNode x (restoreStyles e s w) = restoreStyles e s (removeNode x w).
Proof. unfold restoreStyles. rewrite !removeNode_setStyle. reflexivity. Qed.

Lemma removedW_comm a b w : removedW a (removedW b w) = removedW b (removedW a w).
Proof. destruct a, b; simpl; try reflexivity. apply removeNode_comm. Qed.

Lemma removedW_idem a w : removedW a (removedW a w) = removedW a w.
Proof. destruct a; simpl; [apply removeNode_idem | reflexivity]. Qed.

Lemma removedW_restoreStyles a e s w :
  removedW a (restoreStyles e s w) = restoreStyles e s (removedW a w).
Proof. destruct a; simpl; [apply removeNode_restoreStyles | reflexivity]. Qed.

Lemma removedW_withInstances a g w :
  removedW a (withInstances g w) = withInstances g (removedW a w).
Proof. destruct a; reflexivity. Qed.

Lemma modNode_modNode e F1 F2 w :
  modNode e F1 (modNode e F2 w) = modNode e (fun nd => F1 (F2 nd)) w.
Proof.
  unfold modNode, withHeap. simpl. f_equal.
  rewrite lookup_insert_eq. simpl. apply insert_insert_eq.
Qed.

Lemma modNode_ext e F1 F2 w :
  F1 (node w e) = F2 (node w e) -> modNode e F1 w = modNode e F2 w.
Proof. intros H. unfold modNode, withHeap. simpl. f_equal. unfold node in H. rewrite H. reflexivity. Qed.

Lemma lookup_assignStyle_raw p v s q :
  assignStyle p v s !! q
  = if decide (q = p) then (if decide (v = "") then None else Some v) else s !! q.
Proof.
  unfold assignStyle. destruct (decide (v = "")) as [->|Hv].
  - rewrite lookup_delete.
    destruct (decide (p = q)), (decide (q = p)); subst; try congruence; done.
  - rewrite lookup_insert.
    destruct (decide (p = q)), (decide (q = p)); subst; try congruence; done.
Qed.

Lemma assignStyle_four_idem p1 v1 p2 v2 p3 v3 p4 v4 (s : gmap string string) :
  assignStyle p4 v4 (assignStyle p3 v3 (assignStyle p2 v2 (assignStyle p1 v1
    (assignStyle p4 v4 (assignStyle p3 v3 (assignStyle p2 v2 (assignStyle p1 v1 s)))))))
  = assignStyle p4 v4 (assignStyle p3 v3 (assignStyle p2 v2 (assignStyle p1 v1 s))).
Proof.
  apply map_eq. intros q. rewrite !lookup_assignStyle_raw.
  destruct (decide (q = p4)); [reflexivity|].
  destruct (decide (q = p3)); [reflexivity|].
  destruct (decide (q = p2)); [reflexivity|].
  destruct (decide (q = p1)); reflexivity.
Qed.

Lemma withStyle_withStyle f g nd :
  withStyle f (withStyle g nd) = withStyle (fun s => f (g s)) nd.
Proof. reflexivity. Qed.

Lemma withStyle_ext f g nd : f (style nd) = g (style nd) -> withStyle f nd = withStyle g nd.
Proof. intros H. unfold withStyle. rewrite H. reflexivity. Qed.

Lemma restoreStyles_idem e s w :
  restoreStyles e s (restoreStyles e s w) = restoreStyles e s w.
Proof.
  unfold restoreStyles, setStyle. rewrite !modNode_modNode.
  apply modNode_ext. rewrite !withStyle_withStyle.
  apply withStyle_ext. apply assignStyle_four_idem.
Qed.

Lemma setDelete_idem i l : setDelete i (setDelete i l) = setDelete i l.
Proof. apply without_idem. Qed.

Lemma destroyedW_removedW i o w :
  exists k, destroyedW i o w = removedW k (unregisteredW i o w).
Proof.
  unfold destroyedW. cbv zeta. destruct (Nat.eqb _ 0); [eauto|]. exists None. reflexivity.
Qed.

(** Unregistering again changes nothing. *)
Lemma unregisteredW_destroyedW i o w :
  unregisteredW i o (destroyedW i o w) = destroyedW i o w.
Proof.
  destruct (destroyedW_removedW i o w) as (k & ->).
  unfold unregisteredW.
  set (A := this_filter o). set (B := this_overlayContainer o). set (C := this_firefoxBg o).
  set (e := this_element o). set (s := this_originalStyles o).
  assert (HA : forall w0, removedW A (removedW k (withInstances (setDelete i)
                 (restoreStyles e s (removedW C (removedW B (removedW A w0))))))
               = removedW k (withInstances (setDelete i)
                 (restoreStyles e s (removedW C (removedW B (removedW A w0)))))).
  { intros w0. rewrite (removedW_comm A k), removedW_withInstances, removedW_restoreStyles,
      (removedW_comm A C), (removedW_comm A B), removedW_idem. reflexivity. }
  rewrite HA.
  rewrite (removedW_comm B k), removedW_withInstances, removedW_restoreStyles,
    (removedW_comm B C), removedW_idem.
  rewrite (removedW_comm C k), removedW_withInstances, removedW_restoreStyles, removedW_idem.
  rewrite <- removedW_restoreStyles.
  change (restoreStyles e s (withInstances (setDelete i) ?X))
    with (withInstances (setDelete i) (restoreStyles e s X)).
  rewrite restoreStyles_idem.
  rewrite <- removedW_withInstances.
  f_equal. unfold withInstances. simpl. f_equal. apply setDelete_idem.
Qed.

Lemma destroyedW_idem i o w :
  InvS w -> InvL w -> objs w !! i = Some o ->
  destroyedW i o (destroyedW i o w) = destroyedW i o w.
Proof.
  intros IS IL Ho. destruct (destroy_ok i w o IS IL Ho) as (IW & [E _ _]).
  pose proof (unregisteredW_destroyedW i o w) as HU.
  revert IW E HU. generalize (destroyedW i o w). intros W IW E HU.
  unfold destroyedW. cbv zeta. rewrite HU.
  destruct (Nat.eqb (length (instances W)) 0) eqn:El; [|reflexivity].
  apply Nat.eqb_eq, length_zero_iff_nil in El.
  rewrite (getElementById_registry W IW), (E El). reflexivity.
Qed.

(** * The fallback layer *)

(** [_addFirefoxFallback], when it installs the fallback, leaves a new
    layer among the children of the element. *)
Lemma fallbackW_layer h i o w :
  In (nextNode w) (fallbackChildren (fallbackW h i o w) (this_element o)).
Proof.
  unfold fallbackChildren, classChildren, fallbackW. cbv zeta.
  set (w2 := fallbackBuiltW h o w).
  set (X := insertFirst (this_element o) (nextNode w) w2).
  set (l := childNodes (node w2 (this_element o))).
  change (node (withObjs ?f ?Y) ?n) with (node Y n).
  apply filter_In. split.
  - destruct (forEach_liftChild_sameShape h l X) as (_ & _ & _ & Hs).
    destruct (Hs (this_element o)) as (_ & _ & ->).
    unfold X, insertFirst. rewrite node_modNode, decide_True by reflexivity.
    left. reflexivity.
  - apply String.eqb_eq.
    destruct (steady_forEach_liftChild h (Pos.succ (nextNode w)) l X (nextNode w) ltac:(lia))
      as (-> & _).
    rewrite <- (className_fallbackBuiltW h o w). fold w2.
    unfold X, insertFirst. rewrite node_modNode, !node_removeNode.
    destruct (decide (nextNode w = this_element o)) as [<-|Hne]; reflexivity.
Qed.

Lemma appliedW_layer h i o w :
  fallbackMode h = true ->
  In (Pos.succ (nextNode w)) (fallbackChildren (appliedW h i o w) (this_element o)).
Proof.
  intros Hfb. unfold appliedW. cbv zeta. rewrite Hfb.
  set (w1 := probedW h _).
  assert (E : nextNode w1 = Pos.succ (nextNode w))
    by (unfold w1; rewrite nextNode_probedW, nextNode_styledW; reflexivity).
  rewrite <- E. apply fallbackW_layer.
Qed.

(** In fallback mode [update] inserts a layer of its own. *)
Lemma update_layer h i newOptions w o :
  InvS w -> InvL w -> objs w !! i = Some o -> fallbackMode h = true ->
  exists W x o',
    update h i newOptions w = (Return i, W) /\
    ~ In x (fallbackChildren w (this_element o)) /\
    In x (fallbackChildren W (this_element o)) /\
    objs W !! i = Some o' /\ this_firefoxBg o' = Some x.
Proof.
  intros IS IL Ho Hfb.
  destruct (update_ok h i newOptions w o IS IL Ho) as (d & Hd & Hrun & _ & _).
  revert Hrun. unfold updatedW. cbv zeta.
  set (g := with_options (spread (this_options o) newOptions)).
  set (w1 := withObjs (alter g i) w).
  set (w2 := removedW (this_filter o) w1).
  set (w3 := filterCreatedW h i (g o) d w2).
  set (o3 := with_filter (Some (nextNode w2)) (g o)).
  intros Hrun.
  assert (N2 : nextNode w2 = nextNode w) by (unfold w2; destruct (this_filter o); reflexivity).
  assert (N3 : nextNode w3 = Pos.succ (nextNode w2)) by reflexivity.
  assert (Ho2 : objs w2 !! i = Some (g o)).
  { unfold w2. destruct (this_filter o); apply lookup_alter_eq, Ho. }
  assert (Ho3 : objs w3 !! i = Some o3).
  { change (objs w3) with (alter (with_filter (Some (nextNode w2))) i (objs w2)).
    apply lookup_alter_eq, Ho2. }
  exists (appliedW h i o3 w3), (Pos.succ (nextNode w3)),
         (with_firefoxBg (Some (Pos.succ (nextNode w3))) o3).
  split; [exact Hrun|]. split.
  { intros Hin. apply filter_In in Hin. destruct Hin as (Hin & _).
    pose proof (inv_kids _ IS _ _ Hin). lia. }
  split.
  - apply (appliedW_layer h i o3 w3 Hfb).
  - split; [|reflexivity]. rewrite objs_appliedW, Hfb. apply lookup_alter_eq, Ho3.
Qed.

(** * Children that stay *)

Lemma retains_refl X b w : retains X b w w.
Proof. intros n x _ Hx _. exact Hx. Qed.

Lemma retains_trans X b w1 w2 w3 :
  retains X b w1 w2 -> retains X b w2 w3 -> retains X b w1 w3.
Proof. intros H1 H2 n x Hn Hx HX. apply H2; [exact Hn | apply H1; assumption | exact HX]. Qed.

Lemma retains_weaken (X Y : nid -> Prop) b w W :
  (forall x, X x -> Y x) -> retains X b w W -> retains Y b w W.
Proof. intros HXY H n x Hn Hx HY. apply H; auto. Qed.

Lemma retains_modNode_keep X b m f w :
  (forall nd, childNodes (f nd) = childNodes nd) -> retains X b w (modNode m f w).
Proof.
  intros Hf n x _ Hx _. rewrite node_modNode.
  destruct (decide (n = m)) as [->|Hn]; [rewrite Hf|]; exact Hx.
Qed.

Lemma retains_setStyle X b m p v w : retains X b w (setStyle m p v w).
Proof. apply retains_modNode_keep. reflexivity. Qed.

Lemma retains_setCssText X b m l w : retains X b w (setCssText m l w).
Proof. apply retains_modNode_keep. reflexivity. Qed.

Lemma retains_setElemId X b m i w : retains X b w (setElemId m i w).
Proof. apply retains_modNode_keep. reflexivity. Qed.

Lemma retains_setClassName X b m c w : retains X b w (setClassName m c w).
Proof. apply retains_modNode_keep. reflexivity. Qed.

Lemma retains_setAttribute X b m k v w : retains X b w (setAttribute m k v w).
Proof. apply retains_modNode_keep. reflexivity. Qed.

Lemma retains_setInnerHTML X b m l w : retains X b w (setInnerHTML m l w).
Proof. apply retains_modNode_keep. reflexivity. Qed.

Lemma retains_createElement X b tag w :
  (b <= nextNode w)%positive -> retains X b w (snd (createElement tag w)).
Proof.
  intros Hb n x Hn Hx _. rewrite node_createElement.
  destruct (decide (n = nextNode w)) as [->|Hne]; [lia | exact Hx].
Qed.

Lemma retains_removeNode (X : nid -> Prop) b x0 w : X x0 -> retains X b w (removeNode x0 w).
Proof.
  intros HX n x _ Hx HXx. rewrite node_removeNode. simpl.
  apply In_without. split; [exact Hx | intros ->; contradiction].
Qed.

Lemma retains_removedW (X : nid -> Prop) b x0 w :
  (forall y, x0 = Some y -> X y) -> retains X b w (removedW x0 w).
Proof.
  intros HX. destruct x0 as [y|]; simpl; [apply retains_removeNode, HX; reflexivity|].
  apply retains_refl.
Qed.

Lemma retains_attach (X : nid -> Prop) b m c (g : list nid -> list nid) w :
  (forall l y, In y l -> In y (g l)) -> X c ->
  retains X b w (modNode m (withChildren g) (removeNode c w)).
Proof.
  intros Hg HX n x _ Hx HXx. rewrite node_modNode, !node_removeNode.
  assert (Hx' : In x (without c (childNodes (node w n))))
    by (apply In_without; split; [exact Hx | intros ->; contradiction]).
  destruct (decide (n = m)) as [->|Hn]; simpl; [apply Hg|]; exact Hx'.
Qed.

Lemma retains_appendChild (X : nid -> Prop) b m c w :
  X c -> retains X b w (appendChild m c w).
Proof. apply retains_attach. intros l y Hy. apply in_or_app. left. exact Hy. Qed.

Lemma retains_insertFirst (X : nid -> Prop) b m c w :
  X c -> retains X b w (insertFirst m c w).
Proof. apply retains_attach. intros l y Hy. right. exact Hy. Qed.

Lemma retains_node X b w W : (forall n, node W n = node w n) -> retains X b w W.
Proof. intros H n x _ Hx _. rewrite H. exact Hx. Qed.

Lemma retains_withObjs X b f w : retains X b w (withObjs f w).
Proof. apply retains_node. reflexivity. Qed.

Lemma retains_withInstances X b f w : retains X b w (withInstances f w).
Proof. apply retains_node. reflexivity. Qed.

Lemma retains_consoleLog X b e w : retains X b w (consoleLog e w).
Proof. apply retains_node. reflexivity. Qed.

Lemma retains_newObject X b e o i w : retains X b w (snd (newObject e o i w)).
Proof. apply retains_node. reflexivity. Qed.

Lemma retains_sameShape X b w W : sameShape w W -> retains X b w W.
Proof. intros (_ & _ & _ & Hs) n x _ Hx _. destruct (Hs n) as (_ & _ & ->). exact Hx. Qed.

Lemma retains_forEach_liftChild X b h l w :
  retains X b w (snd (forEach (liftChild h) l w)).
Proof. apply retains_sameShape, forEach_liftChild_sameShape. Qed.

(** Walks a store built from [w] by the DOM operations; the nodes
    attached are created ones. *)
Ltac retains_tac :=
  lazymatch goal with
  | |- retains _ _ ?w ?w => apply retains_refl
  | |- retains _ _ _ (if ?c then _ else _) => destruct c; retains_tac
  | |- retains ?X ?b ?w (setStyle _ _ _ ?Y) =>
      apply (retains_trans X b w Y); [retains_tac | apply retains_setStyle]
  | |- retains ?X ?b ?w (setCssText _ _ ?Y) =>
      apply (retains_trans X b w Y); [retains_tac | apply retains_setCssText]
  | |- retains ?X ?b ?w (setElemId _ _ ?Y) =>
      apply (retains_trans X b w Y); [retains_tac | apply retains_setElemId]
  | |- retains ?X ?b ?w (setAttribute _ _ _ ?Y) =>
      apply (retains_trans X b w Y); [retains_tac | apply retains_setAttribute]
  | |- retains ?X ?b ?w (setInnerHTML _ _ ?Y) =>
      apply (retains_trans X b w Y); [retains_tac | apply retains_setInnerHTML]
  | |- retains ?X ?b ?w (setClassName _ _ ?Y) =>
      apply (retains_trans X b w Y); [retains_tac | apply retains_setClassName]
  | |- retains ?X ?b ?w (snd (createElement _ ?Y)) =>
      apply (retains_trans X b w Y);
      [retains_tac | apply retains_createElement; frame; lia]
  | |- retains ?X ?b ?w (appendChild _ _ ?Y) =>
      apply (retains_trans X b w Y);
      [retains_tac | apply retains_appendChild; unfold createdFrom; frame; lia]
  | |- retains ?X ?b ?w (insertFirst _ _ ?Y) =>
      apply (retains_trans X b w Y);
      [retains_tac | apply retains_insertFirst; unfold createdFrom; frame; lia]
  | |- retains ?X ?b ?w (withObjs _ ?Y) =>
      apply (retains_trans X b w Y); [retains_tac | apply retains_withObjs]
  | |- retains ?X ?b ?w (withInstances _ ?Y) =>
      apply (retains_trans X b w Y); [retains_tac | apply retains_withInstances]
  | |- retains ?X ?b ?w (consoleLog _ ?Y) =>
      apply (retains_trans X b w Y); [retains_tac | apply retains_consoleLog]
  | |- retains ?X ?b ?w (snd (forEach (liftChild _) _ ?Y)) =>
      apply (retains_trans X b w Y); [retains_tac | apply retains_forEach_liftChild]
  end.

Lemma retains_ensuredW b i w :
  (b <= nextNode w)%positive -> retains (createdFrom b) b w (ensuredW i w).
Proof.
  intros Hb. unfold ensuredW, registryCreatedW. cbv zeta.
  destruct (getElementById w registryId); retains_tac.
Qed.

Lemma retains_filterCreatedW b h i o d w :
  (b <= nextNode w)%positive -> retains (createdFrom b) b w (filterCreatedW h i o d w).
Proof. intros Hb. unfold filterCreatedW, filterBuiltW. cbv zeta. retains_tac. Qed.

Lemma retains_styledW X b h o c w : retains X b w (styledW h o c w).
Proof. apply retains_sameShape, sameShape_styledW. Qed.

Lemma retains_probedW X b h w :
  (b <= nextNode w)%positive -> retains X b w (probedW h w).
Proof. intros Hb. unfold probedW. destruct (backdropFilterProbe h); retains_tac. Qed.

Lemma retains_fallbackW b h i o w :
  (b <= nextNode w)%positive -> retains (createdFrom b) b w (fallbackW h i o w).
Proof.
  intros Hb. unfold fallbackW. cbv zeta.
  set (w2 := fallbackBuiltW h o w).
  assert (R2 : retains (createdFrom b) b w w2)
    by (unfold w2, fallbackBuiltW; cbv zeta; retains_tac).
  apply (retains_trans _ b w w2 _ R2).
  apply (retains_trans _ b w2 (insertFirst (this_element o) (nextNode w) w2)).
  { apply retains_insertFirst. exact Hb. }
  eapply retains_trans; [apply retains_forEach_liftChild | apply retains_withObjs].
Qed.

Lemma retains_appliedW b h i o w :
  (b <= nextNode w)%positive -> retains (createdFrom b) b w (appliedW h i o w).
Proof.
  intros Hb. unfold appliedW. cbv zeta.
  set (c := String.eqb _ "static").
  apply (retains_trans _ b w (styledW h o c w)); [apply retains_styledW|].
  assert (N : (b <= nextNode (styledW h o c w))%positive) by (rewrite nextNode_styledW; exact Hb).
  destruct (fallbackMode h).
  - apply (retains_trans _ b _ (probedW h (styledW h o c w))); [apply retains_probedW, N|].
    apply retains_fallbackW. rewrite nextNode_probedW. lia.
  - apply retains_probedW, N.
Qed.

Lemma retains_overlaysW b i o w :
  (b <= nextNode w)%positive -> retains (createdFrom b) b w (overlaysW i o w).
Proof.
  intros Hb. unfold overlaysW, layerW. cbv zeta.
  destruct (truthy (this_options o !! "addNoise")),
           (truthy (this_options o !! "addOverlay")); retains_tac.
Qed.

(** * More on what the constructor leaves *)

Lemma instances_ensuredW i w : instances (ensuredW i w) = instances w.
Proof. unfold ensuredW. destruct (getElementById w registryId); reflexivity. Qed.

Lemma instances_appliedW h i o w : instances (appliedW h i o w) = instances w.
Proof.
  unfold appliedW, fallbackW. cbv zeta.
  set (c := String.eqb _ "static").
  assert (E : instances (probedW h (styledW h o c w)) = instances w).
  { unfold probedW. destruct (backdropFilterProbe h); simpl; apply instances_styledW. }
  destruct (fallbackMode h); [|exact E].
  change (instances (withObjs ?f ?X)) with (instances X).
  rewrite forEach_liftChild_instances. exact E.
Qed.

Lemma instances_overlaysW i o w : instances (overlaysW i o w) = instances w.
Proof.
  unfold overlaysW. cbv zeta.
  destruct (truthy (this_options o !! "addNoise")),
           (truthy (this_options o !! "addOverlay")); reflexivity.
Qed.

Lemma instances_initW h i o0 c d w0 : instances (initW h i o0 c d w0) = instances w0.
Proof.
  unfold initW. cbv zeta. destruct (orb _ _).
  - rewrite instances_overlaysW, instances_appliedW. apply instances_ensuredW.
  - rewrite instances_appliedW. apply instances_ensuredW.
Qed.

Lemma instances_updatedW h i o d newOptions w :
  instances (updatedW h i o d newOptions w) = instances w.
Proof.
  unfold updatedW. cbv zeta. rewrite instances_appliedW.
  change (instances (filterCreatedW ?h ?i ?o ?d ?X)) with (instances X).
  rewrite instances_removedW. reflexivity.
Qed.

(** [_init] changes the object under construction only, and of that
    object the fields that refer to the nodes it creates. *)
Lemma objs_initW h i o0 c d w0 :
  exists g, (forall o, sameCore o (g o)) /\
            objs (initW h i o0 c d w0) = alter g i (objs (ensuredW i w0)).
Proof.
  unfold initW. cbv zeta.
  set (w1 := ensuredW i w0).
  set (o1 := with_container (Some c) (Some d) o0).
  set (w2 := filterCreatedW h i o1 d w1).
  assert (E2 : objs w2 = alter (with_filter (Some (nextNode w1))) i (objs w1)) by reflexivity.
  destruct (orb _ _).
  - rewrite objs_overlaysW, objs_appliedW, E2.
    destruct (fallbackMode h); rewrite ?alter_alter_eq;
      (eexists; split; [|reflexivity]); intros o; repeat split.
  - rewrite objs_appliedW, E2.
    destruct (fallbackMode h); rewrite ?alter_alter_eq;
      (eexists; split; [|reflexivity]); intros o; repeat split.
Qed.

Lemma objs_updatedW h i o d newOptions w :
  exists g, (forall o', sameIdentity o' (g o') /\
                        this_options (g o') = spread (this_options o) newOptions) /\
            objs (updatedW h i o d newOptions w) = alter g i (objs w).
Proof.
  unfold updatedW. cbv zeta.
  set (g0 := with_options (spread (this_options o) newOptions)).
  set (w2 := removedW (this_filter o) (withObjs (alter g0 i) w)).
  assert (E2 : objs w2 = alter g0 i (objs w)) by (unfold w2; rewrite objs_removedW; reflexivity).
  rewrite objs_appliedW.
  change (objs (filterCreatedW ?h ?i ?o ?d ?X))
    with (alter (with_filter (Some (nextNode X))) i (objs X)).
  rewrite E2.
  destruct (fallbackMode h); rewrite ?alter_alter_eq;
    (eexists; split; [|reflexivity]); intros o'; repeat split.
Qed.

(** The new filter is the last child of the definitions node. *)
Lemma filterCreatedW_child h i o d w :
  In (nextNode w) (childNodes (node (filterCreatedW h i o d w) d)).
Proof.
  unfold filterCreatedW, appendChild.
  change (node (withObjs ?f ?X) ?n) with (node X n).
  rewrite node_modNode, decide_True by reflexivity. simpl.
  apply in_or_app. right. left. reflexivity.
Qed.

Lemma initW_child h i o0 c d w0 :
  (d < nextNode (ensuredW i w0))%positive ->
  In (nextNode (ensuredW i w0)) (childNodes (node (initW h i o0 c d w0) d)).
Proof.
  intros Hd. unfold initW. cbv zeta.
  set (w1 := ensuredW i w0) in *.
  set (o1 := with_container (Some c) (Some d) o0).
  set (w2 := filterCreatedW h i o1 d w1).
  set (o2 := with_filter (Some (nextNode w1)) o1).
  set (w3 := appliedW h i o2 w2).
  assert (N2 : nextNode w2 = Pos.succ (nextNode w1)) by reflexivity.
  pose proof (nextNode_appliedW_le h i o2 w2) as N3. fold w3 in N3.
  pose proof (filterCreatedW_child h i o1 d w1) as H2. fold w2 in H2.
  assert (H3 : In (nextNode w1) (childNodes (node w3 d))).
  { apply (retains_appliedW (nextNode w2) h i o2 w2 ltac:(lia) d (nextNode w1));
      [lia | exact H2 | unfold createdFrom; lia]. }
  destruct (orb _ _); [|exact H3].
  apply (retains_overlaysW (nextNode w2) i _ w3 ltac:(lia) d (nextNode w1));
    [lia | exact H3 | unfold createdFrom; lia].
Qed.

(** The references [_applyStyles] writes are there when [_init] is
    through. *)
Lemma getStyle_initW_reference h i o0 c d w0 :
  (this_element o0 < nextNode w0)%positive ->
  getStyle (initW h i o0 c d w0) (this_element o0) "backdropFilter" = filterUrl o0 /\
  getStyle (initW h i o0 c d w0) (this_element o0) "WebkitBackdropFilter" = filterUrl o0 /\
  getStyle (initW h i o0 c d w0) (this_element o0) "overflow" = "hidden".
Proof.
  intros He. unfold initW. cbv zeta.
  set (w1 := ensuredW i w0).
  set (o1 := with_container (Some c) (Some d) o0).
  set (w2 := filterCreatedW h i o1 d w1).
  set (o2 := with_filter (Some (nextNode w1)) o1).
  set (w3 := appliedW h i o2 w2).
  pose proof (nextNode_ensuredW_le i w0) as L1. fold w1 in L1.
  assert (L2 : nextNode w2 = Pos.succ (nextNode w1)) by reflexivity.
  pose proof (nextNode_appliedW_le h i o2 w2) as L3. fold w3 in L3.
  assert (E3 : forall p, p <> "position" -> p <> "zIndex" -> p <> "boxShadow" ->
             p <> "backgroundColor" ->
             getStyle w3 (this_element o0) p
             = getStyle (styledW h o2 (String.eqb (getComputedPosition h w2
                              (this_element o2)) "static") w2) (this_element o2) p).
  { intros p P1 P2 P3 P4. unfold w3. change (this_element o0) with (this_element o2).
    rewrite (getStyle_appliedW h i o2 w2 p) by (try (left; split; assumption); simpl; lia).
    cbv zeta. destruct (fallbackMode h); [|reflexivity].
    rewrite decide_False by assumption. rewrite decide_False by assumption. reflexivity. }
  assert (E5 : forall o3 p,
             getStyle (if orb (truthy (this_options o0 !! "addOverlay"))
                              (truthy (this_options o0 !! "addNoise"))
                       then overlaysW i o3 w3 else w3) (this_element o0) p
             = getStyle w3 (this_element o0) p).
  { intros o3 p. destruct (orb _ _); [|reflexivity].
    apply (getStyle_steady (nextNode w0)); [apply steady_overlaysW; lia | lia]. }
  rewrite !E5, !E3 by discriminate.
  set (b := String.eqb _ "static").
  unfold styledW. cbv zeta. change (this_element o2) with (this_element o0).
  destruct b; repeat split;
    repeat first [ apply getStyle_setStyle_same
                 | rewrite getStyle_setStyle_prop by discriminate ].
Qed.

Lemma setAdd_fresh i l : ~ In i l -> setAdd i l = (l ++ [i])%list.
Proof.
  intros H. unfold setAdd. destruct (existsb (Pos.eqb i) l) eqn:E; [|reflexivity].
  apply existsb_exists in E as (x & Hx & Hix). apply Pos.eqb_eq in Hix. subst. contradiction.
Qed.

(** Everything the later sections use about a constructor call that
    resolved its target. *)
Lemma construct_full h t opts now r w e :
  InvS w -> InvL w -> resolve h t w = Some e ->
  exists c d W o,
    construct h t opts now r w = (Return (nextInst w), W) /\
    InvS W /\ InvL W /\
    W = withInstances (setAdd (nextInst w))
          (initW h (nextInst w) (initialObject h e opts now r w) c d
             (snd (newObject e (spread defaults (default ∅ opts))
                     (generateId h now r) w))) /\
    objs W !! nextInst w = Some o /\
    sameCore (with_container (Some c) (Some d) (initialObject h e opts now r w)) o /\
    this_filter o
    = Some (nextNode (ensuredW (nextInst w)
                        (snd (newObject e (spread defaults (default ∅ opts))
                                (generateId h now r) w)))) /\
    (d < nextNode (ensuredW (nextInst w)
                     (snd (newObject e (spread defaults (default ∅ opts))
                             (generateId h now r) w))))%positive /\
    registryNodes W = [c] /\ childByTag W c "defs" = Some d /\
    instances W = (instances w ++ [nextInst w])%list /\
    (forall j, j <> nextInst w -> objs W !! j = objs w !! j).
Proof.
  intros IS IL Hres.
  destruct (construct_ok h t opts now r w e IS IL Hres)
    as (c & d & W & EW & Hrun & IW & LW & o & Ho & Hcore & Hf & _).
  set (i := nextInst w) in *. set (o0 := initialObject h e opts now r w) in *.
  set (w0 := snd (newObject e (spread defaults (default ∅ opts)) (generateId h now r) w)) in *.
  destruct (generateId_ok h now r) as (Hid1 & Hid2).
  assert (I0 : InvS w0) by (apply InvS_newObject; assumption).
  assert (Ho0 : objs w0 !! i = Some o0) by apply lookup_insert_eq.
  assert (Hfresh : ~ In i (instances w)).
  { intros Hin. destruct (inv_live _ IL i Hin) as (oi & _ & _ & Hoi & _).
    assert (Hs : is_Some (objs w !! i)) by eauto.
    pose proof (inv_fresh _ IS _ Hs). unfold i in *. lia. }
  destruct (ensured_ok (fun j => j <> i) i w0 I0) as
    (c' & d' & I1 & G1 & O1 & N1 & R1 & Q1 & D1 & K1); [tauto|].
  destruct (objs_initW h i o0 c d w0) as (g & Hg & Eobjs).
  assert (EO : objs W = alter g i (alter (with_container (Some c') (Some d')) i (objs w0))).
  { rewrite EW. change (objs (withInstances ?f ?X)) with (objs X). rewrite Eobjs, O1.
    reflexivity. }
  assert (Hd : d = d').
  { rewrite EO in Ho. rewrite (lookup_alter_eq g i _ _ (lookup_alter_eq _ i _ _ Ho0)) in Ho.
    injection Ho as <-. destruct Hcore as (_ & _ & _ & _ & _ & Ed).
    destruct (Hg (with_container (Some c') (Some d') o0)) as (_ & _ & _ & _ & _ & Ed').
    rewrite Ed' in Ed. simpl in Ed. congruence. }
  subst d'.
  assert (Hin : In i (instances W)).
  { rewrite EW. simpl. apply In_setAdd. left. reflexivity. }
  destruct (inv_live _ LW i Hin) as (o' & c'' & d'' & Ho' & Hc'' & Hd'' & Hreg & Hq).
  rewrite Ho in Ho'. injection Ho' as <-.
  destruct Hcore as (Ce & Co & Ci & Cs & Cc & Cd).
  assert (c'' = c) by (rewrite Cc in Hc''; simpl in Hc''; congruence).
  assert (d'' = d) by (rewrite Cd in Hd''; simpl in Hd''; congruence).
  subst c'' d''.
  exists c, d, W, o.
  split; [exact Hrun|]. split; [exact IW|]. split; [exact LW|]. split; [exact EW|].
  split; [exact Ho|]. split; [repeat split; assumption|]. split; [exact Hf|].
  split; [apply D1|]. split; [exact Hreg|]. split; [exact Hq|].
  split.
  - rewrite EW. simpl. rewrite instances_initW. change (instances w0) with (instances w).
    apply setAdd_fresh, Hfresh.
  - intros j Hj. rewrite EO, !lookup_alter_other by assumption.
    unfold w0. simpl. apply lookup_insert_ne. fold i. congruence.
Qed.

(** * Objects along a history of calls *)

Lemma sameIdentity_refl o : sameIdentity o o.
Proof. repeat split. Qed.

Lemma sameIdentity_trans o1 o2 o3 :
  sameIdentity o1 o2 -> sameIdentity o2 o3 -> sameIdentity o1 o3.
Proof. intros (? & ? & ?) (? & ? & ?). repeat split; congruence. Qed.

Lemma forEach_destroy_objs l w : objs (snd (forEach destroy l w)) = objs w.
Proof.
  revert w. induction l as [|j l IH]; intros w; [reflexivity|].
  cbn [forEach]. destruct (objs w !! j) as [o|] eqn:Ho.
  - rewrite (bind_run _ _ _ _ _ (destroy_run j o w Ho)), IH. apply objs_destroyedW.
  - unfold bind. rewrite (destroy_missing j w Ho). reflexivity.
Qed.

(** No call removes an object or changes the element, the id or the
    saved styles of one. *)
Lemma perform_identity h c w i o :
  InvS w -> InvL w -> objs w !! i = Some o ->
  exists o', objs (perform h c w) !! i = Some o' /\ sameIdentity o o'.
Proof.
  intros IS IL Ho.
  assert (Same : forall W, objs W = objs w ->
            exists o', objs W !! i = Some o' /\ sameIdentity o o').
  { intros W E. exists o. rewrite E. split; [exact Ho | apply sameIdentity_refl]. }
  destruct c as [t opts now r|k opts|k|k|k|]; simpl.
  - destruct (resolve h t w) as [e|] eqn:Hres.
    + destruct (construct_full h t opts now r w e IS IL Hres)
        as (c & d & W & o' & Hrun & _ & _ & _ & _ & _ & _ & _ & _ & _ & _ & Hother).
      rewrite Hrun. simpl. exists o. split; [|apply sameIdentity_refl].
      rewrite Hother; [exact Ho|].
      assert (Hs : is_Some (objs w !! i)) by eauto.
      pose proof (inv_fresh _ IS _ Hs). lia.
    + apply Same. unfold construct. js_run. rewrite Hres. reflexivity.
  - destruct (objs w !! k) as [ok|] eqn:Hk.
    + destruct (update_ok h k opts w ok IS IL Hk) as (d & _ & Hrun & _ & _).
      rewrite Hrun. simpl.
      destruct (objs_updatedW h k ok d opts w) as (g & Hg & EO). rewrite EO.
      destruct (decide (i = k)) as [->|Hne].
      * exists (g o). split; [apply lookup_alter_eq, Ho | apply Hg].
      * exists o. rewrite lookup_alter_other by assumption.
        split; [exact Ho | apply sameIdentity_refl].
    + apply Same. rewrite (update_missing h k opts w Hk). reflexivity.
  - destruct (objs w !! k) as [ok|] eqn:Hk.
    + apply Same. rewrite (enable_run k ok w Hk). reflexivity.
    + apply Same. rewrite (enable_missing k w Hk). reflexivity.
  - destruct (objs w !! k) as [ok|] eqn:Hk.
    + apply Same. rewrite (disable_run k ok w Hk). reflexivity.
    + apply Same. rewrite (disable_missing k w Hk). reflexivity.
  - destruct (objs w !! k) as [ok|] eqn:Hk.
    + apply Same. rewrite (destroy_run k ok w Hk). apply objs_destroyedW.
    + apply Same. rewrite (destroy_missing k w Hk). reflexivity.
  - apply Same. unfold destroyAll. js_run. apply forEach_destroy_objs.
Qed.

Lemma runCalls_reachable h cs w : reachable h w -> reachable h (runCalls h cs w).
Proof.
  revert w. induction cs as [|c cs IH]; intros w Hr; [exact Hr|].
  simpl. apply IH, reachable_step, Hr.
Qed.

Lemma runCalls_identity h cs w i o :
  reachable h w -> objs w !! i = Some o ->
  exists o', objs (runCalls h cs w) !! i = Some o' /\ sameIdentity o o'.
Proof.
  revert w o. induction cs as [|c cs IH]; intros w o Hr Ho.
  - exists o. split; [exact Ho | apply sameIdentity_refl].
  - destruct (reachable_inv h w Hr) as (IS & IL).
    destruct (perform_identity h c w i o IS IL Ho) as (o1 & Ho1 & S1).
    destruct (IH (perform h c w) o1 (reachable_step h w c Hr) Ho1) as (o2 & Ho2 & S2).
    exists o2. split; [exact Ho2 | eapply sameIdentity_trans; eauto].
Qed.

(** * [destroy] over a list of instances *)

Lemma instances_destroyedW i o w :
  instances (destroyedW i o w) = setDelete i (instances w).
Proof.
  unfold destroyedW, unregisteredW. cbv zeta.
  destruct (Nat.eqb _ 0); rewrite ?instances_removedW; simpl; rewrite !instances_removedW;
    reflexivity.
Qed.

Lemma forEach_destroy_all l w :
  InvS w -> InvL w -> (forall j, In j l -> is_Some (objs w !! j)) ->
  exists W,
    forEach destroy l w = (Return tt, W) /\ InvS W /\ InvL W /\ objs W = objs w /\
    forall j, In j (instances W) <-> In j (instances w) /\ ~ In j l.
Proof.
  revert w. induction l as [|k l IH]; intros w IS IL Hl.
  - exists w. split; [reflexivity|]. split; [exact IS|]. split; [exact IL|].
    split; [reflexivity|]. intros j. simpl. tauto.
  - destruct (Hl k (or_introl eq_refl)) as (o & Ho).
    destruct (destroy_ok k w o IS IL Ho) as (IS' & IL').
    destruct (IH (destroyedW k o w) IS' IL') as (W & Hrun & I & L & HO & HI).
    { intros j Hj. rewrite objs_destroyedW. apply Hl. right. exact Hj. }
    exists W. cbn [forEach]. rewrite (bind_run _ _ _ _ _ (destroy_run k o w Ho)).
    split; [exact Hrun|]. split; [exact I|]. split; [exact L|].
    split; [rewrite HO; apply objs_destroyedW|].
    intros j. rewrite HI, instances_destroyedW, In_setDelete. simpl.
    split; [intros ((? & ?) & ?) | intros (? & ?)]; repeat split; auto; intuition congruence.
Qed.

(** * The overlay container *)

(** A [div] created with a class and a style sheet text. *)
Lemma div_facts cls css w x :
  className (node (setCssText (nextNode w) css
                     (setClassName (nextNode w) cls (snd (createElement "div" w)))) x)
  = (if decide (x = nextNode w) then cls else className (node w x)) /\
  childNodes (node (setCssText (nextNode w) css
                      (setClassName (nextNode w) cls (snd (createElement "div" w)))) x)
  = (if decide (x = nextNode w) then [] else childNodes (node w x)).
Proof.
  unfold setCssText, setClassName. rewrite !node_modNode, !node_createElement.
  destruct (decide (x = nextNode w)) as [->|Hne].
  - rewrite !decide_True by reflexivity. split; reflexivity.
  - split; reflexivity.
Qed.

Lemma attach_class m c (g : list nid -> list nid) w x :
  className (node (modNode m (withChildren g) (removeNode c w)) x) = className (node w x).
Proof.
  rewrite node_modNode, !node_removeNode.
  destruct (decide (x = m)) as [->|Hne]; reflexivity.
Qed.

Lemma className_layerW oc cls css w x :
  className (node (layerW oc cls css w) x)
  = if decide (x = nextNode w) then cls else className (node w x).
Proof.
  unfold layerW, appendChild. rewrite attach_class. apply (div_facts cls css w x).
Qed.

Lemma childNodes_layerW oc cls css w :
  (oc < nextNode w)%positive ->
  (forall x, In x (childNodes (node w oc)) -> (x < nextNode w)%positive) ->
  childNodes (node (layerW oc cls css w) oc) = (childNodes (node w oc) ++ [nextNode w])%list.
Proof.
  intros Hoc Hk. unfold layerW, appendChild.
  rewrite node_modNode, decide_True by reflexivity. rewrite node_removeNode.
  unfold withChildren. cbn [childNodes].
  rewrite (proj2 (div_facts cls css w oc)), decide_False by lia.
  rewrite without_notin; [reflexivity|]. intros Hin. pose proof (Hk _ Hin). lia.
Qed.

Lemma childClasses_layerW oc cls css w :
  (oc < nextNode w)%positive ->
  (forall x, In x (childNodes (node w oc)) -> (x < nextNode w)%positive) ->
  childClasses (layerW oc cls css w) oc = (childClasses w oc ++ [cls])%list.
Proof.
  intros Hoc Hk. unfold childClasses. rewrite childNodes_layerW by assumption.
  rewrite map_app. simpl. rewrite className_layerW, decide_True by reflexivity.
  f_equal. apply map_ext_in. intros x Hx. rewrite className_layerW.
  rewrite decide_False; [reflexivity|]. pose proof (Hk _ Hx). lia.
Qed.

(** The container with the layers the options ask for, before it is
    inserted into the element. *)
Lemma overlayLayers_facts (noise gradient : bool) w :
  let oc := nextNode w in
  let w1 := setCssText oc overlayCss
              (setClassName oc "chromatic-blur-overlays" (snd (createElement "div" w))) in
  let w2 := if noise then layerW oc "chromatic-blur-noise" noiseCss w1 else w1 in
  let w3 := if gradient then layerW oc "chromatic-blur-gradient" gradientCss w2 else w2 in
  className (node w3 oc) = "chromatic-blur-overlays" /\
  childClasses w3 oc
  = ((if noise then ["chromatic-blur-noise"] else [])
     ++ (if gradient then ["chromatic-blur-gradient"] else []))%list /\
  (forall x, In x (childNodes (node w3 oc)) -> (oc < x)%positive).
Proof.
  intros oc w1 w2 w3.
  assert (N1 : nextNode w1 = Pos.succ oc) by reflexivity.
  assert (C1 : className (node w1 oc) = "chromatic-blur-overlays").
  { unfold w1. rewrite (proj1 (div_facts _ _ w oc)), decide_True by reflexivity. reflexivity. }
  assert (K1 : childNodes (node w1 oc) = []).
  { unfold w1. rewrite (proj2 (div_facts _ _ w oc)), decide_True by reflexivity. reflexivity. }
  assert (F2 : (Pos.succ oc <= nextNode w2)%positive /\
               className (node w2 oc) = "chromatic-blur-overlays" /\
               childClasses w2 oc = (if noise then ["chromatic-blur-noise"] else []) /\
               (forall x, In x (childNodes (node w2 oc)) ->
                          (oc < x)%positive /\ (x < nextNode w2)%positive)).
  { unfold w2. destruct noise.
    - split; [unfold w1, oc, layerW; frame; lia|]. split.
      + rewrite className_layerW, decide_False by lia. exact C1.
      + split.
        * rewrite childClasses_layerW; [unfold childClasses; rewrite K1; reflexivity | lia |].
          rewrite K1. intros x [].
        * rewrite childNodes_layerW; [|lia | rewrite K1; intros x []].
          rewrite K1. intros x [<-|[]]. unfold w1, oc, layerW. frame. lia.
    - split; [lia|]. split; [exact C1|]. split.
      + unfold childClasses. rewrite K1. reflexivity.
      + rewrite K1. intros x []. }
  destruct F2 as (N2 & C2 & H2 & K2).
  unfold w3. destruct gradient.
  - split; [rewrite className_layerW, decide_False by lia; exact C2|]. split.
    + rewrite childClasses_layerW; [rewrite H2; reflexivity | lia |].
      intros x Hx. apply K2, Hx.
    + rewrite childNodes_layerW; [|lia | intros x Hx; apply K2, Hx].
      intros x Hx. apply in_app_or in Hx. destruct Hx as [Hx|[<-|[]]]; [apply K2, Hx | lia].
  - split; [exact C2|]. split; [rewrite H2, app_nil_r; reflexivity|].
    intros x Hx. apply K2, Hx.
Qed.

Lemma overlaysW_shape i o w :
  (this_element o < nextNode w)%positive ->
  head (childNodes (node (overlaysW i o w) (this_element o))) = Some (nextNode w) /\
  className (node (overlaysW i o w) (nextNode w)) = "chromatic-blur-overlays" /\
  childClasses (overlaysW i o w) (nextNode w)
  = ((if truthy (this_options o !! "addNoise") then ["chromatic-blur-noise"] else [])
     ++ (if truthy (this_options o !! "addOverlay") then ["chromatic-blur-gradient"] else []))%list.
Proof.
  intros He.
  destruct (overlayLayers_facts (truthy (this_options o !! "addNoise"))
              (truthy (this_options o !! "addOverlay")) w) as (C & H & K).
  unfold overlaysW. cbv zeta.
  set (w3 := if truthy (this_options o !! "addOverlay") then _ else _) in *.
  unfold childClasses in *.
  change (node (withObjs ?f ?X) ?n) with (node X n).
  unfold insertFirst.
  split; [rewrite node_modNode, decide_True by reflexivity; reflexivity|].
  split; [rewrite attach_class; exact C|].
  rewrite node_modNode, decide_False by lia. rewrite node_removeNode.
  unfold withChildren. cbn [childNodes].
  rewrite without_notin by (intros Hin; pose proof (K _ Hin); lia).
  rewrite <- H. apply map_ext. intros x. apply attach_class.
Qed.

Lemma initW_overlays h i o0 c d w0 :
  (this_element o0 < nextNode w0)%positive ->
  orb (truthy (this_options o0 !! "addOverlay")) (truthy (this_options o0 !! "addNoise")) = true ->
  exists oc,
    (nextNode w0 <= oc)%positive /\
    (forall o, objs (initW h i o0 c d w0) !! i = Some o -> this_overlayContainer o = Some oc) /\
    head (childNodes (node (initW h i o0 c d w0) (this_element o0))) = Some oc /\
    className (node (initW h i o0 c d w0) oc) = "chromatic-blur-overlays" /\
    childClasses (initW h i o0 c d w0) oc
    = ((if truthy (this_options o0 !! "addNoise") then ["chromatic-blur-noise"] else [])
       ++ (if truthy (this_options o0 !! "addOverlay") then ["chromatic-blur-gradient"] else []))%list.
Proof.
  intros He Hflag. unfold initW. cbv zeta. rewrite Hflag.
  set (w1 := ensuredW i w0).
  set (o1 := with_container (Some c) (Some d) o0).
  set (w2 := filterCreatedW h i o1 d w1).
  set (o2 := with_filter (Some (nextNode w1)) o1).
  set (w3 := appliedW h i o2 w2).
  set (o3 := if fallbackMode h then _ else o2).
  pose proof (nextNode_ensuredW_le i w0) as L1. fold w1 in L1.
  assert (L2 : nextNode w2 = Pos.succ (nextNode w1)) by reflexivity.
  pose proof (nextNode_appliedW_le h i o2 w2) as L3. fold w3 in L3.
  assert (E3 : this_element o3 = this_element o0 /\ this_options o3 = this_options o0)
    by (unfold o3; destruct (fallbackMode h); split; reflexivity).
  destruct E3 as (Ee & Eo).
  destruct (overlaysW_shape i o3 w3) as (H1 & H2 & H3); [rewrite Ee; lia|].
  rewrite Ee, Eo in *.
  exists (nextNode w3). split; [lia|]. split.
  - intros o Ho. rewrite objs_overlaysW, lookup_alter, decide_True in Ho by reflexivity.
    destruct (objs w3 !! i); simpl in Ho; [|discriminate]. injection Ho as <-. reflexivity.
  - split; [exact H1|]. split; [exact H2 | exact H3].
Qed.

(** * The loop over the former children *)

Lemma liftedZ_idem z : liftedZ (liftedZ z) = liftedZ z.
Proof.
  unfold liftedZ. destruct (orb (String.eqb z "") (String.eqb z "auto")) eqn:E.
  - reflexivity.
  - rewrite E. reflexivity.
Qed.

Lemma zIndex_liftChild h c w n :
  getStyle (snd (liftChild h c w)) n "zIndex"
  = if decide (n = c) then liftedZ (getStyle w c "zIndex") else getStyle w n "zIndex".
Proof.
  unfold liftChild, liftedZ. js_run.
  destruct (_ =? "static"); js_run; rewrite ?getStyle_setStyle_prop by discriminate;
    destruct (orb _ _); js_run; unfold act, ret; cbn [snd];
    rewrite ?getStyle_setStyle; destruct (decide (n = c)) as [->|Hne];
    rewrite ?decide_True by reflexivity; rewrite ?decide_False by discriminate;
    rewrite ?getStyle_setStyle_other by assumption; reflexivity.
Qed.

Lemma liftChild_run h c w : liftChild h c w = (Return tt, snd (liftChild h c w)).
Proof.
  unfold liftChild. js_run.
  destruct (_ =? "static"); js_run; destruct (orb _ _); js_run; reflexivity.
Qed.

Lemma zIndex_forEach_liftChild h l w c :
  In c l ->
  getStyle (snd (forEach (liftChild h) l w)) c "zIndex" = liftedZ (getStyle w c "zIndex").
Proof.
  revert w. induction l as [|c0 l IH]; intros w Hin; [destruct Hin|].
  cbn [forEach]. rewrite (bind_run _ _ _ _ _ (liftChild_run h c0 w)).
  destruct (in_dec Pos.eq_dec c l) as [Hl|Hl].
  - rewrite IH by exact Hl. rewrite zIndex_liftChild.
    destruct (decide (c = c0)) as [->|Hne]; [apply liftedZ_idem | reflexivity].
  - destruct Hin as [->|Hin]; [|contradiction].
    rewrite getStyle_forEach_liftChild by (right; exact Hl).
    rewrite zIndex_liftChild, decide_True by reflexivity. reflexivity.
Qed.

Lemma getStyle_styledW_other h o b w n p :
  n <> this_element o -> getStyle (styledW h o b w) n p = getStyle w n p.
Proof.
  intros Hne. unfold styledW. cbv zeta.
  destruct b; rewrite !getStyle_setStyle_other by exact Hne; reflexivity.
Qed.

Lemma getStyle_fallbackBuiltW_other h o w n p :
  n <> this_element o -> n <> nextNode w ->
  getStyle (fallbackBuiltW h o w) n p = getStyle w n p.
Proof.
  intros He Hn. unfold fallbackBuiltW. cbv zeta.
  rewrite getStyle_setCssText_other by exact Hn.
  rewrite getStyle_setClassName.
  rewrite getStyle_createElement_other by exact Hn.
  rewrite !getStyle_setStyle_other by exact He. reflexivity.
Qed.

Lemma childNodes_fallbackBuiltW h o w n :
  n <> nextNode w ->
  childNodes (node (fallbackBuiltW h o w) n) = childNodes (node w n).
Proof.
  intros Hn. destruct (sameShape_setStyle (this_element o) "backgroundColor"
                         "rgba(255, 255, 255, 0.85)"
                         (consoleLog (UsingFallbackMode (isFirefox h) (backdropFilterProbe h)) w))
    as (_ & _ & _ & H1).
  destruct (sameShape_setStyle (this_element o) "boxShadow" (fallbackShadow h (this_options o))
              (setStyle (this_element o) "backgroundColor" "rgba(255, 255, 255, 0.85)"
                 (consoleLog (UsingFallbackMode (isFirefox h) (backdropFilterProbe h)) w)))
    as (_ & _ & _ & H2).
  destruct (div_facts "chromatic-blur-firefox-bg" firefoxBgCss
              (setStyle (this_element o) "boxShadow" (fallbackShadow h (this_options o))
                 (setStyle (this_element o) "backgroundColor" "rgba(255, 255, 255, 0.85)"
                    (consoleLog (UsingFallbackMode (isFirefox h) (backdropFilterProbe h)) w))) n)
    as (_ & H3).
  unfold fallbackBuiltW. cbv zeta.
  change (nextNode w) with
    (nextNode (setStyle (this_element o) "boxShadow" (fallbackShadow h (this_options o))
                 (setStyle (this_element o) "backgroundColor" "rgba(255, 255, 255, 0.85)"
                    (consoleLog (UsingFallbackMode (isFirefox h) (backdropFilterProbe h)) w)))).
  rewrite H3, decide_False by exact Hn.
  rewrite (proj2 (proj2 (H2 n))), (proj2 (proj2 (H1 n))). reflexivity.
Qed.

(** The fallback layer in front of the former children, each with a
    z-index. *)
Lemma fallbackW_children h i o w :
  (this_element o < nextNode w)%positive ->
  (forall c, In c (childNodes (node w (this_element o))) ->
             (c < nextNode w)%positive /\ c <> this_element o) ->
  childNodes (node (fallbackW h i o w) (this_element o))
  = nextNode w :: childNodes (node w (this_element o)) /\
  getStyle (fallbackW h i o w) (nextNode w) "zIndex" = "0" /\
  forall c, In c (childNodes (node w (this_element o))) ->
            getStyle (fallbackW h i o w) c "zIndex" = liftedZ (getStyle w c "zIndex").
Proof.
  intros He Hk. unfold fallbackW. cbv zeta.
  set (e := this_element o) in *.
  set (w2 := fallbackBuiltW h o w).
  assert (K2 : childNodes (node w2 e) = childNodes (node w e))
    by (apply childNodes_fallbackBuiltW; lia).
  rewrite K2.
  set (l := childNodes (node w e)) in *.
  set (X := insertFirst e (nextNode w) w2).
  change (node (withObjs ?f ?Y) ?n) with (node Y n).
  change (getStyle (withObjs ?f ?Y) ?n ?p) with (getStyle Y n p).
  assert (Hnew : ~ In (nextNode w) l) by (intros Hin; destruct (Hk _ Hin); lia).
  split.
  { destruct (forEach_liftChild_sameShape h l X) as (_ & _ & _ & Hs).
    destruct (Hs e) as (_ & _ & ->).
    unfold X, insertFirst. rewrite node_modNode, decide_True by reflexivity.
    rewrite node_removeNode. unfold withChildren. cbn [childNodes].
    rewrite K2. fold l. rewrite (without_notin _ _ Hnew). reflexivity. }
  split.
  { rewrite getStyle_forEach_liftChild by (right; exact Hnew).
    unfold X. rewrite getStyle_insertFirst. unfold w2, fallbackBuiltW. cbv zeta.
    set (w1 := setStyle _ "boxShadow" _ _).
    change (nextNode w) with (nextNode w1).
    unfold getStyle, setCssText. rewrite node_modNode, decide_True by reflexivity.
    reflexivity. }
  intros c Hc. destruct (Hk c Hc) as (Hlt & Hne).
  rewrite zIndex_forEach_liftChild by exact Hc.
  unfold X. rewrite getStyle_insertFirst. unfold w2.
  rewrite getStyle_fallbackBuiltW_other by (try exact Hne; lia). reflexivity.
Qed.

(** * The filters of the tracked instances *)

Lemma retains_initW b h i o0 c d w0 :
  (b <= nextNode w0)%positive -> retains (createdFrom b) b w0 (initW h i o0 c d w0).
Proof.
  intros Hb. unfold initW. cbv zeta.
  set (w1 := ensuredW i w0).
  set (o1 := with_container (Some c) (Some d) o0).
  set (w2 := filterCreatedW h i o1 d w1).
  set (o2 := with_filter (Some (nextNode w1)) o1).
  set (w3 := appliedW h i o2 w2).
  pose proof (nextNode_ensuredW_le i w0) as L1. fold w1 in L1.
  assert (L2 : nextNode w2 = Pos.succ (nextNode w1)) by reflexivity.
  pose proof (nextNode_appliedW_le h i o2 w2) as L3. fold w3 in L3.
  assert (R3 : retains (createdFrom b) b w0 w3).
  { apply (retains_trans _ b w0 w1); [apply retains_ensuredW, Hb|].
    apply (retains_trans _ b w1 w2); [apply retains_filterCreatedW; lia|].
    apply retains_appliedW. lia. }
  destruct (orb _ _); [|exact R3].
  apply (retains_trans _ b w0 w3 _ R3). apply retains_overlaysW. lia.
Qed.

Lemma objs_updatedW_filter h i o d newOptions w :
  exists g, (forall o', this_defs (g o') = this_defs o' /\
                        this_filter (g o') = Some (nextNode w)) /\
            objs (updatedW h i o d newOptions w) = alter g i (objs w).
Proof.
  unfold updatedW. cbv zeta.
  set (g0 := with_options (spread (this_options o) newOptions)).
  set (w2 := removedW (this_filter o) (withObjs (alter g0 i) w)).
  assert (E2 : objs w2 = alter g0 i (objs w)) by (unfold w2; rewrite objs_removedW; reflexivity).
  assert (N2 : nextNode w2 = nextNode w) by (unfold w2; destruct (this_filter o); reflexivity).
  rewrite objs_appliedW.
  change (objs (filterCreatedW ?h ?i ?o ?d ?X))
    with (alter (with_filter (Some (nextNode X))) i (objs X)).
  rewrite E2, N2.
  destruct (fallbackMode h); rewrite ?alter_alter_eq;
    (eexists; split; [|reflexivity]); intros o'; split; reflexivity.
Qed.

Lemma retains_updatedW h i o d newOptions w :
  retains (ownedOrCreated o (nextNode w)) (nextNode w) w (updatedW h i o d newOptions w).
Proof.
  unfold updatedW. cbv zeta.
  set (g0 := with_options (spread (this_options o) newOptions)).
  set (w1 := withObjs (alter g0 i) w).
  set (w2 := removedW (this_filter o) w1).
  set (w3 := filterCreatedW h i (g0 o) d w2).
  assert (N2 : nextNode w2 = nextNode w) by (unfold w2; destruct (this_filter o); reflexivity).
  assert (W : forall x, createdFrom (nextNode w) x -> ownedOrCreated o (nextNode w) x)
    by (intros x Hx; right; right; right; exact Hx).
  apply (retains_trans _ _ w w1); [apply retains_withObjs|].
  apply (retains_trans _ _ w1 w2).
  { apply retains_removedW. intros y Hy. left. exact Hy. }
  apply (retains_trans _ _ w2 w3).
  { apply (retains_weaken _ _ _ _ _ W). apply retains_filterCreatedW. lia. }
  apply (retains_weaken _ _ _ _ _ W). apply retains_appliedW.
  change (nextNode w3) with (Pos.succ (nextNode w2)). lia.
Qed.

Lemma retains_unregisteredW i o w :
  retains (ownedOrCreated o (nextNode w)) (nextNode w) w (unregisteredW i o w).
Proof.
  unfold unregisteredW.
  apply (retains_trans _ _ w (removedW (this_filter o) w)).
  { apply retains_removedW. intros y Hy. left. exact Hy. }
  apply (retains_trans _ _ _ (removedW (this_overlayContainer o) (removedW (this_filter o) w))).
  { apply retains_removedW. intros y Hy. right. left. exact Hy. }
  apply (retains_trans _ _ _ (removedW (this_firefoxBg o)
           (removedW (this_overlayContainer o) (removedW (this_filter o) w)))).
  { apply retains_removedW. intros y Hy. right. right. left. exact Hy. }
  eapply retains_trans; [apply retains_sameShape, sameShape_restoreStyles|].
  apply retains_withInstances.
Qed.

(** A filter of another object is none of the nodes of [o]. *)
Lemma filter_not_owned w i j o oj f :
  InvS w -> InvF w -> objs w !! i = Some o -> objs w !! j = Some oj -> j <> i ->
  this_filter oj = Some f -> ~ ownedOrCreated o (nextNode w) f.
Proof.
  intros IS IF Ho Hoj Hji Hf.
  destruct (ok_filter _ _ (inv_objs _ IS _ _ Hoj) _ Hf) as (Hlt & Htag & _).
  intros [H|[H|[H|H]]].
  - apply Hji. apply (inv_filter_own _ IF j i oj o f); assumption.
  - destruct (ok_overlay _ _ (inv_objs _ IS _ _ Ho) _ H) as (_ & Hd & _). congruence.
  - destruct (ok_bg _ _ (inv_objs _ IS _ _ Ho) _ H) as (_ & Hd & _). congruence.
  - unfold createdFrom in H. lia.
Qed.

Lemma pristine_invF w : pristine w -> InvF w.
Proof.
  intros (Hi & Ho & _). split.
  - intros i Hin. rewrite Hi in Hin. destruct Hin.
  - intros i j oi oj f H. rewrite Ho, lookup_empty in H. discriminate.
Qed.

Lemma InvF_same w W :
  InvF w -> objs W = objs w -> instances W = instances w ->
  (forall n, childNodes (node W n) = childNodes (node w n)) -> InvF W.
Proof.
  intros [L O] Eo Ei Ek. split.
  - intros i Hi. rewrite Ei in Hi. destruct (L i Hi) as (o & d & f & ? & ? & ? & ?).
    exists o, d, f. rewrite Eo, Ek. auto.
  - intros i j oi oj f. rewrite Eo. apply O.
Qed.

Lemma InvF_construct h t opts now r w e :
  InvS w -> InvL w -> InvF w -> resolve h t w = Some e ->
  InvF (snd (construct h t opts now r w)).
Proof.
  intros IS IL IF Hres.
  destruct (construct_full h t opts now r w e IS IL Hres)
    as (c & d & W & o & Hrun & IW & LW & EW & Ho & (_ & _ & _ & _ & _ & Cd) & Hf & Hd & _ & _
        & Hinst & Hother).
  rewrite Hrun. cbn [snd].
  set (w0 := snd (newObject e (spread defaults (default ∅ opts)) (generateId h now r) w)) in *.
  set (o0 := initialObject h e opts now r w) in *.
  set (f0 := nextNode (ensuredW (nextInst w) w0)) in *.
  assert (Hf0 : (nextNode w <= f0)%positive) by apply (nextNode_ensuredW_le (nextInst w) w0).
  assert (Hold : forall j oj, objs w !! j = Some oj -> j <> nextInst w).
  { intros j oj Hj. assert (Hs : is_Some (objs w !! j)) by eauto.
    pose proof (inv_fresh _ IS _ Hs). lia. }
  assert (Hnew : forall j oj, objs W !! j = Some oj -> this_filter oj = Some f0 ->
                              j = nextInst w).
  { intros j oj Hj Hfj. destruct (decide (j = nextInst w)) as [|Hne]; [assumption|].
    rewrite Hother in Hj by exact Hne.
    destruct (ok_filter _ _ (inv_objs _ IS _ _ Hj) _ Hfj) as (Hlt & _). lia. }
  split.
  - intros j Hj. rewrite Hinst in Hj. apply in_app_or in Hj. destruct Hj as [Hj|[<-|[]]].
    + destruct (inv_filter_live _ IF j Hj) as (oj & dj & fj & Hoj & Hdj & Hfj & Hin).
      exists oj, dj, fj. rewrite Hother by (eapply Hold; eauto).
      split; [exact Hoj|]. split; [exact Hdj|]. split; [exact Hfj|].
      destruct (ok_defs _ _ (inv_objs _ IS _ _ Hoj) _ Hdj) as (Hdlt & _).
      destruct (ok_filter _ _ (inv_objs _ IS _ _ Hoj) _ Hfj) as (Hflt & _).
      rewrite EW. change (node (withInstances ?g ?X) ?n) with (node X n).
      apply (retains_initW (nextNode w) h (nextInst w) o0 c d w0 ltac:(reflexivity) dj fj);
        [exact Hdlt | exact Hin | unfold createdFrom; lia].
    + exists o, d, f0. split; [exact Ho|]. split; [rewrite Cd; reflexivity|].
      split; [exact Hf|].
      rewrite EW. change (node (withInstances ?g ?X) ?n) with (node X n).
      apply initW_child, Hd.
  - intros i j oi oj f Hi Hj Hfi Hfj.
    destruct (decide (i = nextInst w)) as [->|Hni].
    + rewrite Ho in Hi. injection Hi as <-. rewrite Hf in Hfi. injection Hfi as <-.
      symmetry. apply (Hnew j oj Hj Hfj).
    + destruct (decide (j = nextInst w)) as [->|Hnj].
      * rewrite Ho in Hj. injection Hj as <-. rewrite Hf in Hfj. injection Hfj as <-.
        apply (Hnew i oi Hi Hfi).
      * rewrite Hother in Hi, Hj by assumption.
        apply (inv_filter_own _ IF i j oi oj f); assumption.
Qed.

Lemma InvF_update h k opts w ok :
  InvS w -> InvL w -> InvF w -> objs w !! k = Some ok ->
  InvF (snd (update h k opts w)).
Proof.
  intros IS IL IF Hk.
  destruct (update_ok h k opts w ok IS IL Hk) as (d & Hd & Hrun & _ & _).
  rewrite Hrun. cbn [snd].
  destruct (objs_updatedW_filter h k ok d opts w) as (g & Hg & EO).
  set (W := updatedW h k ok d opts w) in *.
  assert (Hkk : objs W !! k = Some (g ok)) by (rewrite EO; apply lookup_alter_eq, Hk).
  assert (Hother : forall j, j <> k -> objs W !! j = objs w !! j)
    by (intros j Hj; rewrite EO; apply lookup_alter_other, Hj).
  assert (Hnew : forall j oj, objs W !! j = Some oj -> this_filter oj = Some (nextNode w) ->
                              j = k).
  { intros j oj Hj Hfj. destruct (decide (j = k)) as [|Hne]; [assumption|].
    rewrite Hother in Hj by exact Hne.
    destruct (ok_filter _ _ (inv_objs _ IS _ _ Hj) _ Hfj) as (Hlt & _). lia. }
  destruct (ok_defs _ _ (inv_objs _ IS _ _ Hk) _ Hd) as (Hdlt & _).
  split.
  - intros j Hj. unfold W in Hj. rewrite instances_updatedW in Hj.
    destruct (decide (j = k)) as [->|Hne].
    + exists (g ok), d, (nextNode w). split; [exact Hkk|].
      destruct (Hg ok) as (Ed & Ef). split; [rewrite Ed; exact Hd|]. split; [exact Ef|].
      unfold W, updatedW. cbv zeta.
      set (g0 := with_options (spread (this_options ok) opts)).
      set (w2 := removedW (this_filter ok) (withObjs (alter g0 k) w)).
      set (w3 := filterCreatedW h k (g0 ok) d w2).
      assert (N2 : nextNode w2 = nextNode w)
        by (unfold w2; destruct (this_filter ok); reflexivity).
      assert (N3 : nextNode w3 = Pos.succ (nextNode w2)) by reflexivity.
      rewrite <- N2.
      apply (retains_appliedW (nextNode w3) h k _ w3 ltac:(lia) d (nextNode w2));
        [lia | apply filterCreatedW_child | unfold createdFrom; lia].
    + destruct (inv_filter_live _ IF j Hj) as (oj & dj & fj & Hoj & Hdj & Hfj & Hin).
      exists oj, dj, fj. rewrite Hother by exact Hne.
      split; [exact Hoj|]. split; [exact Hdj|]. split; [exact Hfj|].
      destruct (ok_defs _ _ (inv_objs _ IS _ _ Hoj) _ Hdj) as (Hdjlt & _).
      apply (retains_updatedW h k ok d opts w dj fj Hdjlt Hin).
      apply (filter_not_owned w k j ok oj fj); assumption.
  - intros i j oi oj f Hi Hj Hfi Hfj.
    destruct (decide (i = k)) as [->|Hni].
    + rewrite Hkk in Hi. injection Hi as <-. destruct (Hg ok) as (_ & Ef).
      rewrite Ef in Hfi. injection Hfi as <-. symmetry. apply (Hnew j oj Hj Hfj).
    + destruct (decide (j = k)) as [->|Hnj].
      * rewrite Hkk in Hj. injection Hj as <-. destruct (Hg ok) as (_ & Ef).
        rewrite Ef in Hfj. injection Hfj as <-. apply (Hnew i oi Hi Hfi).
      * rewrite Hother in Hi, Hj by assumption.
        apply (inv_filter_own _ IF i j oi oj f); assumption.
Qed.

Lemma InvF_destroyedW k ok w :
  InvS w -> InvF w -> objs w !! k = Some ok -> InvF (destroyedW k ok w).
Proof.
  intros IS IF Hk. split.
  - intros j Hj. pose proof Hj as Hj'. rewrite instances_destroyedW in Hj'.
    apply In_setDelete in Hj'. destruct Hj' as (Hjw & Hne).
    destruct (inv_filter_live _ IF j Hjw) as (oj & dj & fj & Hoj & Hdj & Hfj & Hin).
    exists oj, dj, fj. rewrite objs_destroyedW.
    split; [exact Hoj|]. split; [exact Hdj|]. split; [exact Hfj|].
    unfold destroyedW in *. cbv zeta in *.
    destruct (Nat.eqb (length (instances (unregisteredW k ok w))) 0) eqn:El.
    + exfalso. rewrite instances_removedW in Hj.
      apply Nat.eqb_eq, length_zero_iff_nil in El. rewrite El in Hj. destruct Hj.
    + destruct (ok_defs _ _ (inv_objs _ IS _ _ Hoj) _ Hdj) as (Hdjlt & _).
      apply (retains_unregisteredW k ok w dj fj Hdjlt Hin).
      apply (filter_not_owned w k j ok oj fj); assumption.
  - intros i j oi oj f. rewrite objs_destroyedW. apply (inv_filter_own _ IF).
Qed.

Lemma InvF_destroyAll w :
  InvS w -> InvL w -> InvF w -> InvF (snd (destroyAll w)).
Proof.
  intros IS IL IF. unfold destroyAll. js_run.
  destruct (forEach_destroy_all (instances w) w IS IL) as (W & Hrun & _ & _ & HO & HI).
  { intros j Hj. destruct (inv_live _ IL j Hj) as (o & _ & _ & Ho & _). eauto. }
  rewrite Hrun. cbn [snd]. split.
  - intros j Hj. apply HI in Hj. tauto.
  - intros i j oi oj f. rewrite HO. apply (inv_filter_own _ IF).
Qed.

Lemma perform_invF h c w : InvS w -> InvL w -> InvF w -> InvF (perform h c w).
Proof.
  intros IS IL IF. destruct c as [t opts now r|k opts|k|k|k|]; simpl.
  - destruct (resolve h t w) as [e|] eqn:Hres.
    + apply (InvF_construct h t opts now r w e); assumption.
    + unfold construct. js_run. rewrite Hres. exact IF.
  - destruct (objs w !! k) as [ok|] eqn:Hk.
    + apply (InvF_update h k opts w ok); assumption.
    + rewrite (update_missing h k opts w Hk). exact IF.
  - destruct (objs w !! k) as [ok|] eqn:Hk.
    + rewrite (enable_run k ok w Hk). cbn [snd].
      apply (InvF_same w); [exact IF | reflexivity | reflexivity|].
      intros n. rewrite !(proj2 (proj2 (proj2 (proj2 (proj2 (sameShape_setStyle _ _ _ _))) n))).
      reflexivity.
    + rewrite (enable_missing k w Hk). exact IF.
  - destruct (objs w !! k) as [ok|] eqn:Hk.
    + rewrite (disable_run k ok w Hk). cbn [snd].
      apply (InvF_same w); [exact IF | reflexivity | reflexivity|].
      intros n. rewrite !(proj2 (proj2 (proj2 (proj2 (proj2 (sameShape_setStyle _ _ _ _))) n))).
      reflexivity.
    + rewrite (disable_missing k w Hk). exact IF.
  - destruct (objs w !! k) as [ok|] eqn:Hk.
    + rewrite (destroy_run k ok w Hk). cbn [snd]. apply InvF_destroyedW; assumption.
    + rewrite (destroy_missing k w Hk). exact IF.
  - apply InvF_destroyAll; assumption.
Qed.

Lemma reachable_invF h w : reachable h w -> InvF w.
Proof.
  induction 1 as [w Hp | w c Hr IF]; [apply pristine_invF, Hp|].
  destruct (reachable_inv h w Hr) as (IS & IL). apply perform_invF; assumption.
Qed.

(** * The child lists after [update] *)

Lemma childNodes_filterCreatedW h i o d w n :
  ~ In (nextNode w) (childNodes (node w n)) -> (n < nextNode w)%positive ->
  childNodes (node (filterCreatedW h i o d w) n)
  = (childNodes (node w n) ++ (if decide (n = d) then [nextNode w] else []))%list.
Proof.
  intros I Hn.
  assert (Hfresh : without (nextNode w) (childNodes (node w n)) = childNodes (node w n))
    by (apply without_notin, I).
  unfold filterCreatedW, filterBuiltW. prims. autorewrite with nodes.
  destruct (decide (n = d)) as [->|Hne]; decide_all; simpl; rewrite Hfresh;
    [reflexivity | symmetry; apply app_nil_r].
Qed.

Lemma childNodes_removedW_eq a w n :
  childNodes (node (removedW a w) n) = withoutOpt a (childNodes (node w n)).
Proof. destruct a; simpl; [rewrite node_removeNode|]; reflexivity. Qed.

Lemma In_withoutOpt a l x : In x (withoutOpt a l) -> In x l.
Proof. destruct a; simpl; [intros H; apply In_without in H; apply H | tauto]. Qed.

(** Where no fallback is installed, [update] takes the old filter out
    of the child list that holds it and appends the new one to the
    definitions node. *)
Lemma updatedW_children h i o d opts w n :
  InvS w -> fallbackMode h = false -> (n < nextNode w)%positive ->
  childNodes (node (updatedW h i o d opts w) n)
  = (withoutOpt (this_filter o) (childNodes (node w n))
     ++ (if decide (n = d) then [nextNode w] else []))%list.
Proof.
  intros IS Hfb Hn. pose proof (inv_kids _ IS) as K.
  unfold updatedW. cbv zeta.
  set (g0 := with_options (spread (this_options o) opts)).
  set (w1 := withObjs (alter g0 i) w).
  set (w2 := removedW (this_filter o) w1).
  set (w3 := filterCreatedW h i (g0 o) d w2).
  assert (N2 : nextNode w2 = nextNode w) by (unfold w2; destruct (this_filter o); reflexivity).
  assert (N3 : nextNode w3 = Pos.succ (nextNode w2)) by reflexivity.
  assert (K2 : forall m, childNodes (node w2 m)
                         = withoutOpt (this_filter o) (childNodes (node w m)))
    by (intros m; unfold w2; rewrite childNodes_removedW_eq; reflexivity).
  unfold appliedW. cbv zeta. rewrite Hfb.
  rewrite childNodes_probedW by (rewrite nextNode_styledW; lia).
  rewrite childNodes_styledW.
  unfold w3. rewrite childNodes_filterCreatedW.
  - rewrite K2, N2. reflexivity.
  - rewrite K2. intros Hin. apply In_withoutOpt in Hin. pose proof (K _ _ Hin). lia.
  - lia.
Qed.

(** * The styles after [update] *)

Lemma getStyle_appliedW_reference h i o w :
  (this_element o < nextNode w)%positive ->
  getStyle (appliedW h i o w) (this_element o) "backdropFilter" = filterUrl o /\
  getStyle (appliedW h i o w) (this_element o) "WebkitBackdropFilter" = filterUrl o /\
  getStyle (appliedW h i o w) (this_element o) "overflow" = "hidden" /\
  getStyle (appliedW h i o w) (this_element o) "boxShadow"
  = (if fallbackMode h then fallbackShadow h (this_options o)
     else insetShadow h (this_options o)).
Proof.
  intros He.
  assert (E : forall p, p <> "position" -> p <> "zIndex" ->
            getStyle (appliedW h i o w) (this_element o) p
            = let styled := getStyle (styledW h o (String.eqb (getComputedPosition h w
                                (this_element o)) "static") w) (this_element o) p in
              if fallbackMode h
              then if decide (p = "boxShadow") then fallbackShadow h (this_options o)
                   else if decide (p = "backgroundColor") then "rgba(255, 255, 255, 0.85)"
                   else styled
              else styled).
  { intros p P1 P2. apply getStyle_appliedW; [exact He | left; split; assumption]. }
  rewrite !E by discriminate. cbv zeta.
  set (b := String.eqb _ "static").
  assert (S : getStyle (styledW h o b w) (this_element o) "backdropFilter" = filterUrl o /\
              getStyle (styledW h o b w) (this_element o) "WebkitBackdropFilter" = filterUrl o /\
              getStyle (styledW h o b w) (this_element o) "overflow" = "hidden").
  { unfold styledW. cbv zeta.
    destruct b; repeat split;
      repeat first [ apply getStyle_setStyle_same
                   | rewrite getStyle_setStyle_prop by discriminate ]. }
  destruct S as (S1 & S2 & S3).
  destruct (fallbackMode h).
  - rewrite !(decide_False (P := _ = "boxShadow")) by discriminate.
    rewrite !(decide_False (P := _ = "backgroundColor")) by discriminate.
    rewrite (decide_True (P := "boxShadow" = "boxShadow")) by reflexivity. auto.
  - rewrite getStyle_styledW_boxShadow. auto.
Qed.

Lemma getStyle_updatedW h i o d opts w :
  (this_element o < nextNode w)%positive ->
  getStyle (updatedW h i o d opts w) (this_element o) "backdropFilter" = filterUrl o /\
  getStyle (updatedW h i o d opts w) (this_element o) "WebkitBackdropFilter" = filterUrl o /\
  getStyle (updatedW h i o d opts w) (this_element o) "overflow" = "hidden" /\
  getStyle (updatedW h i o d opts w) (this_element o) "boxShadow"
  = (if fallbackMode h then fallbackShadow h (spread (this_options o) opts)
     else insetShadow h (spread (this_options o) opts)).
Proof.
  intros He. unfold updatedW. cbv zeta.
  set (g0 := with_options (spread (this_options o) opts)).
  set (w2 := removedW (this_filter o) (withObjs (alter g0 i) w)).
  set (w3 := filterCreatedW h i (g0 o) d w2).
  assert (N2 : nextNode w2 = nextNode w) by (unfold w2; destruct (this_filter o); reflexivity).
  assert (N3 : nextNode w3 = Pos.succ (nextNode w2)) by reflexivity.
  apply (getStyle_appliedW_reference h i (with_filter (Some (nextNode w2)) (g0 o)) w3).
  simpl. lia.
Qed.

(** * The registry container when it is created *)

Lemma registryCreatedW_container w :
  InvS w ->
  attributes (node (registryCreatedW w) (nextNode w)) !! "aria-hidden" = Some "true" /\
  getStyle (registryCreatedW w) (nextNode w) "position" = "absolute" /\
  getStyle (registryCreatedW w) (nextNode w) "width" = "0" /\
  getStyle (registryCreatedW w) (nextNode w) "height" = "0" /\
  getStyle (registryCreatedW w) (nextNode w) "pointerEvents" = "none".
Proof.
  intros I. pose proof (inv_body _ I) as B.
  assert (E : node (registryCreatedW w) (nextNode w)
              = withChildren (without (nextNode w))
                  (withChildren (fun l => (l ++ [Pos.succ (nextNode w)])%list)
                     (withChildren (without (Pos.succ (nextNode w)))
                        (withAttribute "aria-hidden" "true"
                           (withStyle (fun _ => list_to_map containerCss)
                              (withElemId registryId (blank "svg"))))))).
  { unfold registryCreatedW. prims. cbv zeta. autorewrite with frame nodes. decide_all.
    reflexivity. }
  unfold getStyle. rewrite E. repeat split.
Qed.

(** * Lower case and search *)

Lemma toLowerCase_app a b : toLowerCase (a +:+ b) = toLowerCase a +:+ toLowerCase b.
Proof.
  induction a as [|c a IH]; [reflexivity|].
  change (String (lowerAscii c) (toLowerCase (a +:+ b))
          = String (lowerAscii c) (toLowerCase a +:+ toLowerCase b)).
  f_equal. exact IH.
Qed.

Lemma toLowerCase_app_inv s a b :
  toLowerCase s = a +:+ b ->
  exists s1 s2, s = s1 +:+ s2 /\ toLowerCase s1 = a /\ toLowerCase s2 = b.
Proof.
  revert s. induction a as [|c a IH]; intros s H.
  - exists "", s. repeat split. exact H.
  - destruct s as [|c' s]; [discriminate|].
    change (String (lowerAscii c') (toLowerCase s) = String c (a +:+ b)) in H.
    injection H as Hc Hs. destruct (IH s Hs) as (s1 & s2 & -> & H1 & H2).
    exists (String c' s1), s2. split; [reflexivity|]. split; [|exact H2].
    change (String (lowerAscii c') (toLowerCase s1) = String c a). rewrite H1, Hc. reflexivity.
Qed.

Lemma substring_skip a k b : substring (String.length a) k (a +:+ b) = substring 0 k b.
Proof. induction a as [|c a IH]; [reflexivity | exact IH]. Qed.

Lemma substring_prefix k s : exists post, s = substring 0 k s +:+ post.
Proof.
  revert s. induction k as [|k IH]; intros s.
  - exists s. destruct s; reflexivity.
  - destruct s as [|c s]; [exists ""; reflexivity|].
    destruct (IH s) as (post & E). exists post.
    change (String c s = String c (substring 0 k s +:+ post)). f_equal. exact E.
Qed.

Lemma substring_piece n k s : exists pre post, s = pre +:+ substring n k s +:+ post.
Proof.
  revert s. induction n as [|n IH]; intros s.
  - destruct (substring_prefix k s) as (post & E). exists "", post. exact E.
  - destruct s as [|c s]; [exists "", ""; destruct k; reflexivity|].
    destruct (IH s) as (pre & post & E). exists (String c pre), post.
    change (String c s = String c (pre +:+ substring n k s +:+ post)). f_equal. exact E.
Qed.

(** [indexOf] finds a word exactly when the text holds it. *)
Lemma indexOf_found s word :
  word <> "" ->
  (Z.ltb (-1) (indexOf s word) = true <-> exists pre post, s = pre +:+ word +:+ post).
Proof.
  intros Hw. unfold indexOf. split.
  - destruct (String.index 0 word s) as [k|] eqn:E; [intros _ | discriminate].
    apply index_correct1 in E.
    destruct (substring_piece k (String.length word) s) as (pre & post & Hs).
    rewrite E in Hs. eauto.
  - intros (pre & post & ->).
    destruct (String.index 0 word (pre +:+ word +:+ post)) as [k|] eqn:E.
    + apply Z.ltb_lt. lia.
    + exfalso. apply (index_correct3 0 (String.length pre) word _ E Hw); [lia|].
      rewrite substring_skip.
      clear. induction word as [|c word IH]; [destruct post; reflexivity|].
      change (String c (substring 0 (String.length word) (word +:+ post)) = String c word).
      f_equal. exact IH.
Qed.

Lemma toLowerCase_contains s word :
  (exists pre post, toLowerCase s = pre +:+ word +:+ post) <-> containsNoCase s word.
Proof.
  split.
  - intros (pre & post & H).
    destruct (toLowerCase_app_inv s pre (word +:+ post) H) as (s1 & s2 & -> & H1 & H2).
    destruct (toLowerCase_app_inv s2 word post H2) as (s3 & s4 & -> & H3 & H4).
    exists s1, s3, s4. split; [reflexivity | exact H3].
  - intros (pre & mid & post & -> & H).
    exists (toLowerCase pre), (toLowerCase post). rewrite !toLowerCase_app, H. reflexivity.
Qed.

Lemma substring_length n m s : String.length (substring n m s) <= m.
Proof.
  revert n m. induction s as [|c s IH]; intros n m.
  - destruct n, m; simpl; lia.
  - destruct n as [|n].
    + destruct m as [|m]; simpl; [lia|]. pose proof (IH 0 m). lia.
    + simpl. apply IH.
Qed.
(** * Constructor calls followed by [destroy] calls *)

Lemma instances_perform_new h t o n r w e :
  InvS w -> InvL w -> resolve h t w = Some e ->
  instances (perform h (CNew t o n r) w) = (instances w ++ [nextInst w])%list.
Proof.
  intros IS IL Hres.
  destruct (construct_full h t o n r w e IS IL Hres)
    as (c & d & W & o' & Hrun & _ & _ & _ & _ & _ & _ & _ & _ & _ & HI & _).
  simpl. rewrite Hrun. exact HI.
Qed.

Lemma constructorCalls_instances h cs w :
  reachable h w -> constructorCalls h cs w ->
  length (instances (runCalls h cs w)) = length (instances w) + length cs.
Proof.
  revert w. induction cs as [|c cs IH]; intros w Hr Hc; [simpl; lia|].
  destruct c as [t o n r| | | | |]; try contradiction.
  destruct Hc as ((e & Hres) & Hc).
  destruct (reachable_inv h w Hr) as (IS & IL).
  change (runCalls h (CNew t o n r :: cs) w)
    with (runCalls h cs (perform h (CNew t o n r) w)).
  rewrite (IH _ (reachable_step h w _ Hr) Hc).
  rewrite (instances_perform_new h t o n r w e IS IL Hres), length_app. simpl. lia.
Qed.

Lemma instances_perform_destroy h d w :
  InvL w -> instances (perform h (CDestroy d) w) = setDelete d (instances w).
Proof.
  intros IL. simpl. destruct (objs w !! d) as [o|] eqn:Ho.
  - rewrite (destroy_run d o w Ho). apply instances_destroyedW.
  - rewrite (destroy_missing d w Ho). symmetry. apply (without_notin d (instances w)).
    intros Hin. destruct (inv_live _ IL d Hin) as (o & _ & _ & Ho' & _). congruence.
Qed.

Lemma destroys_instances h ds w i :
  reachable h w ->
  In i (instances (runCalls h (map CDestroy ds) w)) <-> In i (instances w) /\ ~ In i ds.
Proof.
  revert w. induction ds as [|d ds IH]; intros w Hr; [simpl; tauto|].
  destruct (reachable_inv h w Hr) as (IS & IL).
  change (runCalls h (map CDestroy (d :: ds)) w)
    with (runCalls h (map CDestroy ds) (perform h (CDestroy d) w)).
  rewrite (IH _ (reachable_step h w _ Hr)), (instances_perform_destroy h d w IL).
  rewrite In_setDelete. simpl. intuition congruence.
Qed.

(** The registry in a reachable store: in the document exactly while
    the tracker is not empty, and never more than once. *)
Lemma registry_live h w :
  reachable h w ->
  (instances w = [] -> getElementById w registryId = None /\ elementsById w registryId = []) /\
  (instances w <> [] ->
   exists c, elementsById w registryId = [c] /\ getElementById w registryId = Some c).
Proof.
  intros Hr. destruct (reachable_inv h w Hr) as (IS & [E L B]).
  rewrite (getElementById_registry w IS), (elementsById_registry w IS). split.
  - intros Hi. rewrite (E Hi). split; reflexivity.
  - intros Hi. destruct (instances w) as [|i l] eqn:Ei; [contradiction|].
    destruct (L i) as (_ & c & _ & _ & _ & _ & -> & _); [left; reflexivity|].
    exists c. split; reflexivity.
Qed.

(** * The store in which the styles are applied *)

(** The constructor and [update] are their part before [_applyStyles]
    followed by their part from [_applyStyles] on. *)
Lemma construct_split h t opts now r w :
  construct h t opts now r w
  = bind (constructBeforeStyles h t opts now r) (constructFromStyles h) w.
Proof.
  unfold construct, constructBeforeStyles, constructFromStyles, _init, bind, gets.
  destruct (resolve h t w) as [e|]; [|reflexivity].
  destruct (newObject _ _ _ w) as [[i|err] w0]; [|reflexivity].
  destruct (_ensureSVGContainer i w0) as [[[]|err] w1]; [|reflexivity].
  destruct (_createFilter h i w1) as [[[]|err] w2]; [|reflexivity].
  unfold ret. destruct (_applyStyles h i w2) as [[[]|err] w3]; [|reflexivity].
  destruct (getThis i w3) as [[o|err] w4]; [|reflexivity].
  destruct (when _ _ w4) as [[[]|err] w5]; reflexivity.
Qed.

Lemma update_split h i newOptions w :
  update h i newOptions w
  = bind (updateBeforeStyles h i newOptions) (updateFromStyles h) w.
Proof.
  unfold update, updateBeforeStyles, updateFromStyles, bind.
  destruct (getThis i w) as [[o|err] w0]; [|reflexivity].
  destruct (setThis i _ w0) as [[[]|err] w1]; [|reflexivity].
  destruct (match this_filter o with Some f => act (removeNode f) | None => ret tt end w1)
    as [[[]|err] w2]; [|reflexivity].
  destruct (_createFilter h i w2) as [[[]|err] w3]; [|reflexivity].
  reflexivity.
Qed.

(** The children of an old node in the store in which the styles are
    applied are its children from before, or new nodes. *)
Lemma childNodes_ensuredW i w n x :
  InvS w -> (n < nextNode w)%positive ->
  In x (childNodes (node (ensuredW i w) n)) ->
  In x (childNodes (node w n)) \/ (nextNode w <= x)%positive.
Proof.
  intros I Hn. unfold ensuredW.
  destruct (getElementById w registryId) as [c|].
  - change (node (withObjs ?f ?X) ?m) with (node X m). tauto.
  - change (node (withObjs ?f ?X) ?m) with (node X m).
    destruct (registryCreated_shape w I) as (_ & _ & _ & _ & _ & (_ & _ & Hb) & Hs).
    destruct (decide (n = body)) as [->|Hnb].
    + rewrite Hb. intros [<-|Hin]; [right; lia | left; exact Hin].
    + destruct (Hs n) as (_ & _ & ->); [lia | lia | exact Hnb | tauto].
Qed.

Lemma childNodes_filterCreatedW_old h i o d w n x :
  InvS w -> (n < nextNode w)%positive ->
  In x (childNodes (node (filterCreatedW h i o d w) n)) ->
  In x (childNodes (node w n)) \/ (nextNode w <= x)%positive.
Proof.
  intros I Hn. rewrite childNodes_filterCreatedW; [|intros Hin|exact Hn].
  - rewrite in_app_iff. case_decide; simpl; [|tauto].
    intros [?|[<-|[]]]; [tauto | right; lia].
  - pose proof (inv_kids _ I _ _ Hin). lia.
Qed.

(** The inline position of the element when [_applyStyles] is through. *)
Lemma getStyle_appliedW_position h i o w :
  (this_element o < nextNode w)%positive ->
  ~ In (this_element o) (childNodes (node w (this_element o))) ->
  getStyle (appliedW h i o w) (this_element o) "position"
  = if String.eqb (getComputedPosition h w (this_element o)) "static" then "relative"
    else getStyle w (this_element o) "position".
Proof.
  intros He Hk. rewrite getStyle_appliedW by (try right; assumption). cbv zeta.
  rewrite getStyle_styledW_position.
  destruct (fallbackMode h); [|reflexivity].
  rewrite decide_False by discriminate. rewrite decide_False by discriminate. reflexivity.
Qed.

Lemma construct_position h t opts now r w e :
  InvS w -> InvL w -> resolve h t w = Some e -> (e < nextNode w)%positive ->
  ~ In e (childNodes (node w e)) ->
  exists w1 W,
    constructBeforeStyles h t opts now r w = (Return (nextInst w), w1) /\
    construct h t opts now r w = (Return (nextInst w), W) /\
    getStyle W e "position"
    = if String.eqb (getComputedPosition h w1 e) "static" then "relative"
      else getStyle w e "position".
Proof.
  intros IS IL Hres He Hk.
  set (i := nextInst w). set (o0 := initialObject h e opts now r w).
  set (w0 := snd (newObject e (spread defaults (default ∅ opts)) (generateId h now r) w)).
  destruct (generateId_ok h now r) as (Hid1 & Hid2).
  assert (I0 : InvS w0) by (apply InvS_newObject; assumption).
  assert (Ho0 : objs w0 !! i = Some o0) by apply lookup_insert_eq.
  destruct (ensured_ok (fun j => j <> i) i w0 I0) as
    (c & d & I1 & G1 & O1 & N1 & R1 & Q1 & D1 & K1); [tauto|].
  set (w1 := ensuredW i w0) in *.
  set (o1 := with_container (Some c) (Some d) o0).
  assert (Ho1 : objs w1 !! i = Some o1) by (rewrite O1; apply lookup_alter_eq, Ho0).
  set (w2 := filterCreatedW h i o1 d w1).
  set (o2 := with_filter (Some (nextNode w1)) o1).
  assert (Ho2 : objs w2 !! i = Some o2).
  { change (objs w2) with (alter (with_filter (Some (nextNode w1))) i (objs w1)).
    apply lookup_alter_eq, Ho1. }
  set (w3 := appliedW h i o2 w2).
  set (o3 := if fallbackMode h
             then with_firefoxBg (Some (Pos.succ (nextNode w2))) o2 else o2).
  assert (Ho3 : objs w3 !! i = Some o3).
  { unfold w3, o3. rewrite objs_appliedW. destruct (fallbackMode h); [|exact Ho2].
    apply lookup_alter_eq, Ho2. }
  set (flag := orb (truthy (this_options o0 !! "addOverlay"))
                   (truthy (this_options o0 !! "addNoise"))).
  set (w4 := if flag then overlaysW i o3 w3 else w3).
  assert (Hpre : constructBeforeStyles h t opts now r w = (Return i, w2)).
  { unfold constructBeforeStyles. js_run. rewrite Hres. rewrite bind_newObject.
    fold i w0.
    rewrite (bind_run _ _ _ _ _ (ensureSVGContainer_run i w0)).
    rewrite (bind_run _ _ _ _ _ (createFilter_run h i o1 d w1 Ho1 eq_refl)).
    reflexivity. }
  exists w2, (withInstances (setAdd i) w4).
  split; [exact Hpre|]. split.
  { rewrite construct_split, (bind_run _ _ _ _ _ Hpre). unfold constructFromStyles.
    rewrite (bind_run _ _ _ _ _ (applyStyles_run h i o2 w2 Ho2)).
    fold w3. rewrite (bind_getThis i o3 _ w3 Ho3).
    assert (E : this_options o3 = this_options o0) by (unfold o3; destruct (fallbackMode h); reflexivity).
    rewrite E. fold flag. unfold w4. destruct flag.
    - rewrite when_true. rewrite (bind_run _ _ _ _ _ (addOverlays_run i o3 w3 Ho3)).
      js_run. reflexivity.
    - rewrite when_false. js_run. reflexivity. }
  pose proof (nextNode_ensuredW_le i w0) as L1. fold w1 in L1.
  assert (L0 : nextNode w0 = nextNode w) by reflexivity.
  assert (L2 : nextNode w2 = Pos.succ (nextNode w1)) by reflexivity.
  pose proof (nextNode_appliedW_le h i o2 w2) as L3. fold w3 in L3.
  assert (E2 : forall p, getStyle w2 e p = getStyle w e p).
  { intros p. unfold w2.
    rewrite (getStyle_steady (nextNode w0) w1) by (try apply steady_filterCreatedW; lia).
    apply (getStyle_steady (nextNode w0) w0 w1); [apply steady_ensuredW; lia | lia]. }
  assert (K2 : ~ In e (childNodes (node w2 e))).
  { intros Hin.
    apply (childNodes_filterCreatedW_old h i o1 d w1 e e I1) in Hin; [|lia].
    destruct Hin as [Hin|Hin]; [|lia].
    apply (childNodes_ensuredW i w0 e e I0) in Hin; [|lia].
    destruct Hin as [Hin|Hin]; [exact (Hk Hin) | lia]. }
  rewrite getStyle_withInstances.
  assert (E4 : getStyle w4 e "position" = getStyle w3 e "position").
  { unfold w4. destruct flag; [|reflexivity].
    apply (getStyle_steady (nextNode w0)); [apply steady_overlaysW; lia | lia]. }
  rewrite E4. unfold w3.
  change e with (this_element o2) at 1.
  rewrite (getStyle_appliedW_position h i o2 w2) by (first [simpl; lia | exact K2]).
  change (this_element o2) with e. rewrite E2. reflexivity.
Qed.

Lemma update_position h i o newOptions w :
  InvS w -> InvL w -> objs w !! i = Some o -> (this_element o < nextNode w)%positive ->
  ~ In (this_element o) (childNodes (node w (this_element o))) ->
  exists w1 W,
    updateBeforeStyles h i newOptions w = (Return i, w1) /\
    update h i newOptions w = (Return i, W) /\
    getStyle W (this_element o) "position"
    = if String.eqb (getComputedPosition h w1 (this_element o)) "static" then "relative"
      else getStyle w (this_element o) "position".
Proof.
  intros IS IL Ho He Hk.
  destruct (inv_built _ IL i o Ho) as (d & Hd).
  set (e := this_element o) in *.
  set (g := with_options (spread (this_options o) newOptions)).
  set (w1 := withObjs (alter g i) w).
  assert (A1 : altered i g w w1) by apply altered_withObjs.
  assert (I1 : InvS w1).
  { eapply InvS_altered; [exact A1 | reflexivity | | exact IS].
    intros o' _ Hok. apply objOK_with_options, Hok. }
  assert (Ho1 : objs w1 !! i = Some (g o)) by (apply lookup_alter_eq, Ho).
  set (w2 := removedW (this_filter o) w1).
  assert (S2 : safe (fun _ => True) w1 w2).
  { apply safe_removedW; [exact I1|]. intros f Hf.
    eapply filter_removable; [apply (inv_objs _ I1 _ _ Ho1) | exact Hf]. }
  assert (Ho2 : objs w2 !! i = Some (g o)).
  { unfold w2. destruct (this_filter o); exact Ho1. }
  set (w3 := filterCreatedW h i (g o) d w2).
  set (o3 := with_filter (Some (nextNode w2)) (g o)).
  assert (Ho3 : objs w3 !! i = Some o3).
  { change (objs w3) with (alter (with_filter (Some (nextNode w2))) i (objs w2)).
    apply lookup_alter_eq, Ho2. }
  assert (Hpre : updateBeforeStyles h i newOptions w = (Return i, w3)).
  { unfold updateBeforeStyles. js_run. fold g w1.
    assert (E : bind (match this_filter o with
                      | Some f => act (removeNode f)
                      | None => ret tt
                      end)
                  (fun _ => bind (_createFilter h i) (fun _ => ret i)) w1
                = bind (_createFilter h i) (fun _ => ret i) w2).
    { unfold w2. destruct (this_filter o); reflexivity. }
    rewrite E.
    rewrite (bind_run _ _ _ _ _ (createFilter_run h i (g o) d w2 Ho2 Hd)).
    reflexivity. }
  exists w3, (appliedW h i o3 w3).
  split; [exact Hpre|]. split.
  { rewrite update_split, (bind_run _ _ _ _ _ Hpre). unfold updateFromStyles.
    rewrite (bind_run _ _ _ _ _ (applyStyles_run h i o3 w3 Ho3)). reflexivity. }
  assert (N2 : nextNode w2 = nextNode w) by (unfold w2; destruct (this_filter o); reflexivity).
  assert (N3 : nextNode w3 = Pos.succ (nextNode w2)) by reflexivity.
  assert (E3 : forall p, getStyle w3 e p = getStyle w e p).
  { intros p. unfold w3.
    rewrite (getStyle_steady (nextNode w) w2) by (try apply steady_filterCreatedW; lia).
    unfold w2. rewrite getStyle_removedW. reflexivity. }
  assert (K3 : ~ In e (childNodes (node w3 e))).
  { intros Hin.
    apply (childNodes_filterCreatedW_old h i (g o) d w2 e e (safe_InvS _ _ _ S2)) in Hin; [|lia].
    destruct Hin as [Hin|Hin]; [|lia].
    unfold w2 in Hin. rewrite childNodes_removedW_eq in Hin.
    apply In_withoutOpt in Hin. exact (Hk Hin). }
  change e with (this_element o3) at 1.
  rewrite (getStyle_appliedW_position h i o3 w3) by (first [simpl; lia | exact K3]).
  change (this_element o3) with e. rewrite E3. reflexivity.
Qed.

(** * Whether the fallback is installed *)

Lemma isFirefox_contains h :
  isFirefox h = true <-> containsNoCase (userAgent h) "firefox".
Proof. unfold isFirefox. rewrite indexOf_found by discriminate. apply toLowerCase_contains. Qed.

Lemma fallbackMode_iff h :
  fallbackMode h = true <->
  containsNoCase (userAgent h) "firefox" \/ backdropFilterProbe h = false.
Proof.
  unfold fallbackMode. rewrite orb_true_iff, negb_true_iff, isFirefox_contains. reflexivity.
Qed.

(** * The example stores are reachable *)

Lemma page_pristine : pristine page.
Proof.
  split; [reflexivity|]. split; [reflexivity|]. split; [reflexivity|].
  split; [reflexivity|]. split; [|discriminate].
  intros n c. unfold node, page. cbn [heap].
  destruct (decide (n = body)) as [->|Hb].
  { rewrite lookup_insert_eq. simpl. intros [<-|[]].
    split; [reflexivity|]. split; [discriminate | vm_compute; discriminate]. }
  rewrite lookup_insert_ne by congruence.
  destruct (decide (n = 2%positive)) as [->|H2].
  { rewrite lookup_insert_eq. simpl. tauto. }
  rewrite lookup_insert_ne, lookup_empty by congruence. simpl. tauto.
Qed.

Lemma page_reachable h : reachable h page.
Proof. apply reachable_init, page_pristine. Qed.

Lemma chromeCard_reachable : reachable chromeHost chromeCard.
Proof. apply reachable_step, page_reachable. Qed.

Lemma firefoxCard_reachable : reachable firefoxHost firefoxCard.
Proof. apply reachable_step, page_reachable. Qed.

(** * C1: an invalid target *)

(** C1. For every invalid target (a selector that matches nothing, null
    or undefined) the constructor throws its error at once and leaves
    the whole store as it was: the registry container, the instance
    tracker and every object are untouched. *)
Theorem construct_invalid_target h t opts now r w :
  invalidTarget h w t ->
  construct h t opts now r w = (Throw InvalidElement, w).
Proof.
  intros Hinv.
  assert (Hres : resolve h t w = None).
  { destruct t; simpl in *; [exact Hinv | destruct Hinv | reflexivity | reflexivity]. }
  unfold construct. js_run. rewrite Hres. reflexivity.
Qed.

Lemma construct_invalid_target_witness :
  invalidTarget chromeHost page (Selector ".missing") /\
  construct chromeHost (Selector ".missing") None 1700000000000 "0.k3j4h5g6f7d" page
  = (Throw InvalidElement, page).
Proof.
  split; [reflexivity|].
  apply (construct_invalid_target chromeHost (Selector ".missing")). reflexivity.
Defined.

(** * C2: the effective configuration *)

Lemma spread_lookup (a b : Options) k : spread a b !! k = mergeFieldwise a b k.
Proof.
  unfold spread, mergeFieldwise. rewrite lookup_union.
  destruct (b !! k), (a !! k); reflexivity.
Qed.

Lemma defaults_populated k : In k optionNames -> populated defaults k.
Proof.
  unfold optionNames, populated. simpl.
  intros [<-|[<-|[<-|[<-|[<-|[<-|[<-|[<-|[]]]]]]]]];
    (eexists; split; [vm_compute; reflexivity | discriminate]).
Qed.

(** C2. In every reachable store (the page holds no element of its own
    under the id of the registry), for every target that resolves to an
    element and every partial configuration, the constructor returns an
    instance, and the options of that instance are the defaults
    overridden field by field by the supplied ones; when no supplied
    field is [undefined], each of the eight documented fields reads as
    a value other than [undefined]. *)
Theorem construct_merges_options h t opts now r w e :
  reachable h w -> resolve h t w = Some e ->
  exists i W o,
    construct h t opts now r w = (Return i, W) /\
    objs W !! i = Some o /\
    (forall k, this_options o !! k = mergeFieldwise defaults (default ∅ opts) k) /\
    (definedValues (default ∅ opts) ->
     forall k, In k optionNames -> populated (this_options o) k).
Proof.
  intros Hr Hres. destruct (reachable_inv h w Hr) as (IS & IL).
  destruct (construct_ok h t opts now r w e IS IL Hres)
    as (c & d & W & _ & Hrun & _ & _ & o & Ho & (_ & Eo & _) & _).
  exists (nextInst w), W, o. split; [exact Hrun|]. split; [exact Ho|].
  simpl in Eo. split.
  - intros k. rewrite Eo. apply spread_lookup.
  - intros Hdef k Hk. unfold populated. rewrite Eo, spread_lookup. unfold mergeFieldwise.
    destruct (default ∅ opts !! k) as [v|] eqn:E; [|apply defaults_populated, Hk].
    exists v. split; [reflexivity|]. intros ->. exact (Hdef k E).
Qed.

Lemma construct_merges_options_witness :
  reachable chromeHost page /\ resolve chromeHost (Selector ".card") page = Some 2%positive /\
  definedValues scenarioOptions /\
  exists i W o,
    construct chromeHost (Selector ".card") (Some scenarioOptions)
      1700000000000 "0.k3j4h5g6f7d" page = (Return i, W) /\
    objs W !! i = Some o /\
    (forall k, this_options o !! k = mergeFieldwise defaults scenarioOptions k) /\
    (forall k, In k optionNames -> populated (this_options o) k).
Proof.
  assert (D : definedValues scenarioOptions).
  { intros k. unfold scenarioOptions.
    repeat (rewrite lookup_insert; case_decide; [discriminate|]).
    rewrite lookup_empty. discriminate. }
  split; [apply page_reachable|]. split; [reflexivity|]. split; [exact D|].
  destruct (construct_merges_options chromeHost (Selector ".card") (Some scenarioOptions)
              1700000000000 "0.k3j4h5g6f7d" page 2%positive
              (page_reachable chromeHost) eq_refl)
    as (i & W & o & H1 & H2 & H3 & H4).
  exists i, W, o. split; [exact H1|]. split; [exact H2|]. split; [exact H3|].
  apply H4. exact D.
Defined.

(** The claim fails in two ways.  With [{blurAmount: undefined}] the
    constructor returns an instance whose [blurAmount] is [undefined]:
    the spread copies the property over the default.  On a page that
    has an element of its own under the id of the registry, without a
    [defs] inside, the constructor takes that element for the registry
    and throws a [TypeError] when it appends the filter. *)
Lemma construct_unset_or_throws :
  (fst (construct chromeHost (Selector ".card") (Some blurUndefined)
          1700000000000 "0.k3j4h5g6f7d" page) = Return 1%positive /\
   objs undefinedCard !! 1%positive = Some undefinedCardObject /\
   this_options undefinedCardObject !! "blurAmount" = Some VUndefined /\
   ~ populated (this_options undefinedCardObject) "blurAmount") /\
  (resolve chromeHost (Selector ".card") clashPage = Some 2%positive /\
   getElementById clashPage registryId = Some 3%positive /\
   fst (construct chromeHost (Selector ".card") None
          1700000000000 "0.k3j4h5g6f7d" clashPage) = Throw TypeError).
Proof.
  assert (E : this_options undefinedCardObject !! "blurAmount" = Some VUndefined)
    by (vm_compute; reflexivity).
  split.
  - split; [vm_compute; reflexivity|]. split; [vm_compute; reflexivity|].
    split; [exact E|]. intros (v & Hv & Hne). rewrite E in Hv. congruence.
  - split; [reflexivity|]. split; vm_compute; reflexivity.
Qed.

(** * C3: the registry is in the document exactly while an instance is live *)

(** C3. In every store reachable by constructor calls, [update],
    [enable], [disable], [destroy] and [destroyAll], the document holds
    an element with the id of the registry if and only if the tracker
    is not empty, and it holds none when no instance is live and
    exactly one otherwise.  From such a store, constructor calls with
    valid targets add as many live instances as there were calls; after
    [destroy] calls on any list of instances, in any order, the live
    instances are those not in the list; the container is absent when
    the list holds every live instance, and exactly one container is
    present while any of them is left. *)
Theorem registry_iff_live h w :
  reachable h w ->
  (is_Some (getElementById w registryId) <-> 0 < length (instances w)) /\
  length (elementsById w registryId)
  = (if Nat.eqb (length (instances w)) 0 then 0 else 1) /\
  (forall cs ds, constructorCalls h cs w ->
     let W := runCalls h cs w in
     let W' := runCalls h (map CDestroy ds) W in
     length (instances W) = length (instances w) + length cs /\
     (forall i, In i (instances W') <-> In i (instances W) /\ ~ In i ds) /\
     ((forall i, In i (instances W) -> In i ds) ->
      getElementById W' registryId = None /\ elementsById W' registryId = []) /\
     ((exists i, In i (instances W) /\ ~ In i ds) ->
      exists c, elementsById W' registryId = [c] /\
                getElementById W' registryId = Some c)).
Proof.
  intros Hr. destruct (registry_live h w Hr) as (H0 & H1).
  split; [|split].
  - destruct (instances w) as [|i l].
    + destruct (H0 eq_refl) as (-> & _). simpl.
      split; [intros (x & Hx); discriminate | lia].
    + destruct H1 as (c & _ & ->); [discriminate|]. simpl. split; [lia | eauto].
  - destruct (instances w) as [|i l].
    + destruct (H0 eq_refl) as (_ & ->). reflexivity.
    + destruct H1 as (c & -> & _); [discriminate|]. reflexivity.
  - intros cs ds Hcs W W'.
    pose proof (runCalls_reachable h cs w Hr) as HrW. fold W in HrW.
    pose proof (runCalls_reachable h (map CDestroy ds) W HrW) as HrW'. fold W' in HrW'.
    pose proof (fun i => destroys_instances h ds W i HrW) as HD. fold W' in HD.
    destruct (registry_live h W' HrW') as (A0 & A1).
    split; [exact (constructorCalls_instances h cs w Hr Hcs)|].
    split; [exact HD|]. split.
    + intros Hall. apply A0. destruct (instances W') as [|i l] eqn:E; [reflexivity|].
      exfalso. destruct (proj1 (HD i)) as (Hin & Hnot); [left; reflexivity|].
      exact (Hnot (Hall i Hin)).
    + intros (i & Hin & Hnot). apply A1. intros E.
      assert (Hi' : In i (instances W')) by (apply HD; tauto).
      rewrite E in Hi'. destruct Hi'.
Qed.

Lemma registry_iff_live_witness :
  reachable chromeHost page /\ instances page = [] /\
  constructorCalls chromeHost [cardCall; cardCall] page /\
  (is_Some (getElementById page registryId) <-> 0 < length (instances page)) /\
  length (elementsById page registryId)
  = (if Nat.eqb (length (instances page)) 0 then 0 else 1) /\
  (let W := runCalls chromeHost [cardCall; cardCall] page in
   let W' := runCalls chromeHost (map CDestroy [2%positive; 1%positive]) W in
   length (instances W) = 2 /\
   (forall i, In i (instances W') <->
              In i (instances W) /\ ~ In i [2%positive; 1%positive]) /\
   ((forall i, In i (instances W) -> In i [2%positive; 1%positive]) ->
    getElementById W' registryId = None /\ elementsById W' registryId = []) /\
   ((exists i, In i (instances W) /\ ~ In i [2%positive; 1%positive]) ->
    exists c, elementsById W' registryId = [c] /\
              getElementById W' registryId = Some c)).
Proof.
  assert (Hc : constructorCalls chromeHost [cardCall; cardCall] page)
    by (simpl; eauto).
  destruct (registry_iff_live chromeHost page (page_reachable chromeHost)) as (A & B & C).
  split; [apply page_reachable|]. split; [reflexivity|]. split; [exact Hc|].
  split; [exact A|]. split; [exact B|].
  exact (C [cardCall; cardCall] [2%positive; 1%positive] Hc).
Defined.

(** Two instances on the card: the registry is in the document after
    both calls, still there when one of the two is destroyed, whichever
    it is, and gone when both are, in either order. *)
Lemma registry_two_cards_example :
  constructorCalls chromeHost [cardCall; cardCall] page /\
  instances twoCards = [1%positive; 2%positive] /\
  elementsById twoCards registryId = [3%positive] /\
  elementsById (runCalls chromeHost [CDestroy 1%positive] twoCards) registryId
  = [3%positive] /\
  elementsById (runCalls chromeHost [CDestroy 2%positive] twoCards) registryId
  = [3%positive] /\
  elementsById (runCalls chromeHost [CDestroy 1%positive; CDestroy 2%positive] twoCards)
    registryId = [] /\
  elementsById (runCalls chromeHost [CDestroy 2%positive; CDestroy 1%positive] twoCards)
    registryId = [].
Proof.
  split; [simpl; eauto|]. repeat split; vm_compute; reflexivity.
Qed.

(** * C4: [destroy] twice *)

(** C4. In every reachable store and for every instance, [destroy]
    returns normally, and a second [destroy] on the store the first one
    left returns normally as well and leaves that store exactly as it
    is: the document, the styles of the element, the registry and the
    tracker are those after the first call. *)
Theorem destroy_idempotent h i o w :
  reachable h w -> objs w !! i = Some o ->
  exists W,
    destroy i w = (Return tt, W) /\
    destroy i W = (Return tt, W).
Proof.
  intros Hr Ho. destruct (reachable_inv h w Hr) as (IS & IL).
  exists (destroyedW i o w). split; [apply destroy_run, Ho|].
  rewrite (destroy_run i o (destroyedW i o w)) by (rewrite objs_destroyedW; exact Ho).
  rewrite destroyedW_idem by assumption. reflexivity.
Qed.

Lemma destroy_idempotent_witness :
  reachable firefoxHost firefoxCard /\
  objs firefoxCard !! 1%positive = Some firefoxCardObject /\
  exists W,
    destroy 1%positive firefoxCard = (Return tt, W) /\
    destroy 1%positive W = (Return tt, W).
Proof.
  split; [apply firefoxCard_reachable|].
  split; [vm_compute; reflexivity|].
  apply (destroy_idempotent firefoxHost 1%positive firefoxCardObject firefoxCard).
  - apply firefoxCard_reachable.
  - vm_compute. reflexivity.
Defined.

(** * C5: the four saved properties come back *)

(** C5. In every reachable store and for every target that resolves to
    an element, constructing an instance and destroying it at once
    leaves [backdropFilter], [WebkitBackdropFilter], [position] and
    [overflow] of the element's inline style exactly as they were before
    the constructor ran; a property that was empty is empty again. *)
Theorem construct_destroy_restores h t opts now r w e :
  reachable h w -> resolve h t w = Some e ->
  exists i W W',
    construct h t opts now r w = (Return i, W) /\
    destroy i W = (Return tt, W') /\
    getStyle W' e "backdropFilter" = getStyle w e "backdropFilter" /\
    getStyle W' e "WebkitBackdropFilter" = getStyle w e "WebkitBackdropFilter" /\
    getStyle W' e "position" = getStyle w e "position" /\
    getStyle W' e "overflow" = getStyle w e "overflow".
Proof.
  intros Hr Hres. destruct (reachable_inv h w Hr) as (IS & IL).
  destruct (construct_ok h t opts now r w e IS IL Hres)
    as (c & d & W & _ & Hrun & _ & _ & o & Ho & (Ee & _ & _ & Es & _) & _).
  simpl in Ee, Es.
  exists (nextInst w), W, (destroyedW (nextInst w) o W).
  split; [exact Hrun|]. split; [apply destroy_run, Ho|].
  destruct (getStyle_destroyedW_restored (nextInst w) o W) as (H1 & H2 & H3 & H4).
  rewrite Ee, Es in H1, H2, H3, H4. auto.
Qed.

Lemma construct_destroy_restores_witness :
  reachable firefoxHost page /\ resolve firefoxHost (Selector ".card") page = Some 2%positive /\
  exists i W W',
    construct firefoxHost (Selector ".card") None 1700000000000 "0.k3j4h5g6f7d" page
    = (Return i, W) /\
    destroy i W = (Return tt, W') /\
    getStyle W' 2%positive "backdropFilter" = getStyle page 2%positive "backdropFilter" /\
    getStyle W' 2%positive "WebkitBackdropFilter"
    = getStyle page 2%positive "WebkitBackdropFilter" /\
    getStyle W' 2%positive "position" = getStyle page 2%positive "position" /\
    getStyle W' 2%positive "overflow" = getStyle page 2%positive "overflow".
Proof.
  split; [apply page_reachable|]. split; [reflexivity|].
  apply (construct_destroy_restores firefoxHost (Selector ".card") None
           1700000000000 "0.k3j4h5g6f7d" page 2%positive).
  - apply page_reachable.
  - reflexivity.
Defined.

(** * C6: one definition, one blur stage *)

(** C6. In every reachable store, for every live instance whose id no
    other object shares, [update({blurAmount: 10})] returns normally and
    afterwards the definitions of the registry hold exactly one node
    with the id of the instance, which is the filter the instance now
    refers to, and that definition has exactly one [feGaussianBlur]
    stage, with standard deviation 10. *)
Theorem update_blur_single_definition h i o w :
  reachable h w -> In i (instances w) -> objs w !! i = Some o ->
  (forall j oj, objs w !! j = Some oj -> this_id oj = this_id o -> j = i) ->
  exists W f o',
    update h i blurTen w = (Return i, W) /\
    objs W !! i = Some o' /\ this_filter o' = Some f /\
    definitionsWithId W (this_id o) = [f] /\
    map (attrOf "stdDeviation") (stagesOf "feGaussianBlur" (innerHTML (node W f)))
    = [Some (numberToString h 10)].
Proof.
  intros Hr Hlive Ho Huniq. destruct (reachable_inv h w Hr) as (IS & IL).
  destruct (update_definitions h i blurTen w o IS IL Hlive Ho Huniq)
    as (W & f & o' & Hrun & Ho' & Hf & _ & Hdefs & Hc).
  exists W, f, o'. repeat (split; [assumption|]).
  rewrite Hc, blurStages_filterMarkup, spread_lookup. reflexivity.
Qed.

Lemma update_blur_single_definition_witness :
  reachable chromeHost chromeCard /\ In 1%positive (instances chromeCard) /\
  objs chromeCard !! 1%positive = Some chromeCardObject /\
  (forall j oj, objs chromeCard !! j = Some oj ->
                this_id oj = this_id chromeCardObject -> j = 1%positive) /\
  exists W f o',
    update chromeHost 1%positive blurTen chromeCard = (Return 1%positive, W) /\
    objs W !! 1%positive = Some o' /\ this_filter o' = Some f /\
    definitionsWithId W (this_id chromeCardObject) = [f] /\
    map (attrOf "stdDeviation") (stagesOf "feGaussianBlur" (innerHTML (node W f)))
    = [Some (numberToString chromeHost 10)].
Proof.
  assert (E : objs chromeCard = <[1%positive := chromeCardObject]> ∅)
    by (vm_compute; reflexivity).
  assert (U : forall j oj, objs chromeCard !! j = Some oj ->
                this_id oj = this_id chromeCardObject -> j = 1%positive).
  { intros j oj Hj _. destruct (decide (j = 1%positive)) as [->|Hne]; [reflexivity|].
    rewrite E, lookup_insert_ne, lookup_empty in Hj by congruence. discriminate. }
  split; [apply chromeCard_reachable|].
  split; [vm_compute; tauto|].
  split; [vm_compute; reflexivity|].
  split; [exact U|].
  apply (update_blur_single_definition chromeHost 1%positive chromeCardObject chromeCard).
  - apply chromeCard_reachable.
  - vm_compute. tauto.
  - vm_compute. reflexivity.
  - exact U.
Defined.

(** Ids are built from the clock and a random number, so two instances
    can carry the same id.  On the page with two such instances on the
    card, [update({blurAmount: 10})] on the first one removes its own
    filter and appends a new one, and the definitions of the registry
    then hold two nodes with the id of the instance: the filter of the
    second instance and the new one. *)
Lemma update_blur_shared_id :
  reachable chromeHost twoCards /\ In 1%positive (instances twoCards) /\
  objs twoCards !! 1%positive = Some twoCardsFirst /\
  this_id twoCardsSecond = this_id twoCardsFirst /\
  fst (update chromeHost 1%positive blurTen twoCards) = Return 1%positive /\
  definitionsWithId (snd (update chromeHost 1%positive blurTen twoCards))
                    (this_id twoCardsFirst)
  = [10%positive; 15%positive].
Proof.
  split; [apply reachable_step, chromeCard_reachable|].
  split; [vm_compute; tauto|].
  repeat split; vm_compute; reflexivity.
Qed.

(** * C7: [update] and the fallback layer *)

(** C7. In a browser detected as unsupported, in every reachable store
    and for every instance and every partial configuration, [update]
    returns normally and leaves among the children of the element a
    fallback layer that was not among them before the call; the
    instance refers to that new layer from then on. *)
Theorem update_adds_fallback_layer h i o w newOptions :
  reachable h w -> objs w !! i = Some o -> fallbackMode h = true ->
  exists W x o',
    update h i newOptions w = (Return i, W) /\
    ~ In x (fallbackChildren w (this_element o)) /\
    In x (fallbackChildren W (this_element o)) /\
    objs W !! i = Some o' /\ this_firefoxBg o' = Some x.
Proof.
  intros Hr Ho Hfb. destruct (reachable_inv h w Hr) as (IS & IL).
  apply update_layer; assumption.
Qed.

Lemma update_adds_fallback_layer_witness :
  reachable firefoxHost firefoxCard /\
  objs firefoxCard !! 1%positive = Some firefoxCardObject /\
  fallbackMode firefoxHost = true /\
  exists W x o',
    update firefoxHost 1%positive ∅ firefoxCard = (Return 1%positive, W) /\
    ~ In x (fallbackChildren firefoxCard (this_element firefoxCardObject)) /\
    In x (fallbackChildren W (this_element firefoxCardObject)) /\
    objs W !! 1%positive = Some o' /\ this_firefoxBg o' = Some x.
Proof.
  split; [apply firefoxCard_reachable|].
  split; [vm_compute; reflexivity|].
  split; [vm_compute; reflexivity|].
  apply (update_adds_fallback_layer firefoxHost 1%positive firefoxCardObject firefoxCard ∅).
  - apply firefoxCard_reachable.
  - vm_compute. reflexivity.
  - vm_compute. reflexivity.
Defined.

(** On the page with one card and one instance on it, the card has one
    fallback layer before [update({})] and two after it, the old one
    and a new one in front of it; [destroy] then removes the new one
    and leaves the old one in the document.  The overlay container is
    not touched. *)
Lemma update_fallback_layers_example :
  fallbackChildren firefoxCard 2%positive = [7%positive] /\
  overlayChildren firefoxCard 2%positive = [8%positive] /\
  fallbackChildren (snd (update firefoxHost 1%positive ∅ firefoxCard)) 2%positive
  = [13%positive; 7%positive] /\
  overlayChildren (snd (update firefoxHost 1%positive ∅ firefoxCard)) 2%positive
  = [8%positive] /\
  fallbackChildren
    (snd (destroy 1%positive (snd (update firefoxHost 1%positive ∅ firefoxCard)))) 2%positive
  = [7%positive].
Proof. repeat split; vm_compute; reflexivity. Qed.

(** * C8: the scenario of the card *)

(** C8. In every reachable store in which the selector [.card] matches
    an element, constructing with [{redOffset: 8, blueOffset: -8,
    blurAmount: 5, addNoise: false, addOverlay: false}] returns an
    instance whose filter definition shifts red by 8 and blue by -8,
    blurs with standard deviation 5, and uses the default turbulence
    frequency 0.001 and displacement scale 50; the instance has no
    overlay container, and every overlay container among the children
    of the element was there before. *)
Theorem construct_card_scenario h now r w e :
  reachable h w -> querySelector h w ".card" = Some e ->
  exists i W o f,
    construct h (Selector ".card") (Some scenarioOptions) now r w = (Return i, W) /\
    objs W !! i = Some o /\ this_filter o = Some f /\
    stageAttr (innerHTML (node W f)) "feOffset" "redOffset" "dx"
    = Some (numberToString h 8) /\
    stageAttr (innerHTML (node W f)) "feOffset" "blueOffset" "dx"
    = Some (numberToString h (-8)) /\
    stageAttr (innerHTML (node W f)) "feGaussianBlur" "blurred" "stdDeviation"
    = Some (numberToString h 5) /\
    stageAttr (innerHTML (node W f)) "feTurbulence" "turbulence" "baseFrequency"
    = Some (numberToString h 0.001) /\
    stageAttr (innerHTML (node W f)) "feDisplacementMap" "displacement" "scale"
    = Some (numberToString h 50) /\
    this_overlayContainer o = None /\
    forall x, In x (overlayChildren W e) -> In x (overlayChildren w e).
Proof.
  intros Hr Hq. destruct (reachable_inv h w Hr) as (IS & IL).
  destruct (construct_ok h (Selector ".card") (Some scenarioOptions) now r w e IS IL Hq)
    as (c & d & W & EW & Hrun & _ & _ & o & Ho & _ & Hf & Hov).
  set (w0 := snd (newObject e (spread defaults (default ∅ (Some scenarioOptions)))
                    (generateId h now r) w)) in *.
  set (o0 := initialObject h e (Some scenarioOptions) now r w) in *.
  exists (nextInst w), W, o, (nextNode (ensuredW (nextInst w) w0)).
  split; [exact Hrun|]. split; [exact Ho|]. split; [exact Hf|].
  assert (Hc : innerHTML (node W (nextNode (ensuredW (nextInst w) w0)))
               = filterMarkup h (spread defaults scenarioOptions)).
  { rewrite EW. apply (initW_content h (nextInst w) o0 c d w0). }
  rewrite Hc.
  destruct (stageAttr_filterMarkup h (spread defaults scenarioOptions))
    as (-> & -> & -> & -> & ->).
  repeat (split; [reflexivity|]).
  split; [apply Hov; reflexivity|].
  intros x Hx. apply (calm_overlayChildren w W e x); [|exact Hx].
  rewrite EW. apply (calm_trans w w0); [apply calm_newObject|].
  apply (calm_trans w0 (initW h (nextInst w) o0 c d w0)); [|apply calm_withInstances].
  apply calm_initW. reflexivity.
Qed.

Lemma construct_card_scenario_witness :
  reachable chromeHost page /\ querySelector chromeHost page ".card" = Some 2%positive /\
  exists i W o f,
    construct chromeHost (Selector ".card") (Some scenarioOptions)
      1700000000000 "0.k3j4h5g6f7d" page = (Return i, W) /\
    objs W !! i = Some o /\ this_filter o = Some f /\
    stageAttr (innerHTML (node W f)) "feOffset" "redOffset" "dx"
    = Some (numberToString chromeHost 8) /\
    stageAttr (innerHTML (node W f)) "feOffset" "blueOffset" "dx"
    = Some (numberToString chromeHost (-8)) /\
    stageAttr (innerHTML (node W f)) "feGaussianBlur" "blurred" "stdDeviation"
    = Some (numberToString chromeHost 5) /\
    stageAttr (innerHTML (node W f)) "feTurbulence" "turbulence" "baseFrequency"
    = Some (numberToString chromeHost 0.001) /\
    stageAttr (innerHTML (node W f)) "feDisplacementMap" "displacement" "scale"
    = Some (numberToString chromeHost 50) /\
    this_overlayContainer o = None /\
    forall x, In x (overlayChildren W 2%positive) -> In x (overlayChildren page 2%positive).
Proof.
  split; [apply page_reachable|]. split; [reflexivity|].
  apply (construct_card_scenario chromeHost 1700000000000 "0.k3j4h5g6f7d" page 2%positive).
  - apply page_reachable.
  - reflexivity.
Defined.

(** * C9: the positioning context *)

(** C9. In every reachable store, for an element that is a node of the
    document and not its own child: after the constructor, and after
    every [update], the inline [position] of the element is [relative]
    if its computed position was [static] when the styles were applied,
    and is the inline position it had before the call otherwise.  The
    computed position is the one in the store in which [_applyStyles]
    starts, the store the call reaches just before. *)
Theorem applyStyles_position h w :
  reachable h w ->
  (forall t opts now r e,
     resolve h t w = Some e -> (e < nextNode w)%positive ->
     ~ In e (childNodes (node w e)) ->
     exists i w1 W,
       constructBeforeStyles h t opts now r w = (Return i, w1) /\
       construct h t opts now r w = (Return i, W) /\
       getStyle W e "position"
       = if String.eqb (getComputedPosition h w1 e) "static" then "relative"
         else getStyle w e "position") /\
  (forall i o newOptions,
     objs w !! i = Some o -> (this_element o < nextNode w)%positive ->
     ~ In (this_element o) (childNodes (node w (this_element o))) ->
     exists w1 W,
       updateBeforeStyles h i newOptions w = (Return i, w1) /\
       update h i newOptions w = (Return i, W) /\
       getStyle W (this_element o) "position"
       = if String.eqb (getComputedPosition h w1 (this_element o)) "static" then "relative"
         else getStyle w (this_element o) "position").
Proof.
  intros Hr. destruct (reachable_inv h w Hr) as (IS & IL). split.
  - intros t opts now r e Hres He Hk.
    destruct (construct_position h t opts now r w e IS IL Hres He Hk) as (w1 & W & H).
    exists (nextInst w), w1, W. exact H.
  - intros i o newOptions Ho He Hk.
    apply (update_position h i o newOptions w IS IL Ho He Hk).
Qed.

Lemma applyStyles_position_witness :
  reachable firefoxHost firefoxCard /\
  (resolve firefoxHost (Selector ".card") firefoxCard = Some 2%positive /\
   (2 < nextNode firefoxCard)%positive /\
   ~ In 2%positive (childNodes (node firefoxCard 2%positive)) /\
   exists i w1 W,
     constructBeforeStyles firefoxHost (Selector ".card") None
       1700000000001 "0.9d8s7a6f5g4" firefoxCard = (Return i, w1) /\
     construct firefoxHost (Selector ".card") None
       1700000000001 "0.9d8s7a6f5g4" firefoxCard = (Return i, W) /\
     getStyle W 2%positive "position"
     = if String.eqb (getComputedPosition firefoxHost w1 2%positive) "static"
       then "relative"
       else getStyle firefoxCard 2%positive "position") /\
  (objs firefoxCard !! 1%positive = Some firefoxCardObject /\
   (this_element firefoxCardObject < nextNode firefoxCard)%positive /\
   ~ In (this_element firefoxCardObject)
        (childNodes (node firefoxCard (this_element firefoxCardObject))) /\
   exists w1 W,
     updateBeforeStyles firefoxHost 1%positive blurTen firefoxCard = (Return 1%positive, w1) /\
     update firefoxHost 1%positive blurTen firefoxCard = (Return 1%positive, W) /\
     getStyle W (this_element firefoxCardObject) "position"
     = if String.eqb (getComputedPosition firefoxHost w1 (this_element firefoxCardObject))
                     "static"
       then "relative"
       else getStyle firefoxCard (this_element firefoxCardObject) "position").
Proof.
  assert (K : ~ In 2%positive (childNodes (node firefoxCard 2%positive)))
    by (vm_compute; intros [H|[H|[]]]; discriminate).
  destruct (applyStyles_position firefoxHost firefoxCard firefoxCard_reachable) as (HC & HU).
  split; [apply firefoxCard_reachable|]. split.
  - split; [reflexivity|]. split; [reflexivity|]. split; [exact K|].
    apply HC; [reflexivity | reflexivity | exact K].
  - split; [vm_compute; reflexivity|]. split; [reflexivity|]. split; [exact K|].
    apply HU; [vm_compute; reflexivity | reflexivity | exact K].
Defined.

(** On the page with the card, whose computed position is [static]: the
    constructor leaves the inline position [relative], in either
    browser.  Once the inline position is [absolute], [update] leaves
    it as it is. *)
Lemma position_card_example :
  getStyle page 2%positive "position" = "" /\
  getStyle chromeCard 2%positive "position" = "relative" /\
  getStyle firefoxCard 2%positive "position" = "relative" /\
  getStyle (snd (update chromeHost 1%positive ∅
                   (setStyle 2%positive "position" "absolute" chromeCard)))
           2%positive "position" = "absolute".
Proof. repeat split; vm_compute; reflexivity. Qed.

(** * C10: what [destroy] does not restore *)

(** C10. In every reachable store, for every target that resolves to a
    node of the document, after the constructor and an immediate
    [destroy] the inline [boxShadow] of the element is still the value
    the constructor wrote (the inset border, or in fallback mode the
    inset border with the drop shadow), and in fallback mode its
    [backgroundColor] is still the translucent white. *)
Theorem destroy_keeps_shadow h t opts now r w e :
  reachable h w -> resolve h t w = Some e -> (e < nextNode w)%positive ->
  exists i W W',
    construct h t opts now r w = (Return i, W) /\
    destroy i W = (Return tt, W') /\
    getStyle W' e "boxShadow" = getStyle W e "boxShadow" /\
    getStyle W e "boxShadow"
    = (if fallbackMode h
       then fallbackShadow h (spread defaults (default ∅ opts))
       else insetShadow h (spread defaults (default ∅ opts))) /\
    getStyle W' e "backgroundColor"
    = (if fallbackMode h then "rgba(255, 255, 255, 0.85)"
       else getStyle w e "backgroundColor").
Proof.
  intros Hr Hres He. destruct (reachable_inv h w Hr) as (IS & IL).
  destruct (construct_ok h t opts now r w e IS IL Hres)
    as (c & d & W & EW & Hrun & _ & _ & o & Ho & (Ee & _) & _).
  simpl in Ee.
  exists (nextInst w), W, (destroyedW (nextInst w) o W).
  split; [exact Hrun|]. split; [apply destroy_run, Ho|].
  rewrite !getStyle_destroyedW_frame by (right; repeat split; discriminate).
  split; [reflexivity|].
  rewrite EW, !getStyle_withInstances.
  destruct (getStyle_initW h (nextInst w) (initialObject h e opts now r w) c d
              (snd (newObject e (spread defaults (default ∅ opts)) (generateId h now r) w)) He)
    as (H1 & H2).
  split; [exact H1 | exact H2].
Qed.

Lemma destroy_keeps_shadow_witness :
  reachable firefoxHost page /\ resolve firefoxHost (Selector ".card") page = Some 2%positive /\
  (2 < nextNode page)%positive /\
  exists i W W',
    construct firefoxHost (Selector ".card") None 1700000000000 "0.k3j4h5g6f7d" page
    = (Return i, W) /\
    destroy i W = (Return tt, W') /\
    getStyle W' 2%positive "boxShadow" = getStyle W 2%positive "boxShadow" /\
    getStyle W 2%positive "boxShadow"
    = (if fallbackMode firefoxHost
       then fallbackShadow firefoxHost (spread defaults (default ∅ None))
       else insetShadow firefoxHost (spread defaults (default ∅ None))) /\
    getStyle W' 2%positive "backgroundColor"
    = (if fallbackMode firefoxHost then "rgba(255, 255, 255, 0.85)"
       else getStyle page 2%positive "backgroundColor").
Proof.
  split; [apply page_reachable|]. split; [reflexivity|]. split; [reflexivity|].
  apply (destroy_keeps_shadow firefoxHost (Selector ".card") None
           1700000000000 "0.k3j4h5g6f7d" page 2%positive).
  - apply page_reachable.
  - reflexivity.
  - reflexivity.
Defined.

(** * Further properties of the methods *)

(** ** [destroyAll] *)

(** X1. In every reachable store [ChromaticBlur.destroyAll()] returns
    normally; afterwards no instance is tracked, the registry container
    is not in the document, and the objects are what they were. *)
Theorem destroyAll_clears h w :
  reachable h w ->
  exists W,
    destroyAll w = (Return tt, W) /\
    instances W = [] /\ getElementById W registryId = None /\ objs W = objs w.
Proof.
  intros Hr. destruct (reachable_inv h w Hr) as (IS & IL).
  destruct (forEach_destroy_all (instances w) w IS IL) as (W & Hrun & I & L & HO & HI).
  { intros j Hj. destruct (inv_live _ IL j Hj) as (o & _ & _ & Ho & _). eauto. }
  exists W. unfold destroyAll. js_run. split; [exact Hrun|].
  assert (E : instances W = []).
  { destruct (instances W) as [|j l] eqn:E; [reflexivity|]. exfalso.
    destruct (proj1 (HI j)) as (? & ?); [try rewrite E; left; reflexivity | contradiction]. }
  split; [exact E|]. split; [|exact HO].
  rewrite (getElementById_registry W I), (inv_empty _ L E). reflexivity.
Qed.

Lemma destroyAll_clears_witness :
  reachable firefoxHost firefoxCard /\
  exists W,
    destroyAll firefoxCard = (Return tt, W) /\
    instances W = [] /\ getElementById W registryId = None /\ objs W = objs firefoxCard.
Proof.
  split; [apply firefoxCard_reachable|].
  apply (destroyAll_clears firefoxHost firefoxCard). apply firefoxCard_reachable.
Defined.

(** ** One registry for all instances *)

(** X2. In every reachable store any two tracked instances hold the
    same registry container and the same definitions node, and that
    container is the one [document.getElementById] finds: a constructor
    call that finds the registry in the document reuses it. *)
Theorem live_instances_share_registry h w i j oi oj :
  reachable h w -> In i (instances w) -> In j (instances w) ->
  objs w !! i = Some oi -> objs w !! j = Some oj ->
  this_svgContainer oi = this_svgContainer oj /\
  this_defs oi = this_defs oj /\
  getElementById w registryId = this_svgContainer oi /\
  exists c d, this_svgContainer oi = Some c /\ this_defs oi = Some d /\
              In d (childNodes (node w c)) /\ tagName (node w d) = "defs".
Proof.
  intros Hr Hi Hj Hoi Hoj. destruct (reachable_inv h w Hr) as (IS & IL).
  destruct (inv_live _ IL i Hi) as (o1 & c & d & H1 & Hc1 & Hd1 & Hreg & Hq).
  destruct (inv_live _ IL j Hj) as (o2 & c' & d' & H2 & Hc2 & Hd2 & Hreg' & Hq').
  rewrite Hoi in H1. injection H1 as <-. rewrite Hoj in H2. injection H2 as <-.
  rewrite Hreg in Hreg'. injection Hreg' as <-. rewrite Hq in Hq'. injection Hq' as <-.
  split; [congruence|]. split; [congruence|].
  split; [rewrite (getElementById_registry w IS), Hreg, Hc1; reflexivity|].
  exists c, d. split; [exact Hc1|]. split; [exact Hd1|].
  unfold childByTag in Hq. apply find_some in Hq. destruct Hq as (Hin & Ht).
  split; [exact Hin | apply String.eqb_eq, Ht].
Qed.

Lemma live_instances_share_registry_witness :
  reachable chromeHost twoCards /\
  In 1%positive (instances twoCards) /\
  In 2%positive (instances twoCards) /\
  objs twoCards !! 1%positive = Some twoCardsFirst /\
  objs twoCards !! 2%positive = Some twoCardsSecond /\
  this_svgContainer twoCardsFirst = this_svgContainer twoCardsSecond /\
  this_defs twoCardsFirst = this_defs twoCardsSecond /\
  getElementById twoCards registryId
  = this_svgContainer twoCardsFirst /\
  exists c d, this_svgContainer twoCardsFirst = Some c /\ this_defs twoCardsFirst = Some d /\
              In d (childNodes (node twoCards c)) /\
              tagName (node twoCards d) = "defs".
Proof.
  assert (R : reachable chromeHost twoCards)
    by apply reachable_step, chromeCard_reachable.
  split; [exact R|].
  split; [vm_compute; tauto|]. split; [vm_compute; tauto|].
  split; [vm_compute; reflexivity|]. split; [vm_compute; reflexivity|].
  apply (live_instances_share_registry chromeHost twoCards
           1%positive 2%positive twoCardsFirst twoCardsSecond R).
  - vm_compute. tauto.
  - vm_compute. tauto.
  - vm_compute. reflexivity.
  - vm_compute. reflexivity.
Defined.

(** ** The constructor *)

(** X3. In every reachable store, a constructor call whose target
    resolves to a node of the document returns a tracked instance whose
    filter is a [filter] element with the generated id of the instance
    among the definitions of the registry in the document, and leaves
    [backdropFilter] and [WebkitBackdropFilter] of the element set to
    the [url(#id)] reference with that same id, and [overflow] to
    [hidden]. *)
Theorem construct_installs_filter h t opts now r w e :
  reachable h w -> resolve h t w = Some e -> (e < nextNode w)%positive ->
  exists i W o f,
    construct h t opts now r w = (Return i, W) /\
    In i (instances W) /\ objs W !! i = Some o /\
    this_element o = e /\ this_id o = generateId h now r /\
    this_filter o = Some f /\
    In f (filterDefinitions W) /\
    tagName (node W f) = "filter" /\ elemId (node W f) = this_id o /\
    getStyle W e "backdropFilter" = filterUrl o /\
    getStyle W e "WebkitBackdropFilter" = filterUrl o /\
    getStyle W e "overflow" = "hidden".
Proof.
  intros Hr Hres He. destruct (reachable_inv h w Hr) as (IS & IL).
  destruct (construct_full h t opts now r w e IS IL Hres)
    as (c & d & W & o & Hrun & IW & LW & EW & Ho & (Ce & _ & Ci & _) & Hf & Hd & Hreg & Hq
        & Hinst & _).
  simpl in Ce, Ci.
  set (w0 := snd (newObject e (spread defaults (default ∅ opts)) (generateId h now r) w)) in *.
  set (o0 := initialObject h e opts now r w) in *.
  exists (nextInst w), W, o, (nextNode (ensuredW (nextInst w) w0)).
  split; [exact Hrun|].
  split; [rewrite Hinst; apply in_or_app; right; left; reflexivity|].
  split; [exact Ho|]. split; [exact Ce|]. split; [exact Ci|]. split; [exact Hf|].
  split.
  { rewrite (filterDefinitions_registry W c d IW Hreg Hq), EW.
    change (node (withInstances ?g ?X) ?n) with (node X n).
    apply initW_child, Hd. }
  destruct (ok_filter _ _ (inv_objs _ IW _ _ Ho) _ Hf) as (_ & Ht & Hi).
  split; [exact Ht|]. split; [exact Hi|].
  destruct (getStyle_initW_reference h (nextInst w) o0 c d w0 He) as (H1 & H2 & H3).
  assert (EU : filterUrl o = filterUrl o0) by (unfold filterUrl; rewrite Ci; reflexivity).
  rewrite EU, EW, !getStyle_withInstances. auto.
Qed.

Lemma construct_installs_filter_witness :
  reachable firefoxHost page /\ resolve firefoxHost (Selector ".card") page = Some 2%positive /\
  (2 < nextNode page)%positive /\
  exists i W o f,
    construct firefoxHost (Selector ".card") None 1700000000000 "0.k3j4h5g6f7d" page
    = (Return i, W) /\
    In i (instances W) /\ objs W !! i = Some o /\
    this_element o = 2%positive /\
    this_id o = generateId firefoxHost 1700000000000 "0.k3j4h5g6f7d" /\
    this_filter o = Some f /\
    In f (filterDefinitions W) /\
    tagName (node W f) = "filter" /\ elemId (node W f) = this_id o /\
    getStyle W 2%positive "backdropFilter" = filterUrl o /\
    getStyle W 2%positive "WebkitBackdropFilter" = filterUrl o /\
    getStyle W 2%positive "overflow" = "hidden".
Proof.
  split; [apply page_reachable|]. split; [reflexivity|]. split; [reflexivity|].
  apply (construct_installs_filter firefoxHost (Selector ".card") None
           1700000000000 "0.k3j4h5g6f7d" page 2%positive).
  - apply page_reachable.
  - reflexivity.
  - reflexivity.
Defined.

(** X4. In every reachable store a constructor call whose target
    resolves adds the new instance, and nothing else, at the end of the
    tracker, under an identity no object had, and leaves every other
    object as it was. *)
Theorem construct_registers h t opts now r w e :
  reachable h w -> resolve h t w = Some e ->
  exists i W,
    construct h t opts now r w = (Return i, W) /\
    objs w !! i = None /\ is_Some (objs W !! i) /\
    instances W = (instances w ++ [i])%list /\
    forall j, j <> i -> objs W !! j = objs w !! j.
Proof.
  intros Hr Hres. destruct (reachable_inv h w Hr) as (IS & IL).
  destruct (construct_full h t opts now r w e IS IL Hres)
    as (c & d & W & o & Hrun & _ & _ & _ & Ho & _ & _ & _ & _ & _ & Hinst & Hother).
  exists (nextInst w), W. split; [exact Hrun|]. split.
  { destruct (objs w !! nextInst w) eqn:E; [|reflexivity].
    assert (Hs : is_Some (objs w !! nextInst w)) by (rewrite E; eauto).
    pose proof (inv_fresh _ IS _ Hs). lia. }
  split; [eauto|]. split; [exact Hinst | exact Hother].
Qed.

Lemma construct_registers_witness :
  reachable chromeHost chromeCard /\
  resolve chromeHost (Selector ".card") chromeCard = Some 2%positive /\
  exists i W,
    construct chromeHost (Selector ".card") (Some scenarioOptions)
      1700000000001 "0.zzzzzzzzzzz" chromeCard = (Return i, W) /\
    objs chromeCard !! i = None /\ is_Some (objs W !! i) /\
    instances W = (instances chromeCard ++ [i])%list /\
    forall j, j <> i -> objs W !! j = objs chromeCard !! j.
Proof.
  split; [apply chromeCard_reachable|]. split; [reflexivity|].
  apply (construct_registers chromeHost (Selector ".card") (Some scenarioOptions)
           1700000000001 "0.zzzzzzzzzzz" chromeCard 2%positive).
  - apply chromeCard_reachable.
  - reflexivity.
Defined.

(** ** [disable] and [enable] *)

Lemma modNode_id e F w nd :
  heap w !! e = Some nd -> F nd = nd -> modNode e F w = w.
Proof.
  intros H HF. destruct w as [hp nn ob ni ins con]. unfold modNode, withHeap. simpl in *.
  f_equal. rewrite H. simpl. rewrite HF. apply insert_id, H.
Qed.

Lemma withStyle_id f nd : f (style nd) = style nd -> withStyle f nd = nd.
Proof. intros H. destruct nd. unfold withStyle. simpl in *. rewrite H. reflexivity. Qed.

Lemma getStyle_lookup w e p u :
  u <> "" -> getStyle w e p = u ->
  exists nd, heap w !! e = Some nd /\ style nd !! p = Some u.
Proof.
  unfold getStyle, node. intros Hu H. destruct (heap w !! e) as [nd|].
  - exists nd. split; [reflexivity|]. simpl in H.
    destruct (style nd !! p) as [x|]; simpl in H; congruence.
  - simpl in H. rewrite lookup_empty in H. simpl in H. congruence.
Qed.

(** Writing [v] over two properties that both read [u] and then [u]
    again leaves the store as it was. *)
Lemma setStyle_pair_roundtrip e p q u v w :
  u <> "" -> getStyle w e p = u -> getStyle w e q = u ->
  setStyle e q u (setStyle e p u (setStyle e q v (setStyle e p v w))) = w.
Proof.
  intros Hu Hp Hq.
  destruct (getStyle_lookup w e p u Hu Hp) as (nd & Hnd & Lp).
  destruct (getStyle_lookup w e q u Hu Hq) as (nd' & Hnd' & Lq).
  rewrite Hnd in Hnd'. injection Hnd' as <-.
  unfold setStyle. rewrite !modNode_modNode.
  apply (modNode_id e _ w nd Hnd). rewrite !withStyle_withStyle.
  apply withStyle_id. apply map_eq. intros k. rewrite !lookup_assignStyle_raw.
  rewrite (decide_False (P := u = "")) by exact Hu.
  destruct (decide (k = q)) as [->|Hkq]; [symmetry; exact Lq|].
  destruct (decide (k = p)) as [->|Hkp]; [symmetry; exact Lp | reflexivity].
Qed.

Lemma filterUrl_nonempty o : filterUrl o <> "".
Proof. unfold filterUrl. discriminate. Qed.

(** X5. While the element carries the [url(#id)] reference of the
    instance in [backdropFilter] and [WebkitBackdropFilter], [disable]
    sets both to [none] and a following [enable] gives back exactly the
    store before [disable]: nothing else was touched. *)
Theorem disable_enable_roundtrip i o w :
  objs w !! i = Some o ->
  getStyle w (this_element o) "backdropFilter" = filterUrl o ->
  getStyle w (this_element o) "WebkitBackdropFilter" = filterUrl o ->
  exists W,
    disable i w = (Return i, W) /\
    getStyle W (this_element o) "backdropFilter" = "none" /\
    getStyle W (this_element o) "WebkitBackdropFilter" = "none" /\
    enable i W = (Return i, w).
Proof.
  intros Ho Hb Hw.
  exists (setStyle (this_element o) "WebkitBackdropFilter" "none"
            (setStyle (this_element o) "backdropFilter" "none" w)).
  split; [apply disable_run, Ho|].
  split; [rewrite getStyle_setStyle_prop by discriminate; apply getStyle_setStyle_same|].
  split; [apply getStyle_setStyle_same|].
  rewrite (enable_run i o) by exact Ho.
  f_equal. apply (setStyle_pair_roundtrip _ _ _ (filterUrl o) "none");
    [apply filterUrl_nonempty | exact Hb | exact Hw].
Qed.

Lemma disable_enable_roundtrip_witness :
  objs chromeCard !! 1%positive = Some chromeCardObject /\
  getStyle chromeCard (this_element chromeCardObject) "backdropFilter"
  = filterUrl chromeCardObject /\
  getStyle chromeCard (this_element chromeCardObject) "WebkitBackdropFilter"
  = filterUrl chromeCardObject /\
  exists W,
    disable 1%positive chromeCard = (Return 1%positive, W) /\
    getStyle W (this_element chromeCardObject) "backdropFilter" = "none" /\
    getStyle W (this_element chromeCardObject) "WebkitBackdropFilter" = "none" /\
    enable 1%positive W = (Return 1%positive, chromeCard).
Proof.
  split; [vm_compute; reflexivity|]. split; [vm_compute; reflexivity|].
  split; [vm_compute; reflexivity|].
  apply (disable_enable_roundtrip 1%positive chromeCardObject chromeCard).
  - vm_compute. reflexivity.
  - vm_compute. reflexivity.
  - vm_compute. reflexivity.
Defined.

(** ** [update] *)

(** X6. In every reachable store [update(newOptions)] on an object
    returns that object with each option equal to the new value where
    [newOptions] has one and to the old value otherwise; the element,
    the id and the saved styles of the object, the tracker and every
    other object are left as they were. *)
Theorem update_merges_options h i o w newOptions :
  reachable h w -> objs w !! i = Some o ->
  exists W o',
    update h i newOptions w = (Return i, W) /\
    objs W !! i = Some o' /\
    (forall k, this_options o' !! k = mergeFieldwise (this_options o) newOptions k) /\
    sameIdentity o o' /\
    instances W = instances w /\
    forall j, j <> i -> objs W !! j = objs w !! j.
Proof.
  intros Hr Ho. destruct (reachable_inv h w Hr) as (IS & IL).
  destruct (update_ok h i newOptions w o IS IL Ho) as (d & _ & Hrun & _ & _).
  destruct (objs_updatedW h i o d newOptions w) as (g & Hg & EO).
  exists (updatedW h i o d newOptions w), (g o).
  split; [exact Hrun|].
  split; [rewrite EO; apply lookup_alter_eq, Ho|].
  destruct (Hg o) as (Hid & Hopt).
  split; [intros k; rewrite Hopt; apply spread_lookup|].
  split; [exact Hid|]. split; [apply instances_updatedW|].
  intros j Hj. rewrite EO. apply lookup_alter_other, Hj.
Qed.

Lemma update_merges_options_witness :
  reachable chromeHost chromeCard /\
  objs chromeCard !! 1%positive = Some chromeCardObject /\
  exists W o',
    update chromeHost 1%positive scenarioOptions chromeCard = (Return 1%positive, W) /\
    objs W !! 1%positive = Some o' /\
    (forall k, this_options o' !! k
               = mergeFieldwise (this_options chromeCardObject) scenarioOptions k) /\
    sameIdentity chromeCardObject o' /\
    instances W = instances chromeCard /\
    forall j, j <> 1%positive -> objs W !! j = objs chromeCard !! j.
Proof.
  split; [apply chromeCard_reachable|]. split; [vm_compute; reflexivity|].
  apply (update_merges_options chromeHost 1%positive chromeCardObject chromeCard scenarioOptions).
  - apply chromeCard_reachable.
  - vm_compute. reflexivity.
Defined.

(** ** Objects along a history of calls *)

(** X7. From a reachable store, no sequence of constructor, [update],
    [enable], [disable], [destroy] and [destroyAll] calls removes an
    object or changes its element, its id or the styles it saved at
    construction. *)
Theorem objects_keep_identity h cs w i o :
  reachable h w -> objs w !! i = Some o ->
  exists o', objs (runCalls h cs w) !! i = Some o' /\ sameIdentity o o'.
Proof. apply runCalls_identity. Qed.

Lemma objects_keep_identity_witness :
  reachable chromeHost chromeCard /\
  objs chromeCard !! 1%positive = Some chromeCardObject /\
  exists o',
    objs (runCalls chromeHost [CUpdate 1%positive blurTen; CDisable 1%positive;
                               cardCall; CDestroy 1%positive; CDestroyAll] chromeCard)
      !! 1%positive = Some o' /\
    sameIdentity chromeCardObject o'.
Proof.
  split; [apply chromeCard_reachable|]. split; [vm_compute; reflexivity|].
  apply (objects_keep_identity chromeHost
           [CUpdate 1%positive blurTen; CDisable 1%positive; cardCall;
            CDestroy 1%positive; CDestroyAll] chromeCard 1%positive chromeCardObject).
  - apply chromeCard_reachable.
  - vm_compute. reflexivity.
Defined.

(** X8. In every reachable store, after a constructor call whose target
    resolves to an element and any sequence of further calls, [destroy]
    on the instance returns normally and leaves [backdropFilter],
    [WebkitBackdropFilter], [position] and [overflow] of the element's
    inline style as they were before the constructor call. *)
Theorem destroy_restores_after_history h t opts now r w e :
  reachable h w -> resolve h t w = Some e ->
  exists i W,
    construct h t opts now r w = (Return i, W) /\
    forall cs, exists W',
      destroy i (runCalls h cs W) = (Return tt, W') /\
      getStyle W' e "backdropFilter" = getStyle w e "backdropFilter" /\
      getStyle W' e "WebkitBackdropFilter" = getStyle w e "WebkitBackdropFilter" /\
      getStyle W' e "position" = getStyle w e "position" /\
      getStyle W' e "overflow" = getStyle w e "overflow".
Proof.
  intros Hr Hres. destruct (reachable_inv h w Hr) as (IS & IL).
  destruct (construct_full h t opts now r w e IS IL Hres)
    as (c & d & W & o & Hrun & _ & _ & _ & Ho & (Ce & _ & _ & Cs & _) & _).
  simpl in Ce, Cs.
  exists (nextInst w), W. split; [exact Hrun|]. intros cs.
  assert (HW : reachable h W).
  { replace W with (perform h (CNew t opts now r) w);
      [apply reachable_step, Hr | simpl; rewrite Hrun; reflexivity]. }
  destruct (runCalls_identity h cs W (nextInst w) o HW Ho) as (o' & Ho' & (Ee & _ & Es)).
  exists (destroyedW (nextInst w) o' (runCalls h cs W)).
  split; [apply destroy_run, Ho'|].
  destruct (getStyle_destroyedW_restored (nextInst w) o' (runCalls h cs W))
    as (H1 & H2 & H3 & H4).
  rewrite Ee, Es, Ce, Cs in H1, H2, H3, H4. auto.
Qed.

Lemma destroy_restores_after_history_witness :
  reachable firefoxHost page /\ resolve firefoxHost (Selector ".card") page = Some 2%positive /\
  exists i W,
    construct firefoxHost (Selector ".card") None 1700000000000 "0.k3j4h5g6f7d" page
    = (Return i, W) /\
    forall cs, exists W',
      destroy i (runCalls firefoxHost cs W) = (Return tt, W') /\
      getStyle W' 2%positive "backdropFilter" = getStyle page 2%positive "backdropFilter" /\
      getStyle W' 2%positive "WebkitBackdropFilter"
      = getStyle page 2%positive "WebkitBackdropFilter" /\
      getStyle W' 2%positive "position" = getStyle page 2%positive "position" /\
      getStyle W' 2%positive "overflow" = getStyle page 2%positive "overflow".
Proof.
  split; [apply page_reachable|]. split; [reflexivity|].
  apply (destroy_restores_after_history firefoxHost (Selector ".card") None
           1700000000000 "0.k3j4h5g6f7d" page 2%positive).
  - apply page_reachable.
  - reflexivity.
Defined.

(** ** [_addOverlays] *)

(** X9. In every reachable store, a constructor call on a node of the
    document whose effective options have [addOverlay] or [addNoise]
    truthy creates an overlay container, makes it the first child of
    the element and stores it in [this.overlayContainer]; the container
    has class [chromatic-blur-overlays] and holds a noise layer if
    [addNoise] is truthy followed by a gradient layer if [addOverlay]
    is truthy, and nothing else. *)
Theorem construct_adds_overlays h t opts now r w e :
  reachable h w -> resolve h t w = Some e -> (e < nextNode w)%positive ->
  orb (truthy (spread defaults (default ∅ opts) !! "addOverlay"))
      (truthy (spread defaults (default ∅ opts) !! "addNoise")) = true ->
  exists i W o oc,
    construct h t opts now r w = (Return i, W) /\
    objs W !! i = Some o /\ this_overlayContainer o = Some oc /\
    (nextNode w <= oc)%positive /\
    head (childNodes (node W e)) = Some oc /\
    className (node W oc) = "chromatic-blur-overlays" /\
    childClasses W oc
    = ((if truthy (spread defaults (default ∅ opts) !! "addNoise")
        then ["chromatic-blur-noise"] else [])
       ++ (if truthy (spread defaults (default ∅ opts) !! "addOverlay")
           then ["chromatic-blur-gradient"] else []))%list.
Proof.
  intros Hr Hres He Hflag. destruct (reachable_inv h w Hr) as (IS & IL).
  destruct (construct_full h t opts now r w e IS IL Hres)
    as (c & d & W & o & Hrun & _ & _ & EW & Ho & _).
  set (w0 := snd (newObject e (spread defaults (default ∅ opts)) (generateId h now r) w)) in *.
  set (o0 := initialObject h e opts now r w) in *.
  destruct (initW_overlays h (nextInst w) o0 c d w0 He Hflag) as (oc & Hoc & Hobj & H1 & H2 & H3).
  exists (nextInst w), W, o, oc.
  split; [exact Hrun|]. split; [exact Ho|].
  split; [apply Hobj; rewrite EW in Ho; exact Ho|].
  split; [exact Hoc|].
  rewrite EW. unfold childClasses in *.
  change (node (withInstances ?g ?X) ?n) with (node X n).
  split; [exact H1|]. split; [exact H2 | exact H3].
Qed.

Lemma construct_adds_overlays_witness :
  reachable firefoxHost page /\ resolve firefoxHost (Selector ".card") page = Some 2%positive /\
  (2 < nextNode page)%positive /\
  orb (truthy (spread defaults (default ∅ None) !! "addOverlay"))
      (truthy (spread defaults (default ∅ None) !! "addNoise")) = true /\
  exists i W o oc,
    construct firefoxHost (Selector ".card") None 1700000000000 "0.k3j4h5g6f7d" page
    = (Return i, W) /\
    objs W !! i = Some o /\ this_overlayContainer o = Some oc /\
    (nextNode page <= oc)%positive /\
    head (childNodes (node W 2%positive)) = Some oc /\
    className (node W oc) = "chromatic-blur-overlays" /\
    childClasses W oc
    = ((if truthy (spread defaults (default ∅ None) !! "addNoise")
        then ["chromatic-blur-noise"] else [])
       ++ (if truthy (spread defaults (default ∅ None) !! "addOverlay")
           then ["chromatic-blur-gradient"] else []))%list.
Proof.
  split; [apply page_reachable|]. split; [reflexivity|]. split; [reflexivity|].
  split; [reflexivity|].
  apply (construct_adds_overlays firefoxHost (Selector ".card") None
           1700000000000 "0.k3j4h5g6f7d" page 2%positive).
  - apply page_reachable.
  - reflexivity.
  - reflexivity.
  - reflexivity.
Defined.

(** ** [_addFirefoxFallback] *)

(** X10. In a browser detected as unsupported, in every reachable
    store, [_applyStyles] for an instance whose element is a node of
    the document and not its own child puts a new layer with z-index 0
    in front of the children the element had, keeps those children in
    their order, and leaves each of them with the z-index [1] if it had
    none or [auto], and with the z-index it had otherwise. *)
Theorem applyStyles_fallback_children h i o w :
  reachable h w -> objs w !! i = Some o -> fallbackMode h = true ->
  (this_element o < nextNode w)%positive ->
  ~ In (this_element o) (childNodes (node w (this_element o))) ->
  exists W bg,
    _applyStyles h i w = (Return tt, W) /\
    childNodes (node W (this_element o)) = bg :: childNodes (node w (this_element o)) /\
    getStyle W bg "zIndex" = "0" /\
    forall c, In c (childNodes (node w (this_element o))) ->
              getStyle W c "zIndex" = liftedZ (getStyle w c "zIndex").
Proof.
  intros Hr Ho Hfb He Hself. destruct (reachable_inv h w Hr) as (IS & _).
  exists (appliedW h i o w), (Pos.succ (nextNode w)).
  split; [apply applyStyles_run, Ho|].
  unfold appliedW. cbv zeta. rewrite Hfb.
  set (b := String.eqb _ "static").
  set (w1 := probedW h (styledW h o b w)).
  assert (N1 : nextNode w1 = Pos.succ (nextNode w))
    by (unfold w1; rewrite nextNode_probedW, nextNode_styledW; reflexivity).
  assert (K1 : forall n, (n < nextNode w)%positive ->
                         childNodes (node w1 n) = childNodes (node w n)).
  { intros n Hn. unfold w1.
    rewrite childNodes_probedW by (rewrite nextNode_styledW; exact Hn).
    apply childNodes_styledW. }
  assert (Hk : forall c, In c (childNodes (node w (this_element o))) ->
                         (c < nextNode w)%positive /\ c <> this_element o).
  { intros c Hc. split; [apply (inv_kids _ IS _ _ Hc) | intros ->; contradiction]. }
  destruct (fallbackW_children h i o w1) as (H1 & H2 & H3).
  { rewrite N1. lia. }
  { intros c Hc. rewrite K1 in Hc by exact He. destruct (Hk c Hc). split; [lia | assumption]. }
  rewrite K1 in H1, H3 by exact He. rewrite N1 in H1, H2.
  split; [exact H1|]. split; [exact H2|].
  intros c Hc. rewrite (H3 c Hc). destruct (Hk c Hc) as (Hlt & Hne).
  unfold w1. rewrite getStyle_probedW by (rewrite nextNode_styledW; lia).
  rewrite getStyle_styledW_other by exact Hne. reflexivity.
Qed.

Lemma applyStyles_fallback_children_witness :
  reachable firefoxHost firefoxCard /\
  objs firefoxCard !! 1%positive = Some firefoxCardObject /\
  fallbackMode firefoxHost = true /\
  (this_element firefoxCardObject < nextNode firefoxCard)%positive /\
  ~ In (this_element firefoxCardObject)
       (childNodes (node firefoxCard (this_element firefoxCardObject))) /\
  exists W bg,
    _applyStyles firefoxHost 1%positive firefoxCard = (Return tt, W) /\
    childNodes (node W (this_element firefoxCardObject))
    = bg :: childNodes (node firefoxCard (this_element firefoxCardObject)) /\
    getStyle W bg "zIndex" = "0" /\
    forall c, In c (childNodes (node firefoxCard (this_element firefoxCardObject))) ->
              getStyle W c "zIndex" = liftedZ (getStyle firefoxCard c "zIndex").
Proof.
  split; [apply firefoxCard_reachable|]. split; [vm_compute; reflexivity|].
  split; [vm_compute; reflexivity|]. split; [vm_compute; reflexivity|].
  split; [vm_compute; intuition discriminate|].
  apply (applyStyles_fallback_children firefoxHost 1%positive firefoxCardObject firefoxCard).
  - apply firefoxCard_reachable.
  - vm_compute. reflexivity.
  - vm_compute. reflexivity.
  - vm_compute. reflexivity.
  - vm_compute. intuition discriminate.
Defined.

(** ** [destroy] *)

Lemma childNodes_removedW a w n x :
  In x (childNodes (node (removedW a w) n)) ->
  In x (childNodes (node w n)) /\ a <> Some x.
Proof.
  destruct a as [y|]; simpl.
  - rewrite node_removeNode. simpl. intros H. apply In_without in H.
    split; [apply H | intros [= ->]; tauto].
  - intros H. split; [exact H | discriminate].
Qed.

Lemma childNodes_restoreStyles e s w n :
  childNodes (node (restoreStyles e s w) n) = childNodes (node w n).
Proof. destruct (sameShape_restoreStyles e s w) as (_ & _ & _ & H). apply H. Qed.

(** X11. [destroy] on an object returns normally, removes that instance
    and no other from the tracker, leaves every object as it is, and
    leaves the filter, the overlay container and the fallback layer the
    object refers to children of no node. *)
Theorem destroy_detaches i o w :
  objs w !! i = Some o ->
  exists W,
    destroy i w = (Return tt, W) /\
    objs W = objs w /\
    instances W = setDelete i (instances w) /\
    forall x n,
      this_filter o = Some x \/ this_overlayContainer o = Some x \/ this_firefoxBg o = Some x ->
      ~ In x (childNodes (node W n)).
Proof.
  intros Ho. exists (destroyedW i o w).
  split; [apply destroy_run, Ho|]. split; [apply objs_destroyedW|].
  split; [apply instances_destroyedW|].
  intros x n Hx Hin.
  destruct (destroyedW_removedW i o w) as (k & E). rewrite E in Hin.
  apply childNodes_removedW in Hin. destruct Hin as (Hin & _).
  unfold unregisteredW in Hin.
  change (node (withInstances ?g ?X) ?m) with (node X m) in Hin.
  rewrite childNodes_restoreStyles in Hin.
  apply childNodes_removedW in Hin. destruct Hin as (Hin & H3).
  apply childNodes_removedW in Hin. destruct Hin as (Hin & H2).
  apply childNodes_removedW in Hin. destruct Hin as (Hin & H1).
  destruct Hx as [Hx|[Hx|Hx]]; congruence.
Qed.

Lemma destroy_detaches_witness :
  objs firefoxCard !! 1%positive = Some firefoxCardObject /\
  exists W,
    destroy 1%positive firefoxCard = (Return tt, W) /\
    objs W = objs firefoxCard /\
    instances W = setDelete 1%positive (instances firefoxCard) /\
    forall x n,
      this_filter firefoxCardObject = Some x \/
      this_overlayContainer firefoxCardObject = Some x \/
      this_firefoxBg firefoxCardObject = Some x ->
      ~ In x (childNodes (node W n)).
Proof.
  split; [vm_compute; reflexivity|].
  apply (destroy_detaches 1%positive firefoxCardObject firefoxCard).
  vm_compute. reflexivity.
Defined.

(** ** The filter of a tracked instance *)

(** X12. In every reachable store, whatever calls led to it, every
    tracked instance has a filter, that filter is a [filter] element
    with the id of the instance among the definitions of the registry
    in the document, and no other object refers to it. *)
Theorem live_filter_in_registry h w i o :
  reachable h w -> In i (instances w) -> objs w !! i = Some o ->
  exists f,
    this_filter o = Some f /\
    In f (filterDefinitions w) /\
    tagName (node w f) = "filter" /\ elemId (node w f) = this_id o /\
    forall j oj, objs w !! j = Some oj -> this_filter oj = Some f -> j = i.
Proof.
  intros Hr Hi Ho. destruct (reachable_inv h w Hr) as (IS & IL).
  pose proof (reachable_invF h w Hr) as IF.
  destruct (inv_filter_live _ IF i Hi) as (o' & d & f & Ho' & Hd & Hf & Hin).
  rewrite Ho in Ho'. injection Ho' as <-.
  destruct (inv_live _ IL i Hi) as (o' & c & d' & Ho' & _ & Hd' & Hreg & Hq).
  rewrite Ho in Ho'. injection Ho' as <-. rewrite Hd in Hd'. injection Hd' as <-.
  exists f. split; [exact Hf|].
  split; [rewrite (filterDefinitions_registry w c d IS Hreg Hq); exact Hin|].
  destruct (ok_filter _ _ (inv_objs _ IS _ _ Ho) _ Hf) as (_ & Ht & He).
  split; [exact Ht|]. split; [exact He|].
  intros j oj Hj Hfj. apply (inv_filter_own _ IF j i oj o f); assumption.
Qed.

Lemma live_filter_in_registry_witness :
  reachable chromeHost twoCards /\ In 2%positive (instances twoCards) /\
  objs twoCards !! 2%positive = Some twoCardsSecond /\
  exists f,
    this_filter twoCardsSecond = Some f /\
    In f (filterDefinitions twoCards) /\
    tagName (node twoCards f) = "filter" /\ elemId (node twoCards f) = this_id twoCardsSecond /\
    forall j oj, objs twoCards !! j = Some oj -> this_filter oj = Some f -> j = 2%positive.
Proof.
  assert (R : reachable chromeHost twoCards) by apply reachable_step, chromeCard_reachable.
  split; [exact R|]. split; [vm_compute; tauto|]. split; [vm_compute; reflexivity|].
  apply (live_filter_in_registry chromeHost twoCards 2%positive twoCardsSecond R).
  - vm_compute. tauto.
  - vm_compute. reflexivity.
Defined.

(** ** [update] where no fallback is installed *)

(** X13. In a browser in which the fallback is not used, in every
    reachable store [update] on an object changes the child list of no
    node of the document except that the old filter of the object
    leaves the list that holds it and the new filter is appended to the
    definitions node of the object: the children of the element, its
    overlay container included, stay as they are. *)
Theorem update_children_supported h i o w newOptions :
  reachable h w -> objs w !! i = Some o -> fallbackMode h = false ->
  exists W d o',
    update h i newOptions w = (Return i, W) /\
    this_defs o = Some d /\
    objs W !! i = Some o' /\ this_filter o' = Some (nextNode w) /\
    forall n, (n < nextNode w)%positive ->
      childNodes (node W n)
      = (withoutOpt (this_filter o) (childNodes (node w n))
         ++ (if decide (n = d) then [nextNode w] else []))%list.
Proof.
  intros Hr Ho Hfb. destruct (reachable_inv h w Hr) as (IS & IL).
  destruct (update_ok h i newOptions w o IS IL Ho) as (d & Hd & Hrun & _ & _).
  destruct (objs_updatedW_filter h i o d newOptions w) as (g & Hg & EO).
  exists (updatedW h i o d newOptions w), d, (g o).
  split; [exact Hrun|]. split; [exact Hd|].
  split; [rewrite EO; apply lookup_alter_eq, Ho|].
  split; [apply Hg|].
  intros n Hn. apply updatedW_children; assumption.
Qed.

Lemma update_children_supported_witness :
  reachable chromeHost chromeCard /\
  objs chromeCard !! 1%positive = Some chromeCardObject /\
  fallbackMode chromeHost = false /\
  exists W d o',
    update chromeHost 1%positive blurTen chromeCard = (Return 1%positive, W) /\
    this_defs chromeCardObject = Some d /\
    objs W !! 1%positive = Some o' /\ this_filter o' = Some (nextNode chromeCard) /\
    forall n, (n < nextNode chromeCard)%positive ->
      childNodes (node W n)
      = (withoutOpt (this_filter chromeCardObject) (childNodes (node chromeCard n))
         ++ (if decide (n = d) then [nextNode chromeCard] else []))%list.
Proof.
  split; [apply chromeCard_reachable|]. split; [vm_compute; reflexivity|].
  split; [vm_compute; reflexivity|].
  apply (update_children_supported chromeHost 1%positive chromeCardObject chromeCard blurTen).
  - apply chromeCard_reachable.
  - vm_compute. reflexivity.
  - vm_compute. reflexivity.
Defined.

(** ** [_ensureSVGContainer] *)

(** X14. Run from a reachable store in which the document holds no
    registry container, [_ensureSVGContainer] creates one: an [svg]
    element with the registry id that is the first child of [body], is
    hidden from assistive technology ([aria-hidden] is [true]), is
    absolutely positioned with no size and no pointer events, and holds
    exactly one child, an empty [defs]; the object gets both as
    [svgContainer] and [defs].  Run from a reachable store in which the
    container is in the document, it creates and changes no node and
    gives the object that container. *)
Theorem ensureSVGContainer_creates_once h this o w :
  reachable h w -> objs w !! this = Some o ->
  exists W o',
    _ensureSVGContainer this w = (Return tt, W) /\ objs W !! this = Some o' /\
    (getElementById w registryId = None ->
     exists c d,
       this_svgContainer o' = Some c /\ this_defs o' = Some d /\
       getElementById W registryId = Some c /\
       childNodes (node W body) = c :: childNodes (node w body) /\
       tagName (node W c) = "svg" /\
       attributes (node W c) !! "aria-hidden" = Some "true" /\
       getStyle W c "position" = "absolute" /\
       getStyle W c "width" = "0" /\ getStyle W c "height" = "0" /\
       getStyle W c "pointerEvents" = "none" /\
       childNodes (node W c) = [d] /\
       tagName (node W d) = "defs" /\ childNodes (node W d) = []) /\
    (forall c, getElementById w registryId = Some c ->
       heap W = heap w /\ nextNode W = nextNode w /\ this_svgContainer o' = Some c).
Proof.
  intros Hr Ho. destruct (reachable_inv h w Hr) as (IS & _).
  exists (ensuredW this w). unfold ensuredW.
  destruct (getElementById w registryId) as [c|] eqn:Hg.
  - eexists. split; [rewrite ensureSVGContainer_run; unfold ensuredW; rewrite Hg; reflexivity|].
    split; [apply lookup_alter_eq, Ho|].
    split; [discriminate|].
    intros c' [= <-]. repeat split.
  - eexists. split; [rewrite ensureSVGContainer_run; unfold ensuredW; rewrite Hg; reflexivity|].
    split; [apply lookup_alter_eq, Ho|].
    split; [|discriminate]. intros _.
    assert (HR : registryNodes w = []).
    { rewrite (getElementById_registry w IS) in Hg.
      destruct (registryNodes w); [reflexivity | discriminate]. }
    destruct (registryCreated_shape w IS)
      as (_ & _ & _ & (Hc1 & _ & Hc3) & (Hd1 & _ & Hd3) & (_ & _ & Hb3) & _).
    destruct (registryCreated_ok w IS HR) as (I1 & _ & R1 & Q1 & _).
    destruct (registryCreatedW_container w IS) as (A1 & A2 & A3 & A4 & A5).
    exists (nextNode w), (Pos.succ (nextNode w)).
    change (node (withObjs ?f ?X) ?n) with (node X n).
    change (getStyle (withObjs ?f ?X) ?n ?p) with (getStyle X n p).
    rewrite getElementById_withObjs.
    rewrite (querySelectorTag_registry _ _ I1) by (rewrite R1; left; reflexivity).
    rewrite Q1. split; [reflexivity|]. split; [reflexivity|].
    split; [rewrite (getElementById_registry _ I1), R1; reflexivity|].
    repeat (split; [assumption|]). exact Hd3.
Qed.

Lemma destroyedCard_reachable : reachable chromeHost destroyedCard.
Proof. apply reachable_step, chromeCard_reachable. Qed.

Lemma ensureSVGContainer_creates_once_witness :
  reachable chromeHost destroyedCard /\ objs destroyedCard !! 1%positive = Some destroyedCardObject /\
  exists W o',
    _ensureSVGContainer 1%positive destroyedCard = (Return tt, W) /\
    objs W !! 1%positive = Some o' /\
    (getElementById destroyedCard registryId = None ->
     exists c d,
       this_svgContainer o' = Some c /\ this_defs o' = Some d /\
       getElementById W registryId = Some c /\
       childNodes (node W body) = c :: childNodes (node destroyedCard body) /\
       tagName (node W c) = "svg" /\
       attributes (node W c) !! "aria-hidden" = Some "true" /\
       getStyle W c "position" = "absolute" /\
       getStyle W c "width" = "0" /\ getStyle W c "height" = "0" /\
       getStyle W c "pointerEvents" = "none" /\
       childNodes (node W c) = [d] /\
       tagName (node W d) = "defs" /\ childNodes (node W d) = []) /\
    (forall c, getElementById destroyedCard registryId = Some c ->
       heap W = heap destroyedCard /\ nextNode W = nextNode destroyedCard /\
       this_svgContainer o' = Some c).
Proof.
  split; [apply destroyedCard_reachable|]. split; [vm_compute; reflexivity|].
  apply (ensureSVGContainer_creates_once chromeHost 1%positive destroyedCardObject destroyedCard).
  - apply destroyedCard_reachable.
  - vm_compute. reflexivity.
Defined.

(** ** The styles [update] writes *)

(** X15. In every reachable store [update] on an object whose element
    is a node of the document leaves the element with the [url(#id)]
    reference of the instance in [backdropFilter] and
    [WebkitBackdropFilter], whatever they were before (also [none]
    after [disable]), with [overflow] [hidden], and with the box shadow
    built from the border colour of the merged options. *)
Theorem update_reapplies_styles h i o w newOptions :
  reachable h w -> objs w !! i = Some o -> (this_element o < nextNode w)%positive ->
  exists W,
    update h i newOptions w = (Return i, W) /\
    getStyle W (this_element o) "backdropFilter" = filterUrl o /\
    getStyle W (this_element o) "WebkitBackdropFilter" = filterUrl o /\
    getStyle W (this_element o) "overflow" = "hidden" /\
    getStyle W (this_element o) "boxShadow"
    = (if fallbackMode h then fallbackShadow h (spread (this_options o) newOptions)
       else insetShadow h (spread (this_options o) newOptions)).
Proof.
  intros Hr Ho He. destruct (reachable_inv h w Hr) as (IS & IL).
  destruct (update_ok h i newOptions w o IS IL Ho) as (d & _ & Hrun & _ & _).
  exists (updatedW h i o d newOptions w). split; [exact Hrun|].
  apply getStyle_updatedW, He.
Qed.

Lemma update_reapplies_styles_witness :
  reachable chromeHost (perform chromeHost (CDisable 1%positive) chromeCard) /\
  objs (perform chromeHost (CDisable 1%positive) chromeCard) !! 1%positive
  = Some chromeCardObject /\
  (this_element chromeCardObject
   < nextNode (perform chromeHost (CDisable 1%positive) chromeCard))%positive /\
  exists W,
    update chromeHost 1%positive blurTen (perform chromeHost (CDisable 1%positive) chromeCard)
    = (Return 1%positive, W) /\
    getStyle W (this_element chromeCardObject) "backdropFilter" = filterUrl chromeCardObject /\
    getStyle W (this_element chromeCardObject) "WebkitBackdropFilter"
    = filterUrl chromeCardObject /\
    getStyle W (this_element chromeCardObject) "overflow" = "hidden" /\
    getStyle W (this_element chromeCardObject) "boxShadow"
    = (if fallbackMode chromeHost
       then fallbackShadow chromeHost (spread (this_options chromeCardObject) blurTen)
       else insetShadow chromeHost (spread (this_options chromeCardObject) blurTen)).
Proof.
  assert (R : reachable chromeHost (perform chromeHost (CDisable 1%positive) chromeCard))
    by apply reachable_step, chromeCard_reachable.
  split; [exact R|]. split; [vm_compute; reflexivity|]. split; [vm_compute; reflexivity|].
  apply (update_reapplies_styles chromeHost 1%positive chromeCardObject
           (perform chromeHost (CDisable 1%positive) chromeCard) blurTen R).
  - vm_compute. reflexivity.
  - vm_compute. reflexivity.
Defined.

(** ** Detecting the browser *)

Lemma forEach_liftChild_console h l w :
  console (snd (forEach (liftChild h) l w)) = console w.
Proof.
  revert w. induction l as [|c l IH]; intros w; [reflexivity|].
  cbn [forEach]. unfold liftChild at 1. js_run.
  destruct (_ =? "static"); js_run; destruct (orb _ _); js_run;
    rewrite IH; reflexivity.
Qed.

Lemma console_probedW h w : console (probedW h w) = console w.
Proof. unfold probedW. destruct (backdropFilterProbe h); reflexivity. Qed.

Lemma node_probedW h w n : n <> nextNode w -> node (probedW h w) n = node w n.
Proof.
  intros Hn. unfold probedW, setStyle.
  destruct (backdropFilterProbe h); rewrite ?node_modNode, !node_createElement;
    repeat case_decide; congruence.
Qed.

(** X16. [_addFirefoxFallback] installs the fallback exactly when the
    user agent string holds the word [firefox] in any mix of upper and
    lower case letters or the probe for [backdrop-filter] fails, also
    when the word is there and the probe succeeds.  It then logs the
    mode, leaves a new fallback layer among the children of the element
    and stores it in [this.firefoxBg].  Otherwise it logs nothing,
    changes no object and changes no node but the probe element it
    creates. *)
Theorem fallback_detection h i o w :
  objs w !! i = Some o ->
  exists W,
    _addFirefoxFallback h i w = (Return tt, W) /\
    (containsNoCase (userAgent h) "firefox" \/ backdropFilterProbe h = false ->
     exists bg,
       (nextNode w < bg)%positive /\
       objs W !! i = Some (with_firefoxBg (Some bg) o) /\
       In bg (fallbackChildren W (this_element o)) /\
       console W
       = (console w ++ [UsingFallbackMode (isFirefox h) (backdropFilterProbe h)])%list) /\
    (~ containsNoCase (userAgent h) "firefox" -> backdropFilterProbe h = true ->
     objs W = objs w /\ console W = console w /\
     forall n, n <> nextNode w -> node W n = node w n).
Proof.
  intros Ho. eexists. split; [apply addFirefoxFallback_run, Ho|]. split.
  - intros Hfb. apply fallbackMode_iff in Hfb. rewrite Hfb.
    exists (nextNode (probedW h w)).
    split; [rewrite nextNode_probedW; lia|].
    split; [rewrite objs_fallbackW, objs_probedW; apply lookup_alter_eq, Ho|].
    split; [apply fallbackW_layer|].
    unfold fallbackW. cbv zeta.
    change (console (withObjs ?g ?X)) with (console X).
    rewrite forEach_liftChild_console.
    change (console (insertFirst ?p ?x ?X)) with (console X).
    unfold fallbackBuiltW. cbv zeta.
    change (console (setCssText ?n ?l ?X)) with (console X).
    change (console (setClassName ?n ?l ?X)) with (console X).
    change (console (snd (createElement ?t ?X))) with (console X).
    change (console (setStyle ?n ?p ?v ?X)) with (console X).
    change (console (setStyle ?n ?p ?v ?X)) with (console X).
    change (console (consoleLog ?e ?X)) with (console X ++ [e])%list.
    rewrite console_probedW. reflexivity.
  - intros Hua Hp.
    assert (Hfb : fallbackMode h = false).
    { destruct (fallbackMode h) eqn:E; [|reflexivity].
      apply fallbackMode_iff in E as [E|E]; [contradiction | congruence]. }
    rewrite Hfb. split; [apply objs_probedW|]. split; [apply console_probedW|].
    intros n Hn. apply node_probedW, Hn.
Qed.

Lemma fallback_detection_witness :
  objs firefoxCard !! 1%positive = Some firefoxCardObject /\
  exists W,
    _addFirefoxFallback firefoxHost 1%positive firefoxCard = (Return tt, W) /\
    (containsNoCase (userAgent firefoxHost) "firefox"
     \/ backdropFilterProbe firefoxHost = false ->
     exists bg,
       (nextNode firefoxCard < bg)%positive /\
       objs W !! 1%positive = Some (with_firefoxBg (Some bg) firefoxCardObject) /\
       In bg (fallbackChildren W (this_element firefoxCardObject)) /\
       console W
       = (console firefoxCard
          ++ [UsingFallbackMode (isFirefox firefoxHost) (backdropFilterProbe firefoxHost)])%list) /\
    (~ containsNoCase (userAgent firefoxHost) "firefox" ->
     backdropFilterProbe firefoxHost = true ->
     objs W = objs firefoxCard /\ console W = console firefoxCard /\
     forall n, n <> nextNode firefoxCard -> node W n = node firefoxCard n).
Proof.
  split; [vm_compute; reflexivity|].
  apply (fallback_detection firefoxHost 1%positive firefoxCardObject firefoxCard).
  vm_compute. reflexivity.
Defined.

(** The browser of the examples that names Firefox passes the probe and
    gets the fallback all the same; the other one does not get it. *)
Lemma fallback_hosts_example :
  backdropFilterProbe firefoxHost = true /\
  fallbackChildren firefoxCard 2%positive = [7%positive] /\
  fallbackChildren (snd (_addFirefoxFallback firefoxHost 1%positive firefoxCard)) 2%positive
  = [12%positive; 7%positive] /\
  fallbackChildren (snd (_addFirefoxFallback chromeHost 1%positive chromeCard)) 2%positive = [].
Proof. repeat split; vm_compute; reflexivity. Qed.

(** ** The generated id *)

(** X17. Whatever the clock value and the random number, the id the
    constructor generates starts with [chromatic-blur-] followed by the
    clock value, a dash and at most nine characters of the random
    number, and is neither empty nor the id of the registry container. *)
Theorem generateId_shape h now r :
  generateId h now r <> "" /\ generateId h now r <> registryId /\
  exists s, generateId h now r
            = "chromatic-blur-" +:+ numberToString h (inject_Z now) +:+ "-" +:+ s /\
            String.length s <= 9.
Proof.
  destruct (generateId_ok h now r) as (H1 & H2).
  split; [exact H1|]. split; [exact H2|].
  exists (substring 2 9 r). split; [reflexivity | apply substring_length].
Qed.
